(** * Decision Core of the Gemma 3 AutoPilot Lab: a shallow embedding

    The development follows [src/services/ollamaService.js] (response
    parsing, strategy-mode resolution, skill cadence, safety guard, action
    plan, [getDrivingDecision]) and [createExplorationMemory], the spatial
    memory grid, whose source follows [src/components/Car.jsx].

    Modelling conventions.
    - A JavaScript number is an exact rational [Q]; rounding of IEEE doubles
      is not modelled.  A value that is missing, not a number or not finite is
      [None] in an [option Q].
    - [Date.now()] is an integer number of milliseconds, passed in explicitly.
    - Text is a [string] of 8-bit code units, the characters up to U+00FF;
      a code unit above them is written as a stand-in (see [wideUnit]).
    - The session state object that [getDrivingDecision] mutates in place is
      threaded explicitly: every function returns the new state.
    - The sensor snapshot is a record of typed fields; the call from its
      entry, [getDrivingDecisionCall], takes the snapshot as its caller
      passes it, absent or with fields of another type, and ends by
      returning or by throwing.
    - The trigonometric primitives ([Math.hypot], [Math.sin], [Math.cos] and
      the bucketing of [Math.atan2] angles) are section variables: no
      property depends on their values. *)

From Stdlib Require Import QArith Qround Qabs Lqa ZArith Lia String Ascii List Bool Sorted.
From stdpp Require Import base option gmap.
Import ListNotations.

Local Open Scope Q_scope.

(** ** Numbers *)

Definition Qltb (a b : Q) : bool := if Qlt_le_dec a b then true else false.
Definition Qleb (a b : Q) : bool := if Qlt_le_dec b a then false else true.
Definition Qgtb (a b : Q) : bool := Qltb b a.
Definition Qgeb (a b : Q) : bool := Qleb b a.

(** [Math.min] and [Math.max] on two finite numbers. *)
Definition qmin (a b : Q) : Q := if Qlt_le_dec b a then b else a.
Definition qmax (a b : Q) : Q := if Qlt_le_dec a b then b else a.

(** [Math.abs]. *)
Definition qabs (a : Q) : Q := if Qlt_le_dec a 0 then - a else a.

(** [Math.round]: the nearest integer, ties towards plus infinity. *)
Definition jsRound (a : Q) : Z := Qfloor (a + (1 # 2)).

(** [asNum(value, fallback)]: the value when it is a finite number. *)
Definition asNum (value : option Q) (fallback : Q) : Q :=
  match value with Some n => n | None => fallback end.

(** [clampNumber(value, min, max, fallback)] with a finite fallback. *)
Definition clampNumber (value : option Q) (lo hi fallback : Q) : Q :=
  qmax lo (qmin hi (asNum value fallback)).

(** [clamp01(value)] on a finite number. *)
Definition clamp01 (value : Q) : Q := qmax 0 (qmin 1 value).

(** Constants of [ollamaService.js]. *)
Definition MODE_SWITCH_COOLDOWN_MS : Z := 2200.
Definition MODE_SWITCH_MIN_DWELL_MS : Z := 1400.
Definition MODE_SWITCH_MIN_VOTES : Z := 2.
Definition CRITICAL_FRONT_DIST : Q := 2.15.
Definition TARGET_LOCK_PRIORITY_DISTANCE_M : Q := 20.
Definition TARGET_LOCK_PRIORITY_ANGLE_DEG : Q := 48.
Definition TARGET_LOCK_PRIORITY_PSEUDO : Q := 0.5.
Definition TARGET_LOCK_HOLD_DISTANCE_M : Q := 12.
Definition TARGET_LOCK_HOLD_ANGLE_DEG : Q := 72.
Definition TARGET_LOCK_HOLD_PSEUDO : Q := 0.42.
Definition TARGET_LOCK_HOLD_MIN_FRONT_DIST : Q := 2.2.
Definition TARGET_LOCK_HOLD_MIN_CYCLES : Z := 3.
Definition MODE_SWITCH_MIN_HOLD_CYCLES : Z := 2.
Definition APPROACH_MIN_HOLD_CYCLES : Z := 3.
Definition SKILL_BURST_SCAN_LIMIT : Z := 2.
Definition SKILL_BURST_BACKOFF_LIMIT : Z := 2.
Definition SKILL_BURST_RELEASE_FRONT_DIST : Q := 3.2.
Definition ACTION_PLAN_MAX_STEPS : nat := 5.
Definition ACTION_PLAN_MAX_TOTAL_SEC : Q := 1.2.
Definition ACTION_SIGN_DEADZONE : Q := 0.08.

(** ** Enumerations *)

Inductive Mode : Type := TARGET_LOCK | MEMORY_EXPLORE | ESCAPE_RECOVERY.

Inductive Skill : Type :=
  APPROACH_TARGET | MOVE_TO_FRONTIER | SCAN_SECTOR | BACKOFF_AND_TURN | HOLD_POSITION.

(** Sectors [L], [F], [R], [B]. *)
Inductive Sector : Type := SL | SF | SR | SB.

Inductive Transition : Type := HOLD | SWITCH.

Definition Mode_eqb (a b : Mode) : bool :=
  match a, b with
  | TARGET_LOCK, TARGET_LOCK => true
  | MEMORY_EXPLORE, MEMORY_EXPLORE => true
  | ESCAPE_RECOVERY, ESCAPE_RECOVERY => true
  | _, _ => false
  end.

Definition Skill_eqb (a b : Skill) : bool :=
  match a, b with
  | APPROACH_TARGET, APPROACH_TARGET => true
  | MOVE_TO_FRONTIER, MOVE_TO_FRONTIER => true
  | SCAN_SECTOR, SCAN_SECTOR => true
  | BACKOFF_AND_TURN, BACKOFF_AND_TURN => true
  | HOLD_POSITION, HOLD_POSITION => true
  | _, _ => false
  end.

Definition Sector_eqb (a b : Sector) : bool :=
  match a, b with
  | SL, SL => true
  | SF, SF => true
  | SR, SR => true
  | SB, SB => true
  | _, _ => false
  end.

(** [state.pendingStrategyMode !== desiredMode]: the pending mode is [None]
    for the empty string. *)
Definition optMode_is (o : option Mode) (m : Mode) : bool :=
  match o with Some x => Mode_eqb x m | None => false end.

(** ** The sensor snapshot *)

Record SensorData : Type := mkSensorData {
  left : option Q;
  leftDiag : option Q;
  front : option Q;
  rightDiag : option Q;
  right : option Q;
  backLeft : option Q;
  back : option Q;
  backRight : option Q;
  worldX : option Q;
  worldZ : option Q;
  headingDeg : option Q;
  sensorRange : option Q;
  (** [Object.values(targetHits)], each value by its truthiness *)
  targetHits : list bool;
  angleToTarget : option Q;
  distanceToTarget : option Q;
  (** truthiness of [isStuck] *)
  isStuck : bool
}.

(** [Math.min(asNum(front, 99), asNum(leftDiag, 99), asNum(rightDiag, 99))] *)
Definition minFrontDistOf (sd : SensorData) : Q :=
  qmin (qmin (asNum (front sd) 99) (asNum (leftDiag sd) 99)) (asNum (rightDiag sd) 99).

(** [countTargetHits] *)
Definition countTargetHits (sd : SensorData) : Z :=
  Z.of_nat (List.length (List.filter (fun b : bool => b) (targetHits sd))).

(** ** The session state *)

Record SmoothingState : Type := mkSmoothingState {
  lastSteering : Q;
  lastStrategyMode : option Mode;
  lastModeSwitchAt : Z;
  pendingStrategyMode : option Mode;
  pendingStrategySince : Z;
  pendingStrategyVotes : Z;
  noContactMs : Z;
  noContactCycles : Z;
  lastContactAt : Z;
  lastTickAt : Z;
  reacquireTurnDir : Z;
  lastReacquireFlipAt : Z;
  lastSkillName : option Skill;
  lastReflectionHint : string;
  approachHoldRemaining : Z;
  scanBurstCount : Z;
  backoffBurstCount : Z;
  modeHoldRemaining : Z;
  targetLockHoldRemaining : Z
}.

Definition set_lastSteering (v : Q) (st : SmoothingState) : SmoothingState :=
  {| lastSteering := v; lastStrategyMode := lastStrategyMode st; lastModeSwitchAt :=
     lastModeSwitchAt st; pendingStrategyMode := pendingStrategyMode st; pendingStrategySince :=
     pendingStrategySince st; pendingStrategyVotes := pendingStrategyVotes st; noContactMs :=
     noContactMs st; noContactCycles := noContactCycles st; lastContactAt := lastContactAt st;
     lastTickAt := lastTickAt st; reacquireTurnDir := reacquireTurnDir st; lastReacquireFlipAt
     := lastReacquireFlipAt st; lastSkillName := lastSkillName st; lastReflectionHint :=
     lastReflectionHint st; approachHoldRemaining := approachHoldRemaining st; scanBurstCount :=
     scanBurstCount st; backoffBurstCount := backoffBurstCount st; modeHoldRemaining :=
     modeHoldRemaining st; targetLockHoldRemaining := targetLockHoldRemaining st |}.

Definition set_lastStrategyMode (v : option Mode) (st : SmoothingState) : SmoothingState :=
  {| lastSteering := lastSteering st; lastStrategyMode := v; lastModeSwitchAt :=
     lastModeSwitchAt st; pendingStrategyMode := pendingStrategyMode st; pendingStrategySince :=
     pendingStrategySince st; pendingStrategyVotes := pendingStrategyVotes st; noContactMs :=
     noContactMs st; noContactCycles := noContactCycles st; lastContactAt := lastContactAt st;
     lastTickAt := lastTickAt st; reacquireTurnDir := reacquireTurnDir st; lastReacquireFlipAt
     := lastReacquireFlipAt st; lastSkillName := lastSkillName st; lastReflectionHint :=
     lastReflectionHint st; approachHoldRemaining := approachHoldRemaining st; scanBurstCount :=
     scanBurstCount st; backoffBurstCount := backoffBurstCount st; modeHoldRemaining :=
     modeHoldRemaining st; targetLockHoldRemaining := targetLockHoldRemaining st |}.

Definition set_lastModeSwitchAt (v : Z) (st : SmoothingState) : SmoothingState :=
  {| lastSteering := lastSteering st; lastStrategyMode := lastStrategyMode st; lastModeSwitchAt
     := v; pendingStrategyMode := pendingStrategyMode st; pendingStrategySince :=
     pendingStrategySince st; pendingStrategyVotes := pendingStrategyVotes st; noContactMs :=
     noContactMs st; noContactCycles := noContactCycles st; lastContactAt := lastContactAt st;
     lastTickAt := lastTickAt st; reacquireTurnDir := reacquireTurnDir st; lastReacquireFlipAt
     := lastReacquireFlipAt st; lastSkillName := lastSkillName st; lastReflectionHint :=
     lastReflectionHint st; approachHoldRemaining := approachHoldRemaining st; scanBurstCount :=
     scanBurstCount st; backoffBurstCount := backoffBurstCount st; modeHoldRemaining :=
     modeHoldRemaining st; targetLockHoldRemaining := targetLockHoldRemaining st |}.

Definition set_pendingStrategyMode (v : option Mode) (st : SmoothingState) : SmoothingState :=
  {| lastSteering := lastSteering st; lastStrategyMode := lastStrategyMode st; lastModeSwitchAt
     := lastModeSwitchAt st; pendingStrategyMode := v; pendingStrategySince :=
     pendingStrategySince st; pendingStrategyVotes := pendingStrategyVotes st; noContactMs :=
     noContactMs st; noContactCycles := noContactCycles st; lastContactAt := lastContactAt st;
     lastTickAt := lastTickAt st; reacquireTurnDir := reacquireTurnDir st; lastReacquireFlipAt
     := lastReacquireFlipAt st; lastSkillName := lastSkillName st; lastReflectionHint :=
     lastReflectionHint st; approachHoldRemaining := approachHoldRemaining st; scanBurstCount :=
     scanBurstCount st; backoffBurstCount := backoffBurstCount st; modeHoldRemaining :=
     modeHoldRemaining st; targetLockHoldRemaining := targetLockHoldRemaining st |}.

Definition set_pendingStrategySince (v : Z) (st : SmoothingState) : SmoothingState :=
  {| lastSteering := lastSteering st; lastStrategyMode := lastStrategyMode st; lastModeSwitchAt
     := lastModeSwitchAt st; pendingStrategyMode := pendingStrategyMode st; pendingStrategySince
     := v; pendingStrategyVotes := pendingStrategyVotes st; noContactMs := noContactMs st;
     noContactCycles := noContactCycles st; lastContactAt := lastContactAt st; lastTickAt :=
     lastTickAt st; reacquireTurnDir := reacquireTurnDir st; lastReacquireFlipAt :=
     lastReacquireFlipAt st; lastSkillName := lastSkillName st; lastReflectionHint :=
     lastReflectionHint st; approachHoldRemaining := approachHoldRemaining st; scanBurstCount :=
     scanBurstCount st; backoffBurstCount := backoffBurstCount st; modeHoldRemaining :=
     modeHoldRemaining st; targetLockHoldRemaining := targetLockHoldRemaining st |}.

Definition set_pendingStrategyVotes (v : Z) (st : SmoothingState) : SmoothingState :=
  {| lastSteering := lastSteering st; lastStrategyMode := lastStrategyMode st; lastModeSwitchAt
     := lastModeSwitchAt st; pendingStrategyMode := pendingStrategyMode st; pendingStrategySince
     := pendingStrategySince st; pendingStrategyVotes := v; noContactMs := noContactMs st;
     noContactCycles := noContactCycles st; lastContactAt := lastContactAt st; lastTickAt :=
     lastTickAt st; reacquireTurnDir := reacquireTurnDir st; lastReacquireFlipAt :=
     lastReacquireFlipAt st; lastSkillName := lastSkillName st; lastReflectionHint :=
     lastReflectionHint st; approachHoldRemaining := approachHoldRemaining st; scanBurstCount :=
     scanBurstCount st; backoffBurstCount := backoffBurstCount st; modeHoldRemaining :=
     modeHoldRemaining st; targetLockHoldRemaining := targetLockHoldRemaining st |}.

Definition set_noContactMs (v : Z) (st : SmoothingState) : SmoothingState :=
  {| lastSteering := lastSteering st; lastStrategyMode := lastStrategyMode st; lastModeSwitchAt
     := lastModeSwitchAt st; pendingStrategyMode := pendingStrategyMode st; pendingStrategySince
     := pendingStrategySince st; pendingStrategyVotes := pendingStrategyVotes st; noContactMs :=
     v; noContactCycles := noContactCycles st; lastContactAt := lastContactAt st; lastTickAt :=
     lastTickAt st; reacquireTurnDir := reacquireTurnDir st; lastReacquireFlipAt :=
     lastReacquireFlipAt st; lastSkillName := lastSkillName st; lastReflectionHint :=
     lastReflectionHint st; approachHoldRemaining := approachHoldRemaining st; scanBurstCount :=
     scanBurstCount st; backoffBurstCount := backoffBurstCount st; modeHoldRemaining :=
     modeHoldRemaining st; targetLockHoldRemaining := targetLockHoldRemaining st |}.

Definition set_noContactCycles (v : Z) (st : SmoothingState) : SmoothingState :=
  {| lastSteering := lastSteering st; lastStrategyMode := lastStrategyMode st; lastModeSwitchAt
     := lastModeSwitchAt st; pendingStrategyMode := pendingStrategyMode st; pendingStrategySince
     := pendingStrategySince st; pendingStrategyVotes := pendingStrategyVotes st; noContactMs :=
     noContactMs st; noContactCycles := v; lastContactAt := lastContactAt st; lastTickAt :=
     lastTickAt st; reacquireTurnDir := reacquireTurnDir st; lastReacquireFlipAt :=
     lastReacquireFlipAt st; lastSkillName := lastSkillName st; lastReflectionHint :=
     lastReflectionHint st; approachHoldRemaining := approachHoldRemaining st; scanBurstCount :=
     scanBurstCount st; backoffBurstCount := backoffBurstCount st; modeHoldRemaining :=
     modeHoldRemaining st; targetLockHoldRemaining := targetLockHoldRemaining st |}.

Definition set_lastContactAt (v : Z) (st : SmoothingState) : SmoothingState :=
  {| lastSteering := lastSteering st; lastStrategyMode := lastStrategyMode st; lastModeSwitchAt
     := lastModeSwitchAt st; pendingStrategyMode := pendingStrategyMode st; pendingStrategySince
     := pendingStrategySince st; pendingStrategyVotes := pendingStrategyVotes st; noContactMs :=
     noContactMs st; noContactCycles := noContactCycles st; lastContactAt := v; lastTickAt :=
     lastTickAt st; reacquireTurnDir := reacquireTurnDir st; lastReacquireFlipAt :=
     lastReacquireFlipAt st; lastSkillName := lastSkillName st; lastReflectionHint :=
     lastReflectionHint st; approachHoldRemaining := approachHoldRemaining st; scanBurstCount :=
     scanBurstCount st; backoffBurstCount := backoffBurstCount st; modeHoldRemaining :=
     modeHoldRemaining st; targetLockHoldRemaining := targetLockHoldRemaining st |}.

Definition set_lastTickAt (v : Z) (st : SmoothingState) : SmoothingState :=
  {| lastSteering := lastSteering st; lastStrategyMode := lastStrategyMode st; lastModeSwitchAt
     := lastModeSwitchAt st; pendingStrategyMode := pendingStrategyMode st; pendingStrategySince
     := pendingStrategySince st; pendingStrategyVotes := pendingStrategyVotes st; noContactMs :=
     noContactMs st; noContactCycles := noContactCycles st; lastContactAt := lastContactAt st;
     lastTickAt := v; reacquireTurnDir := reacquireTurnDir st; lastReacquireFlipAt :=
     lastReacquireFlipAt st; lastSkillName := lastSkillName st; lastReflectionHint :=
     lastReflectionHint st; approachHoldRemaining := approachHoldRemaining st; scanBurstCount :=
     scanBurstCount st; backoffBurstCount := backoffBurstCount st; modeHoldRemaining :=
     modeHoldRemaining st; targetLockHoldRemaining := targetLockHoldRemaining st |}.

Definition set_reacquireTurnDir (v : Z) (st : SmoothingState) : SmoothingState :=
  {| lastSteering := lastSteering st; lastStrategyMode := lastStrategyMode st; lastModeSwitchAt
     := lastModeSwitchAt st; pendingStrategyMode := pendingStrategyMode st; pendingStrategySince
     := pendingStrategySince st; pendingStrategyVotes := pendingStrategyVotes st; noContactMs :=
     noContactMs st; noContactCycles := noContactCycles st; lastContactAt := lastContactAt st;
     lastTickAt := lastTickAt st; reacquireTurnDir := v; lastReacquireFlipAt :=
     lastReacquireFlipAt st; lastSkillName := lastSkillName st; lastReflectionHint :=
     lastReflectionHint st; approachHoldRemaining := approachHoldRemaining st; scanBurstCount :=
     scanBurstCount st; backoffBurstCount := backoffBurstCount st; modeHoldRemaining :=
     modeHoldRemaining st; targetLockHoldRemaining := targetLockHoldRemaining st |}.

Definition set_lastReacquireFlipAt (v : Z) (st : SmoothingState) : SmoothingState :=
  {| lastSteering := lastSteering st; lastStrategyMode := lastStrategyMode st; lastModeSwitchAt
     := lastModeSwitchAt st; pendingStrategyMode := pendingStrategyMode st; pendingStrategySince
     := pendingStrategySince st; pendingStrategyVotes := pendingStrategyVotes st; noContactMs :=
     noContactMs st; noContactCycles := noContactCycles st; lastContactAt := lastContactAt st;
     lastTickAt := lastTickAt st; reacquireTurnDir := reacquireTurnDir st; lastReacquireFlipAt
     := v; lastSkillName := lastSkillName st; lastReflectionHint := lastReflectionHint st;
     approachHoldRemaining := approachHoldRemaining st; scanBurstCount := scanBurstCount st;
     backoffBurstCount := backoffBurstCount st; modeHoldRemaining := modeHoldRemaining st;
     targetLockHoldRemaining := targetLockHoldRemaining st |}.

Definition set_lastSkillName (v : option Skill) (st : SmoothingState) : SmoothingState :=
  {| lastSteering := lastSteering st; lastStrategyMode := lastStrategyMode st; lastModeSwitchAt
     := lastModeSwitchAt st; pendingStrategyMode := pendingStrategyMode st; pendingStrategySince
     := pendingStrategySince st; pendingStrategyVotes := pendingStrategyVotes st; noContactMs :=
     noContactMs st; noContactCycles := noContactCycles st; lastContactAt := lastContactAt st;
     lastTickAt := lastTickAt st; reacquireTurnDir := reacquireTurnDir st; lastReacquireFlipAt
     := lastReacquireFlipAt st; lastSkillName := v; lastReflectionHint := lastReflectionHint st;
     approachHoldRemaining := approachHoldRemaining st; scanBurstCount := scanBurstCount st;
     backoffBurstCount := backoffBurstCount st; modeHoldRemaining := modeHoldRemaining st;
     targetLockHoldRemaining := targetLockHoldRemaining st |}.

Definition set_lastReflectionHint (v : string) (st : SmoothingState) : SmoothingState :=
  {| lastSteering := lastSteering st; lastStrategyMode := lastStrategyMode st; lastModeSwitchAt
     := lastModeSwitchAt st; pendingStrategyMode := pendingStrategyMode st; pendingStrategySince
     := pendingStrategySince st; pendingStrategyVotes := pendingStrategyVotes st; noContactMs :=
     noContactMs st; noContactCycles := noContactCycles st; lastContactAt := lastContactAt st;
     lastTickAt := lastTickAt st; reacquireTurnDir := reacquireTurnDir st; lastReacquireFlipAt
     := lastReacquireFlipAt st; lastSkillName := lastSkillName st; lastReflectionHint := v;
     approachHoldRemaining := approachHoldRemaining st; scanBurstCount := scanBurstCount st;
     backoffBurstCount := backoffBurstCount st; modeHoldRemaining := modeHoldRemaining st;
     targetLockHoldRemaining := targetLockHoldRemaining st |}.

Definition set_approachHoldRemaining (v : Z) (st : SmoothingState) : SmoothingState :=
  {| lastSteering := lastSteering st; lastStrategyMode := lastStrategyMode st; lastModeSwitchAt
     := lastModeSwitchAt st; pendingStrategyMode := pendingStrategyMode st; pendingStrategySince
     := pendingStrategySince st; pendingStrategyVotes := pendingStrategyVotes st; noContactMs :=
     noContactMs st; noContactCycles := noContactCycles st; lastContactAt := lastContactAt st;
     lastTickAt := lastTickAt st; reacquireTurnDir := reacquireTurnDir st; lastReacquireFlipAt
     := lastReacquireFlipAt st; lastSkillName := lastSkillName st; lastReflectionHint :=
     lastReflectionHint st; approachHoldRemaining := v; scanBurstCount := scanBurstCount st;
     backoffBurstCount := backoffBurstCount st; modeHoldRemaining := modeHoldRemaining st;
     targetLockHoldRemaining := targetLockHoldRemaining st |}.

Definition set_scanBurstCount (v : Z) (st : SmoothingState) : SmoothingState :=
  {| lastSteering := lastSteering st; lastStrategyMode := lastStrategyMode st; lastModeSwitchAt
     := lastModeSwitchAt st; pendingStrategyMode := pendingStrategyMode st; pendingStrategySince
     := pendingStrategySince st; pendingStrategyVotes := pendingStrategyVotes st; noContactMs :=
     noContactMs st; noContactCycles := noContactCycles st; lastContactAt := lastContactAt st;
     lastTickAt := lastTickAt st; reacquireTurnDir := reacquireTurnDir st; lastReacquireFlipAt
     := lastReacquireFlipAt st; lastSkillName := lastSkillName st; lastReflectionHint :=
     lastReflectionHint st; approachHoldRemaining := approachHoldRemaining st; scanBurstCount :=
     v; backoffBurstCount := backoffBurstCount st; modeHoldRemaining := modeHoldRemaining st;
     targetLockHoldRemaining := targetLockHoldRemaining st |}.

Definition set_backoffBurstCount (v : Z) (st : SmoothingState) : SmoothingState :=
  {| lastSteering := lastSteering st; lastStrategyMode := lastStrategyMode st; lastModeSwitchAt
     := lastModeSwitchAt st; pendingStrategyMode := pendingStrategyMode st; pendingStrategySince
     := pendingStrategySince st; pendingStrategyVotes := pendingStrategyVotes st; noContactMs :=
     noContactMs st; noContactCycles := noContactCycles st; lastContactAt := lastContactAt st;
     lastTickAt := lastTickAt st; reacquireTurnDir := reacquireTurnDir st; lastReacquireFlipAt
     := lastReacquireFlipAt st; lastSkillName := lastSkillName st; lastReflectionHint :=
     lastReflectionHint st; approachHoldRemaining := approachHoldRemaining st; scanBurstCount :=
     scanBurstCount st; backoffBurstCount := v; modeHoldRemaining := modeHoldRemaining st;
     targetLockHoldRemaining := targetLockHoldRemaining st |}.

Definition set_modeHoldRemaining (v : Z) (st : SmoothingState) : SmoothingState :=
  {| lastSteering := lastSteering st; lastStrategyMode := lastStrategyMode st; lastModeSwitchAt
     := lastModeSwitchAt st; pendingStrategyMode := pendingStrategyMode st; pendingStrategySince
     := pendingStrategySince st; pendingStrategyVotes := pendingStrategyVotes st; noContactMs :=
     noContactMs st; noContactCycles := noContactCycles st; lastContactAt := lastContactAt st;
     lastTickAt := lastTickAt st; reacquireTurnDir := reacquireTurnDir st; lastReacquireFlipAt
     := lastReacquireFlipAt st; lastSkillName := lastSkillName st; lastReflectionHint :=
     lastReflectionHint st; approachHoldRemaining := approachHoldRemaining st; scanBurstCount :=
     scanBurstCount st; backoffBurstCount := backoffBurstCount st; modeHoldRemaining := v;
     targetLockHoldRemaining := targetLockHoldRemaining st |}.

Definition set_targetLockHoldRemaining (v : Z) (st : SmoothingState) : SmoothingState :=
  {| lastSteering := lastSteering st; lastStrategyMode := lastStrategyMode st; lastModeSwitchAt
     := lastModeSwitchAt st; pendingStrategyMode := pendingStrategyMode st; pendingStrategySince
     := pendingStrategySince st; pendingStrategyVotes := pendingStrategyVotes st; noContactMs :=
     noContactMs st; noContactCycles := noContactCycles st; lastContactAt := lastContactAt st;
     lastTickAt := lastTickAt st; reacquireTurnDir := reacquireTurnDir st; lastReacquireFlipAt
     := lastReacquireFlipAt st; lastSkillName := lastSkillName st; lastReflectionHint :=
     lastReflectionHint st; approachHoldRemaining := approachHoldRemaining st; scanBurstCount :=
     scanBurstCount st; backoffBurstCount := backoffBurstCount st; modeHoldRemaining :=
     modeHoldRemaining st; targetLockHoldRemaining := v |}.

(** The state the application creates at run start, after
    [ensureSmoothingState] has filled the fields the literal leaves out. *)
Definition freshState : SmoothingState :=
  {| lastSteering := 0; lastStrategyMode := None; lastModeSwitchAt := 0;
     pendingStrategyMode := None; pendingStrategySince := 0; pendingStrategyVotes := 0;
     noContactMs := 0; noContactCycles := 0; lastContactAt := 0; lastTickAt := 0;
     reacquireTurnDir := 1; lastReacquireFlipAt := 0; lastSkillName := None;
     lastReflectionHint := EmptyString; approachHoldRemaining := 0; scanBurstCount := 0;
     backoffBurstCount := 0; modeHoldRemaining := 0; targetLockHoldRemaining := 0 |}.

(** [ensureSmoothingState]: every field of the typed record already is a
    finite number or a string, so only the clause that repairs a zero
    [reacquireTurnDir] can fire. *)
Definition ensureSmoothingState (st : SmoothingState) : SmoothingState :=
  if Z.eqb (reacquireTurnDir st) 0 then set_reacquireTurnDir 1%Z st else st.
(** ** Sorting *)

(** [Array.prototype.sort] with the comparator [key(b) - key(a)]: a stable
    sort by descending key. *)
Fixpoint insertDesc {A : Type} (key : A -> Q) (x : A) (l : list A) : list A :=
  match l with
  | [] => [x]
  | y :: l' => if Qltb (key y) (key x) then x :: y :: l' else y :: insertDesc key x l'
  end.

Definition sortDesc {A : Type} (key : A -> Q) (l : list A) : list A :=
  fold_left (fun acc x => insertDesc key x acc) l [].


(** ** Text *)

Local Open Scope char_scope.

Definition chars (s : string) : list ascii := list_ascii_of_string s.
Definition text (l : list ascii) : string := string_of_list_ascii l.

Definition ascii_eqb (a b : ascii) : bool := Ascii.eqb a b.

(** The white space of [String.prototype.trim] and of the class [\s] among
    the 8-bit code units: TAB, LF, VT, FF, CR, SPACE and NBSP. *)
Definition isWs (c : ascii) : bool :=
  let n := nat_of_ascii c in
  (Nat.leb 9 n && Nat.leb n 13) || Nat.eqb n 32 || Nat.eqb n 160.

Definition isDigit (c : ascii) : bool :=
  let n := nat_of_ascii c in Nat.leb 48 n && Nat.leb n 57.

Definition isUpper (c : ascii) : bool :=
  let n := nat_of_ascii c in Nat.leb 65 n && Nat.leb n 90.

Definition isLower (c : ascii) : bool :=
  let n := nat_of_ascii c in Nat.leb 97 n && Nat.leb n 122.

(** The case folding of a regular expression with the flag [i] and without
    the flag [u]: on the 8-bit code units it maps the letters of Basic Latin
    only, since no character above it may fold to one of them. *)
Definition upperChar (c : ascii) : ascii :=
  if isLower c then ascii_of_nat (nat_of_ascii c - 32) else c.

Definition lowerChar (c : ascii) : ascii :=
  if isUpper c then ascii_of_nat (nat_of_ascii c + 32) else c.

(** A code unit above U+00FF has no place in a [string].  Where one comes up
    (an escape [\uXXXX] in a JSON text, the capital of [µ] or [ÿ]) the model
    writes a stand-in: NBSP for the white space of [\s] and [trim], and [¿]
    for every other character.  No function of the model tells two
    characters above U+007F apart other than by white space and case. *)
Definition wideUnit : ascii := "191".
Definition wideSpace : ascii := "160".

(** The letters of Latin-1 that have the other case in Latin-1: [À] to [Þ]
    without [×], and [à] to [þ] without [÷]. *)
Definition isUpperLatin1 (c : ascii) : bool :=
  let n := nat_of_ascii c in Nat.leb 192 n && Nat.leb n 222 && negb (Nat.eqb n 215).

Definition isLowerLatin1 (c : ascii) : bool :=
  let n := nat_of_ascii c in Nat.leb 224 n && Nat.leb n 254 && negb (Nat.eqb n 247).

(** What [toUpperCase] makes of one code unit: [ß] becomes [SS], and the
    capitals of [µ] and [ÿ] lie above U+00FF. *)
Definition upperUnits (c : ascii) : list ascii :=
  let n := nat_of_ascii c in
  if isLower c || isLowerLatin1 c then [ascii_of_nat (n - 32)]
  else if Nat.eqb n 223 then ["S"; "S"]
  else if Nat.eqb n 181 || Nat.eqb n 255 then [wideUnit]
  else [c].

Definition lowerUnit (c : ascii) : ascii :=
  if isUpper c || isUpperLatin1 c then ascii_of_nat (nat_of_ascii c + 32) else c.

Fixpoint dropWs (l : list ascii) : list ascii :=
  match l with
  | c :: l' => if isWs c then dropWs l' else l
  | [] => []
  end.

Definition trimChars (l : list ascii) : list ascii := rev (dropWs (rev (dropWs l))).

(** [s.trim()] *)
Definition trim (s : string) : string := text (trimChars (chars s)).

(** [s.toUpperCase()] and [s.toLowerCase()] *)
Definition toUpperCase (s : string) : string := text (flat_map upperUnits (chars s)).
Definition toLowerCase (s : string) : string := text (map lowerUnit (chars s)).

(** [s.slice(0, n)] *)
Definition sliceTo (n : nat) (s : string) : string := text (firstn n (chars s)).

(** [s.replace(/[class]+/g, r)]: every maximal run of characters of the class
    becomes one copy of [r]. *)
Fixpoint replaceRuns (inClass : ascii -> bool) (r : list ascii) (inRun : bool)
    (l : list ascii) : list ascii :=
  match l with
  | [] => []
  | c :: l' =>
      if inClass c
      then (if inRun then replaceRuns inClass r true l'
            else r ++ replaceRuns inClass r true l')
      else c :: replaceRuns inClass r false l'
  end.

(** Writes a text that holds double quotes: every backquote of [s] stands
    for one. *)
Definition withQuotes (s : string) : string :=
  text (map (fun c => if ascii_eqb c "`" then "034" else c) (chars s)).

Definition isEmpty (s : string) : bool :=
  match s with EmptyString => true | _ => false end.

Definition String_eqb (a b : string) : bool := String.eqb a b.

Local Close Scope char_scope.

(** ** Contact tracking and the context signal *)

Record ContactState : Type := mkContactState {
  cs_hasTargetContact : bool;
  cs_noContactMs : Z;
  cs_noContactCycles : Z;
  cs_reacquireActive : bool;
  cs_reacquireTurnDir : Z
}.

(** [updateContactTracking(state, sensorData)]; [now] is its [Date.now()]. *)
Definition updateContactTracking (st0 : SmoothingState) (sd : SensorData) (now : Z)
  : SmoothingState * ContactState :=
  let st := ensureSmoothingState st0 in
  let dtMs := Z.max 0 (Z.min 2000 (now - lastTickAt st)) in
  let st := set_lastTickAt now st in
  let hasTargetContact := existsb (fun b : bool => b) (targetHits sd) in
  let st :=
    if hasTargetContact
    then set_lastReacquireFlipAt 0%Z
           (set_lastContactAt now (set_noContactCycles 0%Z (set_noContactMs 0%Z st)))
    else set_noContactCycles (noContactCycles st + 1)%Z
           (set_noContactMs (noContactMs st + dtMs)%Z st) in
  let reacquireActive := negb hasTargetContact && (12000 <=? noContactMs st)%Z in
  let st :=
    if reacquireActive then
      let st := if Z.eqb (lastReacquireFlipAt st) 0 then set_lastReacquireFlipAt now st else st in
      if (3500 <? now - lastReacquireFlipAt st)%Z
      then set_lastReacquireFlipAt now
             (set_reacquireTurnDir (if (0 <? reacquireTurnDir st)%Z then (-1)%Z else 1%Z) st)
      else st
    else st in
  (st, {| cs_hasTargetContact := hasTargetContact;
          cs_noContactMs := noContactMs st;
          cs_noContactCycles := noContactCycles st;
          cs_reacquireActive := reacquireActive;
          cs_reacquireTurnDir := reacquireTurnDir st |}).

Record ContextSignal : Type := mkContextSignal {
  expectedMode : Mode;
  hasTargetContact : bool;
  strongTargetCue : bool;
  weakTargetCue : bool;
  danger : bool;
  distance : Q;
  angleAbs : Q;
  minFrontDist : Q;
  pseudoContactScore : Q;
  lockPriority : bool;
  lockHoldWindow : bool;
  reliableDirectionCue : bool;
  sig_noContactMs : Z;
  sig_noContactCycles : Z;
  reacquireActive : bool;
  sig_reacquireTurnDir : Z
}.

(** [inferContextModeSignal(sensorData, contactState)] *)
Definition inferContextModeSignal (sd : SensorData) (contactState : option ContactState)
  : ContextSignal :=
  let targetHitCount := countTargetHits sd in
  let hasTargetContact :=
    match contactState with
    | Some c => cs_hasTargetContact c
    | None => (0 <? targetHitCount)%Z
    end in
  let angleAbs := qabs (asNum (angleToTarget sd) 180) in
  let distance := asNum (distanceToTarget sd) 99 in
  let noContactMs := match contactState with Some c => cs_noContactMs c | None => 0%Z end in
  let noContactCycles :=
    match contactState with Some c => cs_noContactCycles c | None => 0%Z end in
  let minFrontDist := minFrontDistOf sd in
  let danger := isStuck sd || Qltb minFrontDist CRITICAL_FRONT_DIST in
  let reacquireActive :=
    match contactState with Some c => cs_reacquireActive c | None => false end in
  let reacquireTurnDir :=
    if (0 <? match contactState with Some c => cs_reacquireTurnDir c | None => 1 end)%Z
    then 1%Z else (-1)%Z in
  let distanceScore := clamp01 ((22 - distance) / 16) in
  let angleScore := clamp01 ((75 - angleAbs) / 75) in
  let frontClearScore := clamp01 ((minFrontDist - 2.0) / 5.5) in
  let hitScore := clamp01 (inject_Z targetHitCount / 2) in
  let pseudoContactScore :=
    if hasTargetContact then 1
    else clamp01 (distanceScore * 0.48 + angleScore * 0.37
                  + frontClearScore * 0.1 + hitScore * 0.05) in
  let reliableDirectionCue :=
    Qltb distance 28 && Qleb angleAbs 60 && Qgtb minFrontDist 2.5 in
  let strongTargetCue :=
    hasTargetContact
    || (negb danger && Qgeb pseudoContactScore 0.6 && reliableDirectionCue) in
  let weakTargetCue :=
    negb hasTargetContact
    && (Qleb pseudoContactScore 0.22 || Qgtb distance 30 || Qgtb angleAbs 95
        || ((18000 <=? noContactMs)%Z && Qltb pseudoContactScore 0.4)) in
  let lockPriority :=
    negb danger
    && (hasTargetContact
        || (Qleb distance TARGET_LOCK_PRIORITY_DISTANCE_M
            && Qleb angleAbs TARGET_LOCK_PRIORITY_ANGLE_DEG
            && Qgeb pseudoContactScore TARGET_LOCK_PRIORITY_PSEUDO)) in
  let lockHoldWindow :=
    negb danger
    && Qgtb minFrontDist TARGET_LOCK_HOLD_MIN_FRONT_DIST
    && (hasTargetContact
        || (Qleb distance TARGET_LOCK_HOLD_DISTANCE_M
            && Qleb angleAbs TARGET_LOCK_HOLD_ANGLE_DEG
            && Qgeb pseudoContactScore TARGET_LOCK_HOLD_PSEUDO)) in
  let expectedMode :=
    if danger then ESCAPE_RECOVERY
    else if lockPriority || strongTargetCue then TARGET_LOCK
    else MEMORY_EXPLORE in
  {| expectedMode := expectedMode;
     hasTargetContact := hasTargetContact;
     strongTargetCue := strongTargetCue;
     weakTargetCue := weakTargetCue;
     danger := danger;
     distance := distance;
     angleAbs := angleAbs;
     minFrontDist := minFrontDist;
     pseudoContactScore := pseudoContactScore;
     lockPriority := lockPriority;
     lockHoldWindow := lockHoldWindow;
     reliableDirectionCue := reliableDirectionCue;
     sig_noContactMs := noContactMs;
     sig_noContactCycles := noContactCycles;
     reacquireActive := reacquireActive;
     sig_reacquireTurnDir := reacquireTurnDir |}.

(** ** Strategy mode: the context override *)

Inductive ModeCorrection : Type :=
| no_correction
| danger_context_forced_escape
| lock_priority_window_promote
| lock_hold_window_promote
| prolonged_no_contact_reacquire
| weak_target_cue_demote_to_explore
| strong_target_cue_promote_to_lock
| previous_lock_hold_window.

Record ModeResolved : Type := mkModeResolved {
  mr_mode : Mode;
  mr_corrected : bool;
  mr_reason : ModeCorrection
}.

(** [resolveStrategyModeWithContext(rawMode, signal, previousMode)] *)
Definition resolveStrategyModeWithContext
    (rawMode : Mode) (signal : ContextSignal) (previousMode : option Mode) : ModeResolved :=
  let mode := rawMode in
  if danger signal && negb (Mode_eqb mode ESCAPE_RECOVERY) then
    mkModeResolved ESCAPE_RECOVERY true danger_context_forced_escape
  else if negb (Mode_eqb mode TARGET_LOCK)
          && (lockPriority signal || lockHoldWindow signal) then
    mkModeResolved TARGET_LOCK true
      (if lockPriority signal then lock_priority_window_promote
       else lock_hold_window_promote)
  else if reacquireActive signal && Mode_eqb mode TARGET_LOCK
          && negb (strongTargetCue signal) then
    mkModeResolved MEMORY_EXPLORE true prolonged_no_contact_reacquire
  else if Mode_eqb mode TARGET_LOCK && weakTargetCue signal
          && negb (lockPriority signal) && negb (lockHoldWindow signal) then
    mkModeResolved MEMORY_EXPLORE true weak_target_cue_demote_to_explore
  else if negb (Mode_eqb mode TARGET_LOCK) && negb (danger signal)
          && strongTargetCue signal then
    mkModeResolved TARGET_LOCK true strong_target_cue_promote_to_lock
  else if optMode_is previousMode TARGET_LOCK && lockHoldWindow signal
          && negb (Mode_eqb mode TARGET_LOCK) then
    mkModeResolved TARGET_LOCK true previous_lock_hold_window
  else mkModeResolved mode false no_correction.

(** ** Strategy mode: the hysteresis stabilizer *)

Inductive StabReason : Type :=
| stable
| target_lock_hold_window
| critical_context_override
| lock_priority_promotion
| strong_lock_promotion
| switch_cooldown_hold
| minimum_mode_hold
| pending_switch_vote
| hysteresis_confirmed_switch
| pending_switch_wait.

Record Stabilized : Type := mkStabilized {
  sb_mode : Mode;
  sb_held : bool;
  sb_forced : bool;
  sb_reason : StabReason
}.

Definition clearPending (st : SmoothingState) : SmoothingState :=
  set_pendingStrategyVotes 0%Z (set_pendingStrategySince 0%Z (set_pendingStrategyMode None st)).

Definition criticalOverride (signal : ContextSignal) : bool :=
  danger signal || Qltb (minFrontDist signal) CRITICAL_FRONT_DIST.

Definition strongLockPromotion (desiredMode : Mode) (signal : ContextSignal) : bool :=
  Mode_eqb desiredMode TARGET_LOCK
  && negb (danger signal)
  && strongTargetCue signal
  && Qgeb (pseudoContactScore signal) 0.7
  && Qgtb (minFrontDist signal) 2.6.

Definition lockPriorityPromotion (desiredMode : Mode) (signal : ContextSignal) : bool :=
  Mode_eqb desiredMode TARGET_LOCK
  && negb (danger signal)
  && lockPriority signal
  && Qgtb (minFrontDist signal) 2.3.

Definition targetLockHoldActive
    (st : SmoothingState) (previousMode : Mode) (signal : ContextSignal) : bool :=
  Mode_eqb previousMode TARGET_LOCK
  && negb (danger signal)
  && Qgtb (minFrontDist signal) TARGET_LOCK_HOLD_MIN_FRONT_DIST
  && (lockHoldWindow signal || (0 <? targetLockHoldRemaining st)%Z).

(** The bookkeeping of a switch: [clearPending], the switch time, the minimum
    hold and the target-lock hold. *)
Definition recordSwitch (now : Z) (desiredMode : Mode) (st : SmoothingState)
  : SmoothingState :=
  set_targetLockHoldRemaining
    (if Mode_eqb desiredMode TARGET_LOCK then TARGET_LOCK_HOLD_MIN_CYCLES else 0%Z)
    (set_modeHoldRemaining MODE_SWITCH_MIN_HOLD_CYCLES
       (set_lastModeSwitchAt now (clearPending st))).

(** [stabilizeStrategyModeWithHysteresis(state, desiredMode, signal)];
    [now] is its [Date.now()]. *)
Definition stabilizeStrategyModeWithHysteresis
    (st0 : SmoothingState) (desiredMode : Mode) (signal : ContextSignal) (now : Z)
  : SmoothingState * Stabilized :=
  let st := ensureSmoothingState st0 in
  match lastStrategyMode st with
  | None =>
      (* no previous mode *)
      let st := if (0 <? modeHoldRemaining st)%Z
                then set_modeHoldRemaining (modeHoldRemaining st - 1)%Z st else st in
      let st := if (0 <? targetLockHoldRemaining st)%Z
                   && (danger signal || negb (lockHoldWindow signal))
                then set_targetLockHoldRemaining (targetLockHoldRemaining st - 1)%Z st
                else st in
      (clearPending st, mkStabilized desiredMode false false stable)
  | Some previousMode =>
      if Mode_eqb desiredMode previousMode then
        let st := if (0 <? modeHoldRemaining st)%Z
                  then set_modeHoldRemaining (modeHoldRemaining st - 1)%Z st else st in
        let st :=
          if Mode_eqb previousMode TARGET_LOCK && lockHoldWindow signal
             && negb (danger signal)
          then set_targetLockHoldRemaining
                 (Z.max (targetLockHoldRemaining st) TARGET_LOCK_HOLD_MIN_CYCLES) st
          else if (0 <? targetLockHoldRemaining st)%Z
                  && (danger signal || negb (lockHoldWindow signal))
          then set_targetLockHoldRemaining (targetLockHoldRemaining st - 1)%Z st
          else st in
        (clearPending st, mkStabilized desiredMode false false stable)
      else if targetLockHoldActive st previousMode signal
              && negb (Mode_eqb desiredMode TARGET_LOCK) then
        let st := clearPending st in
        let st := set_targetLockHoldRemaining
                    (if lockHoldWindow signal then TARGET_LOCK_HOLD_MIN_CYCLES
                     else Z.max 0 (targetLockHoldRemaining st - 1)) st in
        (st, mkStabilized TARGET_LOCK true true target_lock_hold_window)
      else if criticalOverride signal
              || strongLockPromotion desiredMode signal
              || lockPriorityPromotion desiredMode signal then
        (recordSwitch now desiredMode st,
         mkStabilized desiredMode false true
           (if criticalOverride signal then critical_context_override
            else if lockPriorityPromotion desiredMode signal then lock_priority_promotion
            else strong_lock_promotion))
      else if (0 <? lastModeSwitchAt st)%Z
              && (now - lastModeSwitchAt st <? MODE_SWITCH_COOLDOWN_MS)%Z then
        (st, mkStabilized previousMode true false switch_cooldown_hold)
      else if (0 <? modeHoldRemaining st)%Z then
        (set_modeHoldRemaining (modeHoldRemaining st - 1)%Z st,
         mkStabilized previousMode true false minimum_mode_hold)
      else if negb (optMode_is (pendingStrategyMode st) desiredMode) then
        (set_pendingStrategyVotes 1%Z
           (set_pendingStrategySince now (set_pendingStrategyMode (Some desiredMode) st)),
         mkStabilized previousMode true false pending_switch_vote)
      else
        let st := set_pendingStrategyVotes (pendingStrategyVotes st + 1)%Z st in
        let pendingMs := (now - pendingStrategySince st)%Z in
        let confirmed := (MODE_SWITCH_MIN_VOTES <=? pendingStrategyVotes st)%Z
                         && (MODE_SWITCH_MIN_DWELL_MS <=? pendingMs)%Z in
        if confirmed then
          (recordSwitch now desiredMode st,
           mkStabilized desiredMode false false hysteresis_confirmed_switch)
        else (st, mkStabilized previousMode true false pending_switch_wait)
  end.

(** [deriveStrategyTransition(llmTransition, previousMode, currentMode,
    corrected)]; [llmSwitch] is whether the model's transition is the string
    SWITCH in any letter case. *)
Definition deriveStrategyTransition
    (llmSwitch : bool) (previousMode : option Mode) (currentMode : Mode) (corrected : bool)
  : Transition :=
  let byModeChange :=
    match previousMode with
    | Some p => if Mode_eqb p currentMode then HOLD else SWITCH
    | None => HOLD
    end in
  let byLlm := if llmSwitch then SWITCH else HOLD in
  if corrected then SWITCH
  else match byModeChange with SWITCH => SWITCH | HOLD => byLlm end.

(** ** Skill resolution and cadence *)

Inductive SkillOverride : Type :=
| no_skill_override
| escape_forces_backoff
| target_lock_front_blocked_escape
| target_lock_forces_approach
| scan_demoted_to_approach
| scan_demoted_to_frontier
| scan_demoted_due_to_mid_target_cue
| approach_bias_from_target_cue
| avoid_backward_approach.

Record SkillResolved : Type := mkSkillResolved {
  sr_skill : Skill;
  sr_overrideReason : SkillOverride;
  sr_approachBias : bool;
  sr_strictScanCondition : bool
}.

(** [resolveSkillWithContext({requestedSkill, strategyMode, strategySector,
    contextModeSignal, sensorData})] *)
Definition resolveSkillWithContext
    (requestedSkill : Skill) (strategyMode : Mode) (strategySector : Sector)
    (signal : ContextSignal) (sd : SensorData) : SkillResolved :=
  let minFrontDist := minFrontDistOf sd in
  let safeForward := Qgtb minFrontDist 2.55 in
  let approachBias :=
    negb (danger signal)
    && safeForward
    && (hasTargetContact signal
        || (Qgeb (pseudoContactScore signal) 0.56
            && Qleb (angleAbs signal) 62
            && Qleb (distance signal) 26)) in
  let strictScanCondition :=
    reacquireActive signal
    && weakTargetCue signal
    && negb (hasTargetContact signal)
    && Qltb (pseudoContactScore signal) 0.46
    && Qgtb (distance signal) 18
    && Qgtb (angleAbs signal) 18 in
  let nextSkill := requestedSkill in
  let '(nextSkill, overrideReason) :=
    if Mode_eqb strategyMode ESCAPE_RECOVERY then
      if negb (Skill_eqb nextSkill BACKOFF_AND_TURN)
      then (BACKOFF_AND_TURN, escape_forces_backoff)
      else (nextSkill, no_skill_override)
    else if Mode_eqb strategyMode TARGET_LOCK then
      if negb safeForward && negb (Skill_eqb nextSkill BACKOFF_AND_TURN)
      then (BACKOFF_AND_TURN, target_lock_front_blocked_escape)
      else if safeForward && negb (Skill_eqb nextSkill APPROACH_TARGET)
      then (APPROACH_TARGET, target_lock_forces_approach)
      else (nextSkill, no_skill_override)
    else if Skill_eqb nextSkill SCAN_SECTOR && negb strictScanCondition then
      if approachBias then (APPROACH_TARGET, scan_demoted_to_approach)
      else (MOVE_TO_FRONTIER, scan_demoted_to_frontier)
    else if Skill_eqb nextSkill SCAN_SECTOR && strictScanCondition && safeForward
            && Qgeb (pseudoContactScore signal) 0.42 then
      (MOVE_TO_FRONTIER, scan_demoted_due_to_mid_target_cue)
    else if (Skill_eqb nextSkill MOVE_TO_FRONTIER || Skill_eqb nextSkill SCAN_SECTOR)
            && approachBias then
      (APPROACH_TARGET, approach_bias_from_target_cue)
    else (nextSkill, no_skill_override) in
  let '(nextSkill, overrideReason) :=
    if Skill_eqb nextSkill APPROACH_TARGET && Sector_eqb strategySector SB
       && negb (hasTargetContact signal)
    then (MOVE_TO_FRONTIER, avoid_backward_approach)
    else (nextSkill, overrideReason) in
  {| sr_skill := nextSkill;
     sr_overrideReason := overrideReason;
     sr_approachBias := approachBias;
     sr_strictScanCondition := strictScanCondition |}.

Record CadenceResolved : Type := mkCadenceResolved {
  cr_skill : Skill;
  cr_scanBurstLimited : bool;
  cr_backoffBurstLimited : bool;
  cr_approachHoldLock : bool;
  cr_approachHoldRemaining : Z;
  cr_scanBurstCount : Z;
  cr_backoffBurstCount : Z
}.

(** [forwardApproachReady] of [enforceSkillCadence] *)
Definition forwardApproachReady (signal : ContextSignal) (sd : SensorData) : bool :=
  negb (danger signal)
  && Qgtb (minFrontDistOf sd) 2.65
  && (hasTargetContact signal
      || (Qgeb (pseudoContactScore signal) 0.52
          && Qleb (distance signal) 24
          && Qleb (angleAbs signal) 65)).

(** [enforceSkillCadence({requestedSkill, strategyMode, contextModeSignal,
    sensorData, approachBias, smoothingState})].  The override reason string
    is carried as the three flags that make it up. *)
Definition enforceSkillCadence
    (requestedSkill : Skill) (strategyMode : Mode) (signal : ContextSignal)
    (sd : SensorData) (approachBias : bool) (st0 : SmoothingState)
  : SmoothingState * CadenceResolved :=
  let st := ensureSmoothingState st0 in
  let minFrontDist := minFrontDistOf sd in
  let previousSkill :=
    match lastSkillName st with Some s => s | None => MOVE_TO_FRONTIER end in
  let nextSkill := requestedSkill in
  let ready := forwardApproachReady signal sd in
  let scanLimited :=
    Skill_eqb nextSkill SCAN_SECTOR
    && (SKILL_BURST_SCAN_LIMIT <=? scanBurstCount st)%Z
    && negb (danger signal) in
  let backoffLimited :=
    negb scanLimited
    && Skill_eqb nextSkill BACKOFF_AND_TURN
    && (SKILL_BURST_BACKOFF_LIMIT <=? backoffBurstCount st)%Z
    && negb (Mode_eqb strategyMode ESCAPE_RECOVERY)
    && negb (danger signal)
    && Qgtb minFrontDist SKILL_BURST_RELEASE_FRONT_DIST in
  let nextSkill :=
    if scanLimited then (if ready then APPROACH_TARGET else MOVE_TO_FRONTIER)
    else if backoffLimited
    then (if ready || approachBias then APPROACH_TARGET else MOVE_TO_FRONTIER)
    else nextSkill in
  let holdLock :=
    negb (Skill_eqb nextSkill APPROACH_TARGET)
    && (0 <? approachHoldRemaining st)%Z
    && negb (Mode_eqb strategyMode ESCAPE_RECOVERY)
    && ready in
  let '(nextSkill, st) :=
    if holdLock
    then (APPROACH_TARGET,
          set_approachHoldRemaining (Z.max 0 (approachHoldRemaining st - 1)) st)
    else (nextSkill, st) in
  let st :=
    if Skill_eqb nextSkill APPROACH_TARGET then
      if negb (Skill_eqb previousSkill APPROACH_TARGET)
      then set_approachHoldRemaining
             (Z.max (approachHoldRemaining st) (APPROACH_MIN_HOLD_CYCLES - 1)) st
      else if (0 <? approachHoldRemaining st)%Z
      then set_approachHoldRemaining (approachHoldRemaining st - 1)%Z st
      else st
    else if negb ready || Mode_eqb strategyMode ESCAPE_RECOVERY || danger signal
    then set_approachHoldRemaining 0%Z st
    else st in
  let st := set_scanBurstCount
              (if Skill_eqb nextSkill SCAN_SECTOR then (scanBurstCount st + 1)%Z else 0%Z) st in
  let st := set_backoffBurstCount
              (if Skill_eqb nextSkill BACKOFF_AND_TURN
               then (backoffBurstCount st + 1)%Z else 0%Z) st in
  (st, {| cr_skill := nextSkill;
          cr_scanBurstLimited := scanLimited;
          cr_backoffBurstLimited := backoffLimited;
          cr_approachHoldLock := holdLock;
          cr_approachHoldRemaining := approachHoldRemaining st;
          cr_scanBurstCount := scanBurstCount st;
          cr_backoffBurstCount := backoffBurstCount st |}).

(** ** The parsed model response *)

(** A value produced by [JSON.parse].  A number is [None] when the literal
    overflows to an infinity.  An object keeps its members as written; a
    property read takes the last member of that name, as [JSON.parse] keeps
    the last duplicate. *)
#[local] Set Warnings "-register-all".

Inductive json : Type :=
| JNull
| JBool (b : bool)
| JNum (n : option Q)
| JStr (s : string)
| JArr (items : list json)
| JObj (members : list (string * json)).

(** A JavaScript value that may be [undefined]. *)
Definition jsval : Type := option json.

Fixpoint lookupLast (name : string) (members : list (string * json)) : jsval :=
  match members with
  | [] => None
  | (k, v) :: rest =>
      match lookupLast name rest with
      | Some w => Some w
      | None => if String_eqb k name then Some v else None
      end
  end.

(** [v?.name] *)
Definition field (name : string) (v : jsval) : jsval :=
  match v with
  | Some (JObj members) => lookupLast name members
  | _ => None
  end.

(** Truthiness. *)
Definition truthy (v : jsval) : bool :=
  match v with
  | None => false
  | Some JNull => false
  | Some (JBool b) => b
  | Some (JNum (Some q)) => negb (Qeq_bool q 0)
  | Some (JNum None) => true
  | Some (JStr s) => negb (isEmpty s)
  | Some (JArr _) => true
  | Some (JObj _) => true
  end.

(** [a || b] *)
Definition jsOr (a b : jsval) : jsval := if truthy a then a else b.

(** [a ?? b] *)
Definition jsNullish (a b : jsval) : jsval :=
  match a with
  | None | Some JNull => b
  | _ => a
  end.

(** [typeof v === "number" && Number.isFinite(v)] as an optional number *)
Definition finiteNum (v : jsval) : option Q :=
  match v with Some (JNum (Some q)) => Some q | _ => None end.

(** [typeof v === "string"] as an optional string *)
Definition asString (v : jsval) : option string :=
  match v with Some (JStr s) => Some s | _ => None end.

(** [v && typeof v === "object"] *)
Definition isObject (v : jsval) : bool :=
  match v with Some (JArr _) | Some (JObj _) => true | _ => false end.

(** [(v && typeof v === "object") ? v : {}] *)
Definition objectOrEmpty (v : jsval) : jsval :=
  if isObject v then v else Some (JObj []).

(** [Array.isArray(v) ? v : []] *)
Definition arrayOrEmpty (v : jsval) : list json :=
  match v with Some (JArr l) => l | _ => [] end.

Local Open Scope string_scope.

(** [normalizeStrategyMode(mode, fallback)] *)
Definition modeOfString (raw : string) : option Mode :=
  if String_eqb raw "TARGET_LOCK" then Some TARGET_LOCK
  else if String_eqb raw "MEMORY_EXPLORE" then Some MEMORY_EXPLORE
  else if String_eqb raw "ESCAPE_RECOVERY" then Some ESCAPE_RECOVERY
  else None.

Definition normalizeStrategyMode (mode : jsval) (fallback : Mode) : Mode :=
  let raw := match asString mode with Some s => toUpperCase (trim s) | None => EmptyString end in
  match modeOfString raw with Some m => m | None => fallback end.

Definition modeName (m : Mode) : string :=
  match m with
  | TARGET_LOCK => "TARGET_LOCK"
  | MEMORY_EXPLORE => "MEMORY_EXPLORE"
  | ESCAPE_RECOVERY => "ESCAPE_RECOVERY"
  end.

(** [normalizeSkillName(skill, fallback)] *)
Definition skillOfString (raw : string) : option Skill :=
  if String_eqb raw "APPROACH_TARGET" then Some APPROACH_TARGET
  else if String_eqb raw "MOVE_TO_FRONTIER" then Some MOVE_TO_FRONTIER
  else if String_eqb raw "SCAN_SECTOR" then Some SCAN_SECTOR
  else if String_eqb raw "BACKOFF_AND_TURN" then Some BACKOFF_AND_TURN
  else if String_eqb raw "HOLD_POSITION" then Some HOLD_POSITION
  else None.

Definition normalizeSkillName (skill : jsval) (fallback : Skill) : Skill :=
  let raw := match asString skill with Some s => toUpperCase (trim s) | None => EmptyString end in
  match skillOfString raw with Some s => s | None => fallback end.

Definition skillName (s : Skill) : string :=
  match s with
  | APPROACH_TARGET => "APPROACH_TARGET"
  | MOVE_TO_FRONTIER => "MOVE_TO_FRONTIER"
  | SCAN_SECTOR => "SCAN_SECTOR"
  | BACKOFF_AND_TURN => "BACKOFF_AND_TURN"
  | HOLD_POSITION => "HOLD_POSITION"
  end.

Definition sectorOfString (s : string) : option Sector :=
  if String_eqb s "L" then Some SL
  else if String_eqb s "F" then Some SF
  else if String_eqb s "R" then Some SR
  else if String_eqb s "B" then Some SB
  else None.

Definition sectorName (s : Sector) : string :=
  match s with SL => "L" | SF => "F" | SR => "R" | SB => "B" end.

(** ** Reason envelopes *)

Record Reason : Type := mkReason {
  code : string;
  summary : string;
  expectedThrottleSign : option Z;
  expectedSteeringSign : option Z;
  source : string
}.

(** The reason object as the JavaScript value that later normalisations read. *)
Definition signToJson (s : option Z) : json :=
  match s with Some z => JNum (Some (inject_Z z)) | None => JNull end.

Definition reasonToJson (r : Reason) : json :=
  JObj [("code", JStr (code r)); ("summary", JStr (summary r));
        ("expectedThrottleSign", signToJson (expectedThrottleSign r));
        ("expectedSteeringSign", signToJson (expectedSteeringSign r));
        ("source", JStr (source r))].

(** [signFromControlValue(value)] with the default dead zone *)
Definition signFromControlValue (value : Q) : Z :=
  if Qgtb value ACTION_SIGN_DEADZONE then 1%Z
  else if Qltb value (- ACTION_SIGN_DEADZONE) then (-1)%Z
  else 0%Z.

Definition isReasonCodeChar (c : ascii) : bool :=
  isUpper c || isDigit c || ascii_eqb c "_"%char.

(** [normalizeReasonCode(raw, fallback)] *)
Definition normalizeReasonCode (raw : jsval) (fallback : string) : string :=
  let source := match asString raw with Some s => s | None => EmptyString end in
  let normalized :=
    text (List.filter isReasonCodeChar
            (replaceRuns (fun c => isWs c || ascii_eqb c "-"%char) ["_"%char] false
               (chars (toUpperCase (trim source))))) in
  if isEmpty normalized then fallback else sliceTo 48 normalized.

(** [normalizeReasonSign(raw, fallback)] *)
Definition normalizeReasonSign (raw : jsval) (fallback : option Z) : option Z :=
  match raw with
  | None | Some JNull => fallback
  | Some (JNum (Some q)) =>
      if Qgtb q 0.2 then Some 1%Z
      else if Qltb q (-0.2) then Some (-1)%Z
      else Some 0%Z
  | Some (JStr s) =>
      let token := toUpperCase (trim s) in
      if isEmpty token || String_eqb token "ANY" || String_eqb token "AUTO" then fallback
      else if String_eqb token "1" || String_eqb token "+1" || String_eqb token "FORWARD"
              || String_eqb token "LEFT" || String_eqb token "POSITIVE" then Some 1%Z
      else if String_eqb token "-1" || String_eqb token "REVERSE"
              || String_eqb token "RIGHT" || String_eqb token "NEGATIVE" then Some (-1)%Z
      else if String_eqb token "0" || String_eqb token "HOLD" || String_eqb token "NEUTRAL"
              || String_eqb token "STRAIGHT" || String_eqb token "CENTER" then Some 0%Z
      else fallback
  | _ => fallback
  end.

(** The shape [inferFallbackReasonShape] returns. *)
Record ReasonShape : Type := mkReasonShape {
  f_code : string;
  f_summary : string;
  f_expectedThrottleSign : option Z;
  f_expectedSteeringSign : option Z
}.

(** [inferFallbackReasonShape(step, fallbackReason)]; [None] is the empty
    object [{}]. *)
Definition inferFallbackReasonShape
    (throttle steering : Q) (fallbackReason : option Reason) : ReasonShape :=
  let throttleSign := signFromControlValue throttle in
  let steeringSign := signFromControlValue steering in
  let fallbackCode :=
    normalizeReasonCode
      (match fallbackReason with Some r => Some (JStr (code r)) | None => None end)
      "UNSPECIFIED_REASON" in
  let fallbackSummary :=
    match fallbackReason with Some r => trim (summary r) | None => EmptyString end in
  if negb (isEmpty fallbackSummary) then
    {| f_code := fallbackCode;
       f_summary := sliceTo 180 fallbackSummary;
       f_expectedThrottleSign :=
         normalizeReasonSign
           (match fallbackReason with
            | Some r => Some (signToJson (expectedThrottleSign r)) | None => None end)
           (Some throttleSign);
       f_expectedSteeringSign :=
         normalizeReasonSign
           (match fallbackReason with
            | Some r => Some (signToJson (expectedSteeringSign r)) | None => None end)
           (Some steeringSign) |}
  else if (0 <? throttleSign)%Z && Z.eqb steeringSign 0 then
    mkReasonShape "FORWARD_PROBE"
      "Advance straight toward safe frontier and target cue." (Some 1%Z) (Some 0%Z)
  else if (0 <? throttleSign)%Z && negb (Z.eqb steeringSign 0) then
    mkReasonShape "FORWARD_TURN_APPROACH"
      "Advance while turning to align with safer target direction."
      (Some 1%Z) (Some steeringSign)
  else if (throttleSign <? 0)%Z then
    mkReasonShape "REVERSE_ESCAPE"
      "Back off to avoid obstacle pressure and re-open path."
      (Some (-1)%Z) (Some steeringSign)
  else if negb (Z.eqb steeringSign 0) then
    mkReasonShape "PIVOT_SCAN"
      "Hold throttle and pivot to scan safer heading." (Some 0%Z) (Some steeringSign)
  else
    mkReasonShape "HOLD_AND_REASSESS"
      "Hold briefly to stabilize and request next decision." (Some 0%Z) (Some 0%Z).

(** [typeof v === "string" && v.trim().length > 0] *)
Definition nonBlankString (v : jsval) : bool :=
  match asString v with Some s => negb (isEmpty (trim s)) | None => false end.

(** [normalizeActionReason(rawReason, fallbackReason, step)] *)
Definition normalizeActionReason
    (rawReason : jsval) (fallbackReason : option Reason) (throttle steering : Q) : Reason :=
  let fallback := inferFallbackReasonShape throttle steering fallbackReason in
  let sourceObj : jsval :=
    match rawReason with
    | Some (JStr s) => Some (JObj [("summary", JStr s)])
    | _ => objectOrEmpty rawReason
    end in
  let hasModelCode := nonBlankString (field "code" sourceObj) in
  let hasModelSummary := nonBlankString (field "summary" sourceObj) in
  let code :=
    normalizeReasonCode
      (jsOr (field "code" sourceObj)
         (jsOr (field "reasonCode" sourceObj)
            (jsOr (field "label" sourceObj) (Some (JStr (f_code fallback))))))
      (f_code fallback) in
  let summaryRaw :=
    jsOr (field "summary" sourceObj)
      (jsOr (field "reason" sourceObj)
         (jsOr (field "text" sourceObj)
            (jsOr (field "rationale" sourceObj) (Some (JStr (f_summary fallback)))))) in
  let summary :=
    if nonBlankString summaryRaw then
      match asString summaryRaw with
      | Some s => sliceTo 180 (text (replaceRuns isWs [" "%char] false (chars (trim s))))
      | None => f_summary fallback
      end
    else f_summary fallback in
  let expectedThrottleSign :=
    normalizeReasonSign
      (jsNullish (field "expectedThrottleSign" sourceObj)
         (jsNullish (field "throttleSign" sourceObj)
            (field "throttleSign" (field "expected" sourceObj))))
      (f_expectedThrottleSign fallback) in
  let expectedSteeringSign :=
    normalizeReasonSign
      (jsNullish (field "expectedSteeringSign" sourceObj)
         (jsNullish (field "steeringSign" sourceObj)
            (field "steeringSign" (field "expected" sourceObj))))
      (f_expectedSteeringSign fallback) in
  let sourceRaw :=
    match asString (field "source" sourceObj) with
    | Some s => toLowerCase (trim s)
    | None => EmptyString
    end in
  let source :=
    if negb (isEmpty sourceRaw) then sourceRaw
    else if hasModelCode || hasModelSummary then "model" else "fallback" in
  {| code := code;
     summary := summary;
     expectedThrottleSign := expectedThrottleSign;
     expectedSteeringSign := expectedSteeringSign;
     source := source |}.

(** [buildDefaultDecisionReason] *)
Definition buildDefaultDecisionReason
    (strategyMode : Mode) (skill : Skill) (strategySector : Sector) (throttle steering : Q)
  : Reason :=
  let mode := modeName strategyMode in
  let skill := skillName skill in
  let sector := sectorName strategySector in
  let codeText :=
    normalizeReasonCode (Some (JStr (mode ++ "_" ++ skill))) "STRATEGY_EXECUTION" in
  let summaryText := mode ++ " with " ++ skill ++ " toward sector " ++ sector ++ "." in
  let normalized :=
    normalizeActionReason
      (Some (JObj [("code", JStr codeText); ("summary", JStr summaryText)]))
      None throttle steering in
  {| code := code normalized;
     summary := summary normalized;
     expectedThrottleSign := expectedThrottleSign normalized;
     expectedSteeringSign := expectedSteeringSign normalized;
     source := "fallback" |}.

(** ** Action plans *)

Record ActionStep : Type := mkActionStep {
  throttle : Q;
  steering : Q;
  duration : Q;
  reason : Reason
}.

(** The fallback step object of [normalizeActionStep]; a missing [reason] is
    [None]. *)
Record FallbackStep : Type := mkFallbackStep {
  fb_throttle : Q;
  fb_steering : Q;
  fb_duration : Q;
  fb_reason : option Reason
}.

(** [normalizeActionStep(raw, fallback)] *)
Definition normalizeActionStep (raw : jsval) (fallback : FallbackStep) : ActionStep :=
  let throttle := clampNumber (finiteNum (field "throttle" raw)) (-1.0) 1.0 (fb_throttle fallback) in
  let steering := clampNumber (finiteNum (field "steering" raw)) (-1.0) 1.0 (fb_steering fallback) in
  let duration := clampNumber (finiteNum (field "duration" raw)) 0.1 3.0 (fb_duration fallback) in
  let reasonRaw : jsval :=
    match jsNullish (field "reason" raw)
            (jsNullish (field "why" raw) (field "rationale" raw)) with
    | None | Some JNull =>
        (* the object literal; an absent property is not a member of it *)
        Some (JObj
          (omap (fun kv : string * jsval =>
                   match snd kv with Some v => Some (fst kv, v) | None => None end)
             [("code", field "reasonCode" raw);
              ("summary", field "reasonText" raw);
              ("expectedThrottleSign", field "expectedThrottleSign" raw);
              ("expectedSteeringSign", field "expectedSteeringSign" raw)]))
    | v => v
    end in
  let reason := normalizeActionReason reasonRaw (fb_reason fallback) throttle steering in
  {| throttle := throttle; steering := steering; duration := duration; reason := reason |}.

(** [Number(x.toFixed(3))] of the exact value: the nearest multiple of 0.001,
    ties upwards for a non-negative [x].  The code rounds the double nearest
    to [x], which at a tie can fall on the other side (0.5555 gives 0.555). *)
Definition toFixed3 (x : Q) : Q := inject_Z (Qfloor (x * 1000 + (1 # 2))) / 1000.

(** The loop of [normalizeActionPlan]: [plan] is kept in reverse. *)
Fixpoint normalizeActionPlanLoop
    (rawActions : list json) (fallbackStep : FallbackStep)
    (plan : list ActionStep) (totalDuration : Q) : list ActionStep :=
  match rawActions with
  | [] => rev plan
  | raw :: rest =>
      if Nat.ltb (List.length plan) ACTION_PLAN_MAX_STEPS then
        let normalized := normalizeActionStep (Some raw) fallbackStep in
        let remaining := ACTION_PLAN_MAX_TOTAL_SEC - totalDuration in
        if Qltb remaining 0.1 then rev plan
        else
          let clampedDuration := qmax 0.1 (qmin (duration normalized) remaining) in
          normalizeActionPlanLoop rest fallbackStep
            ({| throttle := throttle normalized;
                steering := steering normalized;
                duration := toFixed3 clampedDuration;
                reason := reason normalized |} :: plan)
            (totalDuration + clampedDuration)
      else rev plan
  end.

(** [normalizeActionPlan(rawActions, fallbackStep)] on an array. *)
Definition normalizeActionPlan (rawActions : list json) (fallbackStep : FallbackStep)
  : list ActionStep :=
  normalizeActionPlanLoop rawActions fallbackStep [] 0.

Local Close Scope string_scope.

(** ** [JSON.parse]

    A model of the built-in: the ECMA-404 grammar by recursive descent.  The
    fuel bounds the recursion; [JSON_parse] supplies twice the length of the
    text, which exceeds the number of nested calls any text can cause.  An
    escape [\uXXXX] above [ÿ] is read as the stand-in of its code unit. *)

Local Open Scope char_scope.

Definition isJsonWs (c : ascii) : bool :=
  ascii_eqb c " " || ascii_eqb c "009" || ascii_eqb c "010" || ascii_eqb c "013".

Fixpoint skipJsonWs (l : list ascii) : list ascii :=
  match l with
  | c :: l' => if isJsonWs c then skipJsonWs l' else l
  | [] => []
  end.

Definition hexValue (c : ascii) : option N :=
  let n := N_of_ascii c in
  if (48 <=? n)%N && (n <=? 57)%N then Some (n - 48)%N
  else if (65 <=? n)%N && (n <=? 70)%N then Some (n - 55)%N
  else if (97 <=? n)%N && (n <=? 102)%N then Some (n - 87)%N
  else None.

(** The white space of [\s] and of [trim] above U+00FF: U+1680, U+2000 to
    U+200A, U+2028, U+2029, U+202F, U+205F, U+3000 and U+FEFF. *)
Definition isWideWs (n : N) : bool :=
  (n =? 5760)%N || ((8192 <=? n)%N && (n <=? 8202)%N) || (n =? 8232)%N || (n =? 8233)%N
  || (n =? 8239)%N || (n =? 8287)%N || (n =? 12288)%N || (n =? 65279)%N.

(** The code unit [n] as the model writes it. *)
Definition codeUnit (n : N) : ascii :=
  if (n <? 256)%N then ascii_of_N n
  else if isWideWs n then wideSpace else wideUnit.

Definition hex4 (a b c d : ascii) : option ascii :=
  match hexValue a, hexValue b, hexValue c, hexValue d with
  | Some x, Some y, Some z, Some w =>
      Some (codeUnit (((x * 16 + y) * 16 + z) * 16 + w)%N)
  | _, _, _, _ => None
  end.

(** The characters of a string literal after its opening quote. *)
Fixpoint parseStringBody (l : list ascii) (acc : list ascii)
  : option (string * list ascii) :=
  match l with
  | [] => None
  | c :: r =>
      if ascii_eqb c "034" then Some (text (rev acc), r)
      else if ascii_eqb c "\" then
        match r with
        | e :: r' =>
            if ascii_eqb e "034" then parseStringBody r' ("034" :: acc)
            else if ascii_eqb e "\" then parseStringBody r' ("\" :: acc)
            else if ascii_eqb e "/" then parseStringBody r' ("/" :: acc)
            else if ascii_eqb e "b" then parseStringBody r' ("008" :: acc)
            else if ascii_eqb e "f" then parseStringBody r' ("012" :: acc)
            else if ascii_eqb e "n" then parseStringBody r' ("010" :: acc)
            else if ascii_eqb e "r" then parseStringBody r' ("013" :: acc)
            else if ascii_eqb e "t" then parseStringBody r' ("009" :: acc)
            else if ascii_eqb e "u" then
              match r' with
              | h1 :: h2 :: h3 :: h4 :: r'' =>
                  match hex4 h1 h2 h3 h4 with
                  | Some ch => parseStringBody r'' (ch :: acc)
                  | None => None
                  end
              | _ => None
              end
            else None
        | [] => None
        end
      else if Nat.ltb (nat_of_ascii c) 32 then None
      else parseStringBody r (c :: acc)
  end.

Fixpoint spanChars (p : ascii -> bool) (l : list ascii) : list ascii * list ascii :=
  match l with
  | c :: l' => if p c then let '(a, b) := spanChars p l' in (c :: a, b) else ([], l)
  | [] => ([], [])
  end.

Definition digitValue (c : ascii) : Z := Z.of_nat (nat_of_ascii c - 48).

Definition digitsValue (l : list ascii) : Z :=
  fold_left (fun acc c => (acc * 10 + digitValue c)%Z) l 0%Z.

(** The least magnitude that rounds to an infinity, and the greatest that
    rounds to zero: half of the least positive double, the tie going to the
    even neighbour. *)
Definition overflowBound : Q := inject_Z (2 ^ 1024 - 2 ^ 970).
Definition underflowBound : Q := 1 # (2 ^ 1075).

(** The number a decimal numeral stands for: an infinity is [None], and a
    numeral too small for a double is zero. *)
Definition mkNum (q : Q) : option Q :=
  if Qltb (qabs q) overflowBound
  then (if Qleb (qabs q) underflowBound then Some 0 else Some q)
  else None.

(** [m * 10^e] *)
Definition scale10 (m : Z) (e : Z) : Q :=
  if (0 <=? e)%Z then inject_Z (m * 10 ^ e)
  else inject_Z m / inject_Z (10 ^ (- e)).

(** The value of a number lexeme; [None] when it is not a JSON number. *)
Definition numberOfLexeme (l : list ascii) : option (option Q) :=
  let '(neg, l1) := match l with
                    | c :: r => if ascii_eqb c "-" then (true, r) else (false, l)
                    | [] => (false, l)
                    end in
  let '(ip, l2) := spanChars isDigit l1 in
  match ip with
  | [] => None
  | d :: ds =>
      if ascii_eqb d "0" && negb (Nat.eqb (List.length ds) 0) then None
      else
        let frac :=
          match l2 with
          | c :: r =>
              if ascii_eqb c "." then
                let '(fp, l3) := spanChars isDigit r in
                match fp with [] => None | _ => Some (fp, l3) end
              else Some ([], l2)
          | [] => Some ([], l2)
          end in
        match frac with
        | None => None
        | Some (fp, l3) =>
            let expo :=
              match l3 with
              | c :: r =>
                  if ascii_eqb c "e" || ascii_eqb c "E" then
                    let '(eneg, r1) :=
                      match r with
                      | s :: r' => if ascii_eqb s "-" then (true, r')
                                   else if ascii_eqb s "+" then (false, r')
                                   else (false, r)
                      | [] => (false, r)
                      end in
                    let '(ep, l4) := spanChars isDigit r1 in
                    match ep with
                    | [] => None
                    | _ => Some ((if eneg then - digitsValue ep else digitsValue ep)%Z, l4)
                    end
                  else Some (0%Z, l3)
              | [] => Some (0%Z, l3)
              end in
            match expo with
            | Some (e, []) =>
                let m := digitsValue (ip ++ fp) in
                let q := scale10 (if neg then - m else m)%Z (e - Z.of_nat (List.length fp)) in
                Some (mkNum q)
            | _ => None
            end
        end
  end.

Definition isNumberChar (c : ascii) : bool :=
  isDigit c || ascii_eqb c "-" || ascii_eqb c "+" || ascii_eqb c "."
  || ascii_eqb c "e" || ascii_eqb c "E".

(** [l] starts with the characters of [p]: the rest of [l]. *)
Fixpoint stripPrefix (p l : list ascii) : option (list ascii) :=
  match p, l with
  | [], _ => Some l
  | a :: p', b :: l' => if ascii_eqb a b then stripPrefix p' l' else None
  | _ :: _, [] => None
  end.

Fixpoint parseValue (fuel : nat) (s : list ascii) {struct fuel}
  : option (json * list ascii) :=
  match fuel with
  | O => None
  | S n =>
      match skipJsonWs s with
      | [] => None
      | c :: r =>
          if ascii_eqb c "{" then
            match skipJsonWs r with
            | c' :: r' =>
                if ascii_eqb c' "}" then Some (JObj [], r')
                else parseMembers n (c' :: r') []
            | [] => None
            end
          else if ascii_eqb c "[" then
            match skipJsonWs r with
            | c' :: r' =>
                if ascii_eqb c' "]" then Some (JArr [], r')
                else parseElements n (c' :: r') []
            | [] => None
            end
          else if ascii_eqb c "034" then
            match parseStringBody r [] with
            | Some (str, r') => Some (JStr str, r')
            | None => None
            end
          else if ascii_eqb c "t" then
            match stripPrefix (chars "rue") r with
            | Some r' => Some (JBool true, r') | None => None end
          else if ascii_eqb c "f" then
            match stripPrefix (chars "alse") r with
            | Some r' => Some (JBool false, r') | None => None end
          else if ascii_eqb c "n" then
            match stripPrefix (chars "ull") r with
            | Some r' => Some (JNull, r') | None => None end
          else
            let '(lexeme, r') := spanChars isNumberChar (c :: r) in
            match numberOfLexeme lexeme with
            | Some v => Some (JNum v, r')
            | None => None
            end
      end
  end

with parseElements (fuel : nat) (s : list ascii) (acc : list json) {struct fuel}
  : option (json * list ascii) :=
  match fuel with
  | O => None
  | S n =>
      match parseValue n s with
      | Some (v, r) =>
          match skipJsonWs r with
          | c :: r' =>
              if ascii_eqb c "," then parseElements n r' (v :: acc)
              else if ascii_eqb c "]" then Some (JArr (rev (v :: acc)), r')
              else None
          | [] => None
          end
      | None => None
      end
  end

with parseMembers (fuel : nat) (s : list ascii) (acc : list (string * json))
    {struct fuel} : option (json * list ascii) :=
  match fuel with
  | O => None
  | S n =>
      match skipJsonWs s with
      | q :: r0 =>
          if ascii_eqb q "034" then
            match parseStringBody r0 [] with
            | Some (key, r1) =>
                match skipJsonWs r1 with
                | c :: r2 =>
                    if ascii_eqb c ":" then
                      match parseValue n r2 with
                      | Some (v, r3) =>
                          match skipJsonWs r3 with
                          | d :: r4 =>
                              if ascii_eqb d "," then parseMembers n r4 ((key, v) :: acc)
                              else if ascii_eqb d "}"
                              then Some (JObj (rev ((key, v) :: acc)), r4)
                              else None
                          | [] => None
                          end
                      | None => None
                      end
                    else None
                | [] => None
                end
            | None => None
            end
          else None
      | [] => None
      end
  end.

(** [JSON.parse(text)]; [None] when it throws. *)
Definition JSON_parse (s : string) : option json :=
  let l := chars s in
  match parseValue (2 * List.length l + 2) l with
  | Some (v, r) => match skipJsonWs r with [] => Some v | _ => None end
  | None => None
  end.

(** [tryParseJson] *)
Definition tryParseJson (s : string) : jsval := JSON_parse s.

(** ** Textual repairs *)

(** [s.replace(re, ...)] with the flag [g]: [m] tells whether a match starts
    at the head of the text, and gives its replacement and its length; a
    match is never empty. *)
Fixpoint replaceAll (m : list ascii -> option (list ascii * nat)) (skip : nat)
    (l : list ascii) : list ascii :=
  match l with
  | [] => []
  | c :: r =>
      match skip with
      | S k => replaceAll m k r
      | O =>
          match m l with
          | Some (rep, n) => rep ++ replaceAll m (Nat.pred n) r
          | None => c :: replaceAll m 0 r
          end
      end
  end.

Definition isCloser (c : ascii) : bool := ascii_eqb c "}" || ascii_eqb c "]".

(** A match of the first repair's pattern: a comma, any white space, and a
    closing brace or bracket, which alone is kept. *)
Definition matchTrailingComma (l : list ascii) : option (list ascii * nat) :=
  match l with
  | c :: r =>
      if ascii_eqb c "," then
        let '(ws, r1) := spanChars isWs r in
        match r1 with
        | b :: _ => if isCloser b then Some ([b], 2 + List.length ws)%nat else None
        | [] => None
        end
      else None
  | [] => None
  end.

Definition isNotQuote (c : ascii) : bool := negb (ascii_eqb c "'").

(** A match of the pattern for single-quoted keys: an opening brace or a
    comma, white space, a non-empty run without apostrophes between two
    apostrophes, white space and a colon; the apostrophes become double
    quotes and the white space before the colon is dropped. *)
Definition matchQuotedKey (l : list ascii) : option (list ascii * nat) :=
  match l with
  | c :: r =>
      if ascii_eqb c "{" || ascii_eqb c "," then
        let '(ws, r1) := spanChars isWs r in
        match r1 with
        | q :: r2 =>
            if ascii_eqb q "'" then
              let '(key, r3) := spanChars isNotQuote r2 in
              match key, r3 with
              | _ :: _, _ :: r4 =>
                  let '(ws2, r5) := spanChars isWs r4 in
                  match r5 with
                  | d :: _ =>
                      if ascii_eqb d ":"
                      then Some (c :: ws ++ "034" :: key ++ ["034"; ":"],
                                 4 + List.length ws + List.length key + List.length ws2)%nat
                      else None
                  | [] => None
                  end
              | _, _ => None
              end
            else None
        | [] => None
        end
      else None
  | [] => None
  end.

(** A match of the pattern for single-quoted values: a colon, white space,
    a run without apostrophes between two apostrophes, and ahead of it
    white space and a comma or a closing brace; the value is written after a
    colon and one space, between double quotes. *)
Definition matchQuotedValue (l : list ascii) : option (list ascii * nat) :=
  match l with
  | c :: r =>
      if ascii_eqb c ":" then
        let '(ws, r1) := spanChars isWs r in
        match r1 with
        | q :: r2 =>
            if ascii_eqb q "'" then
              let '(val, r3) := spanChars isNotQuote r2 in
              match r3 with
              | _ :: r4 =>
                  match snd (spanChars isWs r4) with
                  | d :: _ =>
                      if ascii_eqb d "," || ascii_eqb d "}"
                      then Some (":" :: " " :: "034" :: val ++ ["034"],
                                 3 + List.length ws + List.length val)%nat
                      else None
                  | [] => None
                  end
              | [] => None
              end
            else None
        | [] => None
        end
      else None
  | [] => None
  end.

(** A match of a literal, compared through [norm] on the text's side. *)
Definition matchLiteral (norm : ascii -> ascii) (lit : list ascii) (l : list ascii)
  : option (list ascii * nat) :=
  match stripPrefix lit (map norm (firstn (List.length lit) l)) with
  | Some [] => Some ([], List.length lit)
  | _ => None
  end.

(** [stripCodeFences] *)
Definition stripCodeFences (s : string) : string :=
  trim (text
    (replaceAll (matchLiteral (fun c => c) (chars "```")) 0
       (replaceAll (matchLiteral lowerChar (chars "```json")) 0 (chars s)))).

Definition countChar (c : ascii) (l : list ascii) : nat :=
  List.length (List.filter (ascii_eqb c) l).

(** [isLikelyTruncatedJsonResponse] on a string *)
Definition isLikelyTruncatedJsonResponse (rawText : string) : bool :=
  let cleaned := chars (trim (stripCodeFences rawText)) in
  match rev cleaned with
  | [] => true
  | lastc :: _ =>
      if negb (ascii_eqb lastc "}") then true
      else Nat.ltb (countChar "}" cleaned) (countChar "{" cleaned)
  end.

(** The scan of [extractFirstBalancedObject] from the first opening brace;
    [taken] holds the characters passed, in reverse. *)
Fixpoint balancedScan (l : list ascii) (depth : nat) (inString escaped : bool)
    (taken : list ascii) : option (list ascii) :=
  match l with
  | [] => None
  | ch :: r =>
      if inString then
        if escaped then balancedScan r depth true false (ch :: taken)
        else if ascii_eqb ch "\" then balancedScan r depth true true (ch :: taken)
        else if ascii_eqb ch "034" then balancedScan r depth false false (ch :: taken)
        else balancedScan r depth true escaped (ch :: taken)
      else if ascii_eqb ch "034" then balancedScan r depth true escaped (ch :: taken)
      else if ascii_eqb ch "{" then balancedScan r (S depth) false escaped (ch :: taken)
      else if ascii_eqb ch "}" then
        match depth with
        | 1%nat => Some (rev (ch :: taken))
        | _ => balancedScan r (Nat.pred depth) false escaped (ch :: taken)
        end
      else balancedScan r depth false escaped (ch :: taken)
  end.

Fixpoint dropUntilBrace (l : list ascii) : list ascii :=
  match l with
  | c :: r => if ascii_eqb c "{" then l else dropUntilBrace r
  | [] => []
  end.

(** [extractFirstBalancedObject] *)
Definition extractFirstBalancedObject (s : string) : option string :=
  match dropUntilBrace (chars s) with
  | [] => None
  | l => option_map text (balancedScan l 0 false false [])
  end.

Local Close Scope char_scope.

Inductive ParseMethod : Type :=
| strict
| trim_trailing_commas
| repair_single_quotes
| loose_recovery.

Record Repaired : Type := mkRepaired {
  parsed : json;
  rp_recovered : bool;
  rp_method : ParseMethod
}.

Definition noTrailingCommas (s : string) : string :=
  text (replaceAll matchTrailingComma 0 (chars s)).

Definition singleQuoteRepaired (s : string) : string :=
  text (replaceAll matchQuotedValue 0 (replaceAll matchQuotedKey 0 (chars s))).

(** [tryParseJsonWithRepairs] *)
Definition tryParseJsonWithRepairs (s : string) : option Repaired :=
  if isEmpty s then None
  else
    (* 1) strict parse *)
    let parsed := tryParseJson s in
    if truthy parsed then option_map (fun v => mkRepaired v false strict) parsed
    else
      (* 2) remove trailing commas *)
      let parsed := tryParseJson (noTrailingCommas s) in
      if truthy parsed
      then option_map (fun v => mkRepaired v true trim_trailing_commas) parsed
      else
        (* 3) normalize single quoted keys/values *)
        let parsed := tryParseJson (singleQuoteRepaired (noTrailingCommas s)) in
        if truthy parsed
        then option_map (fun v => mkRepaired v true repair_single_quotes) parsed
        else None.

(** ** Loose recovery *)

Local Open Scope char_scope.

(** The leftmost position at which [m] matches. *)
Fixpoint findFirst {A : Type} (m : list ascii -> option A) (l : list ascii) : option A :=
  match m l with
  | Some x => Some x
  | None => match l with [] => None | _ :: r => findFirst m r end
  end.

(** A literal under the flag [i]. *)
Definition stripPrefixCI (lit : string) (l : list ascii) : option (list ascii) :=
  let n := String.length lit in
  match stripPrefix (map lowerChar (chars lit)) (map lowerChar (firstn n l)) with
  | Some [] => Some (skipn n l)
  | _ => None
  end.

Definition isQuoteChar (c : ascii) : bool := ascii_eqb c "034" || ascii_eqb c "'".

(** The class of quotes, white space and colons that may follow a label. *)
Definition isLabelSep (c : ascii) : bool := isQuoteChar c || isWs c || ascii_eqb c ":".

Definition isWordChar (c : ascii) : bool :=
  isUpper c || isLower c || isDigit c || ascii_eqb c "_".

(** [Number(text)] for the digits the number pattern captures. *)
Definition numberOfDecimal (neg : bool) (ip fp : list ascii) : option Q :=
  let m := digitsValue (ip ++ fp) in
  mkNum (scale10 (if neg then - m else m)%Z (- Z.of_nat (List.length fp))).

(** The number pattern at the head of the text: an optional minus, digits,
    and an optional point with digits. *)
Definition matchNumber (l : list ascii) : option (option Q) :=
  let '(neg, l1) := match l with
                    | c :: r => if ascii_eqb c "-" then (true, r) else (false, l)
                    | [] => (false, l)
                    end in
  let '(ip, l2) := spanChars isDigit l1 in
  match ip with
  | [] => None
  | _ =>
      let fp :=
        match l2 with
        | c :: r => if ascii_eqb c "." then fst (spanChars isDigit r) else []
        | [] => []
        end in
      Some (numberOfDecimal neg ip fp)
  end.

(** [numberFor(label)]: [None] is [null]. *)
Definition numberFor (label : string) (l : list ascii) : option (option Q) :=
  findFirst
    (fun t =>
       match stripPrefixCI label t with
       | Some r =>
           let '(sep, r1) := spanChars isLabelSep r in
           match sep with [] => None | _ => matchNumber r1 end
       | None => None
       end) l.

Definition isStringBodyChar (c : ascii) : bool :=
  negb (isQuoteChar c || ascii_eqb c "010" || ascii_eqb c "013").

(** The quoted text after a label.  The separators are taken greedily, so
    the opening quote is the last separator that lets the rest match; at
    least one separator comes before it. *)
Fixpoint quotedAfter (run rest : list ascii) (first : bool) : option (list ascii) :=
  match run with
  | [] => None
  | c :: run' =>
      match quotedAfter run' rest false with
      | Some g => Some g
      | None =>
          if first then None
          else if isQuoteChar c then
            let '(grp, r2) := spanChars isStringBodyChar (run' ++ rest) in
            match grp, r2 with
            | _ :: _, q :: _ => if isQuoteChar q then Some grp else None
            | _, _ => None
            end
          else None
      end
  end.

(** [stringFor(label)] *)
Definition stringFor (label : string) (l : list ascii) : option string :=
  findFirst
    (fun t =>
       match stripPrefixCI label t with
       | Some r =>
           let '(sep, r1) := spanChars isLabelSep r in
           option_map text (quotedAfter sep r1 true)
       | None => None
       end) l.

(** The first of the alternatives that matches at the head of the text. *)
Fixpoint matchAny {A : Type} (alts : list (string * A)) (l : list ascii)
  : option (A * list ascii) :=
  match alts with
  | [] => None
  | (lit, x) :: alts' =>
      match stripPrefixCI lit l with
      | Some r => Some (x, r)
      | None => matchAny alts' l
      end
  end.

(** The leftmost match of an alternation of words between word boundaries. *)
Fixpoint findWord {A : Type} (alts : list (string * A)) (prev : option ascii)
    (l : list ascii) : option A :=
  match l with
  | [] => None
  | c :: r =>
      let boundaryBefore :=
        match prev with Some p => negb (isWordChar p) | None => true end in
      match (if boundaryBefore then matchAny alts l else None) with
      | Some (x, rest) =>
          match rest with
          | [] => Some x
          | n :: _ => if isWordChar n then findWord alts (Some c) r else Some x
          end
      | None => findWord alts (Some c) r
      end
  end.

Definition sectorLetter (c : ascii) : option Sector :=
  let u := upperChar c in
  if ascii_eqb u "L" then Some SL
  else if ascii_eqb u "F" then Some SF
  else if ascii_eqb u "R" then Some SR
  else if ascii_eqb u "B" then Some SB
  else None.

(** A label, separators and a sector letter at the head of the text. *)
Definition matchSectorAfter (label : string) (l : list ascii) : option Sector :=
  match stripPrefixCI label l with
  | Some r =>
      let '(sep, r1) := spanChars isLabelSep r in
      match sep, r1 with
      | _ :: _, c :: _ => sectorLetter c
      | _, _ => None
      end
  | None => None
  end.

(** The same after a word boundary. *)
Fixpoint findSectorWord (prev : option ascii) (l : list ascii) : option Sector :=
  match l with
  | [] => None
  | c :: r =>
      let boundaryBefore :=
        match prev with Some p => negb (isWordChar p) | None => true end in
      match (if boundaryBefore then matchSectorAfter "sector" l else None) with
      | Some s => Some s
      | None => findSectorWord (Some c) r
      end
  end.

Local Close Scope char_scope.
Local Open Scope string_scope.

Definition transitionName (t : Transition) : string :=
  match t with HOLD => "HOLD" | SWITCH => "SWITCH" end.

(** [recoverLoosePayload] *)
Definition recoverLoosePayload (s : string) : option json :=
  if isEmpty s then None
  else
    let l := chars s in
    let modeMatch :=
      findFirst (fun t => option_map fst
                   (matchAny [("TARGET_LOCK", TARGET_LOCK);
                              ("MEMORY_EXPLORE", MEMORY_EXPLORE);
                              ("ESCAPE_RECOVERY", ESCAPE_RECOVERY)] t)) l in
    let transitionMatch := findWord [("SWITCH", SWITCH); ("HOLD", HOLD)] None l in
    let sectorMatch :=
      match findFirst (matchSectorAfter "chosenSector") l with
      | Some x => Some x
      | None => findSectorWord None l
      end in
    let skillMatch :=
      findFirst (fun t => option_map fst
                   (matchAny [("APPROACH_TARGET", APPROACH_TARGET);
                              ("MOVE_TO_FRONTIER", MOVE_TO_FRONTIER);
                              ("SCAN_SECTOR", SCAN_SECTOR);
                              ("BACKOFF_AND_TURN", BACKOFF_AND_TURN);
                              ("HOLD_POSITION", HOLD_POSITION)] t)) l in
    let throttle := numberFor "throttle" l in
    let steering := numberFor "steering" l in
    let duration := numberFor "duration" l in
    let confidence := numberFor "confidence" l in
    let intensity := numberFor "intensity" l in
    let thought := stringFor "thought" l in
    let analysis := stringFor "analysis" l in
    let adjustment := stringFor "adjustment" l in
    match throttle, steering, duration, modeMatch with
    | None, None, None, None => None
    | _, _, _, _ =>
        Some (JObj
          [("strategy", JObj
              [("mode", JStr (modeName (default MEMORY_EXPLORE modeMatch)));
               ("transition", JStr (transitionName (default HOLD transitionMatch)));
               ("confidence", JNum (default (Some 0.35%Q) confidence));
               ("chosenSector", JStr (sectorName (default SF sectorMatch)));
               ("targetCue", JStr EmptyString);
               ("memoryCue", JStr EmptyString);
               ("riskCue", JStr "loose_recovery")]);
           ("skill", JObj
              [("name", JStr (skillName (default MOVE_TO_FRONTIER skillMatch)));
               ("intensity",
                JNum (Some (match intensity with
                            | None => 0.45%Q
                            | Some n => clampNumber n 0 1 0.45
                            end)));
               ("rationale", JStr "loose_recovery_default")]);
           ("reflection", JObj
              [("lastOutcomeAssessment", JStr "unknown");
               ("adjustment",
                JStr (default "Use safe exploratory movement and avoid blocked sectors."
                        adjustment))]);
           ("thought", JStr (default "Recovered from malformed JSON" thought));
           ("analysis", JStr (default EmptyString analysis));
           ("control", JObj
              [("throttle", JNum (default (Some 0.2%Q) throttle));
               ("steering", JNum (default (Some 0%Q) steering));
               ("duration", JNum (default (Some 0.3%Q) duration))])])
    end.

Record ParseResult : Type := mkParseResult {
  data : json;
  recovered : bool;
  method : ParseMethod;
  (** the result came from the retry request *)
  fromRetry : bool
}.

(** [parseModelResponseJson] *)
Definition parseModelResponseJson (rawText : string) : option ParseResult :=
  let cleaned := stripCodeFences rawText in
  let candidates :=
    cleaned ::
    match extractFirstBalancedObject cleaned with
    | Some extracted =>
        if negb (isEmpty extracted) && negb (String_eqb extracted cleaned)
        then [extracted] else []
    | None => []
    end in
  match omap tryParseJsonWithRepairs candidates with
  | fixed :: _ =>
      Some (mkParseResult (parsed fixed) (rp_recovered fixed) (rp_method fixed) false)
  | [] =>
      match recoverLoosePayload cleaned with
      | Some loose => Some (mkParseResult loose true loose_recovery false)
      | None => None
      end
  end.

Local Close Scope string_scope.
(** ** JSON texts

    The syntax tree of a strict JSON text, for stating how the repairs act
    on a text: a number keeps its lexeme, and a string and a key keep the
    characters between their quotes, escapes included. *)

Local Open Scope char_scope.

Inductive doc : Type :=
| DNull
| DBool (b : bool)
| DNum (lexeme : string)
| DStr (body : string)
| DArr (items : list doc)
| DObj (members : list (string * doc)).

(** The parts of a bracketed list with commas between them; [trailing] puts
    one more comma after the last part. *)
Fixpoint joinParts (trailing : bool) (parts : list (list ascii)) : list ascii :=
  match parts with
  | [] => []
  | p :: rest =>
      match rest with
      | [] => p ++ (if trailing then [","] else [])
      | _ :: _ => p ++ "," :: joinParts trailing rest
      end
  end.

(** The text of a tree without white space, its keys between [keyQuote]. *)
Fixpoint renderWith (keyQuote : ascii) (trailing : bool) (d : doc) : list ascii :=
  match d with
  | DNull => chars "null"
  | DBool true => chars "true"
  | DBool false => chars "false"
  | DNum lexeme => chars lexeme
  | DStr s => "034" :: chars s ++ ["034"]
  | DArr items =>
      "[" :: joinParts trailing (map (renderWith keyQuote trailing) items) ++ ["]"]
  | DObj members =>
      "{" :: joinParts trailing
               (map (fun m => keyQuote :: chars (fst m) ++ keyQuote :: ":"
                                :: renderWith keyQuote trailing (snd m))
                  members)
          ++ ["}"]
  end.

(** The strict JSON text of a tree. *)
Definition render (d : doc) : string := text (renderWith "034" false d).

(** The same text with every key between apostrophes and a comma before
    every bracket that closes a list with members. *)
Definition decorate (d : doc) : string := text (renderWith "'" true d).

(** The string that a literal stands for whose quotes hold the characters
    [body]; [None] when they are not the characters of one JSON string. *)
Definition decodeString (body : string) : option string :=
  match parseStringBody (chars body ++ ["034"]) [] with
  | Some (s, []) => Some s
  | _ => None
  end.

Definition stringOf (body : string) : string :=
  match decodeString body with Some s => s | None => EmptyString end.

(** The value a strict text stands for. *)
Fixpoint valueOf (d : doc) : json :=
  match d with
  | DNull => JNull
  | DBool b => JBool b
  | DNum lexeme =>
      match numberOfLexeme (chars lexeme) with
      | Some n => JNum n
      | None => JNull
      end
  | DStr body => JStr (stringOf body)
  | DArr items => JArr (map valueOf items)
  | DObj members => JObj (map (fun m => (stringOf (fst m), valueOf (snd m))) members)
  end.

Definition numberLexeme (s : string) : bool :=
  negb (isEmpty s) && forallb isNumberChar (chars s)
  && match numberOfLexeme (chars s) with Some _ => true | None => false end.

(** The characters between the quotes of one JSON string. *)
Definition isStringBody (body : string) : bool :=
  match decodeString body with Some _ => true | None => false end.

(** No character of [l] that [opens] a pattern is followed, after white
    space if any, by a character that is its [target]. *)
Fixpoint noneBefore (opens target : ascii -> bool) (l : list ascii) : bool :=
  match l with
  | [] => true
  | c :: r =>
      negb (opens c && match dropWs r with d :: _ => target d | [] => false end)
      && noneBefore opens target r
  end.

(** No comma stands before a closing brace or bracket: what the pattern of
    the first repair looks for. *)
Definition commaSafe (l : list ascii) : bool :=
  noneBefore (fun c => ascii_eqb c ",") isCloser l.

Definition opensQuoted (c : ascii) : bool :=
  ascii_eqb c "{" || ascii_eqb c "," || ascii_eqb c ":".

(** No apostrophe stands after an opening brace, a comma or a colon: where
    the patterns of the second repair look for one. *)
Definition apostropheSafe (l : list ascii) : bool :=
  noneBefore opensQuoted (fun c => ascii_eqb c "'") l.

(** A string that the repairs leave as it is. *)
Definition stringSafe (body : string) : bool :=
  isStringBody body && commaSafe (chars body) && apostropheSafe (chars body).

(** A key that the repairs put between double quotes and leave as it is
    otherwise: it is not empty and holds no apostrophe. *)
Definition keySafe (body : string) : bool :=
  negb (isEmpty body) && isStringBody body && forallb isNotQuote (chars body)
  && commaSafe (chars body).

(** The trees whose texts the amended round trip covers. *)
Fixpoint repairable (d : doc) : bool :=
  match d with
  | DNull | DBool _ => true
  | DNum lexeme => numberLexeme lexeme
  | DStr body => stringSafe body
  | DArr items => forallb repairable items
  | DObj members => forallb (fun m => keySafe (fst m) && repairable (snd m)) members
  end.

Definition memberOk (m : string * doc) : bool := keySafe (fst m) && repairable (snd m).

(** A character that a JSON string holds unescaped. *)
Definition unescapedChar (c : ascii) : bool :=
  negb (Nat.ltb (nat_of_ascii c) 32) && negb (ascii_eqb c "034") && negb (ascii_eqb c "\").

(** A character that stands for itself in a string and that no repair
    looks for: neither an apostrophe nor a comma. *)
Definition repairSafeChar (c : ascii) : bool :=
  unescapedChar c && negb (ascii_eqb c "'") && negb (ascii_eqb c ",").

Definition repairSafeText (s : string) : bool := forallb repairSafeChar (chars s).

(** The trees without escapes, apostrophes and commas in their strings and
    keys, and without an empty key. *)
Fixpoint repairSafe (d : doc) : bool :=
  match d with
  | DNull | DBool _ => true
  | DNum lexeme => numberLexeme lexeme
  | DStr s => repairSafeText s
  | DArr items => forallb repairSafe items
  | DObj members =>
      forallb (fun m => negb (isEmpty (fst m)) && repairSafeText (fst m)
                        && repairSafe (snd m))
        members
  end.

(** The first character of a value's text. *)
Definition valueStart (c : ascii) : bool :=
  isNumberChar c || ascii_eqb c "{" || ascii_eqb c "[" || ascii_eqb c "034"
  || ascii_eqb c "t" || ascii_eqb c "f" || ascii_eqb c "n".

Definition strictText : doc -> list ascii := renderWith "034" false.

Definition strictMember (m : string * doc) : list ascii :=
  "034" :: chars (fst m) ++ "034" :: ":" :: strictText (snd m).


(** What follows a number ends its lexeme. *)
Definition stopsNumber (rest : list ascii) : Prop :=
  match rest with c :: _ => isNumberChar c = false | [] => True end.

(** A text that starts with the first character of a value. *)
Definition startsValue (l : list ascii) : Prop :=
  match l with c :: _ => valueStart c = true | [] => False end.

Definition separator (sep : ascii) : Prop := sep = "{" \/ sep = "[" \/ sep = ",".

Definition replaces (m : list ascii -> option (list ascii * nat)) (p p' : list ascii)
  : Prop :=
  forall rest, replaceAll m 0 (p ++ rest) = p' ++ replaceAll m 0 rest.

Local Close Scope char_scope.

(** ** The spatial memory grid

    [createExplorationMemory]: the state of the closure is a record, and the
    operations that mutate it return the new state.  The [Map] of cells is a
    list of entries in insertion order, which [pruneIfNeeded] depends on; a
    key is the pair of the cell's indices.  The counters of a cell are
    integers.  The cell size is positive. *)

Module Mem.

(** [clamp(value, min, max)] *)
Definition clamp (value lo hi : Q) : Q := qmax lo (qmin hi value).

(** [round(value, digits)] *)
Definition round (digits : Z) (value : Q) : Q :=
  inject_Z (jsRound (value * inject_Z (10 ^ digits))) / inject_Z (10 ^ digits).

Definition toGrid (x z cellSize : Q) : Z * Z :=
  (Qfloor (x / cellSize), Qfloor (z / cellSize)).

Definition toCellCenter (ix iz : Z) (cellSize : Q) : Q * Q :=
  ((inject_Z ix + 0.5) * cellSize, (inject_Z iz + 0.5) * cellSize).

Definition OUTER_WALL_REPEAT_HARD_NO_GO_HITS : Z := 2.
Definition OBSTACLE_REPEAT_HARD_NO_GO_HITS : Z := 3.

Record Cell : Type := mkCell {
  visits : Z;
  lastSeen : Z;
  riskEMA : Q;
  stuckCount : Z;
  targetHitCount : Z;
  targetMissCount : Z;
  targetAbsenceEMA : Q;
  lastTargetSeenAt : Z;
  lastTargetMissAt : Z;
  obstacleHits : Z;
  outerWallHits : Z;
  openHits : Z
}.

(** The cell that [getOrCreateCell] creates. *)
Definition newCell : Cell := mkCell 0 0 0 0 0 0 0 0 0 0 0 0.

Record Bounds : Type := mkBounds {
  minX : Q;
  maxX : Q;
  minZ : Q;
  maxZ : Q;
  softMargin : option Q
}.

Record PathEntry : Type := mkPathEntry { p_ix : Z; p_iz : Z; p_t : Z }.

Record State : Type := mkState {
  cellSize : Q;
  st_sensorRange : Q;
  maxCells : nat;
  worldBounds : option Bounds;
  cells : list ((Z * Z) * Cell);
  path : list PathEntry
}.

Definition key_eqb (a b : Z * Z) : bool :=
  ((fst a =? fst b) && (snd a =? snd b))%Z.

(** [state.cells.get(cellKey(ix, iz))] *)
Fixpoint getCell (l : list ((Z * Z) * Cell)) (k : Z * Z) : option Cell :=
  match l with
  | [] => None
  | (k', c) :: l' => if key_eqb k' k then Some c else getCell l' k
  end.

(** A write through the reference that [getOrCreateCell] returns: the entry
    of an existing key keeps its place, a new key goes last. *)
Fixpoint touchCell (k : Z * Z) (f : Cell -> Cell) (l : list ((Z * Z) * Cell))
  : list ((Z * Z) * Cell) :=
  match l with
  | [] => [(k, f newCell)]
  | (k', c) :: l' =>
      if key_eqb k' k then (k', f c) :: l' else (k', c) :: touchCell k f l'
  end.

(** [getBoundsPenalty(x, z, bounds)]: whether the point is outside, and the
    penalty. *)
Definition getBoundsPenalty (x z : Q) (bounds : option Bounds) : bool * Q :=
  match bounds with
  | None => (false, 0)
  | Some b =>
      let margin := asNum (softMargin b) 2.5 in
      let outside :=
        Qltb x (minX b) || Qgtb x (maxX b) || Qltb z (minZ b) || Qgtb z (maxZ b) in
      if outside then (true, 2.0)
      else
        let edgeDist :=
          qmin (qmin (qmin (x - minX b) (maxX b - x)) (z - minZ b)) (maxZ b - z) in
        (false,
         if Qltb edgeDist margin then ((margin - edgeDist) / margin) * 0.55 else 0)
  end.

Definition isInsideBounds (x z : Q) (bounds : option Bounds) : bool :=
  match bounds with
  | None => true
  | Some b => Qgeb x (minX b) && Qleb x (maxX b) && Qgeb z (minZ b) && Qleb z (maxZ b)
  end.

(** [clampPointToBounds(x, z, bounds)] with the default [epsilon] *)
Definition clampPointToBounds (x z : Q) (bounds : option Bounds) : Q * Q :=
  match bounds with
  | None => (x, z)
  | Some b =>
      (clamp x (minX b + 0.001) (maxX b - 0.001),
       clamp z (minZ b + 0.001) (maxZ b - 0.001))
  end.

Definition isNearOuterBoundary (x z : Q) (bounds : option Bounds) (margin : Q) : bool :=
  match bounds with
  | None => false
  | Some b =>
      Qleb (qabs (x - minX b)) margin || Qleb (qabs (x - maxX b)) margin
      || Qleb (qabs (z - minZ b)) margin || Qleb (qabs (z - maxZ b)) margin
  end.

(** [isCellObstacleDominant(cell)] *)
Definition isCellObstacleDominant (cell : option Cell) : bool :=
  match cell with
  | None => false
  | Some c =>
      let risk := clamp (riskEMA c) 0 1 in
      let repeatedOuterWall := (OUTER_WALL_REPEAT_HARD_NO_GO_HITS <=? outerWallHits c)%Z in
      let repeatedObstacle :=
        (2 <=? obstacleHits c)%Z
        && Qgeb (inject_Z (obstacleHits c)) (inject_Z (openHits c) * 0.9) in
      let singleHardObstacle :=
        (1 <=? obstacleHits c)%Z && ((openHits c =? 0)%Z || Qgeb risk 0.62) in
      repeatedOuterWall || repeatedObstacle || singleHardObstacle
  end.

(** [hasBarrierBetween(fromIx, fromIz, toIx, toIz)] *)
Definition hasBarrierBetween (l : list ((Z * Z) * Cell)) (fromIx fromIz toIx toIz : Z)
  : bool :=
  let dx := (toIx - fromIx)%Z in
  let dz := (toIz - fromIz)%Z in
  let steps := Z.max (Z.abs dx) (Z.abs dz) in
  if (steps <=? 1)%Z then
    match getCell l (toIx, toIz) with
    | None => false
    | Some targetCell =>
        isCellObstacleDominant (Some targetCell)
        || Qgtb (clamp (riskEMA targetCell) 0 1) 0.72
    end
  else
    existsb
      (fun i : nat =>
         let sx := jsRound (inject_Z fromIx
                            + inject_Z (dx * Z.of_nat i) / inject_Z steps) in
         let sz := jsRound (inject_Z fromIz
                            + inject_Z (dz * Z.of_nat i) / inject_Z steps) in
         match getCell l (sx, sz) with
         | None => false
         | Some cell =>
             isCellObstacleDominant (Some cell) || Qgtb (clamp (riskEMA cell) 0 1) 0.78
         end)
      (seq 1 (Z.to_nat steps - 1)).

Section Grid.

(** [Math.hypot] on two numbers, and [relativeSector(fromX, fromZ, headingDeg,
    toX, toZ)], which buckets an [atan2] angle: parameters. *)
Variable hypot : Q -> Q -> Q.
Variable relativeSector : Q -> Q -> Q -> Q -> Q -> Sector.

Record Candidate : Type := mkCandidate {
  c_ix : Z;
  c_iz : Z;
  c_dx : Z;
  c_dz : Z;
  c_visits : Z;
  risk : Q;
  novelty : Q;
  openBias : Q;
  c_distance : Q;
  sector : Sector;
  score : Q;
  targetPenalty : Q;
  c_targetHitCount : Z;
  c_targetMissCount : Z;
  c_targetAbsenceEMA : Q;
  barrierBlocked : bool;
  outsideBounds : bool;
  obstacleDominant : bool;
  c_obstacleHits : Z;
  c_outerWallHits : Z;
  c_openHits : Z;
  repeatPenalty : Q;
  hasData : bool
}.

(** [evaluateCandidate(originX, originZ, headingDeg, originIx, originIz, nix,
    niz)] *)
Definition evaluateCandidate (st : State) (originX originZ headingDeg : Q)
    (originIx originIz nix niz : Z) : Candidate :=
  let cell := getCell (cells st) (nix, niz) in
  let visits := match cell with Some c => visits c | None => 0%Z end in
  let risk := clamp (match cell with Some c => riskEMA c | None => 0 end) 0 1 in
  let openHits := match cell with Some c => openHits c | None => 0%Z end in
  let obstacleHits := match cell with Some c => obstacleHits c | None => 0%Z end in
  let outerWallHits := match cell with Some c => outerWallHits c | None => 0%Z end in
  let evidence := (openHits + obstacleHits)%Z in
  let obstacleDominant := isCellObstacleDominant cell in
  let openBias := inject_Z openHits / inject_Z (Z.max 1 evidence) in
  let novelty := 1 / (1 + inject_Z visits) in
  let targetHitCount := match cell with Some c => targetHitCount c | None => 0%Z end in
  let targetMissCount := match cell with Some c => targetMissCount c | None => 0%Z end in
  let targetAbsenceEMA :=
    clamp (match cell with
           | Some c => targetAbsenceEMA c
           | None => if (0 <? targetMissCount)%Z then inject_Z targetMissCount / 18 else 0
           end) 0 1 in
  let targetPenalty :=
    if (0 <? targetHitCount)%Z then 0
    else clamp (targetAbsenceEMA * 0.6
                + inject_Z (Z.max 0 (targetMissCount - 2)) / 45) 0 0.9 in
  let dx := (nix - originIx)%Z in
  let dz := (niz - originIz)%Z in
  let distance := hypot (inject_Z dx) (inject_Z dz) in
  let center := toCellCenter nix niz (cellSize st) in
  let sector := relativeSector originX originZ headingDeg (fst center) (snd center) in
  let barrierBlocked := hasBarrierBetween (cells st) originIx originIz nix niz in
  let boundsPenaltyInfo := getBoundsPenalty (fst center) (snd center) (worldBounds st) in
  let unknownPenalty := if (evidence =? 0)%Z then 0.15 else 0 in
  let obstacleRepeatPenalty :=
    clamp (inject_Z (Z.max 0 (obstacleHits - 1)) * 0.12) 0 0.85 in
  let outerWallRepeatPenalty := clamp (inject_Z outerWallHits * 0.22) 0 1.2 in
  let repeatPenalty := clamp (obstacleRepeatPenalty + outerWallRepeatPenalty) 0 1.5 in
  let score :=
    novelty * 0.95 + openBias * 0.4 - risk * 0.95 - targetPenalty * 0.95
    - distance * 0.09 in
  let score :=
    if (visits =? 0)%Z && negb barrierBlocked && negb (fst boundsPenaltyInfo)
    then score + 0.22 else score in
  let score := score - snd boundsPenaltyInfo in
  let score := score - unknownPenalty in
  let score := if barrierBlocked then score - 0.9 else score in
  let score := if fst boundsPenaltyInfo then score - 1.2 else score in
  let score := if obstacleDominant then score - 0.95 else score in
  let score :=
    if (1 <=? obstacleHits)%Z && Qgeb risk 0.62 then score - 0.55 else score in
  let score :=
    if (OBSTACLE_REPEAT_HARD_NO_GO_HITS <=? obstacleHits)%Z then score - 0.45 else score in
  let score :=
    if (OUTER_WALL_REPEAT_HARD_NO_GO_HITS <=? outerWallHits)%Z
    then score - 0.85 else score in
  let score := score - repeatPenalty in
  {| c_ix := nix;
     c_iz := niz;
     c_dx := dx;
     c_dz := dz;
     c_visits := visits;
     risk := risk;
     novelty := novelty;
     openBias := openBias;
     c_distance := distance;
     sector := sector;
     score := score;
     targetPenalty := targetPenalty;
     c_targetHitCount := targetHitCount;
     c_targetMissCount := targetMissCount;
     c_targetAbsenceEMA := targetAbsenceEMA;
     barrierBlocked := barrierBlocked;
     outsideBounds := fst boundsPenaltyInfo;
     obstacleDominant := obstacleDominant;
     c_obstacleHits := obstacleHits;
     c_outerWallHits := outerWallHits;
     c_openHits := openHits;
     repeatPenalty := repeatPenalty;
     hasData := match cell with Some _ => true | None => false end |}.

Inductive NoGoReason : Type :=
| ng_outsideBounds
| ng_barrierBlocked
| ng_obstacleDominant
| ng_recentObstacleHit
| ng_obstacleRepeat
| ng_outerWallRepeat
| ng_repeatPenaltyHigh
| ng_highRisk.

(** [getNoGoReasons(candidate)] *)
Definition getNoGoReasons (candidate : Candidate) : list NoGoReason :=
  (if outsideBounds candidate then [ng_outsideBounds] else [])
  ++ (if barrierBlocked candidate then [ng_barrierBlocked] else [])
  ++ (if obstacleDominant candidate then [ng_obstacleDominant] else [])
  ++ (if (1 <=? c_obstacleHits candidate)%Z && Qgeb (risk candidate) 0.62
      then [ng_recentObstacleHit] else [])
  ++ (if (OBSTACLE_REPEAT_HARD_NO_GO_HITS <=? c_obstacleHits candidate)%Z
      then [ng_obstacleRepeat] else [])
  ++ (if (OUTER_WALL_REPEAT_HARD_NO_GO_HITS <=? c_outerWallHits candidate)%Z
      then [ng_outerWallRepeat] else [])
  ++ (if Qgeb (repeatPenalty candidate) 0.85 then [ng_repeatPenaltyHigh] else [])
  ++ (if Qgeb (risk candidate) 0.78 then [ng_highRisk] else []).

(** [Math.sin] and [Math.cos] of an angle given in degrees: parameters. *)
Variable sinDeg : Q -> Q.
Variable cosDeg : Q -> Q.

(** [SENSOR_RAYS] with the reading of each ray. *)
Definition sensorRays (sd : SensorData) : list (option Q * Q) :=
  [(front sd, 0); (leftDiag sd, 45); (left sd, 90); (backLeft sd, 135);
   (back sd, 180); (backRight sd, -135); (right sd, -90); (rightDiag sd, -45)].

Definition keyIn (k : Z * Z) (l : list (Z * Z)) : bool := existsb (key_eqb k) l.

(** The loop that records the traversed cells of one ray as open, from the
    sample at [t]; [visitedOpen] holds the keys already counted for this ray.
    The fuel bounds the number of samples. *)
Fixpoint markOpenSamples (fuel : nat) (t step limit x z dirX dirZ : Q)
    (bounds : option Bounds) (size : Q) (now : Z) (visitedOpen : list (Z * Z))
    (l : list ((Z * Z) * Cell)) : list ((Z * Z) * Cell) :=
  match fuel with
  | O => l
  | S fuel' =>
      if Qltb t limit then
        let sampleX := x + dirX * t in
        let sampleZ := z + dirZ * t in
        if negb (isInsideBounds sampleX sampleZ bounds) then l
        else
          let sampleKey := toGrid sampleX sampleZ size in
          if keyIn sampleKey visitedOpen
          then markOpenSamples fuel' (t + step) step limit x z dirX dirZ bounds size now
                 visitedOpen l
          else markOpenSamples fuel' (t + step) step limit x z dirX dirZ bounds size now
                 (sampleKey :: visitedOpen)
                 (touchCell sampleKey
                    (fun c => mkCell (visits c) now (riskEMA c) (stuckCount c)
                                (targetHitCount c) (targetMissCount c)
                                (targetAbsenceEMA c) (lastTargetSeenAt c)
                                (lastTargetMissAt c) (obstacleHits c) (outerWallHits c)
                                (openHits c + 1))
                    l)
      else l
  end.

(** The body of [SENSOR_RAYS.forEach] for one ray. *)
Definition integrateRay (x z headingDeg sensorRange : Q) (bounds : option Bounds)
    (size : Q) (now : Z) (l : list ((Z * Z) * Cell)) (ray : option Q * Q)
  : list ((Z * Z) * Cell) :=
  let dist := asNum (fst ray) sensorRange in
  let worldDeg := headingDeg + snd ray in
  let dirX := sinDeg worldDeg in
  let dirZ := cosDeg worldDeg in
  let rayDist := clamp dist 0 sensorRange in
  let hasObstacleHit := Qltb rayDist (sensorRange - 0.05) in
  let travelDist := if hasObstacleHit then rayDist else sensorRange in
  let step := qmax 0.35 (size * 0.6) in
  let limit := qmax step (travelDist - 0.15) in
  let l :=
    markOpenSamples (Z.to_nat (Qceiling (limit / step))) step step limit x z dirX dirZ
      bounds size now [] l in
  if hasObstacleHit then
    let hitX := x + dirX * rayDist in
    let hitZ := z + dirZ * rayDist in
    let boundedHit := clampPointToBounds hitX hitZ bounds in
    if isInsideBounds (fst boundedHit) (snd boundedHit) bounds then
      let hitKey := toGrid (fst boundedHit) (snd boundedHit) size in
      let localRisk := clamp ((sensorRange - rayDist) / sensorRange) 0 1 in
      let impactRisk := clamp (localRisk * 0.85 + 0.15) 0 1 in
      let nearOuterWall :=
        isNearOuterBoundary (fst boundedHit) (snd boundedHit) bounds
          (qmax 0.4 (size * 0.65)) in
      let immediateHazardFloor :=
        if nearOuterWall then (if Qltb rayDist 3.2 then 0.94 else 0.84)
        else if Qltb rayDist 2.8 then 0.88
        else if Qltb rayDist 4.2 then 0.74 else 0.58 in
      touchCell hitKey
        (fun c => mkCell (visits c) now
                    (qmax (riskEMA c * 0.78 + impactRisk * 0.22) immediateHazardFloor)
                    (stuckCount c) (targetHitCount c) (targetMissCount c)
                    (targetAbsenceEMA c) (lastTargetSeenAt c) (lastTargetMissAt c)
                    (obstacleHits c + 1)
                    (if nearOuterWall then outerWallHits c + 1 else outerWallHits c)%Z
                    (openHits c))
        l
    else l
  else
    let openX := x + dirX * sensorRange * 0.8 in
    let openZ := z + dirZ * sensorRange * 0.8 in
    if isInsideBounds openX openZ bounds then
      touchCell (toGrid openX openZ size)
        (fun c => mkCell (visits c) now (riskEMA c) (stuckCount c) (targetHitCount c)
                    (targetMissCount c) (targetAbsenceEMA c) (lastTargetSeenAt c)
                    (lastTargetMissAt c) (obstacleHits c) (outerWallHits c)
                    (openHits c + 1))
        l
    else l.

(** A stable sort of the entries by ascending [lastSeen]. *)
Fixpoint insertByLastSeen (e : (Z * Z) * Cell) (l : list ((Z * Z) * Cell))
  : list ((Z * Z) * Cell) :=
  match l with
  | [] => [e]
  | e' :: l' =>
      if (lastSeen (snd e) <? lastSeen (snd e'))%Z then e :: e' :: l'
      else e' :: insertByLastSeen e l'
  end.

(** [pruneIfNeeded()] *)
Definition pruneIfNeeded (st : State) : State :=
  if (List.length (cells st) <=? maxCells st)%nat then st
  else
    let items := fold_left (fun acc e => insertByLastSeen e acc) (cells st) [] in
    let toDelete :=
      Z.to_nat (Z.max 1 (Qfloor (inject_Z (Z.of_nat (List.length items)) * 0.1))) in
    let deleted := map fst (firstn toDelete items) in
    mkState (cellSize st) (st_sensorRange st) (maxCells st) (worldBounds st)
      (List.filter (fun e => negb (keyIn (fst e) deleted)) (cells st))
      (path st).

(** The body of [update] up to its last statement, for a car at [(x, z)]:
    the car's cell, the path and the cells along the eight rays are
    written; [pruneIfNeeded] has not run yet. *)
Definition integrateSnapshot (st : State) (sd : SensorData) (now : Z) (x z : Q) : State :=
  let sensorRange := clamp (asNum (sensorRange sd) (st_sensorRange st)) 4.0 30.0 in
  let headingDeg := asNum (headingDeg sd) 0 in
  let '(ix, iz) := toGrid x z (cellSize st) in
  let rayDistances :=
    map (fun v => asNum v sensorRange)
      [front sd; leftDiag sd; rightDiag sd; left sd; right sd; back sd;
       backLeft sd; backRight sd] in
  let minObstacleDist :=
    match rayDistances with
    | d :: ds => fold_left qmin ds d
    | [] => sensorRange
    end in
  let riskInstant := clamp ((3.2 - minObstacleDist) / 3.2) 0 1 in
  let hitCount := countTargetHits sd in
  let l :=
    touchCell (ix, iz)
      (fun c =>
         let visits := (visits c + 1)%Z in
         let riskEMA :=
           if (visits =? 1)%Z then riskInstant
           else riskEMA c * 0.85 + riskInstant * 0.15 in
         let stuckCount := if isStuck sd then (stuckCount c + 1)%Z else stuckCount c in
         if (0 <? hitCount)%Z then
           mkCell visits now riskEMA stuckCount (targetHitCount c + hitCount)
             (targetMissCount c) (clamp (targetAbsenceEMA c * 0.75) 0 1) now
             (lastTargetMissAt c) (obstacleHits c) (outerWallHits c) (openHits c)
         else
           mkCell visits now riskEMA stuckCount (targetHitCount c)
             (targetMissCount c + 1)
             (clamp (clamp (targetAbsenceEMA c) 0 1 * 0.92 + 0.08) 0 1)
             (lastTargetSeenAt c) now (obstacleHits c) (outerWallHits c) (openHits c))
      (cells st) in
  let path := path st ++ [mkPathEntry ix iz now] in
  let path := if (500 <? List.length path)%nat then tl path else path in
  let l :=
    fold_left (integrateRay x z headingDeg sensorRange (worldBounds st) (cellSize st) now)
      (sensorRays sd) l in
  mkState (cellSize st) sensorRange (maxCells st) (worldBounds st) l path.

(** [update(sensorData, now)] *)
Definition update (st : State) (sd : SensorData) (now : Z) : State :=
  match worldX sd, worldZ sd with
  | Some x, Some z => pruneIfNeeded (integrateSnapshot st sd now x z)
  | _, _ => st
  end.

Record CandidateSummary : Type := mkCandidateSummary {
  cs_ix : Z;
  cs_iz : Z;
  cs_sector : Sector;
  cs_score : Q;
  cs_risk : Q;
  cs_visits : Z;
  cs_targetHitCount : Z;
  cs_targetMissCount : Z;
  cs_targetAbsence : Q;
  cs_targetPenalty : Q;
  cs_obstacleHits : Z;
  cs_outerWallHits : Z;
  cs_repeatPenalty : Q;
  (** [isNoGo] and [noGoReasons], when the flags are included *)
  cs_noGoReasons : option (list NoGoReason)
}.

(** [toCandidateSummary(candidate, includeFlags)] on a candidate with its
    no-go reasons *)
Definition toCandidateSummary (c : Candidate * list NoGoReason) (includeFlags : bool)
  : CandidateSummary :=
  let candidate := fst c in
  {| cs_ix := c_ix candidate;
     cs_iz := c_iz candidate;
     cs_sector := sector candidate;
     cs_score := round 3 (score candidate);
     cs_risk := round 3 (risk candidate);
     cs_visits := c_visits candidate;
     cs_targetHitCount := c_targetHitCount candidate;
     cs_targetMissCount := c_targetMissCount candidate;
     cs_targetAbsence := round 3 (c_targetAbsenceEMA candidate);
     cs_targetPenalty := round 3 (targetPenalty candidate);
     cs_obstacleHits := c_obstacleHits candidate;
     cs_outerWallHits := c_outerWallHits candidate;
     cs_repeatPenalty := round 3 (repeatPenalty candidate);
     cs_noGoReasons := if includeFlags then Some (snd c) else None |}.

Record SectorScore : Type := mkSectorScore {
  sc_sector : Sector;
  sc_novelty : Q;
  sc_risk : Q;
  sc_open : Q;
  sc_targetPenalty : Q;
  sc_score : Q
}.

Record RiskyCell : Type := mkRiskyCell {
  rk_ix : Z;
  rk_iz : Z;
  rk_sector : Sector;
  rk_risk : Q;
  rk_visits : Z;
  rk_barrierBlocked : bool;
  rk_outsideBounds : bool;
  rk_obstacleDominant : bool
}.

Record SectorSafetyInfo : Type := mkSectorSafetyInfo {
  sf_sector : Sector;
  sf_totalCount : nat;
  sf_safeCount : nat;
  sf_noGoCount : nat;
  sf_noGoRatio : Q;
  sf_bestSafeScore : option Q
}.

Record CurrentCellInfo : Type := mkCurrentCellInfo {
  cc_ix : Z;
  cc_iz : Z;
  cc_visits : Z;
  cc_risk : Q;
  cc_stuckCount : Z;
  cc_targetHitCount : Z;
  cc_targetMissCount : Z;
  cc_targetAbsence : Q;
  cc_obstacleHits : Z;
  cc_outerWallHits : Z;
  cc_weightScore : Q
}.

Record Diagnostics : Type := mkDiagnostics {
  candidateCount : nat;
  safeCandidateCount : nat;
  noGoCandidateCount : nat;
  dg_noGoRatio : Q;
  revisitRate : Q;
  targetColdCount : nat;
  targetColdRatio : Q;
  topCandidates : list CandidateSummary;
  topSafeCandidates : list CandidateSummary;
  preferredCandidate : option CandidateSummary;
  sectorSafety : list SectorSafetyInfo
}.

Record Context : Type := mkContext {
  gridCellSize : Q;
  currentCell : CurrentCellInfo;
  loopRate : Q;
  (** [true] stands for HIGH_REVISIT_LOOP_RISK, [false] for LOW *)
  loopWarning : bool;
  preferredSector : Sector;
  sectorScores : list SectorScore;
  frontier : list CandidateSummary;
  risky : list RiskyCell;
  mappedCells : nat;
  recentPathLength : nat;
  ctx_sensorRange : Q;
  diagnostics : Diagnostics
}.

Definition sumOf {A : Type} (f : A -> Q) (l : list A) : Q :=
  fold_left (fun acc x => acc + f x) l 0.

(** [count / total], or 0 when [total] is 0 *)
Definition ratio (count total : nat) : Q :=
  if (0 <? total)%nat
  then inject_Z (Z.of_nat count) / inject_Z (Z.of_nat total) else 0.

(** The offsets [-radius .. radius] *)
Definition offsets (radius : Z) : list Z :=
  map (fun k => (Z.of_nat k - radius)%Z) (seq 0 (Z.to_nat (2 * radius + 1))).

Definition isNoGo (c : Candidate * list NoGoReason) : bool :=
  match snd c with [] => false | _ :: _ => true end.

(** [getContext(sensorData, { radiusCells, maxFrontier, maxRisky })] *)
Definition getContext (st : State) (sd : SensorData) (radiusCells : Z)
    (maxFrontier maxRisky : nat) : option Context :=
  match worldX sd, worldZ sd with
  | Some x, Some z =>
      let headingDeg := asNum (headingDeg sd) 0 in
      let '(ix, iz) := toGrid x z (cellSize st) in
      let currentCell := default newCell (getCell (cells st) (ix, iz)) in
      let candidates :=
        concat
          (map (fun dz =>
                  concat
                    (map (fun dx =>
                            if (dx =? 0)%Z && (dz =? 0)%Z then []
                            else [evaluateCandidate st x z headingDeg ix iz
                                    (ix + dx) (iz + dz)])
                       (offsets radiusCells)))
             (offsets radiusCells)) in
      let sectorScores :=
        map (fun s =>
               let bucket :=
                 List.filter (fun c => negb (outsideBounds c) && Sector_eqb (sector c) s)
                   candidates in
               let count := inject_Z (Z.max 1 (Z.of_nat (List.length bucket))) in
               let novelty := sumOf novelty bucket / count in
               let risk := sumOf risk bucket / count in
               let open := sumOf openBias bucket / count in
               let targetPenalty := sumOf targetPenalty bucket / count in
               mkSectorScore s novelty risk open targetPenalty
                 (novelty * 1.2 + open * 0.4 - risk * 0.95 - targetPenalty * 0.9))
          [SL; SF; SR; SB] in
      let sectorScores := sortDesc sc_score sectorScores in
      let preferredSector :=
        match sectorScores with s :: _ => sc_sector s | [] => SF end in
      let diagnosticsCandidates := map (fun c => (c, getNoGoReasons c)) candidates in
      let safeCandidates := List.filter (fun c => negb (isNoGo c)) diagnosticsCandidates in
      let byScore := fun c : Candidate * list NoGoReason => score (fst c) in
      let frontier :=
        map (fun c => toCandidateSummary c false)
          (firstn maxFrontier
             (sortDesc byScore
                (List.filter (fun c => Qltb (risk (fst c)) 0.9) safeCandidates))) in
      let risky :=
        map (fun c =>
               mkRiskyCell (c_ix (fst c)) (c_iz (fst c)) (sector (fst c))
                 (round 3 (risk (fst c))) (c_visits (fst c)) (barrierBlocked (fst c))
                 (outsideBounds (fst c)) (obstacleDominant (fst c)))
          (firstn maxRisky
             (sortDesc (fun c : Candidate * list NoGoReason => risk (fst c))
                (List.filter (fun c => Qgtb (risk (fst c)) 0.5) diagnosticsCandidates))) in
      let recentPath := skipn (List.length (path st) - 80) (path st) in
      let sameCellCount :=
        List.length
          (List.filter (fun p => (p_ix p =? ix)%Z && (p_iz p =? iz)%Z) recentPath) in
      let loopRate := ratio sameCellCount (List.length recentPath) in
      let noGoCount := List.length (List.filter isNoGo diagnosticsCandidates) in
      let noGoRatio := ratio noGoCount (List.length diagnosticsCandidates) in
      let sortedCandidates := sortDesc byScore diagnosticsCandidates in
      let sortedSafeCandidates := sortDesc byScore safeCandidates in
      let preferredCandidate :=
        match List.find (fun c => Sector_eqb (sector (fst c)) preferredSector)
                sortedSafeCandidates with
        | Some c => Some c
        | None =>
            match sortedSafeCandidates with
            | c :: _ => Some c
            | [] => match sortedCandidates with c :: _ => Some c | [] => None end
            end
        end in
      let sectorSafety :=
        map (fun s =>
               let sectorCandidates :=
                 List.filter (fun c => Sector_eqb (sector (fst c)) s)
                   diagnosticsCandidates in
               let total := List.length sectorCandidates in
               let noGo := List.length (List.filter isNoGo sectorCandidates) in
               mkSectorSafetyInfo s total (total - noGo) noGo
                 (round 3 (ratio noGo total))
                 (match sortDesc byScore
                          (List.filter (fun c => negb (isNoGo c)) sectorCandidates) with
                  | bestSafe :: _ => Some (round 3 (score (fst bestSafe)))
                  | [] => None
                  end))
          [SL; SF; SR; SB] in
      let currentCellOpenHits := openHits currentCell in
      let currentCellObstacleHits := obstacleHits currentCell in
      let currentCellEvidence := (currentCellOpenHits + currentCellObstacleHits)%Z in
      let currentCellOpenBias :=
        inject_Z currentCellOpenHits / inject_Z (Z.max 1 currentCellEvidence) in
      let currentCellNovelty := 1 / (1 + inject_Z (visits currentCell)) in
      let currentCellTargetAbsence := clamp (targetAbsenceEMA currentCell) 0 1 in
      let currentCellTargetPenalty :=
        if (0 <? targetHitCount currentCell)%Z then 0
        else currentCellTargetAbsence * 0.65 in
      let currentCellWeightScore :=
        currentCellNovelty * 0.95 + currentCellOpenBias * 0.4
        - clamp (riskEMA currentCell) 0 1 * 0.95 - currentCellTargetPenalty in
      let targetColdCount :=
        List.length
          (List.filter (fun c => Qgtb (targetPenalty (fst c)) 0.35) diagnosticsCandidates) in
      Some
        {| gridCellSize := cellSize st;
           currentCell :=
             mkCurrentCellInfo ix iz (visits currentCell) (round 3 (riskEMA currentCell))
               (stuckCount currentCell) (targetHitCount currentCell)
               (targetMissCount currentCell) (round 3 currentCellTargetAbsence)
               currentCellObstacleHits (outerWallHits currentCell)
               (round 3 currentCellWeightScore);
           loopRate := round 3 loopRate;
           loopWarning := Qgtb loopRate 0.35;
           preferredSector := preferredSector;
           sectorScores :=
             map (fun s =>
                    mkSectorScore (sc_sector s) (round 3 (sc_novelty s))
                      (round 3 (sc_risk s)) (round 3 (sc_open s))
                      (round 3 (sc_targetPenalty s)) (round 3 (sc_score s)))
               sectorScores;
           frontier := frontier;
           risky := risky;
           mappedCells := List.length (cells st);
           recentPathLength := List.length recentPath;
           ctx_sensorRange := round 2 (st_sensorRange st);
           diagnostics :=
             {| candidateCount := List.length diagnosticsCandidates;
                safeCandidateCount := List.length safeCandidates;
                noGoCandidateCount := noGoCount;
                dg_noGoRatio := round 3 noGoRatio;
                revisitRate := round 3 loopRate;
                targetColdCount := targetColdCount;
                targetColdRatio :=
                  round 3 (ratio targetColdCount (List.length diagnosticsCandidates));
                topCandidates :=
                  map (fun c => toCandidateSummary c true) (firstn 3 sortedCandidates);
                topSafeCandidates :=
                  map (fun c => toCandidateSummary c false)
                    (firstn 3 sortedSafeCandidates);
                preferredCandidate :=
                  option_map (fun c => toCandidateSummary c true) preferredCandidate;
                sectorSafety := sectorSafety |} |}
  | _, _ => None
  end.

(** The score as the specification states it: the weighted sum, less the
    penalties it lists. *)
Definition statedScore (c : Candidate) : Q :=
  novelty c * 0.95 + openBias c * 0.4 - risk c * 0.95 - targetPenalty c * 0.95
  - c_distance c * 0.09
  - (if outsideBounds c then 1.2 else 0)
  - (if barrierBlocked c then 0.9 else 0)
  - (if obstacleDominant c then 0.95 else 0)
  - repeatPenalty c
  - (if (c_openHits c + c_obstacleHits c =? 0)%Z then 0.15 else 0).

(** The terms of the score that the specification does not list: the bonus
    for an unvisited cell that is neither blocked nor outside, the penalty of
    the world bounds at the cell's centre, and the flat penalties for a recent
    obstacle hit, for three obstacle hits and for two outer-wall hits. *)
Definition unvisitedBonus (c : Candidate) : Q :=
  if (c_visits c =? 0)%Z && negb (barrierBlocked c) && negb (outsideBounds c)
  then 0.22 else 0.

Definition boundsPenaltyAt (st : State) (c : Candidate) : Q :=
  let center := toCellCenter (c_ix c) (c_iz c) (cellSize st) in
  snd (getBoundsPenalty (fst center) (snd center) (worldBounds st)).

Definition hardHitPenalties (c : Candidate) : Q :=
  (if (1 <=? c_obstacleHits c)%Z && Qgeb (risk c) 0.62 then 0.55 else 0)
  + (if (OBSTACLE_REPEAT_HARD_NO_GO_HITS <=? c_obstacleHits c)%Z then 0.45 else 0)
  + (if (OUTER_WALL_REPEAT_HARD_NO_GO_HITS <=? c_outerWallHits c)%Z then 0.85 else 0).


(** [getVisualization(sensorData, { radiusCells, maxFrontier, maxRisky })]:
    the snapshot that the map display polls. *)
Record VisCell : Type := mkVisCell {
  v_ix : Z;
  v_iz : Z;
  v_dx : Z;
  v_dz : Z;
  v_visits : Z;
  v_risk : Q;
  v_score : Q;
  v_novelty : Q;
  v_openBias : Q;
  v_targetPenalty : Q;
  v_targetHitCount : Z;
  v_targetMissCount : Z;
  v_targetAbsence : Q;
  v_obstacleHits : Z;
  v_outerWallHits : Z;
  v_repeatPenalty : Q;
  v_isCurrent : bool;
  v_isFrontier : bool;
  v_isRisky : bool;
  v_hasData : bool;
  v_barrierBlocked : bool;
  v_outsideBounds : bool;
  v_obstacleDominant : bool
}.

Record Visualization : Type := mkVisualization {
  vis_center : Z * Z;
  vis_headingDeg : Q;
  vis_cellSize : Q;
  vis_sensorRange : Q;
  vis_radiusCells : Z;
  vis_cells : list VisCell;
  vis_frontier : list CandidateSummary;
  vis_risky : list RiskyCell;
  vis_preferredSector : Sector;
  vis_loopRate : Q;
  vis_loopWarning : bool;
  (** [memoryStats]; its [sensorRange] is missing from the default *)
  vis_mappedCells : nat;
  vis_recentPathLength : nat;
  vis_statsSensorRange : option Q;
  vis_diagnostics : option Diagnostics;
  vis_recentPath : list (Z * Z)
}.

Definition getVisualization (st : State) (sd : SensorData) (radiusCells : Z)
    (maxFrontier maxRisky : nat) : option Visualization :=
  match worldX sd, worldZ sd with
  | Some x, Some z =>
      let headingDeg := asNum (headingDeg sd) 0 in
      let '(ix, iz) := toGrid x z (cellSize st) in
      let context := getContext st sd (Z.max 2 (radiusCells / 3)) maxFrontier maxRisky in
      let contextFrontier := match context with Some c => frontier c | None => [] end in
      let contextRisky := match context with Some c => risky c | None => [] end in
      let frontierKeys := map (fun c => (cs_ix c, cs_iz c)) contextFrontier in
      let riskyKeys := map (fun c => (rk_ix c, rk_iz c)) contextRisky in
      let visCells :=
        concat
          (map (fun dz =>
                  map (fun dx =>
                         let nix := (ix + dx)%Z in
                         let niz := (iz + dz)%Z in
                         let candidate := evaluateCandidate st x z headingDeg ix iz nix niz in
                         {| v_ix := c_ix candidate;
                            v_iz := c_iz candidate;
                            v_dx := c_dx candidate;
                            v_dz := c_dz candidate;
                            v_visits := c_visits candidate;
                            v_risk := round 3 (risk candidate);
                            v_score := round 3 (score candidate);
                            v_novelty := round 3 (novelty candidate);
                            v_openBias := round 3 (openBias candidate);
                            v_targetPenalty := round 3 (targetPenalty candidate);
                            v_targetHitCount := c_targetHitCount candidate;
                            v_targetMissCount := c_targetMissCount candidate;
                            v_targetAbsence := round 3 (c_targetAbsenceEMA candidate);
                            v_obstacleHits := c_obstacleHits candidate;
                            v_outerWallHits := c_outerWallHits candidate;
                            v_repeatPenalty := round 3 (repeatPenalty candidate);
                            v_isCurrent := (nix =? ix)%Z && (niz =? iz)%Z;
                            v_isFrontier := keyIn (nix, niz) frontierKeys;
                            v_isRisky := keyIn (nix, niz) riskyKeys;
                            v_hasData := hasData candidate;
                            v_barrierBlocked := barrierBlocked candidate;
                            v_outsideBounds := outsideBounds candidate;
                            v_obstacleDominant := obstacleDominant candidate |})
                    (offsets radiusCells))
             (offsets radiusCells)) in
      let recentPath :=
        map (fun p => ((p_ix p - ix)%Z, (p_iz p - iz)%Z))
          (skipn (List.length (path st) - 120) (path st)) in
      Some
        {| vis_center := (ix, iz);
           vis_headingDeg := round 1 headingDeg;
           vis_cellSize := cellSize st;
           vis_sensorRange := round 2 (st_sensorRange st);
           vis_radiusCells := radiusCells;
           vis_cells := visCells;
           vis_frontier := contextFrontier;
           vis_risky := contextRisky;
           vis_preferredSector :=
             match context with Some c => preferredSector c | None => SF end;
           vis_loopRate := match context with Some c => loopRate c | None => 0 end;
           vis_loopWarning :=
             match context with Some c => loopWarning c | None => false end;
           vis_mappedCells :=
             match context with
             | Some c => mappedCells c | None => List.length (cells st) end;
           vis_recentPathLength :=
             match context with Some c => recentPathLength c | None => 0%nat end;
           vis_statsSensorRange :=
             match context with Some c => Some (ctx_sensorRange c) | None => None end;
           vis_diagnostics :=
             match context with Some c => Some (diagnostics c) | None => None end;
           vis_recentPath := recentPath |}
  | _, _ => None
  end.

(** [reset()] *)
Definition reset (st : State) : State :=
  mkState (cellSize st) (st_sensorRange st) (maxCells st) (worldBounds st) [] [].

(** [exportCells()]: every entry with its key parsed back to the indices. *)
Definition exportCells (st : State) : list (Z * Z * Cell) := cells st.
End Grid.

End Mem.


(** ** Sectors and control shaping *)

(** [normalizeSector(sector, fallback)]; [None] is a value that is not one of
    the four sector letters. *)
Definition normalizeSector (sector : option Sector) (fallback : Sector) : Sector :=
  match sector with Some s => s | None => fallback end.

Record Clearance : Type := mkClearance { cL : Q; cF : Q; cR : Q; cB : Q }.

(** [getSectorClearance] *)
Definition getSectorClearance (sd : SensorData) : Clearance :=
  {| cL := qmin (asNum (left sd) 99) (asNum (leftDiag sd) 99);
     cF := minFrontDistOf sd;
     cR := qmin (asNum (right sd) 99) (asNum (rightDiag sd) 99);
     cB := qmin (qmin (asNum (back sd) 99) (asNum (backLeft sd) 99))
             (asNum (backRight sd) 99) |}.

(** [clearance[s]] *)
Definition clearanceOf (c : Clearance) (s : Sector) : Q :=
  match s with SL => cL c | SF => cF c | SR => cR c | SB => cB c end.

(** [sectorFromSteering] *)
Definition sectorFromSteering (steering : Q) : Sector :=
  if Qgtb steering 0.25 then SL
  else if Qltb steering (-0.25) then SR
  else SF.

(** [steeringForSector] *)
Definition steeringForSector (sector : Sector) (fallbackSteering : Q) : Q :=
  match sector with
  | SL => 0.62
  | SR => -0.62
  | SF => 0
  | SB => fallbackSteering
  end.

(** [applySkillExecutor] *)
Record SkillExecution : Type := mkSkillExecution {
  se_throttle : Q;
  se_steering : Q;
  se_duration : Q;
  se_executorNote : Skill
}.

Definition applySkillExecutor
    (skillName : Skill) (strategySector : Sector) (throttle steering duration : Q)
    (signal : ContextSignal) (sd : SensorData) (skillIntensity : Q) : SkillExecution :=
  let frontDist := minFrontDistOf sd in
  let leftClear := qmin (asNum (left sd) 99) (asNum (leftDiag sd) 99) in
  let rightClear := qmin (asNum (right sd) 99) (asNum (rightDiag sd) 99) in
  let skillSector :=
    normalizeSector (Some strategySector)
      (if Qgtb (qabs steering) 0.2 then sectorFromSteering steering else SF) in
  let sectorSteer := steeringForSector skillSector steering in
  let intensity := clampNumber (Some skillIntensity) 0 1 0.5 in
  let '(nextThrottle, nextSteering, nextDuration) :=
    match skillName with
    | HOLD_POSITION => (0, 0, qmax duration 0.25)
    | BACKOFF_AND_TURN =>
        (qmin throttle (- (0.28 + 0.22 * intensity)),
         (if Qltb (qabs steering) 0.45
          then (if Qgeb leftClear rightClear then 0.72 else -0.72)
          else steering),
         qmax duration 0.45)
    | SCAN_SECTOR =>
        (qmax 0.1 (qmin throttle 0.2),
         (if Sector_eqb skillSector SF
          then 0.45 * (if (0 <? sig_reacquireTurnDir signal)%Z then 1 else -1)
          else steeringForSector skillSector steering * 0.72),
         qmax duration 0.35)
    | APPROACH_TARGET =>
        ((if Qgtb frontDist 2.7
          then qmax throttle (0.24 + 0.28 * intensity)
          else qmin throttle 0.18),
         (if Qltb (qabs steering) 0.22
          then (if Sector_eqb skillSector SF then steering else sectorSteer * 0.8)
          else steering),
         qmax duration 0.3)
    | MOVE_TO_FRONTIER =>
        (qmax throttle (0.22 + 0.2 * intensity),
         (if Qltb (qabs steering) 0.2 then sectorSteer * 0.7 else steering),
         qmax duration 0.35)
    end in
  {| se_throttle := clampNumber (Some nextThrottle) (-1) 1 throttle;
     se_steering := clampNumber (Some nextSteering) (-1) 1 steering;
     se_duration := clampNumber (Some nextDuration) 0.1 3.0 duration;
     se_executorNote := skillName |}.

(** ** The memory-aware safety guard *)

Record SectorSafety : Type := mkSectorSafety {
  ss_sector : option Sector;
  ss_safeCount : option Q;
  ss_noGoRatio : option Q
}.

(** The part of the exploration context that the decision reads. *)
Record ExplorationContext : Type := mkExplorationContext {
  ec_preferredSector : option Sector;
  ec_sectorSafety : list SectorSafety
}.

Inductive WallRegion : Type := OUTER_NORTH | OUTER_SOUTH | OUTER_EAST | OUTER_WEST.

Record CollisionSummary : Type := mkCollisionSummary {
  sameWallRepeatCount : option Q;
  sameWallConsecutiveRepeatCount : option Q;
  (** [None]: a region that is not one of the four outer walls *)
  lastRegion : option WallRegion
}.

Inductive GuardTag : Type :=
| forward_guard_reroute (intended best : Sector)
| forward_guard_reverse_escape (intended : Sector)
| forward_guard_hold (intended : Sector)
| front_tight_clamp
| rear_tight_prefer_forward
| rear_blocked.

Record GuardProfile : Type := mkGuardProfile {
  gp_intendedSector : Sector;
  gp_clearance : Clearance;
  gp_frontNearDanger : bool;
  gp_closeTargetApproach : bool;
  gp_allowFinalForwardApproach : bool;
  gp_targetHitCount : Z;
  gp_repeatedWallCount : Z;
  gp_repeatedConsecutive : Z;
  gp_repeatedWallSector : option Sector;
  gp_sensorBlockedSectors : list Sector;
  gp_memoryBlockedSectors : list Sector
}.

Record GuardResult : Type := mkGuardResult {
  g_throttle : Q;
  g_steering : Q;
  g_guardApplied : bool;
  g_guardReason : list GuardTag;
  g_profile : GuardProfile
}.

(** A JavaScript [Set] of sectors: its elements in insertion order. *)
Definition setHas (s : list Sector) (x : Sector) : bool := existsb (Sector_eqb x) s.
Definition setAdd (x : Sector) (s : list Sector) : list Sector :=
  if setHas s x then s else s ++ [x].
Definition setOfList (l : list Sector) : list Sector :=
  fold_left (fun acc x => setAdd x acc) l [].

Section DecisionCore.

(** [worldRegionToSector] buckets an [atan2] angle between the heading and an
    outer wall; the bucketing is a parameter. *)
Variable wallSector : WallRegion -> Q -> Sector.

Definition worldRegionToSector (region : option WallRegion) (headingDeg : option Q)
  : option Sector :=
  match region with
  | Some r => Some (wallSector r (asNum headingDeg 0))
  | None => None
  end.

(** [applyMemorySafetyGuard] *)
Definition applyMemorySafetyGuard
    (sd : SensorData) (explorationContext : option ExplorationContext)
    (strategySector : Sector) (collisionSummary : option CollisionSummary)
    (throttle steering : Q) : GuardResult :=
  let clearance := getSectorClearance sd in
  let sensorBlocked : list Sector :=
    (if Qltb (cF clearance) 2.9 then [SF] else [])
    ++ (if Qltb (cL clearance) 2.25 then [SL] else [])
    ++ (if Qltb (cR clearance) 2.25 then [SR] else [])
    ++ (if Qltb (cB clearance) 2.3 then [SB] else []) in
  let frontNearDanger := Qltb (cF clearance) 2.6 in
  let sectorSafety :=
    match explorationContext with Some ec => ec_sectorSafety ec | None => [] end in
  let memoryBlocked0 :=
    setOfList
      (map (fun s => normalizeSector (ss_sector s) SF)
         (List.filter
            (fun s =>
               let safeCount := asNum (ss_safeCount s) 0 in
               let noGoRatio := asNum (ss_noGoRatio s) 0 in
               (Qleb safeCount 2 && Qgeb noGoRatio 0.5) || Qgeb noGoRatio 0.75)
            sectorSafety)) in
  let repeatedWallCount :=
    Z.max 0 (jsRound (asNum (match collisionSummary with
                             | Some c => sameWallRepeatCount c | None => None end) 0)) in
  let repeatedConsecutive :=
    Z.max 0 (jsRound (asNum (match collisionSummary with
                             | Some c => sameWallConsecutiveRepeatCount c
                             | None => None end) 0)) in
  let repeatedWallSector :=
    worldRegionToSector
      (match collisionSummary with Some c => lastRegion c | None => None end)
      (headingDeg sd) in
  let memoryBlocked :=
    match repeatedWallSector with
    | Some s =>
        if (2 <=? repeatedConsecutive)%Z || (4 <=? repeatedWallCount)%Z
        then setAdd s memoryBlocked0 else memoryBlocked0
    | None => memoryBlocked0
    end in
  let intendedSector :=
    if Qgtb (qabs steering) 0.2 then sectorFromSteering steering
    else normalizeSector (Some strategySector) SF in
  let shouldGuardForward := Qgtb throttle 0.04 in
  let frontThrottleRisk :=
    Sector_eqb intendedSector SF && frontNearDanger && Qgtb throttle 0.18 in
  let forbiddenForward :=
    setHas sensorBlocked intendedSector || setHas memoryBlocked intendedSector
    || frontThrottleRisk in
  let targetHitCount := countTargetHits sd in
  let closeTargetApproach :=
    (0 <? targetHitCount)%Z
    || (Qltb (asNum (distanceToTarget sd) 99) 3.2
        && Qltb (qabs (asNum (angleToTarget sd) 180)) 18) in
  let allowFinalForwardApproach :=
    closeTargetApproach && Sector_eqb intendedSector SF && Qgtb (cF clearance) 2.2 in
  let '(nextThrottle, nextSteering, guardReason, guardApplied) :=
    if shouldGuardForward && forbiddenForward && negb allowFinalForwardApproach then
      let forwardOptions :=
        sortDesc (clearanceOf clearance)
          (List.filter (fun s => negb (setHas sensorBlocked s) && negb (setHas memoryBlocked s))
             [SF; SL; SR]) in
      match forwardOptions with
      | bestForward :: _ =>
          let nearClamp := if frontNearDanger then 0.22 else 0.34 in
          (qmin throttle (if Sector_eqb bestForward SF then 0.2 else nearClamp),
           steeringForSector bestForward steering,
           [forward_guard_reroute intendedSector bestForward], true)
      | [] =>
          if Qgtb (cB clearance) 2.8 then
            (-0.35,
             (if Qgeb (cL clearance) (cR clearance) then 0.58 else -0.58),
             [forward_guard_reverse_escape intendedSector], true)
          else (0, 0, [forward_guard_hold intendedSector], true)
      end
    else (throttle, steering, [], false) in
  (* Additional hard clamp: do not push forward strongly when front arc is tight. *)
  let '(nextThrottle, nextSteering, guardReason, guardApplied) :=
    if Qgtb nextThrottle 0.1 && Qltb (cF clearance) 2.35
       && negb allowFinalForwardApproach then
      (0.1,
       (if Qltb (qabs nextSteering) 0.35
        then (if Qgeb (cL clearance) (cR clearance) then 0.52 else -0.52)
        else nextSteering),
       guardReason ++ [front_tight_clamp], true)
    else (nextThrottle, nextSteering, guardReason, guardApplied) in
  let reverseRequested := Qltb nextThrottle (-0.08) in
  let rearTightForReverse := Qltb (cB clearance) 3.05 in
  let frontOpenForForwardEscape := Qgtb (cF clearance) 3.2 in
  let lateralEscapeOpen := Qgtb (qmax (cL clearance) (cR clearance)) 2.45 in
  let '(nextThrottle, nextSteering, guardReason, guardApplied) :=
    if reverseRequested && rearTightForReverse && frontOpenForForwardEscape
       && lateralEscapeOpen then
      (0.2,
       (if Qltb (qabs nextSteering) 0.45
        then (if Qgeb (cL clearance) (cR clearance) then 0.62 else -0.62)
        else nextSteering),
       guardReason ++ [rear_tight_prefer_forward], true)
    else (nextThrottle, nextSteering, guardReason, guardApplied) in
  let '(nextThrottle, guardReason, guardApplied) :=
    if Qltb nextThrottle (-0.08) && setHas sensorBlocked SB
    then (0, guardReason ++ [rear_blocked], true)
    else (nextThrottle, guardReason, guardApplied) in
  {| g_throttle := nextThrottle;
     g_steering := nextSteering;
     g_guardApplied := guardApplied;
     g_guardReason := guardReason;
     g_profile :=
       {| gp_intendedSector := intendedSector;
          gp_clearance := clearance;
          gp_frontNearDanger := frontNearDanger;
          gp_closeTargetApproach := closeTargetApproach;
          gp_allowFinalForwardApproach := allowFinalForwardApproach;
          gp_targetHitCount := targetHitCount;
          gp_repeatedWallCount := repeatedWallCount;
          gp_repeatedConsecutive := repeatedConsecutive;
          gp_repeatedWallSector := repeatedWallSector;
          gp_sensorBlockedSectors := sensorBlocked;
          gp_memoryBlockedSectors := memoryBlocked |} |}.

(** ** The decision cycle *)

Inductive TargetSignalMode : Type := STRONG | MEDIUM | WEAK.

(** [buildTargetSignalProfile(sensorData).mode] *)
Definition targetSignalMode (sd : SensorData) : TargetSignalMode :=
  let targetHitCount := countTargetHits sd in
  let angleAbs := qabs (asNum (angleToTarget sd) 180) in
  let distance := asNum (distanceToTarget sd) 99 in
  let hasContact := (0 <? targetHitCount)%Z in
  let nearTarget := Qltb distance 14 in
  if hasContact || (nearTarget && Qleb angleAbs 30) then STRONG
  else if nearTarget || Qleb angleAbs 70 then MEDIUM
  else WEAK.

(** [mapSignalToMode] *)
Definition mapSignalToMode (m : TargetSignalMode) : Mode :=
  match m with
  | STRONG => TARGET_LOCK
  | MEDIUM => MEMORY_EXPLORE
  | WEAK => MEMORY_EXPLORE
  end.

Local Open Scope string_scope.

(** [buildActionDescription] *)
Definition buildActionDescription (throttle steering : Q) : string :=
  let actionDescription :=
    if Qltb throttle (-0.1) then "REVERSE"
    else if Qgtb throttle 0.1 then "FORWARD"
    else "IDLE" in
  if Qltb steering (-0.3) then actionDescription ++ "_RIGHT"
  else if Qgtb steering 0.3 then actionDescription ++ "_LEFT"
  else actionDescription.

(** The outcome of [requestModelResponse]: the response text, or the
    exception it throws. *)
Inductive FetchOutcome : Type :=
| FetchOk (response : string)
| FetchAbort
| FetchFail.

Inductive OutputParseMethod : Type :=
| parsed_by (m : ParseMethod) (retry : bool)
| unparseable_model_output (retry : bool)
| api_timeout
| api_error.

(** What the risk cue of a resolved cycle reports after the model's own
    text: the context correction, the stabilizer's hold or force, the skill
    overrides and the cadence counters. *)
Record RiskCue : Type := mkRiskCue {
  rc_modeResolved : ModeResolved;
  rc_hysteresis : Stabilized;
  rc_skillResolved : SkillResolved;
  rc_cadence : CadenceResolved
}.

Record StrategyOut : Type := mkStrategyOut {
  so_mode : Mode;
  so_transition : Transition;
  so_confidence : Q;
  so_chosenSector : Sector;
  (** [None] for the fixed cue of a fallback *)
  so_riskCue : option RiskCue
}.

Record SkillOut : Type := mkSkillOut {
  sk_name : Skill;
  sk_intensity : Q;
  (** the executor profile that ran; [None] is the note [fallback] *)
  sk_executorNote : option Skill
}.

(** The Decision Output.  The texts that only feed the log and the prompt
    (thought, analysis, cues, raw response, latency) are left out; of the
    thought the model keeps what decides whether building it throws. *)
Record DecisionOutput : Type := mkDecisionOutput {
  d_throttle : Q;
  d_steering : Q;
  d_duration : Q;
  actionPlan : list ActionStep;
  d_reason : Reason;
  action : string;
  strategy : StrategyOut;
  skill : SkillOut;
  parseMethod : OutputParseMethod;
  parseRecovered : bool;
  safetyGuard : option GuardResult
}.

Definition ALPHA : Q := 1.0.

(** Whether the conversion of [v] to a string throws, as in a template
    literal.  An object is converted through its method [toString], and
    through [valueOf] when [toString] is no function.  An object that
    [JSON.parse] built inherits both from [Object.prototype] unless a member
    hides them; the value of a member is never a function, and the inherited
    [valueOf] returns the object itself, which is no string: an object with
    a member [toString] cannot be converted.  An array is joined: its
    elements are converted one after the other. *)
Fixpoint stringifyThrows (v : json) : bool :=
  match v with
  | JObj members =>
      match lookupLast "toString" members with Some _ => true | None => false end
  | JArr items =>
      (fix any (l : list json) : bool :=
         match l with
         | [] => false
         | x :: r => stringifyThrows x || any r
         end) items
  | _ => false
  end.

(** The thought of a decision: the value the response gave for it, or one
    of the texts that the function writes itself. *)
Inductive Thought : Type :=
| thoughtOf (v : jsval)
| ownThought.

Definition thoughtThrows (t : Thought) : bool :=
  match t with
  | thoughtOf (Some v) => stringifyThrows v
  | _ => false
  end.

(** The body of the inner [try] block once the response has parsed: the
    state as the body leaves it, the object that its [return] builds, and
    the thought that the template literal of that object converts to a
    string. *)
Definition assembleDecision
    (sd : SensorData) (explorationContext : option ExplorationContext)
    (collisionSummary : option CollisionSummary)
    (signal : ContextSignal) (fallbackMode : Mode) (previousStrategyMode : option Mode)
    (stabNow : Z) (st : SmoothingState) (parsedResult : ParseResult)
  : SmoothingState * DecisionOutput * Thought :=
  let result : jsval := Some (data parsedResult) in
  let control : jsval :=
    if isObject (field "control" result) then field "control" result else result in
  let rootActions := arrayOrEmpty (field "actions" result) in
  let controlActions := arrayOrEmpty (field "actions" control) in
  let actionPlanSource :=
    match rootActions with _ :: _ => rootActions | [] => controlActions end in
  let firstPlannedStep :=
    match actionPlanSource with
    | first :: _ => Some (normalizeActionStep (Some first) (mkFallbackStep 0.2 0 0.3 None))
    | [] => None
    end in
  let strategy := objectOrEmpty (field "strategy" result) in
  let skill := objectOrEmpty (field "skill" result) in
  let reflection := objectOrEmpty (field "reflection" result) in
  let reasonObj := objectOrEmpty (field "reason" result) in
  let strategyMode := normalizeStrategyMode (field "mode" strategy) fallbackMode in
  let strategyConfidence := clampNumber (finiteNum (field "confidence" strategy)) 0 1 0.5 in
  let strategySector :=
    match match asString (field "chosenSector" strategy) with
          | Some s => sectorOfString (toUpperCase s)
          | None => None
          end with
    | Some s => s
    | None =>
        default SF (match explorationContext with
                    | Some ec => ec_preferredSector ec | None => None end)
    end in
  let inferredSkill :=
    match strategyMode with
    | TARGET_LOCK => APPROACH_TARGET
    | ESCAPE_RECOVERY => BACKOFF_AND_TURN
    | MEMORY_EXPLORE => MOVE_TO_FRONTIER
    end in
  let skillName := normalizeSkillName (field "name" skill) inferredSkill in
  let skillIntensity := clampNumber (finiteNum (field "intensity" skill)) 0 1 0.5 in
  let reflectionAdjustment :=
    match asString (field "adjustment" reflection) with Some s => trim s | None => EmptyString end in
  let modeResolved :=
    resolveStrategyModeWithContext strategyMode signal previousStrategyMode in
  let strategyMode := mr_mode modeResolved in
  let strategyConfidence :=
    if mr_corrected modeResolved then qmin strategyConfidence 0.55 else strategyConfidence in
  let '(st, hysteresisResolved) :=
    stabilizeStrategyModeWithHysteresis st strategyMode signal stabNow in
  let strategyMode := sb_mode hysteresisResolved in
  let strategyConfidence :=
    if sb_held hysteresisResolved then qmin strategyConfidence 0.72
    else strategyConfidence in
  let strategyTransition :=
    deriveStrategyTransition
      (match asString (field "transition" strategy) with
       | Some s => String_eqb (toUpperCase s) "SWITCH" | None => false end)
      previousStrategyMode strategyMode
      (mr_corrected modeResolved || sb_forced hysteresisResolved) in
  let finalThrottle :=
    clampNumber (finiteNum (field "throttle" control)) (-1.0) 1.0
      (match firstPlannedStep with Some s => throttle s | None => 0.4 end) in
  let rawSteering :=
    clampNumber (finiteNum (field "steering" control)) (-1.0) 1.0
      (match firstPlannedStep with Some s => steering s | None => 0.0 end) in
  let finalDuration :=
    clampNumber (finiteNum (field "duration" control)) 0.1 3.0
      (match firstPlannedStep with Some s => duration s | None => 1.0 end) in
  let finalThought :=
    thoughtOf (jsOr (field "thought" result)
                 (jsOr (field "rationale" strategy) (Some (JStr "Driving")))) in
  let skillResolved :=
    resolveSkillWithContext skillName strategyMode strategySector signal sd in
  let skillName := sr_skill skillResolved in
  let '(st, skillCadenceResolved) :=
    enforceSkillCadence skillName strategyMode signal sd (sr_approachBias skillResolved) st in
  let skillName := cr_skill skillCadenceResolved in
  let finalDuration :=
    if (match sr_overrideReason skillResolved with
        | target_lock_forces_approach => true | _ => false end
        || cr_approachHoldLock skillCadenceResolved)
       && Qltb finalDuration 0.28
    then 0.28 else finalDuration in
  let minFrontDist := minFrontDistOf sd in
  let backClear := Qgtb (asNum (back sd) 99) 3.0 in
  (* Safety-only hard override. *)
  let finalThought :=
    if Qltb minFrontDist 2.5 && Qgtb finalThrottle 0 then ownThought else finalThought in
  let '(finalThrottle, rawSteering) :=
    if Qltb minFrontDist 2.5 && Qgtb finalThrottle 0 then
      let leftEscape := qmin (asNum (left sd) 99) (asNum (leftDiag sd) 99) in
      let rightEscape := qmin (asNum (right sd) 99) (asNum (rightDiag sd) 99) in
      if backClear
      then (-0.5, if Qgeb leftEscape rightEscape then 0.6 else -0.6)
      else (0, if Qgeb leftEscape rightEscape then 0.8 else -0.8)
    else (finalThrottle, rawSteering) in
  (* Keep target lock assertive but still LLM-led. *)
  let finalThrottle :=
    if Mode_eqb strategyMode TARGET_LOCK && Qgtb minFrontDist 3.0
       && Qltb (qabs finalThrottle) 0.08
    then 0.2 else finalThrottle in
  (* Explicit target-reacquire behavior after prolonged 0-contact periods. *)
  let finalThought :=
    if reacquireActive signal && Mode_eqb strategyMode MEMORY_EXPLORE
       && negb (danger signal) && negb (hasTargetContact signal)
    then ownThought else finalThought in
  let '(finalThrottle, rawSteering, finalDuration) :=
    if reacquireActive signal && Mode_eqb strategyMode MEMORY_EXPLORE
       && negb (danger signal) && negb (hasTargetContact signal) then
      let sweepDir := if (0 <? sig_reacquireTurnDir signal)%Z then 1 else -1 in
      ((if Qltb finalThrottle 0.25 then 0.35 else finalThrottle),
       (if Qltb (qabs rawSteering) 0.35 then 0.62 * sweepDir else rawSteering),
       (if Qltb finalDuration 0.45 then 0.45 else finalDuration))
    else (finalThrottle, rawSteering, finalDuration) in
  let skillExecution :=
    applySkillExecutor skillName strategySector finalThrottle rawSteering finalDuration
      signal sd skillIntensity in
  let finalThrottle := se_throttle skillExecution in
  let rawSteering := se_steering skillExecution in
  let finalDuration := se_duration skillExecution in
  let guardResult :=
    applyMemorySafetyGuard sd explorationContext strategySector collisionSummary
      finalThrottle rawSteering in
  let '(finalThrottle, rawSteering) :=
    if g_guardApplied guardResult
    then (g_throttle guardResult, g_steering guardResult)
    else (finalThrottle, rawSteering) in
  let finalThought := if g_guardApplied guardResult then ownThought else finalThought in
  let targetSteering := rawSteering in
  let st :=
    if Qgtb (qabs rawSteering) 0.7 && Qgtb minFrontDist 4.0
    then set_lastSteering targetSteering st else st in
  let finalThought :=
    if Qltb finalThrottle 0 && negb backClear then ownThought else finalThought in
  let finalThrottle :=
    if Qltb finalThrottle 0 && negb backClear then 0 else finalThrottle in
  let smoothedSteering := targetSteering * ALPHA + lastSteering st * (1.0 - ALPHA) in
  let st := set_lastSteering smoothedSteering st in
  let st := set_lastStrategyMode (Some strategyMode) st in
  let st := set_lastSkillName (Some skillName) st in
  let st :=
    if negb (isEmpty reflectionAdjustment)
    then set_lastReflectionHint reflectionAdjustment st else st in
  let decisionReason :=
    normalizeActionReason reasonObj
      (Some (buildDefaultDecisionReason strategyMode skillName strategySector
               finalThrottle smoothedSteering))
      finalThrottle smoothedSteering in
  let normalizedActionPlan :=
    normalizeActionPlan actionPlanSource
      (mkFallbackStep finalThrottle smoothedSteering finalDuration (Some decisionReason)) in
  let actionPlan :=
    match normalizedActionPlan with
    | first :: others =>
        {| throttle := finalThrottle;
           steering := smoothedSteering;
           duration := finalDuration;
           reason := normalizeActionReason (Some (reasonToJson (reason first)))
                       (Some decisionReason) finalThrottle smoothedSteering |}
        :: map (fun step =>
                  {| throttle := throttle step;
                     steering := steering step;
                     duration := duration step;
                     reason := normalizeActionReason (Some (reasonToJson (reason step)))
                                 (Some decisionReason) (throttle step) (steering step) |})
             others
    | [] =>
        [{| throttle := finalThrottle;
            steering := smoothedSteering;
            duration := finalDuration;
            reason := normalizeActionReason (Some JNull) (Some decisionReason)
                        finalThrottle smoothedSteering |}]
    end in
  (st,
   {| d_throttle := finalThrottle;
      d_steering := smoothedSteering;
      d_duration := finalDuration;
      actionPlan := actionPlan;
      d_reason := decisionReason;
      action := buildActionDescription finalThrottle smoothedSteering;
      strategy := mkStrategyOut strategyMode strategyTransition strategyConfidence
                    strategySector
                    (Some (mkRiskCue modeResolved hysteresisResolved skillResolved
                             skillCadenceResolved));
      skill := mkSkillOut skillName skillIntensity (Some (se_executorNote skillExecution));
      parseMethod := parsed_by (method parsedResult) (fromRetry parsedResult);
      parseRecovered := recovered parsedResult;
      safetyGuard := Some guardResult |},
   finalThought).

(** The hold that both [catch] blocks return; [tag] is the reason code and
    [text] its summary. *)
Definition fallbackDecision
    (signal : ContextSignal) (previousStrategyMode : option Mode)
    (st : SmoothingState) (tag text : string) (pm : OutputParseMethod)
  : SmoothingState * DecisionOutput :=
  let failMode := expectedMode signal in
  let st := set_lastStrategyMode (Some failMode) st in
  let fallbackReason :=
    normalizeActionReason
      (Some (JObj [("code", JStr tag); ("summary", JStr text)]))
      (Some (buildDefaultDecisionReason failMode HOLD_POSITION SF 0 0))
      0 0 in
  (st,
   {| d_throttle := 0;
      d_steering := 0;
      d_duration := 1.0;
      actionPlan := [{| throttle := 0; steering := 0; duration := 1.0;
                        reason := fallbackReason |}];
      d_reason := fallbackReason;
      action := "ERROR";
      strategy := mkStrategyOut failMode
                    (deriveStrategyTransition false previousStrategyMode failMode false)
                    0 SF None;
      skill := mkSkillOut HOLD_POSITION 1 None;
      parseMethod := pm;
      parseRecovered := false;
      safetyGuard := None |}).

(** The inner [try] block of [getDrivingDecision] once the response has
    parsed, with its [catch]: when the thought cannot be converted to a
    string the [return] throws, after the body has changed the state, and
    the block returns the hold of a response that did not parse.
    [retryPromptUsed] tells whether the retry was asked for. *)
Definition decideFromParsed
    (sd : SensorData) (explorationContext : option ExplorationContext)
    (collisionSummary : option CollisionSummary)
    (signal : ContextSignal) (fallbackMode : Mode) (previousStrategyMode : option Mode)
    (stabNow : Z) (st : SmoothingState) (parsedResult : ParseResult)
    (retryPromptUsed : bool)
  : SmoothingState * DecisionOutput :=
  let '(st', output, finalThought) :=
    assembleDecision sd explorationContext collisionSummary signal fallbackMode
      previousStrategyMode stabNow st parsedResult in
  if thoughtThrows finalThought
  then fallbackDecision signal previousStrategyMode st'
         "PARSER_ERROR_HOLD" "Parse failed, hold and retry strict JSON."
         (unparseable_model_output retryPromptUsed)
  else (st', output).

(** [getDrivingDecision(sensorData, actionHistory, modelName, smoothingState,
    explorationContext, runtimeDiagnostics)].  [tickNow] and [stabNow] are the
    two readings of [Date.now()]; [primary] and [retry] are what the first
    request and the retry request return or throw. *)
Definition getDrivingDecision
    (sd : SensorData) (st0 : SmoothingState)
    (explorationContext : option ExplorationContext)
    (collisionSummary : option CollisionSummary)
    (tickNow stabNow : Z) (primary retry : FetchOutcome)
  : SmoothingState * DecisionOutput :=
  let st := ensureSmoothingState st0 in
  let '(st, contactState) := updateContactTracking st sd tickNow in
  let signal := inferContextModeSignal sd (Some contactState) in
  let fallbackMode := mapSignalToMode (targetSignalMode sd) in
  let previousStrategyMode := lastStrategyMode st in
  match primary with
  | FetchAbort =>
      fallbackDecision signal previousStrategyMode st
        "API_TIMEOUT_HOLD" "API timeout, hold and retry next cycle." api_timeout
  | FetchFail =>
      fallbackDecision signal previousStrategyMode st
        "API_ERROR_HOLD" "API error, hold and retry next cycle." api_error
  | FetchOk rawResponse =>
      let parsedResult := parseModelResponseJson rawResponse in
      let shouldRetryForStrict :=
        match parsedResult with
        | None => true
        | Some p =>
            match method p with loose_recovery => true | _ => false end
            || isLikelyTruncatedJsonResponse rawResponse
        end in
      let parsedResult :=
        if shouldRetryForStrict then
          match retry with
          | FetchOk retryRaw =>
              match parseModelResponseJson retryRaw with
              | Some retryParsed =>
                  if negb (isLikelyTruncatedJsonResponse retryRaw)
                  then Some (mkParseResult (data retryParsed) (recovered retryParsed)
                               (method retryParsed) true)
                  else parsedResult
              | None => parsedResult
              end
          | _ => parsedResult
          end
        else parsedResult in
      match parsedResult with
      | Some p =>
          decideFromParsed sd explorationContext collisionSummary signal fallbackMode
            previousStrategyMode stabNow st p shouldRetryForStrict
      | None =>
          fallbackDecision signal previousStrategyMode st
            "PARSER_ERROR_HOLD" "Parse failed, hold and retry strict JSON."
            (unparseable_model_output shouldRetryForStrict)
      end
  end.

Local Close Scope string_scope.

(** ** Sequences of decision cycles *)

(** What one call of [getDrivingDecision] takes from outside the session
    state. *)
Record CycleInput : Type := mkCycleInput {
  ci_sensor : SensorData;
  ci_exploration : option ExplorationContext;
  ci_collisions : option CollisionSummary;
  ci_tickNow : Z;
  ci_stabNow : Z;
  ci_primary : FetchOutcome;
  ci_retry : FetchOutcome
}.

Record CycleEvent : Type := mkCycleEvent {
  ev_input : CycleInput;
  ev_before : SmoothingState;
  ev_after : SmoothingState;
  ev_output : DecisionOutput
}.

(** The orchestrator's loop: one session state, one call per cycle. *)
Fixpoint runCycles (st : SmoothingState) (inputs : list CycleInput) : list CycleEvent :=
  match inputs with
  | [] => []
  | i :: rest =>
      let '(st', out) :=
        getDrivingDecision (ci_sensor i) st (ci_exploration i) (ci_collisions i)
          (ci_tickNow i) (ci_stabNow i) (ci_primary i) (ci_retry i) in
      mkCycleEvent i st st' out :: runCycles st' rest
  end.

Definition ev_mode (e : CycleEvent) : Mode := so_mode (strategy (ev_output e)).
Definition ev_skill (e : CycleEvent) : Skill := sk_name (skill (ev_output e)).
Definition ev_time (e : CycleEvent) : Z := ci_stabNow (ev_input e).

(** The cycle resolved a model response: it did not end in a fallback. *)
Definition ev_resolved (e : CycleEvent) : bool :=
  match so_riskCue (strategy (ev_output e)) with Some _ => true | None => false end.

(** The resolved mode differs from the mode of the cycle before. *)
Definition modeSwitched (e : CycleEvent) : bool :=
  match lastStrategyMode (ev_before e) with
  | Some p => negb (Mode_eqb p (ev_mode e))
  | None => false
  end.

(** The stabilizer's reason, when the cycle reached the stabilizer. *)
Definition ev_stabReason (e : CycleEvent) : option StabReason :=
  option_map (fun rc => sb_reason (rc_hysteresis rc)) (so_riskCue (strategy (ev_output e))).

(** The switch is one of the stabilizer's forced overrides. *)
Definition forcedOverride (e : CycleEvent) : bool :=
  match ev_stabReason e with
  | Some critical_context_override
  | Some lock_priority_promotion
  | Some strong_lock_promotion => true
  | _ => false
  end.

(** The switch is a critical-danger or a lock-priority override. *)
Definition criticalOrLockPriorityOverride (e : CycleEvent) : bool :=
  match ev_stabReason e with
  | Some critical_context_override
  | Some lock_priority_promotion => true
  | _ => false
  end.

(** The state and the signal a cycle works with, after contact tracking. *)
Definition trackedState (st : SmoothingState) (i : CycleInput) : SmoothingState :=
  fst (updateContactTracking (ensureSmoothingState st) (ci_sensor i) (ci_tickNow i)).

Definition cycleSignal (st : SmoothingState) (i : CycleInput) : ContextSignal :=
  inferContextModeSignal (ci_sensor i)
    (Some (snd (updateContactTracking (ensureSmoothingState st) (ci_sensor i)
                  (ci_tickNow i)))).

Definition cycle (st : SmoothingState) (i : CycleInput) : SmoothingState * DecisionOutput :=
  getDrivingDecision (ci_sensor i) st (ci_exploration i) (ci_collisions i)
    (ci_tickNow i) (ci_stabNow i) (ci_primary i) (ci_retry i).

End DecisionCore.

(** ** The call as its caller makes it

    [getDrivingDecision] builds its prompt before it enters the [try]
    block.  The prompt calls [toFixed] on the target distance and angle, on
    the eight rays and on the speed, and [toUpperCase] on [moveDir], each
    behind [?.]: an absent field is skipped, a field of the expected type is
    converted, and a field of another type has no such method, so the
    template throws a [TypeError] that no [catch] of the function sees.
    When the snapshot itself is [null] or [undefined], the first property
    access of the template throws.  The action history and the session
    state are of their types, as in the rest of the development. *)

Inductive Raw (A : Type) : Type :=
| absent            (* [undefined], [null], or no such property *)
| typed (a : A)     (* a value of the type the prompt expects *)
| illTyped.         (* a value of another type: it lacks the method called *)

Arguments absent {A}.
Arguments typed {A} a.
Arguments illTyped {A}.


(** What [asNum] and the [typeof] tests see of a numeric field: a number is
    [None] when it is not finite. *)
Definition numberOf (r : Raw (option Q)) : option Q :=
  match r with typed q => q | _ => None end.

(** The snapshot object as passed: the fields that the prompt converts may
    hold anything. *)
Record RawSensorData : Type := mkRawSensorData {
  raw_left : Raw (option Q);
  raw_leftDiag : Raw (option Q);
  raw_front : Raw (option Q);
  raw_rightDiag : Raw (option Q);
  raw_right : Raw (option Q);
  raw_backLeft : Raw (option Q);
  raw_back : Raw (option Q);
  raw_backRight : Raw (option Q);
  raw_worldX : option Q;
  raw_worldZ : option Q;
  raw_headingDeg : option Q;
  raw_sensorRange : option Q;
  raw_targetHits : list bool;
  raw_angleToTarget : Raw (option Q);
  raw_distanceToTarget : Raw (option Q);
  raw_isStuck : bool;
  raw_speed : Raw (option Q);
  raw_moveDir : Raw string
}.

(** The snapshot as the type-guarded helpers read it. *)
Definition snapshotOf (raw : RawSensorData) : SensorData :=
  {| left := numberOf (raw_left raw);
     leftDiag := numberOf (raw_leftDiag raw);
     front := numberOf (raw_front raw);
     rightDiag := numberOf (raw_rightDiag raw);
     right := numberOf (raw_right raw);
     backLeft := numberOf (raw_backLeft raw);
     back := numberOf (raw_back raw);
     backRight := numberOf (raw_backRight raw);
     worldX := raw_worldX raw;
     worldZ := raw_worldZ raw;
     headingDeg := raw_headingDeg raw;
     sensorRange := raw_sensorRange raw;
     targetHits := raw_targetHits raw;
     angleToTarget := numberOf (raw_angleToTarget raw);
     distanceToTarget := numberOf (raw_distanceToTarget raw);
     isStuck := raw_isStuck raw |}.




(** * Statements

    The predicates and views in which the properties are stated. *)

(** What the stuck flag or a critically close front arc means for the signal. *)
Definition criticalDanger (sd : SensorData) : Prop :=
  isStuck sd = true \/ minFrontDistOf sd < CRITICAL_FRONT_DIST.

(** The output reports a parsed response: the cycle resolved it, and did
    not end in one of the fallback holds. *)
Definition resolvedOutput (out : DecisionOutput) : Prop :=
  exists m r, parseMethod out = parsed_by m r.

(** The stabilizer's verdict is a function of these conditions. *)
Inductive StabCase (st : SmoothingState) (desired : Mode) (signal : ContextSignal) (now : Z)
  : Stabilized -> Prop :=
| sc_stable :
    (lastStrategyMode st = None \/ lastStrategyMode st = Some desired) ->
    StabCase st desired signal now (mkStabilized desired false false stable)
| sc_hold_window p :
    lastStrategyMode st = Some p -> desired <> p ->
    targetLockHoldActive st p signal = true -> desired <> TARGET_LOCK ->
    StabCase st desired signal now
      (mkStabilized TARGET_LOCK true true target_lock_hold_window)
| sc_forced p why :
    lastStrategyMode st = Some p -> desired <> p ->
    criticalOverride signal || strongLockPromotion desired signal
      || lockPriorityPromotion desired signal = true ->
    why = (if criticalOverride signal then critical_context_override
           else if lockPriorityPromotion desired signal then lock_priority_promotion
           else strong_lock_promotion) ->
    StabCase st desired signal now (mkStabilized desired false true why)
| sc_held p why :
    lastStrategyMode st = Some p -> desired <> p ->
    criticalOverride signal = false -> strongLockPromotion desired signal = false ->
    lockPriorityPromotion desired signal = false ->
    why = switch_cooldown_hold \/ why = minimum_mode_hold
    \/ (why = pending_switch_vote /\ pendingStrategyMode st <> Some desired)
    \/ (why = pending_switch_wait /\ pendingStrategyMode st = Some desired) ->
    StabCase st desired signal now (mkStabilized p true false why)
| sc_confirmed p :
    lastStrategyMode st = Some p -> desired <> p ->
    criticalOverride signal = false -> strongLockPromotion desired signal = false ->
    lockPriorityPromotion desired signal = false ->
    (targetLockHoldActive st p signal = false \/ desired = TARGET_LOCK) ->
    ~ (0 < lastModeSwitchAt st /\ now - lastModeSwitchAt st < MODE_SWITCH_COOLDOWN_MS)%Z ->
    (modeHoldRemaining st <= 0)%Z ->
    pendingStrategyMode st = Some desired ->
    (MODE_SWITCH_MIN_VOTES <= pendingStrategyVotes st + 1)%Z ->
    (MODE_SWITCH_MIN_DWELL_MS <= now - pendingStrategySince st)%Z ->
    StabCase st desired signal now
      (mkStabilized desired false false hysteresis_confirmed_switch).

(** The verdicts that record a switch time. *)
Definition recordsSwitch (r : Stabilized) : bool :=
  match sb_reason r with
  | critical_context_override | lock_priority_promotion | strong_lock_promotion
  | hysteresis_confirmed_switch => true
  | _ => false
  end.

(** The fields of the session state that the stabilizer and the cadence
    control own. *)
Record TrackerView : Type := mkTrackerView {
  tv_lastModeSwitchAt : Z;
  tv_pendingStrategyMode : option Mode;
  tv_pendingStrategySince : Z;
  tv_pendingStrategyVotes : Z;
  tv_modeHoldRemaining : Z;
  tv_targetLockHoldRemaining : Z
}.

Definition trackerView (st : SmoothingState) : TrackerView :=
  {| tv_lastModeSwitchAt := lastModeSwitchAt st;
     tv_pendingStrategyMode := pendingStrategyMode st;
     tv_pendingStrategySince := pendingStrategySince st;
     tv_pendingStrategyVotes := pendingStrategyVotes st;
     tv_modeHoldRemaining := modeHoldRemaining st;
     tv_targetLockHoldRemaining := targetLockHoldRemaining st |}.

(** What a resolved cycle did, in terms of the two state machines: [raw] is
    the mode and [requested] the skill the response asked for, after
    normalisation. *)
Record ResolvedView (signal : ContextSignal) (sd : SensorData) (stabNow : Z)
    (st1 st' : SmoothingState) (out : DecisionOutput) (rc : RiskCue)
    (raw : Mode) (requested : Skill) (sector : Sector) : Prop :=
  mkResolvedView {
  rv_mode_resolved :
    rc_modeResolved rc = resolveStrategyModeWithContext raw signal (lastStrategyMode st1);
  rv_hysteresis :
    rc_hysteresis rc
    = snd (stabilizeStrategyModeWithHysteresis st1 (mr_mode (rc_modeResolved rc))
             signal stabNow);
  rv_mode : so_mode (strategy out) = sb_mode (rc_hysteresis rc);
  rv_skill_resolved :
    rc_skillResolved rc
    = resolveSkillWithContext requested (so_mode (strategy out)) sector signal sd;
  rv_cadence :
    rc_cadence rc
    = snd (enforceSkillCadence (sr_skill (rc_skillResolved rc)) (so_mode (strategy out))
             signal sd (sr_approachBias (rc_skillResolved rc))
             (fst (stabilizeStrategyModeWithHysteresis st1
                     (mr_mode (rc_modeResolved rc)) signal stabNow)));
  rv_skill : sk_name (skill out) = cr_skill (rc_cadence rc);
  rv_tracker :
    trackerView st'
    = trackerView (fst (stabilizeStrategyModeWithHysteresis st1
                          (mr_mode (rc_modeResolved rc)) signal stabNow));
  rv_lastMode : lastStrategyMode st' = Some (so_mode (strategy out));
  rv_lastSkill : lastSkillName st' = Some (sk_name (skill out));
  rv_approachHold : approachHoldRemaining st' = cr_approachHoldRemaining (rc_cadence rc);
  rv_scanBurst : scanBurstCount st' = cr_scanBurstCount (rc_cadence rc);
  rv_backoffBurst : backoffBurstCount st' = cr_backoffBurstCount (rc_cadence rc)
}.

(** What a fallback did: it holds in the context-expected mode, and of the
    state [stBefore] it found it changes the last mode only. *)
Definition heldFrom (signal : ContextSignal) (stBefore st' : SmoothingState)
    (out : DecisionOutput) : Prop :=
  so_mode (strategy out) = expectedMode signal
  /\ sk_name (skill out) = HOLD_POSITION
  /\ st' = set_lastStrategyMode (Some (expectedMode signal)) stBefore.

(** The clock of the cycles is positive and never runs backwards. *)
Definition clockOrdered (inputs : list CycleInput) : Prop :=
  Forall (fun i => (0 < ci_stabNow i)%Z) inputs
  /\ StronglySorted (fun a b => (ci_stabNow a <= ci_stabNow b)%Z) inputs.

Fixpoint sumDurations (plan : list ActionStep) : Q :=
  match plan with
  | [] => 0
  | s :: rest => duration s + sumDurations rest
  end.

(** A step as [normalizeActionPlan] emits it. *)
Definition normalisedStep (s : ActionStep) : Prop :=
  (-1 <= throttle s /\ throttle s <= 1)
  /\ (-1 <= steering s /\ steering s <= 1)
  /\ (0.1 <= duration s /\ duration s <= 1.2).

(** A step of the Decision Output: controls and duration within their
    bounds, and a reason with a code and a summary. *)
Definition stepWellFormed (s : ActionStep) : Prop :=
  (-1 <= throttle s /\ throttle s <= 1)
  /\ (-1 <= steering s /\ steering s <= 1)
  /\ (0.1 <= duration s /\ duration s <= 3.0)
  /\ code (reason s) <> EmptyString
  /\ summary (reason s) <> EmptyString.

Definition planWellFormed (plan : list ActionStep) : Prop :=
  (1 <= List.length plan <= 5)%nat
  /\ Forall stepWellFormed plan
  /\ sumDurations (tl plan) <= 1.1025.




(** * Scenarios

    The concrete snapshots, responses and traces that the properties are
    checked on. *)

(** Scenario B of the preflight self-check, ESCAPE_FRONT_BLOCKED. *)
Definition scenarioB : SensorData :=
  {| left := Some 2.2; leftDiag := Some 1.7; front := Some 1.4; rightDiag := Some 1.6;
     right := Some 2.1; backLeft := Some 5.0; back := Some 6.0; backRight := Some 5.2;
     worldX := Some 0; worldZ := Some 0; headingDeg := Some 0; sensorRange := None;
     targetHits := []; angleToTarget := Some 5; distanceToTarget := Some 10;
     isStuck := true |}.

(** The snapshot object of a car that reports numbers in every field, with
    the speed and the moving direction that the prompt prints. *)
Definition rawSnapshot (sd : SensorData) (speed : Q) (moveDir : string) : RawSensorData :=
  {| raw_left := typed (left sd);
     raw_leftDiag := typed (leftDiag sd);
     raw_front := typed (front sd);
     raw_rightDiag := typed (rightDiag sd);
     raw_right := typed (right sd);
     raw_backLeft := typed (backLeft sd);
     raw_back := typed (back sd);
     raw_backRight := typed (backRight sd);
     raw_worldX := worldX sd;
     raw_worldZ := worldZ sd;
     raw_headingDeg := headingDeg sd;
     raw_sensorRange := sensorRange sd;
     raw_targetHits := targetHits sd;
     raw_angleToTarget := typed (angleToTarget sd);
     raw_distanceToTarget := typed (distanceToTarget sd);
     raw_isStuck := isStuck sd;
     raw_speed := typed (Some speed);
     raw_moveDir := typed moveDir |}.



(** A response that asks for the target lock and a forward approach. *)
Definition lockApproachResponse : string :=
  withQuotes "{`strategy`:{`mode`:`TARGET_LOCK`,`transition`:`HOLD`,`chosenSector`:`F`},`skill`:{`name`:`APPROACH_TARGET`,`intensity`:0.8},`control`:{`throttle`:0.6,`steering`:0,`duration`:0.3}}".

(** A response that asks to reverse and gives as its thought an object with
    a member [toString], which no template literal can convert. *)
Definition unprintableThoughtResponse : string :=
  withQuotes "{`thought`:{`toString`:1},`control`:{`throttle`:-0.3,`steering`:0.5,`duration`:0.4}}".

(** Open ground with the target far behind: scenario EXPLORE_NO_TARGET. *)
Definition openFarTarget : SensorData :=
  {| left := Some 9.8; leftDiag := Some 9.8; front := Some 9.8; rightDiag := Some 9.8;
     right := Some 9.8; backLeft := Some 9.8; back := Some 9.8; backRight := Some 9.8;
     worldX := Some 0; worldZ := Some 0; headingDeg := Some 0; sensorRange := None;
     targetHits := []; angleToTarget := Some 155; distanceToTarget := Some 60;
     isStuck := false |}.

(** Open ground with the target 6 m away, 49 degrees off the heading. *)
Definition openNearTarget : SensorData :=
  {| left := Some 9.8; leftDiag := Some 9.8; front := Some 9.8; rightDiag := Some 9.8;
     right := Some 9.8; backLeft := Some 9.8; back := Some 9.8; backRight := Some 9.8;
     worldX := Some 0; worldZ := Some 0; headingDeg := Some 0; sensorRange := None;
     targetHits := []; angleToTarget := Some 49; distanceToTarget := Some 6;
     isStuck := false |}.

(** A response that asks for [mode] and leaves the rest to the defaults. *)
Definition responseAsking (mode : string) : string :=
  withQuotes ("{`strategy`:{`mode`:`" ++ mode
              ++ "`},`control`:{`throttle`:0.2,`steering`:0,`duration`:0.3}}").

(** A cycle whose request returns [response] and whose retry fails. *)
Definition cycleOf (sd : SensorData) (tickNow stabNow : Z) (response : string) : CycleInput :=
  mkCycleInput sd None None tickNow stabNow (FetchOk response) FetchFail.

(** Four cycles: the model asks for escape on open ground, then twice for
    exploration, then the target comes near at 49 degrees. *)
Definition switchTrace : list CycleInput :=
  [ cycleOf openFarTarget 900 1000 (responseAsking "ESCAPE_RECOVERY");
    cycleOf openFarTarget 1900 2000 (responseAsking "MEMORY_EXPLORE");
    cycleOf openFarTarget 3400 3500 (responseAsking "MEMORY_EXPLORE");
    cycleOf openNearTarget 3900 4000 (responseAsking "TARGET_LOCK") ].

(** The same three cycles, then a request that times out with the target
    near at 49 degrees. *)
Definition timeoutTrace : list CycleInput :=
  [ cycleOf openFarTarget 900 1000 (responseAsking "ESCAPE_RECOVERY");
    cycleOf openFarTarget 1900 2000 (responseAsking "MEMORY_EXPLORE");
    cycleOf openFarTarget 3400 3500 (responseAsking "MEMORY_EXPLORE");
    mkCycleInput openNearTarget None None 3900 4000 FetchAbort FetchFail ].


(** Three cycles of scenario B, one second apart. *)
Definition blockedTrace : list CycleInput :=
  [ cycleOf scenarioB 900 1000 lockApproachResponse;
    cycleOf scenarioB 1900 2000 lockApproachResponse;
    cycleOf scenarioB 2900 3000 lockApproachResponse ].

(** A snapshot with the front 2.4 away and everything else open. *)
Definition frontNear : SensorData :=
  {| left := Some 9; leftDiag := Some 9; front := Some 2.4; rightDiag := Some 9;
     right := Some 9; backLeft := Some 9; back := Some 9; backRight := Some 9;
     worldX := Some 0; worldZ := Some 0; headingDeg := Some 0; sensorRange := None;
     targetHits := []; angleToTarget := Some 90; distanceToTarget := Some 30;
     isStuck := false |}.

(** A response whose only content is a control lasting 2 s. *)
Definition longStepResponse : string :=
  withQuotes "{`control`:{`throttle`:0.3,`steering`:0,`duration`:2.0}}".

(** A response of four members, with a nested list and a nested object. *)
Definition sampleMembers : list (string * doc) :=
  [("strategy"%string, DObj [("mode"%string, DStr "TARGET_LOCK")]);
   ("control"%string,
    DObj [("throttle"%string, DNum "0.6"); ("steering"%string, DNum "-1e-1")]);
   ("actions"%string, DArr [DObj []; DArr []; DBool true; DNull]);
   ("note"%string, DStr "hold {left}: now")].

(** The object of these members. *)
Definition sampleObject : doc := DObj sampleMembers.

(** An object whose strings hold a comma, apostrophes, braces, escaped
    quotes and an escaped line feed. *)
Definition proseMembers : list (string * doc) :=
  [("strategy"%string, DObj [("mode"%string, DStr "TARGET_LOCK")]);
   ("control"%string,
    DObj [("throttle"%string, DNum "0.6"); ("steering"%string, DNum "-1e-1")]);
   ("actions"%string, DArr [DObj []; DArr []; DBool true; DNull]);
   ("note"%string, DStr "don't stop, hold {left}");
   ("say"%string, DStr (withQuotes "he said \`go\`\n then left"))].

Definition proseObject : doc := DObj proseMembers.

(** The object [{"a": ",}"}], whose one string holds a comma before a
    closing brace. *)
Definition commaBraceObject : doc := DObj [("a"%string, DStr ",}")].

(** [Math.hypot] along an axis: exact when one of the arguments is 0. *)
Definition axisHypot (a b : Q) : Q := qabs a + qabs b.

(** A grid of 2 m cells without bounds, nothing recorded yet. *)
Definition emptyGrid : Mem.State := Mem.mkState 2.0 10.0 5000 None [] [].

(** The cell next to the car's on the x axis, seen from the centre of cell
    (0, 0). *)
Definition neighbourCandidate : Mem.Candidate :=
  Mem.evaluateCandidate axisHypot (fun _ _ _ _ _ => SR) emptyGrid 1 1 0 0 0 1 0.

(** Scenario B with the position lost. *)
Definition lostPosition : SensorData :=
  {| left := Some 2.2; leftDiag := Some 1.7; front := Some 1.4; rightDiag := Some 1.6;
     right := Some 2.1; backLeft := Some 5.0; back := Some 6.0; backRight := Some 5.2;
     worldX := None; worldZ := Some 0; headingDeg := Some 0; sensorRange := None;
     targetHits := []; angleToTarget := Some 5; distanceToTarget := Some 10;
     isStuck := true |}.

(** The sines and cosines of the eight ray directions at heading 0, to three
    places. *)
Definition sinRough (deg : Q) : Q :=
  if Qeq_bool deg 0 then 0 else if Qeq_bool deg 45 then 0.707
  else if Qeq_bool deg 90 then 1 else if Qeq_bool deg 135 then 0.707
  else if Qeq_bool deg 180 then 0 else if Qeq_bool deg (-135) then -0.707
  else if Qeq_bool deg (-90) then -1 else -0.707.

Definition cosRough (deg : Q) : Q :=
  if Qeq_bool deg 0 then 1 else if Qeq_bool deg 45 then 0.707
  else if Qeq_bool deg 90 then 0 else if Qeq_bool deg 135 then -0.707
  else if Qeq_bool deg 180 then -1 else if Qeq_bool deg (-135) then -0.707
  else if Qeq_bool deg (-90) then 0 else 0.707.

(** A grid that has seen scenario B once. *)
Definition seenGrid : Mem.State := Mem.update sinRough cosRough emptyGrid scenarioB 1000.


(** * Further definitions

    Predicates and sample inputs of the further properties. *)

(** The control of an output and the first step of its plan. *)
Definition controlLeadsPlan (out : DecisionOutput) : Prop :=
  match actionPlan out with
  | first :: _ =>
      throttle first = d_throttle out /\ steering first = d_steering out
      /\ duration first = d_duration out
  | [] => False
  end.

(** Scenario B with a wall 2 m behind the car. *)
Definition tightRear : SensorData :=
  {| left := Some 2.2; leftDiag := Some 1.7; front := Some 1.4; rightDiag := Some 1.6;
     right := Some 2.1; backLeft := Some 5.0; back := Some 2.0; backRight := Some 5.2;
     worldX := Some 0; worldZ := Some 0; headingDeg := Some 0; sensorRange := None;
     targetHits := []; angleToTarget := Some 5; distanceToTarget := Some 10;
     isStuck := true |}.

(** A response that asks to back off at full throttle. *)
Definition reverseResponse : string :=
  withQuotes "{`strategy`:{`mode`:`ESCAPE_RECOVERY`},`skill`:{`name`:`BACKOFF_AND_TURN`,`intensity`:1},`control`:{`throttle`:-1,`steering`:0.8,`duration`:0.6}}".

(** A session that has been without target contact for 12 s and flipped
    its search direction at time 1000. *)
Definition searchingState : SmoothingState :=
  set_noContactMs 12000%Z (set_lastReacquireFlipAt 1000%Z (set_lastTickAt 4000%Z freshState)).

(** What holds of the throttle [t], the steering [s], the reasons [r] and
    the flag [a] after each stage of the guard. *)
Definition guardStageOk (requested steer rear : Q)
    (e : Q * Q * list GuardTag * bool) : Prop :=
  let t := fst (fst (fst e)) in
  let s := snd (fst (fst e)) in
  let r := snd (fst e) in
  let a := snd e in
  (t < 0 -> t = requested \/ (t = -0.35 /\ 2.8 < rear))
  /\ (a = false -> t = requested /\ s = steer /\ r = [])
  /\ (a = true -> r <> []).

(** A reason code: 1 to 48 characters, each a capital letter, a digit or an
    underscore. *)
Definition codeShaped (s : string) : Prop :=
  (1 <= String.length s <= 48)%nat /\ forallb isReasonCodeChar (chars s) = true.

(** An expected sign: one of -1, 0 and 1. *)
Definition signShaped (o : option Z) : Prop :=
  o = Some 1%Z \/ o = Some 0%Z \/ o = Some (-1)%Z.

Local Open Scope char_scope.

(** A piece of text that the scan for a balanced object passes, outside a
    string and below the outermost brace, without a change of depth. *)
Definition scanPasses (p : list ascii) : Prop :=
  forall rest depth taken,
    balancedScan (p ++ rest) (S depth) false false taken
    = balancedScan rest (S depth) false false (rev p ++ taken).

(** A character that the scan passes outside a string. *)
Definition plainChar (c : ascii) : bool :=
  negb (ascii_eqb c "034") && negb (ascii_eqb c "{") && negb (ascii_eqb c "}").

(** An answer with words around a fenced object: the text of the sample
    object, one of whose strings holds braces. *)
Definition chattyResponse : string :=
  text (chars "Plan: ```json" ++ strictText sampleObject ++ chars "``` Done.").

Local Close Scope char_scope.

(** What a cycle reports about its strategy: the session remembers the
    mode of the output; a mode other than the remembered one comes with the
    transition SWITCH; and the confidence lies in [0, 1]. *)
Definition reportsModeChange (e : CycleEvent) : Prop :=
  lastStrategyMode (ev_after e) = Some (ev_mode e)
  /\ (modeSwitched e = true -> so_transition (strategy (ev_output e)) = SWITCH)
  /\ (0 <= so_confidence (strategy (ev_output e))
      /\ so_confidence (strategy (ev_output e)) <= 1).


(** The counters of a cell are not negative, its outer-wall hits are among
    its obstacle hits, and its two moving averages lie in [0, 1]. *)
Definition cellSane (c : Mem.Cell) : Prop :=
  (0 <= Mem.visits c)%Z /\ (0 <= Mem.stuckCount c)%Z
  /\ (0 <= Mem.targetHitCount c)%Z /\ (0 <= Mem.targetMissCount c)%Z
  /\ (0 <= Mem.obstacleHits c)%Z /\ (0 <= Mem.outerWallHits c)%Z
  /\ (0 <= Mem.openHits c)%Z
  /\ (Mem.outerWallHits c <= Mem.obstacleHits c)%Z
  /\ (0 <= Mem.riskEMA c /\ Mem.riskEMA c <= 1)
  /\ (0 <= Mem.targetAbsenceEMA c /\ Mem.targetAbsenceEMA c <= 1).

(** The list of cells stands for a [Map]: no key occurs twice. *)
Definition keysUnique (l : list ((Z * Z) * Mem.Cell)) : Prop := List.NoDup (map fst l).

(** A grid as the operations leave it. *)
Definition gridSane (st : Mem.State) : Prop :=
  keysUnique (Mem.cells st)
  /\ Forall (fun e => cellSane (snd e)) (Mem.cells st)
  /\ (List.length (Mem.path st) <= 500)%nat.

(** The cells as a step of an update leaves them. *)
Definition cellsSane (l : list ((Z * Z) * Mem.Cell)) : Prop :=
  keysUnique l /\ Forall (fun e => cellSane (snd e)) l.

(** The cell at [key] has been visited [v] times and was last seen at [now]. *)
Definition seenAt (key : Z * Z) (v now : Z) (l : list ((Z * Z) * Mem.Cell)) : Prop :=
  exists c, Mem.getCell l key = Some c /\ Mem.visits c = v /\ Mem.lastSeen c = now.

(** The number of visits the grid records for a cell. *)
Definition visitsAt (st : Mem.State) (key : Z * Z) : Z :=
  Mem.visits (default Mem.newCell (Mem.getCell (Mem.cells st) key)).

(** A cell visited once, last seen at [t]. *)
Definition cellSeenAt (t : Z) : Mem.Cell := Mem.mkCell 1 t 0 0 0 0 0 0 0 0 0 1.

(** A grid of three cells that may hold two. *)
Definition crowdedGrid : Mem.State :=
  Mem.mkState 2.0 10.0 2 None
    [((0, 0)%Z, cellSeenAt 5); ((1, 0)%Z, cellSeenAt 3); ((2, 0)%Z, cellSeenAt 9)] [].

(** Entries in the order of their last sighting. *)
Definition byLastSeen (a b : (Z * Z) * Mem.Cell) : Prop :=
  (Mem.lastSeen (snd a) <= Mem.lastSeen (snd b))%Z.

(** Descending order of a key. *)
Definition descendingBy {A : Type} (key : A -> Q) (a b : A) : Prop := key b <= key a.

(** The candidates around a cell: one for every pair of offsets but (0, 0). *)
Definition ringOf {C : Type} (offs : list Z) (F : Z -> Z -> C) : list C :=
  concat
    (map (fun dz =>
            concat (map (fun dx => if (dx =? 0)%Z && (dz =? 0)%Z then [] else [F dx dz])
                      offs))
       offs).


(** * Properties *)

#[local] Arguments Z.max : simpl never.
#[local] Arguments Z.min : simpl never.

(** ** Comparisons *)

Lemma Qltb_true (a b : Q) : Qltb a b = true <-> a < b.
Proof. unfold Qltb; destruct (Qlt_le_dec a b); split; intros; try easy; lra. Qed.

Lemma Qltb_false (a b : Q) : Qltb a b = false <-> b <= a.
Proof. unfold Qltb; destruct (Qlt_le_dec a b); split; intros; try easy; lra. Qed.

Lemma Qleb_true (a b : Q) : Qleb a b = true <-> a <= b.
Proof. unfold Qleb; destruct (Qlt_le_dec b a); split; intros; try easy; lra. Qed.

Lemma Qleb_false (a b : Q) : Qleb a b = false <-> b < a.
Proof. unfold Qleb; destruct (Qlt_le_dec b a); split; intros; try easy; lra. Qed.

Lemma Qgtb_true (a b : Q) : Qgtb a b = true <-> b < a.
Proof. apply Qltb_true. Qed.

Lemma Qgtb_false (a b : Q) : Qgtb a b = false <-> a <= b.
Proof. apply Qltb_false. Qed.

Lemma Qgeb_true (a b : Q) : Qgeb a b = true <-> b <= a.
Proof. apply Qleb_true. Qed.

Lemma Qgeb_false (a b : Q) : Qgeb a b = false <-> a < b.
Proof. apply Qleb_false. Qed.

(** Case analysis on every comparison of rationals in sight. *)
Ltac qcases :=
  unfold Qgtb, Qgeb, Qltb, Qleb, qmin, qmax, qabs in *;
  repeat match goal with
         | |- context [Qlt_le_dec ?a ?b] => destruct (Qlt_le_dec a b)
         | H : context [Qlt_le_dec ?a ?b] |- _ => destruct (Qlt_le_dec a b)
         end.

Lemma qmin_le_l (a b : Q) : qmin a b <= a.
Proof. qcases; lra. Qed.

Lemma qmin_le_r (a b : Q) : qmin a b <= b.
Proof. qcases; lra. Qed.

Lemma qmax_ge_l (a b : Q) : a <= qmax a b.
Proof. qcases; lra. Qed.

Lemma qmax_ge_r (a b : Q) : b <= qmax a b.
Proof. qcases; lra. Qed.

Lemma clampNumber_bounds (v : option Q) (lo hi fb : Q) :
  lo <= hi -> lo <= clampNumber v lo hi fb /\ clampNumber v lo hi fb <= hi.
Proof. unfold clampNumber; intros; qcases; lra. Qed.

Lemma Mode_eqb_eq (a b : Mode) : Mode_eqb a b = true <-> a = b.
Proof. destruct a, b; cbn; split; congruence. Qed.

Lemma Skill_eqb_eq (a b : Skill) : Skill_eqb a b = true <-> a = b.
Proof. destruct a, b; cbn; split; congruence. Qed.

Lemma Sector_eqb_eq (a b : Sector) : Sector_eqb a b = true <-> a = b.
Proof. destruct a, b; cbn; split; congruence. Qed.

Lemma Sector_eqb_eq_false (a b : Sector) : a <> b -> Sector_eqb a b = false.
Proof. destruct a, b; cbn; congruence. Qed.

(** ** The context signal *)

Lemma danger_of_critical (sd : SensorData) (c : option ContactState) :
  criticalDanger sd -> danger (inferContextModeSignal sd c) = true.
Proof.
  intros [H | H]; unfold inferContextModeSignal; cbn [danger].
  - rewrite H; reflexivity.
  - apply Qltb_true in H; rewrite H; apply orb_true_r.
Qed.

(** The lock cues of an inferred signal are off under danger. *)
Lemma lock_cues_off_under_danger (sd : SensorData) (c : option ContactState) :
  danger (inferContextModeSignal sd c) = true ->
  lockPriority (inferContextModeSignal sd c) = false
  /\ lockHoldWindow (inferContextModeSignal sd c) = false
  /\ expectedMode (inferContextModeSignal sd c) = ESCAPE_RECOVERY.
Proof.
  unfold inferContextModeSignal; cbn [danger lockPriority lockHoldWindow expectedMode].
  intros ->; repeat split; reflexivity.
Qed.

(** ** C1: danger forces escape and back-off *)

Lemma resolve_mode_under_danger (raw : Mode) (signal : ContextSignal) (prev : option Mode) :
  danger signal = true -> lockPriority signal = false -> lockHoldWindow signal = false ->
  mr_mode (resolveStrategyModeWithContext raw signal prev) = ESCAPE_RECOVERY.
Proof.
  intros Hd Hp Hw; unfold resolveStrategyModeWithContext; rewrite Hd, Hp, Hw.
  destruct raw; cbn; try reflexivity;
    destruct (reacquireActive signal), (strongTargetCue signal), (weakTargetCue signal),
      prev as [[]|]; reflexivity.
Qed.

Lemma stabilize_escape_under_danger (st : SmoothingState) (signal : ContextSignal) (now : Z) :
  danger signal = true ->
  sb_mode (snd (stabilizeStrategyModeWithHysteresis st ESCAPE_RECOVERY signal now))
  = ESCAPE_RECOVERY.
Proof.
  intros Hd; unfold stabilizeStrategyModeWithHysteresis.
  destruct (lastStrategyMode (ensureSmoothingState st)) as [p|]; [|reflexivity].
  destruct (Mode_eqb ESCAPE_RECOVERY p) eqn:E; [reflexivity|].
  unfold targetLockHoldActive, criticalOverride; rewrite Hd; cbn.
  rewrite andb_false_r; reflexivity.
Qed.

Lemma resolve_skill_in_escape (requested : Skill) (sector : Sector)
    (signal : ContextSignal) (sd : SensorData) :
  sr_skill (resolveSkillWithContext requested ESCAPE_RECOVERY sector signal sd)
  = BACKOFF_AND_TURN.
Proof.
  unfold resolveSkillWithContext; cbn.
  destruct requested; reflexivity.
Qed.

Lemma cadence_keeps_backoff_in_escape (signal : ContextSignal) (sd : SensorData)
    (bias : bool) (st : SmoothingState) :
  cr_skill (snd (enforceSkillCadence BACKOFF_AND_TURN ESCAPE_RECOVERY signal sd bias st))
  = BACKOFF_AND_TURN.
Proof.
  unfold enforceSkillCadence; cbn.
  rewrite !andb_false_r; reflexivity.
Qed.

(** Destructs every pair-binding [let '(x, y) := e in _] of the goal. *)
Ltac split_lets :=
  repeat match goal with
         | |- context [match ?x with (_, _) => _ end] =>
             let E := fresh "E" in destruct x eqn:E
         end.

Lemma assemble_under_danger
    (wallSector : WallRegion -> Q -> Sector)
    (sd : SensorData) (ec : option ExplorationContext) (cs : option CollisionSummary)
    (c : option ContactState) (fallbackMode : Mode) (prev : option Mode) (now : Z)
    (st : SmoothingState) (p : ParseResult) :
  criticalDanger sd ->
  let out := snd (fst (assembleDecision wallSector sd ec cs (inferContextModeSignal sd c)
                         fallbackMode prev now st p)) in
  so_mode (strategy out) = ESCAPE_RECOVERY /\ sk_name (skill out) = BACKOFF_AND_TURN
  /\ parseMethod out = parsed_by (method p) (fromRetry p).
Proof.
  intros Hc.
  pose proof (danger_of_critical sd c Hc) as Hd.
  destruct (lock_cues_off_under_danger sd c Hd) as (Hp & Hw & _).
  set (signal := inferContextModeSignal sd c) in *.
  unfold assembleDecision.
  match goal with
  | |- context [resolveStrategyModeWithContext ?raw signal prev] =>
      pose proof (resolve_mode_under_danger raw signal prev Hd Hp Hw) as Hm;
      destruct (resolveStrategyModeWithContext raw signal prev) as [m corrected why]
  end.
  cbn [mr_mode mr_corrected] in *; subst m.
  pose proof (stabilize_escape_under_danger st signal now Hd) as Hs.
  destruct (stabilizeStrategyModeWithHysteresis st ESCAPE_RECOVERY signal now)
    as [st1 [m held forced why']].
  cbn [snd sb_mode sb_held sb_forced] in *; subst m.
  match goal with
  | |- context [resolveSkillWithContext ?rq ESCAPE_RECOVERY ?sec signal sd] =>
      pose proof (resolve_skill_in_escape rq sec signal sd) as Hk;
      destruct (resolveSkillWithContext rq ESCAPE_RECOVERY sec signal sd)
        as [k why2 bias strict]
  end.
  cbn [sr_skill sr_approachBias sr_overrideReason] in *; subst k.
  pose proof (cadence_keeps_backoff_in_escape signal sd bias st1) as Hq.
  destruct (enforceSkillCadence BACKOFF_AND_TURN ESCAPE_RECOVERY signal sd bias st1)
    as [st2 [k f1 f2 f3 n1 n2 n3]].
  cbn [snd cr_skill cr_approachHoldLock] in *; subst k.
  split_lets.
  cbn; repeat split; reflexivity.
Qed.

(** What the fallback decision is under danger. *)
Lemma fallback_under_danger
    (sd : SensorData) (c : option ContactState) (prev : option Mode)
    (st : SmoothingState) (tag text : string) (pm : OutputParseMethod) :
  criticalDanger sd ->
  let out := snd (fallbackDecision (inferContextModeSignal sd c) prev st tag text pm) in
  so_mode (strategy out) = ESCAPE_RECOVERY /\ sk_name (skill out) = HOLD_POSITION
  /\ d_throttle out = 0 /\ d_steering out = 0 /\ parseMethod out = pm.
Proof.
  intros Hc. pose proof (danger_of_critical sd c Hc) as Hd.
  destruct (lock_cues_off_under_danger sd c Hd) as (_ & _ & He).
  unfold fallbackDecision. cbv zeta.
  cbn [snd strategy skill so_mode sk_name d_throttle d_steering parseMethod].
  rewrite He. repeat split; reflexivity.
Qed.

(** C1, as the code has it.  In every decision cycle, a snapshot with the
    stuck flag set or with a front-arc clearance (the minimum of the front,
    leftDiag and rightDiag rays) below 2.15 resolves to the mode
    ESCAPE_RECOVERY, whatever the response asks for, whatever the session
    state holds, and also when there is no response.  The skill is
    BACKOFF_AND_TURN in every cycle that resolves a response; in the others
    (the request timed out or failed, no response could be parsed, or the
    decision could not be built) the function holds: the skill is
    HOLD_POSITION and throttle and steering are 0. *)
Theorem C1_danger_forces_escape_and_backoff
    (wallSector : WallRegion -> Q -> Sector)
    (sd : SensorData) (st : SmoothingState)
    (ec : option ExplorationContext) (cs : option CollisionSummary)
    (tickNow stabNow : Z) (primary retry : FetchOutcome) :
  isStuck sd = true \/ minFrontDistOf sd < 2.15 ->
  let out := snd (getDrivingDecision wallSector sd st ec cs tickNow stabNow primary retry) in
  so_mode (strategy out) = ESCAPE_RECOVERY
  /\ (resolvedOutput out -> sk_name (skill out) = BACKOFF_AND_TURN)
  /\ (~ resolvedOutput out ->
      sk_name (skill out) = HOLD_POSITION /\ d_throttle out = 0 /\ d_steering out = 0)
  /\ (resolvedOutput out ->
      exists rawResponse, primary = FetchOk rawResponse
        /\ (parseModelResponseJson rawResponse <> None
            \/ exists retryRaw, retry = FetchOk retryRaw
                  /\ parseModelResponseJson retryRaw <> None)).
Proof.
  intros Hc out; subst out. unfold resolvedOutput.
  unfold getDrivingDecision.
  destruct (updateContactTracking (ensureSmoothingState st) sd tickNow) as [st1 contact].
  assert (Hfb : forall prev s tag text pm,
             (forall m r, pm <> parsed_by m r) ->
             let out := snd (fallbackDecision (inferContextModeSignal sd (Some contact))
                               prev s tag text pm) in
             so_mode (strategy out) = ESCAPE_RECOVERY
             /\ ((exists m r, parseMethod out = parsed_by m r) ->
                 sk_name (skill out) = BACKOFF_AND_TURN)
             /\ (~ (exists m r, parseMethod out = parsed_by m r) ->
                 sk_name (skill out) = HOLD_POSITION /\ d_throttle out = 0
                 /\ d_steering out = 0)
             /\ ~ (exists m r, parseMethod out = parsed_by m r)).
  { intros prev s tag text pm Hpm.
    destruct (fallback_under_danger sd (Some contact) prev s tag text pm Hc)
      as (F1 & F2 & F3 & F4 & F5).
    cbv zeta. rewrite F5.
    assert (Hno : ~ (exists m r, pm = parsed_by m r))
      by (intros (m & r & E); exact (Hpm m r E)).
    split; [exact F1|]. split; [intros H; destruct (Hno H)|].
    split; [intros _; repeat split; assumption | exact Hno]. }
  destruct primary as [raw | |].
  2,3: (edestruct Hfb as (G1 & G2 & G3 & G4); [|split; [exact G1|];
        split; [exact G2|]; split; [exact G3|]; intros H; destruct (G4 H)];
        intros m r; discriminate).
  match goal with
  | |- context [if ?b then _ else parseModelResponseJson raw] => set (retryAsked := b)
  end.
  match goal with
  | |- context [match ?x with
                | Some p => decideFromParsed _ _ _ _ _ _ _ _ _ p _
                | None => _ end] => destruct x as [p|] eqn:Ep
  end.
  - unfold decideFromParsed.
    pose proof (assemble_under_danger wallSector sd ec cs (Some contact)
                  (mapSignalToMode (targetSignalMode sd)) (lastStrategyMode st1) stabNow
                  st1 p Hc) as Ha.
    cbv zeta in Ha.
    destruct (assembleDecision _ _ _ _ _ _ _ _ _ _) as [[st' o] th].
    cbn [fst snd] in Ha. destruct Ha as (A1 & A2 & A3).
    destruct (thoughtThrows th).
    + edestruct Hfb as (G1 & G2 & G3 & G4); [|split; [exact G1|];
        split; [exact G2|]; split; [exact G3|]; intros H; destruct (G4 H)].
      intros m r; discriminate.
    + cbn [snd]. split; [exact A1|]. split; [intros _; exact A2|].
      split; [intros H; exfalso; apply H; eauto|].
      intros _. exists raw. split; [reflexivity|].
      destruct (parseModelResponseJson raw) as [q|] eqn:Eq; [left; discriminate|].
      right. destruct retryAsked; [|discriminate Ep].
      destruct retry as [retryRaw | |]; try discriminate Ep.
      exists retryRaw. split; [reflexivity|].
      destruct (parseModelResponseJson retryRaw); [discriminate | discriminate Ep].
  - edestruct Hfb as (G1 & G2 & G3 & G4); [|split; [exact G1|];
      split; [exact G2|]; split; [exact G3|]; intros H; destruct (G4 H)].
    intros m r; discriminate.
Qed.

(** Scenario B with a response that asks for the target lock and a forward
    approach. *)
Lemma C1_scenario_B_witness :
  let out := snd (getDrivingDecision (fun _ _ => SF) scenarioB freshState None None
                    1000 1400 (FetchOk lockApproachResponse) FetchFail) in
  (isStuck scenarioB = true \/ minFrontDistOf scenarioB < 2.15)
  /\ resolvedOutput out
  /\ so_mode (strategy out) = ESCAPE_RECOVERY /\ sk_name (skill out) = BACKOFF_AND_TURN.
Proof.
  intros out.
  assert (H1 : isStuck scenarioB = true \/ minFrontDistOf scenarioB < 2.15)
    by (left; reflexivity).
  assert (H2 : resolvedOutput out)
    by (exists strict, false; vm_compute; reflexivity).
  split; [exact H1|]. split; [exact H2|].
  destruct (C1_danger_forces_escape_and_backoff (fun _ _ => SF) scenarioB freshState None
              None 1000 1400 (FetchOk lockApproachResponse) FetchFail H1)
    as (Hm & Hk & _).
  split; [exact Hm | exact (Hk H2)].
Defined.

(** C1 as stated fails: in scenario B the request times out, and the cycle
    resolves to the mode ESCAPE_RECOVERY with the skill HOLD_POSITION, not
    BACKOFF_AND_TURN; so it does when the response is no JSON, and when the
    response parses but gives an object with a member [toString] as its
    thought. *)
Lemma C1_counterexample_timeout_holds :
  (isStuck scenarioB = true \/ minFrontDistOf scenarioB < 2.15)
  /\ (let out := snd (getDrivingDecision (fun _ _ => SF) scenarioB freshState None None
                        1000 1400 FetchAbort FetchFail) in
      so_mode (strategy out) = ESCAPE_RECOVERY /\ sk_name (skill out) = HOLD_POSITION
      /\ sk_name (skill out) <> BACKOFF_AND_TURN /\ parseMethod out = api_timeout)
  /\ (let out := snd (getDrivingDecision (fun _ _ => SF) scenarioB freshState None None
                        1000 1400 (FetchOk "I would back off.") FetchFail) in
      sk_name (skill out) = HOLD_POSITION
      /\ parseMethod out = unparseable_model_output true)
  /\ (let out := snd (getDrivingDecision (fun _ _ => SF) scenarioB freshState None None
                        1000 1400 (FetchOk unprintableThoughtResponse) FetchFail) in
      parseModelResponseJson unprintableThoughtResponse <> None
      /\ sk_name (skill out) = HOLD_POSITION
      /\ parseMethod out = unparseable_model_output false).
Proof.
  split; [left; reflexivity|].
  split; [vm_compute; repeat split; discriminate|].
  split; [vm_compute; repeat split|].
  vm_compute. repeat split. discriminate.
Qed.

(** ** The hysteresis stabilizer *)

Lemma ensure_mode_fields (st : SmoothingState) :
  lastStrategyMode (ensureSmoothingState st) = lastStrategyMode st
  /\ lastModeSwitchAt (ensureSmoothingState st) = lastModeSwitchAt st
  /\ pendingStrategyMode (ensureSmoothingState st) = pendingStrategyMode st
  /\ pendingStrategySince (ensureSmoothingState st) = pendingStrategySince st
  /\ pendingStrategyVotes (ensureSmoothingState st) = pendingStrategyVotes st
  /\ modeHoldRemaining (ensureSmoothingState st) = modeHoldRemaining st
  /\ targetLockHoldRemaining (ensureSmoothingState st) = targetLockHoldRemaining st.
Proof. unfold ensureSmoothingState; destruct (_ =? _)%Z; repeat split. Qed.

Lemma ensure_skill_fields (st : SmoothingState) :
  lastSkillName (ensureSmoothingState st) = lastSkillName st
  /\ approachHoldRemaining (ensureSmoothingState st) = approachHoldRemaining st
  /\ scanBurstCount (ensureSmoothingState st) = scanBurstCount st
  /\ backoffBurstCount (ensureSmoothingState st) = backoffBurstCount st.
Proof. unfold ensureSmoothingState; destruct (_ =? _)%Z; repeat split. Qed.

Lemma optMode_is_true (o : option Mode) (m : Mode) : optMode_is o m = true <-> o = Some m.
Proof.
  destruct o as [x|]; cbn; [rewrite Mode_eqb_eq|]; split; congruence.
Qed.

Lemma optMode_is_false (o : option Mode) (m : Mode) : optMode_is o m = false <-> o <> Some m.
Proof.
  rewrite <- optMode_is_true; destruct (optMode_is o m); split; congruence.
Qed.

Lemma Mode_eqb_neq (a b : Mode) : Mode_eqb a b = false <-> a <> b.
Proof. rewrite <- Mode_eqb_eq; destruct (Mode_eqb a b); split; congruence. Qed.

Lemma stabilize_cases (st0 : SmoothingState) (desired : Mode) (signal : ContextSignal)
    (now : Z) :
  StabCase (ensureSmoothingState st0) desired signal now
    (snd (stabilizeStrategyModeWithHysteresis st0 desired signal now)).
Proof.
  unfold stabilizeStrategyModeWithHysteresis.
  set (st := ensureSmoothingState st0).
  destruct (lastStrategyMode st) as [p|] eqn:Hp; [|apply sc_stable; left; exact Hp].
  destruct (Mode_eqb desired p) eqn:Hdp.
  { apply Mode_eqb_eq in Hdp; subst p. apply sc_stable; right; exact Hp. }
  apply Mode_eqb_neq in Hdp.
  destruct (targetLockHoldActive st p signal) eqn:Hh;
    destruct (Mode_eqb desired TARGET_LOCK) eqn:Hl; cbn [andb negb];
    try (apply Mode_eqb_neq in Hl; eapply sc_hold_window; eauto; fail).
  all: destruct (criticalOverride signal || strongLockPromotion desired signal
                 || lockPriorityPromotion desired signal) eqn:Hf;
    [ eapply sc_forced; eauto | ].
  all: apply orb_false_iff in Hf as [Hf Hf3]; apply orb_false_iff in Hf as [Hf1 Hf2].
  all: destruct ((0 <? lastModeSwitchAt st)%Z
                 && (now - lastModeSwitchAt st <? MODE_SWITCH_COOLDOWN_MS)%Z) eqn:Hc;
    [ eapply sc_held; eauto | ].
  all: destruct (0 <? modeHoldRemaining st)%Z eqn:Hm; [ eapply sc_held; eauto | ].
  all: destruct (optMode_is (pendingStrategyMode st) desired) eqn:Hpd; cbn [negb];
    [ | apply optMode_is_false in Hpd; eapply sc_held; eauto 6 ].
  all: apply optMode_is_true in Hpd.
  all: cbn [pendingStrategyVotes pendingStrategySince set_pendingStrategyVotes].
  all: destruct ((MODE_SWITCH_MIN_VOTES <=? pendingStrategyVotes st + 1)%Z
                 && (MODE_SWITCH_MIN_DWELL_MS <=? now - pendingStrategySince st)%Z) eqn:Hv;
    [ | eapply sc_held; eauto 7 ].
  all: apply andb_true_iff in Hv as [Hv1 Hv2];
    apply Z.leb_le in Hv1; apply Z.leb_le in Hv2; apply Z.ltb_ge in Hm.
  all: eapply sc_confirmed; eauto.
  all: try (intros [Hc1 Hc2]; apply Z.ltb_lt in Hc1; apply Z.ltb_lt in Hc2;
            rewrite Hc1, Hc2 in Hc; discriminate).
  - right; apply Mode_eqb_eq; exact Hl.
Qed.

(** Case analysis on the conditions of the goal, innermost first. *)
Ltac break_if_inner :=
  match goal with
  | |- context [if ?c then _ else _] =>
      lazymatch c with
      | context [if _ then _ else _] => fail
      | _ => destruct c eqn:?
      end
  end.

Ltac break_ifs :=
  repeat (break_if_inner;
          cbn [negb andb orb Skill_eqb Mode_eqb Sector_eqb fst snd]).

Lemma stabilize_switch_time (st0 : SmoothingState) (desired : Mode)
    (signal : ContextSignal) (now : Z) :
  lastModeSwitchAt (fst (stabilizeStrategyModeWithHysteresis st0 desired signal now))
  = if recordsSwitch (snd (stabilizeStrategyModeWithHysteresis st0 desired signal now))
    then now else lastModeSwitchAt st0.
Proof.
  destruct (ensure_mode_fields st0) as (_ & <- & _).
  unfold stabilizeStrategyModeWithHysteresis.
  destruct (lastStrategyMode (ensureSmoothingState st0));
    repeat match goal with
           | |- context [if ?c then _ else _] =>
               lazymatch c with
               | context [recordsSwitch] => fail
               | _ => destruct c eqn:?
               end
           end; reflexivity.
Qed.

Lemma stabilize_other_fields (st0 : SmoothingState) (desired : Mode)
    (signal : ContextSignal) (now : Z) :
  let st' := fst (stabilizeStrategyModeWithHysteresis st0 desired signal now) in
  lastStrategyMode st' = lastStrategyMode st0
  /\ lastSkillName st' = lastSkillName st0
  /\ approachHoldRemaining st' = approachHoldRemaining st0
  /\ scanBurstCount st' = scanBurstCount st0
  /\ backoffBurstCount st' = backoffBurstCount st0.
Proof.
  cbv zeta.
  destruct (ensure_mode_fields st0) as (<- & _).
  destruct (ensure_skill_fields st0) as (<- & <- & <- & <-).
  unfold stabilizeStrategyModeWithHysteresis.
  destruct (lastStrategyMode (ensureSmoothingState st0)) eqn:E; break_ifs;
    repeat split; try reflexivity; exact E.
Qed.

(** A verdict that changes the mode records the switch, and is either
    forced or a confirmed candidate. *)
Lemma stabilize_mode_change (st0 : SmoothingState) (desired : Mode)
    (signal : ContextSignal) (now : Z) (p : Mode) :
  lastStrategyMode st0 = Some p ->
  sb_mode (snd (stabilizeStrategyModeWithHysteresis st0 desired signal now)) <> p ->
  let r := snd (stabilizeStrategyModeWithHysteresis st0 desired signal now) in
  sb_mode r = desired
  /\ recordsSwitch r = true
  /\ (sb_reason r = hysteresis_confirmed_switch ->
      ~ (0 < lastModeSwitchAt st0 /\ now - lastModeSwitchAt st0 < MODE_SWITCH_COOLDOWN_MS)%Z
      /\ pendingStrategyMode st0 = Some desired
      /\ (MODE_SWITCH_MIN_VOTES <= pendingStrategyVotes st0 + 1)%Z
      /\ (MODE_SWITCH_MIN_DWELL_MS <= now - pendingStrategySince st0)%Z).
Proof.
  intros Hp Hne r; subst r.
  pose proof (stabilize_cases st0 desired signal now) as HC.
  destruct (ensure_mode_fields st0) as (E1 & E2 & E3 & E4 & E5 & _).
  destruct HC as [Hs | q Hq Hd Hh Hl | q why Hq Hd Hf Hw | q why Hq Hd H1 H2 H3 Hw
                 | q Hq Hd H1 H2 H3 Hh Hc Hm Hpd Hv1 Hv2]; cbn [sb_mode sb_reason] in *;
    rewrite ?E1, ?E2, ?E3, ?E4, ?E5 in *.
  - destruct Hs as [Hs | Hs]; congruence.
  - unfold targetLockHoldActive in Hh.
    destruct (Mode_eqb q TARGET_LOCK) eqn:E; [|discriminate Hh].
    apply Mode_eqb_eq in E; congruence.
  - subst why; split; [reflexivity|]; split.
    + unfold recordsSwitch; cbn; break_ifs; reflexivity.
    + intros Habs; revert Habs; break_ifs; discriminate.
  - congruence.
  - split; [reflexivity|]; split; [reflexivity|]; intros _; auto.
Qed.

(** ** One cycle seen through the stabilizer and the cadence control *)

Lemma contact_tracking_frame (st : SmoothingState) (sd : SensorData) (now : Z) :
  let st' := fst (updateContactTracking st sd now) in
  lastStrategyMode st' = lastStrategyMode st
  /\ lastModeSwitchAt st' = lastModeSwitchAt st
  /\ pendingStrategyMode st' = pendingStrategyMode st
  /\ pendingStrategySince st' = pendingStrategySince st
  /\ pendingStrategyVotes st' = pendingStrategyVotes st
  /\ modeHoldRemaining st' = modeHoldRemaining st
  /\ targetLockHoldRemaining st' = targetLockHoldRemaining st
  /\ lastSkillName st' = lastSkillName st
  /\ approachHoldRemaining st' = approachHoldRemaining st
  /\ scanBurstCount st' = scanBurstCount st
  /\ backoffBurstCount st' = backoffBurstCount st.
Proof.
  cbv zeta.
  destruct (ensure_mode_fields st) as (<- & <- & <- & <- & <- & <- & <-).
  destruct (ensure_skill_fields st) as (<- & <- & <- & <-).
  unfold updateContactTracking; break_ifs; cbn; repeat split.
Qed.

Lemma cadence_frame (requested : Skill) (mode : Mode) (signal : ContextSignal)
    (sd : SensorData) (bias : bool) (st : SmoothingState) :
  let st' := fst (enforceSkillCadence requested mode signal sd bias st) in
  let r := snd (enforceSkillCadence requested mode signal sd bias st) in
  lastStrategyMode st' = lastStrategyMode st
  /\ lastModeSwitchAt st' = lastModeSwitchAt st
  /\ pendingStrategyMode st' = pendingStrategyMode st
  /\ pendingStrategySince st' = pendingStrategySince st
  /\ pendingStrategyVotes st' = pendingStrategyVotes st
  /\ modeHoldRemaining st' = modeHoldRemaining st
  /\ targetLockHoldRemaining st' = targetLockHoldRemaining st
  /\ approachHoldRemaining st' = cr_approachHoldRemaining r
  /\ scanBurstCount st' = cr_scanBurstCount r
  /\ backoffBurstCount st' = cr_backoffBurstCount r.
Proof.
  cbv zeta.
  destruct (ensure_mode_fields st) as (<- & <- & <- & <- & <- & <- & <-).
  unfold enforceSkillCadence.
  break_ifs; cbn; repeat split.
Qed.

(** Case analysis on the conditionals that choose between two states. *)
Ltac state_ifs :=
  repeat match goal with
         | |- context [if ?c then ?x else _] =>
             match type of x with SmoothingState => destruct c end
         end.

Lemma assemble_view
    (wallSector : WallRegion -> Q -> Sector)
    (sd : SensorData) (ec : option ExplorationContext) (cs : option CollisionSummary)
    (signal : ContextSignal) (fallbackMode : Mode) (now : Z)
    (st : SmoothingState) (p : ParseResult) :
  let r := fst (assembleDecision wallSector sd ec cs signal fallbackMode
                  (lastStrategyMode st) now st p) in
  exists rc raw requested sector,
    so_riskCue (strategy (snd r)) = Some rc
    /\ ResolvedView signal sd now st (fst r) (snd r) rc raw requested sector.
Proof.
  cbv zeta. unfold assembleDecision.
  match goal with
  | |- context [resolveStrategyModeWithContext ?raw signal (lastStrategyMode st)] =>
      set (rawMode := raw);
      set (MR := resolveStrategyModeWithContext rawMode signal (lastStrategyMode st))
  end.
  destruct (stabilizeStrategyModeWithHysteresis st (mr_mode MR) signal now)
    as [stS S] eqn:ES.
  match goal with
  | |- context [resolveSkillWithContext ?rq (sb_mode S) ?sec signal sd] =>
      set (requested := rq); set (sector := sec);
      set (SR := resolveSkillWithContext requested (sb_mode S) sector signal sd)
  end.
  pose proof (cadence_frame (sr_skill SR) (sb_mode S) signal sd (sr_approachBias SR) stS)
    as HF.
  destruct (enforceSkillCadence (sr_skill SR) (sb_mode S) signal sd (sr_approachBias SR) stS)
    as [stC C] eqn:EC.
  cbn [fst snd] in HF.
  destruct HF as (F1 & F2 & F3 & F4 & F5 & F6 & F7 & F8 & F9 & F10).
  split_lets.
  exists (mkRiskCue MR S SR C), rawMode, requested, sector; split; [reflexivity|].
  cbn [fst snd strategy skill so_mode sk_name].
  constructor;
    cbn [rc_modeResolved rc_hysteresis rc_skillResolved rc_cadence fst snd];
    rewrite ?ES; cbn [fst snd]; rewrite ?EC; cbn [fst snd]; try reflexivity.
  all: unfold trackerView; state_ifs; cbn; rewrite ?EC; cbn [fst snd]; congruence.
Qed.

Section CycleView.

Variable wallSector : WallRegion -> Q -> Sector.

Lemma tracked_frame (st : SmoothingState) (i : CycleInput) :
  lastStrategyMode (trackedState st i) = lastStrategyMode st
  /\ trackerView (trackedState st i) = trackerView st
  /\ lastSkillName (trackedState st i) = lastSkillName st
  /\ approachHoldRemaining (trackedState st i) = approachHoldRemaining st
  /\ scanBurstCount (trackedState st i) = scanBurstCount st
  /\ backoffBurstCount (trackedState st i) = backoffBurstCount st.
Proof.
  unfold trackedState, trackerView.
  pose proof (contact_tracking_frame (ensureSmoothingState st) (ci_sensor i) (ci_tickNow i))
    as H; cbv zeta in H.
  destruct H as (-> & -> & -> & -> & -> & -> & -> & -> & -> & -> & ->).
  destruct (ensure_mode_fields st) as (-> & -> & -> & -> & -> & -> & ->).
  destruct (ensure_skill_fields st) as (-> & -> & -> & ->).
  repeat split.
Qed.

(** A cycle either resolves a response through both state machines, or
    falls back to a hold in the context-expected mode.  The fallback finds
    the state as contact tracking left it, or, when the decision was
    assembled and its thought could not be written, as the two state
    machines left it. *)
Lemma cycle_view (st : SmoothingState) (i : CycleInput) :
  match so_riskCue (strategy (snd (cycle wallSector st i))) with
  | Some rc =>
      exists raw requested sector,
        ResolvedView (cycleSignal st i) (ci_sensor i) (ci_stabNow i) (trackedState st i)
          (fst (cycle wallSector st i)) (snd (cycle wallSector st i)) rc raw requested sector
  | None =>
      exists stBefore,
        heldFrom (cycleSignal st i) stBefore (fst (cycle wallSector st i))
          (snd (cycle wallSector st i))
        /\ (stBefore = trackedState st i
            \/ exists out rc raw requested sector,
                 ResolvedView (cycleSignal st i) (ci_sensor i) (ci_stabNow i)
                   (trackedState st i) stBefore out rc raw requested sector)
  end.
Proof.
  unfold cycle, cycleSignal, trackedState, getDrivingDecision.
  assert (Hens : ensureSmoothingState (ensureSmoothingState st) = ensureSmoothingState st).
  { unfold ensureSmoothingState.
    destruct (reacquireTurnDir st =? 0)%Z eqn:E; cbn; [reflexivity | rewrite E; reflexivity]. }
  assert (Hct : updateContactTracking (ensureSmoothingState (ensureSmoothingState st))
                  (ci_sensor i) (ci_tickNow i)
                = updateContactTracking (ensureSmoothingState st) (ci_sensor i) (ci_tickNow i))
    by (rewrite Hens; reflexivity).
  destruct (updateContactTracking (ensureSmoothingState st) (ci_sensor i) (ci_tickNow i))
    as [st1 contact] eqn:E1.
  cbn [fst snd].
  assert (Hfb : forall s tag text pm,
             let r := fallbackDecision
                        (inferContextModeSignal (ci_sensor i) (Some contact))
                        (lastStrategyMode st1) s tag text pm in
             so_riskCue (strategy (snd r)) = None
             /\ heldFrom (inferContextModeSignal (ci_sensor i) (Some contact)) s
                  (fst r) (snd r)).
  { intros s tag text pm. cbv zeta. unfold fallbackDecision, heldFrom. cbn.
    repeat split; reflexivity. }
  destruct (ci_primary i) as [raw | |].
  2,3: (edestruct Hfb as [-> Hh]; exists st1; split; [exact Hh | left; reflexivity]).
  match goal with
  | |- context [match ?x with Some p => decideFromParsed _ _ _ _ _ _ _ _ _ p _
                              | None => _ end] => destruct x as [p|]
  end.
  2: (edestruct Hfb as [-> Hh]; exists st1; split; [exact Hh | left; reflexivity]).
  unfold decideFromParsed.
  pose proof (assemble_view wallSector (ci_sensor i) (ci_exploration i) (ci_collisions i)
                (inferContextModeSignal (ci_sensor i) (Some contact))
                (mapSignalToMode (targetSignalMode (ci_sensor i))) (ci_stabNow i) st1 p) as H.
  cbv zeta in H. destruct H as (rc & raw' & rq & sec & Hrc & Hv).
  destruct (assembleDecision _ _ _ _ _ _ _ _ _ _) as [[st' o] th].
  cbn [fst snd] in Hrc, Hv.
  destruct (thoughtThrows th).
  - edestruct Hfb as [-> Hh]. exists st'. split; [exact Hh|].
    right. exists o, rc, raw', rq, sec. exact Hv.
  - cbn [fst snd]. rewrite Hrc. exists raw', rq, sec; exact Hv.
Qed.

Lemma runCycles_cons (st : SmoothingState) (i : CycleInput) (rest : list CycleInput) :
  runCycles wallSector st (i :: rest)
  = mkCycleEvent i st (fst (cycle wallSector st i)) (snd (cycle wallSector st i))
    :: runCycles wallSector (fst (cycle wallSector st i)) rest.
Proof.
  cbn [runCycles]; unfold cycle.
  match goal with
  | |- context [getDrivingDecision ?a ?b ?c ?d ?e ?f ?g ?h ?k] =>
      destruct (getDrivingDecision a b c d e f g h k)
  end; reflexivity.
Qed.

(** After a cycle the switch time is the old one or this cycle's clock. *)
Lemma cycle_switch_time (st : SmoothingState) (i : CycleInput) :
  lastModeSwitchAt (fst (cycle wallSector st i)) = lastModeSwitchAt st
  \/ lastModeSwitchAt (fst (cycle wallSector st i)) = ci_stabNow i.
Proof.
  pose proof (cycle_view st i) as H.
  destruct (tracked_frame st i) as (_ & Ht & _).
  apply (f_equal tv_lastModeSwitchAt) in Ht; cbn [tv_lastModeSwitchAt trackerView] in Ht.
  assert (Hres : forall st' out rc raw rq sec,
             ResolvedView (cycleSignal st i) (ci_sensor i) (ci_stabNow i)
               (trackedState st i) st' out rc raw rq sec ->
             lastModeSwitchAt st' = lastModeSwitchAt st
             \/ lastModeSwitchAt st' = ci_stabNow i).
  { intros st' out rc raw rq sec [_ _ _ _ _ _ Htr _ _ _ _ _].
    apply (f_equal tv_lastModeSwitchAt) in Htr; cbn [tv_lastModeSwitchAt trackerView] in Htr.
    rewrite Htr, stabilize_switch_time, Ht.
    destruct (recordsSwitch _); auto. }
  destruct (so_riskCue _) as [rc|].
  - destruct H as (raw & rq & sec & Hv). exact (Hres _ _ _ _ _ _ Hv).
  - destruct H as (stBefore & (_ & _ & ->) & Hb).
    cbn [lastModeSwitchAt set_lastStrategyMode].
    destruct Hb as [-> | (out & rc & raw & rq & sec & Hv)];
      [left; exact Ht | exact (Hres _ _ _ _ _ _ Hv)].
Qed.

(** A resolved cycle that switches the mode records its clock; when the
    switch is not a forced override, the cooldown had run out. *)
Lemma cycle_resolved_switch (st : SmoothingState) (i : CycleInput) (p : Mode) (rc : RiskCue) :
  lastStrategyMode st = Some p ->
  so_riskCue (strategy (snd (cycle wallSector st i))) = Some rc ->
  so_mode (strategy (snd (cycle wallSector st i))) <> p ->
  lastModeSwitchAt (fst (cycle wallSector st i)) = ci_stabNow i
  /\ recordsSwitch (rc_hysteresis rc) = true
  /\ (sb_reason (rc_hysteresis rc) = hysteresis_confirmed_switch ->
      ~ (0 < lastModeSwitchAt st
         /\ ci_stabNow i - lastModeSwitchAt st < MODE_SWITCH_COOLDOWN_MS)%Z
      /\ pendingStrategyMode st = Some (so_mode (strategy (snd (cycle wallSector st i))))
      /\ (MODE_SWITCH_MIN_VOTES <= pendingStrategyVotes st + 1)%Z
      /\ (MODE_SWITCH_MIN_DWELL_MS <= ci_stabNow i - pendingStrategySince st)%Z).
Proof.
  intros Hp Hrc Hne.
  pose proof (cycle_view st i) as H; rewrite Hrc in H.
  destruct H as (raw & rq & sec & [_ Hh Hm _ _ _ Htr _ _ _ _ _]).
  destruct (tracked_frame st i) as (Hl & Ht & _).
  rewrite Hm, Hh in Hne.
  rewrite <- Hl in Hp.
  pose proof (stabilize_mode_change _ _ _ _ _ Hp Hne) as (Hd & Hr & Hc).
  apply (f_equal tv_lastModeSwitchAt) in Htr; cbn [tv_lastModeSwitchAt trackerView] in Htr.
  rewrite Htr, stabilize_switch_time, Hr, Hm, Hh, Hd.
  split; [reflexivity|]. split; [exact Hr|].
  intros Hw; specialize (Hc Hw).
  pose proof (f_equal tv_lastModeSwitchAt Ht) as T1.
  pose proof (f_equal tv_pendingStrategyMode Ht) as T2.
  pose proof (f_equal tv_pendingStrategyVotes Ht) as T3.
  pose proof (f_equal tv_pendingStrategySince Ht) as T4.
  cbn [trackerView tv_lastModeSwitchAt tv_pendingStrategyMode tv_pendingStrategyVotes
       tv_pendingStrategySince] in T1, T2, T3, T4.
  rewrite T1, T2, T3, T4 in Hc. exact Hc.
Qed.

End CycleView.

(** ** C4: switches inside the cooldown window *)

Section ModeSwitches.

Variable wallSector : WallRegion -> Q -> Sector.

(** Once a switch has been recorded at [t], a later resolved switch that is
    not a forced override comes at least the cooldown after [t]. *)
Lemma later_switch_after_cooldown (inputs : list CycleInput) :
  forall (st : SmoothingState) (t : Z),
    (0 < t)%Z -> (t <= lastModeSwitchAt st)%Z ->
    Forall (fun i => (lastModeSwitchAt st <= ci_stabNow i)%Z) inputs ->
    StronglySorted (fun a b => (ci_stabNow a <= ci_stabNow b)%Z) inputs ->
    forall e, In e (runCycles wallSector st inputs) ->
      modeSwitched e = true -> ev_resolved e = true -> forcedOverride e = false ->
      (MODE_SWITCH_COOLDOWN_MS <= ev_time e - t)%Z.
Proof.
  induction inputs as [|i rest IH]; intros st t Ht Hle Hall Hs e He Hsw Hres Hnf.
  - destruct He.
  - rewrite runCycles_cons in He. destruct He as [<- | He].
    + unfold modeSwitched, ev_resolved, forcedOverride, ev_stabReason, ev_time, ev_mode in *.
      cbn [ev_before ev_output ev_input] in *.
      destruct (lastStrategyMode st) as [p|] eqn:Hp; [|discriminate].
      destruct (so_riskCue (strategy (snd (cycle wallSector st i)))) as [rc|] eqn:Hrc;
        [|discriminate].
      apply negb_true_iff, Mode_eqb_neq in Hsw.
      assert (Hne : so_mode (strategy (snd (cycle wallSector st i))) <> p) by congruence.
      destruct (cycle_resolved_switch wallSector st i p rc Hp Hrc Hne) as (_ & Hr & Hc).
      cbn [option_map] in Hnf. unfold recordsSwitch in Hr.
      destruct (sb_reason (rc_hysteresis rc)); try discriminate.
      destruct (Hc eq_refl) as (Hcool & _).
      unfold MODE_SWITCH_COOLDOWN_MS in *. inversion Hall; subst. lia.
    + inversion Hs as [|? ? Hs' Hfirst]; subst. inversion Hall as [|? ? Hi Hall']; subst.
      destruct (cycle_switch_time wallSector st i) as [Heq | Heq].
      * apply (IH (fst (cycle wallSector st i)) t); auto; rewrite Heq; auto.
      * apply (IH (fst (cycle wallSector st i)) t); auto; rewrite Heq; try lia.
        exact Hfirst.
Qed.

(** C4, as the code has it.  In every sequence of decision cycles whose clock
    is positive and never runs backwards, when the resolved mode switches in
    two cycles that both resolved a model response and that lie less than
    2.2 seconds apart, the later switch is a forced override of the
    stabilizer: critical danger, strong lock promotion or lock-priority
    promotion. *)
Theorem C4_second_switch_in_window_is_forced
    (st : SmoothingState) (inputs : list CycleInput) (i j : nat) (ei ej : CycleEvent) :
  clockOrdered inputs ->
  (i < j)%nat ->
  nth_error (runCycles wallSector st inputs) i = Some ei ->
  nth_error (runCycles wallSector st inputs) j = Some ej ->
  modeSwitched ei = true -> ev_resolved ei = true ->
  modeSwitched ej = true -> ev_resolved ej = true ->
  (ev_time ej - ev_time ei < 2200)%Z ->
  forcedOverride ej = true.
Proof.
  revert st i j.
  induction inputs as [|a rest IH]; intros st i j [Hpos Hsorted] Hij Hi Hj Hsi Hri Hsj Hrj Hw.
  - destruct i; discriminate Hi.
  - rewrite runCycles_cons in Hi, Hj.
    inversion Hpos as [|? ? Ha Hpos']; subst.
    inversion Hsorted as [|? ? Hs' Hfirst]; subst.
    destruct j as [|j]; [lia|]. cbn [nth_error] in Hj.
    destruct i as [|i].
    + cbn [nth_error] in Hi; injection Hi as <-.
      destruct (forcedOverride ej) eqn:Hf; [reflexivity|exfalso].
      unfold modeSwitched, ev_resolved, ev_mode in Hsi, Hri;
        cbn [ev_before ev_output] in Hsi, Hri.
      destruct (lastStrategyMode st) as [p|] eqn:Hp; [|discriminate].
      destruct (so_riskCue (strategy (snd (cycle wallSector st a)))) as [rc|] eqn:Hrc;
        [|discriminate].
      apply negb_true_iff, Mode_eqb_neq in Hsi.
      assert (Hne : so_mode (strategy (snd (cycle wallSector st a))) <> p) by congruence.
      destruct (cycle_resolved_switch wallSector st a p rc Hp Hrc Hne) as (Ht & _).
      assert (Hin : In ej (runCycles wallSector (fst (cycle wallSector st a)) rest)).
      { eapply nth_error_In; eauto. }
      pose proof (later_switch_after_cooldown rest (fst (cycle wallSector st a))
                    (ci_stabNow a) Ha) as HL.
      rewrite Ht in HL. specialize (HL (Z.le_refl _) Hfirst Hs' ej Hin Hsj Hrj Hf).
      unfold ev_time in *; cbn [ev_input] in *. unfold MODE_SWITCH_COOLDOWN_MS in HL. lia.
    + cbn [nth_error] in Hi.
      apply (IH (fst (cycle wallSector st a)) i j); auto; [split; auto | lia].
Qed.

End ModeSwitches.

(** C4 as stated fails.  In the first trace the mode switches at 3.5 s by a
    confirmed vote and again at 4.0 s by a strong lock promotion; neither
    switch is a critical-danger or a lock-priority override.  In the second
    trace the request of the fourth cycle times out: the fallback takes the
    context-expected mode without asking the stabilizer, and the output
    reports a second switch 0.5 s after the first, with no forced override
    at all. *)
Lemma C4_counterexample_two_switches_in_window :
  (let events := runCycles (fun _ _ => SF) freshState switchTrace in
   map ev_mode events = [ESCAPE_RECOVERY; ESCAPE_RECOVERY; MEMORY_EXPLORE; TARGET_LOCK]
   /\ map ev_time events = [1000; 2000; 3500; 4000]%Z
   /\ map modeSwitched events = [false; false; true; true]
   /\ map ev_stabReason events
      = [Some stable; Some pending_switch_vote; Some hysteresis_confirmed_switch;
         Some strong_lock_promotion]
   /\ map criticalOrLockPriorityOverride events = [false; false; false; false])
  /\ (let events := runCycles (fun _ _ => SF) freshState timeoutTrace in
      map ev_mode events = [ESCAPE_RECOVERY; ESCAPE_RECOVERY; MEMORY_EXPLORE; TARGET_LOCK]
      /\ map ev_time events = [1000; 2000; 3500; 4000]%Z
      /\ map modeSwitched events = [false; false; true; true]
      /\ map (fun e => so_transition (strategy (ev_output e))) events
         = [HOLD; HOLD; SWITCH; SWITCH]
      /\ map ev_stabReason events
         = [Some stable; Some pending_switch_vote; Some hysteresis_confirmed_switch; None]
      /\ map forcedOverride events = [false; false; false; false]).
Proof. vm_compute. repeat split. Qed.

(** In that trace the switches of the third and the fourth cycle lie 0.5 s
    apart, and the later one is forced. *)
Lemma C4_witness :
  let events := runCycles (fun _ _ => SF) freshState switchTrace in
  exists ei ej,
    nth_error events 2 = Some ei /\ nth_error events 3 = Some ej
    /\ forcedOverride ej = true.
Proof.
  intros events.
  destruct (nth_error events 2) as [ei|] eqn:Hi; [|vm_compute in Hi; discriminate Hi].
  destruct (nth_error events 3) as [ej|] eqn:Hj; [|vm_compute in Hj; discriminate Hj].
  exists ei, ej; split; [reflexivity|]; split; [reflexivity|].
  apply (C4_second_switch_in_window_is_forced (fun _ _ => SF) freshState switchTrace
           2 3 ei ej).
  - split; [repeat constructor | repeat constructor; cbn; lia].
  - lia.
  - exact Hi.
  - exact Hj.
  - vm_compute in Hi; injection Hi as <-; vm_compute; reflexivity.
  - vm_compute in Hi; injection Hi as <-; vm_compute; reflexivity.
  - vm_compute in Hj; injection Hj as <-; vm_compute; reflexivity.
  - vm_compute in Hj; injection Hj as <-; vm_compute; reflexivity.
  - vm_compute in Hi; injection Hi as <-; vm_compute in Hj; injection Hj as <-;
      vm_compute; reflexivity.
Defined.

(** ** C5: votes and dwell *)



(** ** C9: skill cadence *)

Lemma Skill_eqb_neq (a b : Skill) : Skill_eqb a b = false <-> a <> b.
Proof. rewrite <- Skill_eqb_eq; destruct (Skill_eqb a b); split; congruence. Qed.

Lemma Skill_eqb_refl (a : Skill) : Skill_eqb a a = true.
Proof. apply Skill_eqb_eq; reflexivity. Qed.

(** Turns the boolean tests on modes and skills in the context into
    equations, and closes the goal when they contradict each other. *)
Ltac enum_facts :=
  repeat match goal with
         | H : Skill_eqb _ _ = true |- _ => apply Skill_eqb_eq in H
         | H : Skill_eqb _ _ = false |- _ => apply Skill_eqb_neq in H
         | H : Mode_eqb _ _ = true |- _ => apply Mode_eqb_eq in H
         | H : Mode_eqb _ _ = false |- _ => apply Mode_eqb_neq in H
         end;
  try congruence.

(** What lets the cadence control return SCAN_SECTOR. *)
Lemma cadence_scan (requested : Skill) (mode : Mode) (signal : ContextSignal)
    (sd : SensorData) (bias : bool) (st : SmoothingState) :
  let r := snd (enforceSkillCadence requested mode signal sd bias st) in
  (cr_skill r = SCAN_SECTOR ->
   ((scanBurstCount st < SKILL_BURST_SCAN_LIMIT)%Z \/ danger signal = true)
   /\ cr_scanBurstCount r = (scanBurstCount st + 1)%Z)
  /\ (cr_skill r <> SCAN_SECTOR -> cr_scanBurstCount r = 0%Z).
Proof.
  cbv zeta. destruct (ensure_skill_fields st) as (_ & _ & <- & _).
  unfold enforceSkillCadence.
  set (st1 := ensureSmoothingState st).
  destruct (Skill_eqb requested SCAN_SECTOR) eqn:Erq.
  - apply Skill_eqb_eq in Erq; subst requested.
    destruct (SKILL_BURST_SCAN_LIMIT <=? scanBurstCount st1)%Z eqn:Elim;
      destruct (danger signal) eqn:Ed; cbn [andb negb];
      [ | | apply Z.leb_gt in Elim | apply Z.leb_gt in Elim ].
    all: break_ifs; cbn; split; intros H; try discriminate H; try congruence;
      try (split; [auto | reflexivity]).
  - cbn [andb]. apply Skill_eqb_neq in Erq.
    break_ifs; cbn; split; intros H; try discriminate H; try congruence.
    all: destruct requested; cbn in *; congruence.
Qed.

(** What lets the cadence control return BACKOFF_AND_TURN. *)
Lemma cadence_backoff (requested : Skill) (mode : Mode) (signal : ContextSignal)
    (sd : SensorData) (bias : bool) (st : SmoothingState) :
  let r := snd (enforceSkillCadence requested mode signal sd bias st) in
  (cr_skill r = BACKOFF_AND_TURN ->
   ((backoffBurstCount st < SKILL_BURST_BACKOFF_LIMIT)%Z
    \/ mode = ESCAPE_RECOVERY \/ danger signal = true
    \/ minFrontDistOf sd <= SKILL_BURST_RELEASE_FRONT_DIST)
   /\ cr_backoffBurstCount r = (backoffBurstCount st + 1)%Z)
  /\ (cr_skill r <> BACKOFF_AND_TURN -> cr_backoffBurstCount r = 0%Z).
Proof.
  cbv zeta. destruct (ensure_skill_fields st) as (_ & _ & _ & <-).
  unfold enforceSkillCadence.
  set (st1 := ensureSmoothingState st).
  destruct (Skill_eqb requested BACKOFF_AND_TURN) eqn:Erq.
  - apply Skill_eqb_eq in Erq; subst requested. cbn [Skill_eqb bool_decide andb].
    change (Skill_eqb BACKOFF_AND_TURN SCAN_SECTOR) with false; cbn [andb negb].
    destruct (SKILL_BURST_BACKOFF_LIMIT <=? backoffBurstCount st1)%Z eqn:Elim;
      destruct (Mode_eqb mode ESCAPE_RECOVERY) eqn:Em;
      destruct (danger signal) eqn:Ed;
      destruct (Qgtb (minFrontDistOf sd) SKILL_BURST_RELEASE_FRONT_DIST) eqn:Ef;
      cbn [andb negb];
      try apply Z.leb_gt in Elim; try apply Mode_eqb_eq in Em; try apply Qgtb_false in Ef.
    all: break_ifs; cbn; split; intros H; try discriminate H; try congruence;
      try (split; [auto 6 | reflexivity]).
  - apply Skill_eqb_neq in Erq. rewrite !andb_false_r || idtac.
    assert (Hb : forall b, b && Skill_eqb requested BACKOFF_AND_TURN = false).
    { intros b; apply Skill_eqb_neq in Erq; rewrite Erq; apply andb_false_r. }
    break_ifs; cbn; split; intros H; try discriminate H; try congruence.
    all: destruct requested; cbn in *; try congruence; try discriminate.
Qed.

(** The approach hold: entering APPROACH_TARGET arms the hold, and an armed
    hold overrides any other request while the approach stays ready. *)
Lemma cadence_approach_hold (requested : Skill) (mode : Mode) (signal : ContextSignal)
    (sd : SensorData) (bias : bool) (st : SmoothingState) :
  let r := snd (enforceSkillCadence requested mode signal sd bias st) in
  (cr_skill r = APPROACH_TARGET -> lastSkillName st <> Some APPROACH_TARGET ->
   (APPROACH_MIN_HOLD_CYCLES - 1 <= cr_approachHoldRemaining r)%Z)
  /\ ((0 < approachHoldRemaining st)%Z -> mode <> ESCAPE_RECOVERY ->
      forwardApproachReady signal sd = true -> cr_skill r = APPROACH_TARGET).
Proof.
  cbv zeta. destruct (ensure_skill_fields st) as (<- & <- & _ & _).
  unfold enforceSkillCadence.
  set (st1 := ensureSmoothingState st).
  split.
  - intros Hk Hprev.
    assert (Hp : Skill_eqb (match lastSkillName st1 with
                            | Some s => s | None => MOVE_TO_FRONTIER end)
                   APPROACH_TARGET = false).
    { apply Skill_eqb_neq; destruct (lastSkillName st1) as [s|]; congruence. }
    revert Hk; rewrite Hp; cbn [negb].
    break_ifs; cbn; intros Hk; try congruence; unfold APPROACH_MIN_HOLD_CYCLES; try lia.
    all: enum_facts.
  - intros Hrem Hmode Hready.
    apply Z.ltb_lt in Hrem. apply Mode_eqb_neq in Hmode.
    rewrite Hrem, Hmode, Hready; cbn [negb andb].
    break_ifs; cbn; try reflexivity.
    all: cbn [negb andb] in *; try discriminate; enum_facts.
Qed.

Lemma danger_signal_critical (sd : SensorData) (c : option ContactState) :
  danger (inferContextModeSignal sd c) = true -> criticalDanger sd.
Proof.
  unfold inferContextModeSignal, criticalDanger; cbn [danger].
  intros H; apply orb_true_iff in H as [H | H]; [left; exact H | right].
  apply Qltb_true; exact H.
Qed.

Section SkillCadence.

Variable wallSector : WallRegion -> Q -> Sector.

(** A resolved cycle under danger ends in escape and back-off. *)
Lemma resolved_under_danger (st : SmoothingState) (i : CycleInput) (rc : RiskCue)
    (raw : Mode) (requested : Skill) (sector : Sector) :
  ResolvedView (cycleSignal st i) (ci_sensor i) (ci_stabNow i) (trackedState st i)
    (fst (cycle wallSector st i)) (snd (cycle wallSector st i)) rc raw requested sector ->
  danger (cycleSignal st i) = true ->
  so_mode (strategy (snd (cycle wallSector st i))) = ESCAPE_RECOVERY
  /\ sk_name (skill (snd (cycle wallSector st i))) = BACKOFF_AND_TURN.
Proof.
  intros [Hmr Hh Hm Hsr Hc Hs _ _ _ _ _ _] Hd.
  unfold cycleSignal in *.
  match type of Hd with
  | danger (inferContextModeSignal ?sd ?c) = true =>
      pose proof (lock_cues_off_under_danger sd c Hd) as (Hp & Hw & _);
      set (signal := inferContextModeSignal sd c) in *
  end.
  assert (Hmode : so_mode (strategy (snd (cycle wallSector st i))) = ESCAPE_RECOVERY).
  { rewrite Hm, Hh, Hmr, (resolve_mode_under_danger _ _ _ Hd Hp Hw).
    apply stabilize_escape_under_danger; exact Hd. }
  split; [exact Hmode|].
  rewrite Hs, Hc, Hsr, Hmode, resolve_skill_in_escape.
  apply cadence_keeps_backoff_in_escape.
Qed.

(** Resolving a response keeps the burst counters from going negative. *)
Lemma resolved_counters_nonneg (st : SmoothingState) (i : CycleInput)
    (st' : SmoothingState) (out : DecisionOutput) (rc : RiskCue)
    (raw : Mode) (requested : Skill) (sector : Sector) :
  ResolvedView (cycleSignal st i) (ci_sensor i) (ci_stabNow i) (trackedState st i)
    st' out rc raw requested sector ->
  ((0 <= scanBurstCount st)%Z -> (0 <= scanBurstCount st')%Z)
  /\ ((0 <= backoffBurstCount st)%Z -> (0 <= backoffBurstCount st')%Z).
Proof.
  intros Hv.
  destruct (tracked_frame st i) as (_ & _ & _ & _ & Tscan & Tback).
  destruct Hv as [Hmr Hh Hm Hsr Hc Hs _ _ _ _ Hsc Hbk].
  pose proof (stabilize_other_fields (trackedState st i) (mr_mode (rc_modeResolved rc))
                (cycleSignal st i) (ci_stabNow i)) as Hof; cbv zeta in Hof.
  destruct Hof as (_ & _ & _ & Sscan & Sback).
  rewrite Tscan in Sscan; rewrite Tback in Sback.
  match type of Hc with
  | _ = snd (enforceSkillCadence ?a ?b ?c ?d ?e ?f) =>
      pose proof (cadence_scan a b c d e f) as Ks;
      pose proof (cadence_backoff a b c d e f) as Kb
  end.
  cbv zeta in Ks, Kb. rewrite <- Hc in Ks, Kb. rewrite Sscan in Ks; rewrite Sback in Kb.
  destruct Ks as [Ks1 Ks2]; destruct Kb as [Kb1 Kb2].
  rewrite Hsc, Hbk.
  split; intros Hnn.
  - destruct (Skill_eqb (cr_skill (rc_cadence rc)) SCAN_SECTOR) eqn:Hk.
    + apply Skill_eqb_eq in Hk. destruct (Ks1 Hk) as [_ ->]; lia.
    + apply Skill_eqb_neq in Hk. rewrite (Ks2 Hk); lia.
  - destruct (Skill_eqb (cr_skill (rc_cadence rc)) BACKOFF_AND_TURN) eqn:Hk.
    + apply Skill_eqb_eq in Hk. destruct (Kb1 Hk) as [_ ->]; lia.
    + apply Skill_eqb_neq in Hk. rewrite (Kb2 Hk); lia.
Qed.

(** The burst counters over one cycle. *)
Lemma cycle_burst_counters (st : SmoothingState) (i : CycleInput) :
  let st' := fst (cycle wallSector st i) in
  let out := snd (cycle wallSector st i) in
  (sk_name (skill out) = SCAN_SECTOR ->
   (scanBurstCount st < 2)%Z /\ scanBurstCount st' = (scanBurstCount st + 1)%Z)
  /\ ((0 <= scanBurstCount st)%Z -> (0 <= scanBurstCount st')%Z)
  /\ (sk_name (skill out) = BACKOFF_AND_TURN ->
      ((backoffBurstCount st < 2)%Z \/ so_mode (strategy out) = ESCAPE_RECOVERY
       \/ minFrontDistOf (ci_sensor i) <= 3.2)
      /\ backoffBurstCount st' = (backoffBurstCount st + 1)%Z)
  /\ ((0 <= backoffBurstCount st)%Z -> (0 <= backoffBurstCount st')%Z).
Proof.
  cbv zeta.
  pose proof (cycle_view wallSector st i) as H.
  destruct (tracked_frame st i) as (_ & _ & _ & _ & Tscan & Tback).
  destruct (so_riskCue _) as [rc|].
  - destruct H as (raw & rq & sec & Hv).
    pose proof (resolved_under_danger st i rc raw rq sec Hv) as Hdanger.
    destruct Hv as [Hmr Hh Hm Hsr Hc Hs _ _ _ _ Hsc Hbk].
    pose proof (stabilize_other_fields (trackedState st i) (mr_mode (rc_modeResolved rc))
                  (cycleSignal st i) (ci_stabNow i)) as Hof; cbv zeta in Hof.
    destruct Hof as (_ & _ & _ & Sscan & Sback).
    rewrite Tscan in Sscan; rewrite Tback in Sback.
    match type of Hc with
    | _ = snd (enforceSkillCadence ?a ?b ?c ?d ?e ?f) =>
        pose proof (cadence_scan a b c d e f) as Ks;
        pose proof (cadence_backoff a b c d e f) as Kb
    end.
    cbv zeta in Ks, Kb. rewrite <- Hc in Ks, Kb. rewrite Sscan in Ks; rewrite Sback in Kb.
    destruct Ks as [Ks1 Ks2]; destruct Kb as [Kb1 Kb2].
    rewrite Hsc, Hbk, Hs.
    unfold SKILL_BURST_SCAN_LIMIT, SKILL_BURST_BACKOFF_LIMIT, SKILL_BURST_RELEASE_FRONT_DIST
      in *.
    split; [|split; [|split]].
    + intros Hk. destruct (Ks1 Hk) as [[Hlt | Hd] Hcount]; [split; assumption|].
      destruct (Hdanger Hd) as [_ Hb]. rewrite Hs in Hb; congruence.
    + intros Hnn.
      destruct (Skill_eqb (cr_skill (rc_cadence rc)) SCAN_SECTOR) eqn:Hk.
      * apply Skill_eqb_eq in Hk. destruct (Ks1 Hk) as [_ ->]; lia.
      * apply Skill_eqb_neq in Hk. rewrite (Ks2 Hk); lia.
    + intros Hk. destruct (Kb1 Hk) as [[Hlt | [He | [Hd | Hf]]] Hcount];
        (split; [|exact Hcount]); auto.
      destruct (Hdanger Hd) as [He _]; auto.
    + intros Hnn.
      destruct (Skill_eqb (cr_skill (rc_cadence rc)) BACKOFF_AND_TURN) eqn:Hk.
      * apply Skill_eqb_eq in Hk. destruct (Kb1 Hk) as [_ ->]; lia.
      * apply Skill_eqb_neq in Hk. rewrite (Kb2 Hk); lia.
  - destruct H as (stBefore & (_ & Hk & ->) & Hb). rewrite Hk.
    cbn [scanBurstCount backoffBurstCount set_lastStrategyMode].
    destruct Hb as [-> | (out & rc & raw & rq & sec & Hv)].
    + rewrite Tscan, Tback.
      split; [|split; [|split]]; intros; try discriminate; auto.
    + destruct (resolved_counters_nonneg st i stBefore out rc raw rq sec Hv) as [Hs Hb].
      split; [|split; [|split]]; intros; try discriminate; auto.
Qed.

(** C9, as the code has it.  From a session state whose burst counters are
    not negative, in every sequence of decision cycles: SCAN_SECTOR is never
    the resolved skill of three cycles in a row; BACKOFF_AND_TURN is the
    resolved skill of a third cycle in a row only when that cycle's mode is
    ESCAPE_RECOVERY or its front-arc clearance is at most 3.2; and in the
    cadence control, entering APPROACH_TARGET arms a hold of at least
    APPROACH_MIN_HOLD_CYCLES - 1 = 2 further cycles, and an armed hold turns
    every other request into APPROACH_TARGET while the mode is not
    ESCAPE_RECOVERY and the forward approach stays ready. *)
Theorem C9_skill_cadence_limits
    (st : SmoothingState) (inputs : list CycleInput) (k : nat) (e1 e2 e3 : CycleEvent) :
  (0 <= scanBurstCount st)%Z -> (0 <= backoffBurstCount st)%Z ->
  nth_error (runCycles wallSector st inputs) k = Some e1 ->
  nth_error (runCycles wallSector st inputs) (S k) = Some e2 ->
  nth_error (runCycles wallSector st inputs) (S (S k)) = Some e3 ->
  ~ (ev_skill e1 = SCAN_SECTOR /\ ev_skill e2 = SCAN_SECTOR /\ ev_skill e3 = SCAN_SECTOR)
  /\ (ev_skill e1 = BACKOFF_AND_TURN -> ev_skill e2 = BACKOFF_AND_TURN ->
      ev_skill e3 = BACKOFF_AND_TURN ->
      ev_mode e3 = ESCAPE_RECOVERY \/ minFrontDistOf (ci_sensor (ev_input e3)) <= 3.2)
  /\ (forall requested mode signal sd bias s,
        let r := snd (enforceSkillCadence requested mode signal sd bias s) in
        (cr_skill r = APPROACH_TARGET -> lastSkillName s <> Some APPROACH_TARGET ->
         (2 <= cr_approachHoldRemaining r)%Z)
        /\ ((0 < approachHoldRemaining s)%Z -> mode <> ESCAPE_RECOVERY ->
            forwardApproachReady signal sd = true -> cr_skill r = APPROACH_TARGET)).
Proof.
  revert st k.
  induction inputs as [|a rest IH]; intros st k Hs0 Hb0 H1 H2 H3.
  - destruct k; discriminate H1.
  - rewrite runCycles_cons in H1, H2, H3.
    pose proof (cycle_burst_counters st a) as Ca; cbv zeta in Ca.
    destruct Ca as (Ca1 & Ca2 & Ca3 & Ca4).
    destruct k as [|k].
    + cbn [nth_error] in H1, H2, H3. injection H1 as <-.
      destruct rest as [|b rest]; [discriminate H2|].
      rewrite runCycles_cons in H2, H3. cbn [nth_error] in H2, H3. injection H2 as <-.
      destruct rest as [|c rest]; [discriminate H3|].
      rewrite runCycles_cons in H3. cbn [nth_error] in H3. injection H3 as <-.
      unfold ev_skill, ev_mode; cbn [ev_output ev_input].
      set (sa := fst (cycle wallSector st a)) in *.
      pose proof (cycle_burst_counters sa b) as Cb; cbv zeta in Cb.
      destruct Cb as (Cb1 & Cb2 & Cb3 & Cb4).
      set (sb := fst (cycle wallSector sa b)) in *.
      pose proof (cycle_burst_counters sb c) as Cc; cbv zeta in Cc.
      destruct Cc as (Cc1 & _ & Cc3 & _).
      split; [|split].
      * intros (K1 & K2 & K3).
        destruct (Ca1 K1) as [_ Ea]. destruct (Cb1 K2) as [_ Eb]. destruct (Cc1 K3) as [Ec _].
        lia.
      * intros K1 K2 K3.
        destruct (Ca3 K1) as [_ Ea]. destruct (Cb3 K2) as [_ Eb].
        destruct (Cc3 K3) as [[Ec | [Ec | Ec]] _]; auto. lia.
      * intros; apply cadence_approach_hold.
    + cbn [nth_error] in H1, H2, H3.
      apply (IH (fst (cycle wallSector st a)) k); auto.
Qed.

End SkillCadence.

(** C9 as stated fails: with the front blocked and the car stuck, three
    cycles in a row resolve to BACKOFF_AND_TURN. *)
Lemma C9_counterexample_backoff_under_escape :
  let events :=
    runCycles (fun _ _ => SF) freshState
      [ cycleOf scenarioB 900 1000 lockApproachResponse;
        cycleOf scenarioB 1900 2000 lockApproachResponse;
        cycleOf scenarioB 2900 3000 lockApproachResponse ] in
  map ev_skill events = [BACKOFF_AND_TURN; BACKOFF_AND_TURN; BACKOFF_AND_TURN]
  /\ map ev_mode events = [ESCAPE_RECOVERY; ESCAPE_RECOVERY; ESCAPE_RECOVERY].
Proof. vm_compute. split; reflexivity. Qed.

(** The cadence limits on three cycles of scenario B. *)
Lemma C9_witness :
  match runCycles (fun _ _ => SF) freshState blockedTrace with
  | [e1; e2; e3] =>
      (0 <= scanBurstCount freshState)%Z /\ (0 <= backoffBurstCount freshState)%Z
      /\ ~ (ev_skill e1 = SCAN_SECTOR /\ ev_skill e2 = SCAN_SECTOR
            /\ ev_skill e3 = SCAN_SECTOR)
      /\ (ev_skill e1 = BACKOFF_AND_TURN -> ev_skill e2 = BACKOFF_AND_TURN ->
          ev_skill e3 = BACKOFF_AND_TURN ->
          ev_mode e3 = ESCAPE_RECOVERY \/ minFrontDistOf (ci_sensor (ev_input e3)) <= 3.2)
      /\ (forall requested mode signal sd bias s,
            let r := snd (enforceSkillCadence requested mode signal sd bias s) in
            (cr_skill r = APPROACH_TARGET -> lastSkillName s <> Some APPROACH_TARGET ->
             (2 <= cr_approachHoldRemaining r)%Z)
            /\ ((0 < approachHoldRemaining s)%Z -> mode <> ESCAPE_RECOVERY ->
                forwardApproachReady signal sd = true -> cr_skill r = APPROACH_TARGET))
  | _ => False
  end.
Proof.
  pose proof (C9_skill_cadence_limits (fun _ _ => SF) freshState blockedTrace 0) as H.
  destruct (runCycles (fun _ _ => SF) freshState blockedTrace)
    as [|e1 [|e2 [|e3 [|e4 rest]]]] eqn:E;
    try (vm_compute in E; discriminate E).
  assert (H1 : (0 <= scanBurstCount freshState)%Z) by (vm_compute; discriminate).
  assert (H2 : (0 <= backoffBurstCount freshState)%Z) by (vm_compute; discriminate).
  split; [exact H1|]. split; [exact H2|].
  exact (H e1 e2 e3 H1 H2 eq_refl eq_refl eq_refl).
Defined.

(** A cycle in which the hold turns another request into APPROACH_TARGET
    spends two units of the hold: one in the lock itself and one in the
    bookkeeping of a repeated APPROACH_TARGET.  A hold armed at
    APPROACH_MIN_HOLD_CYCLES - 1 = 2 is used up by the first held cycle. *)
Lemma approach_hold_spent_twice (requested : Skill) (mode : Mode) (signal : ContextSignal)
    (sd : SensorData) (bias : bool) (st : SmoothingState) :
  let r := snd (enforceSkillCadence requested mode signal sd bias st) in
  cr_approachHoldLock r = true ->
  lastSkillName st = Some APPROACH_TARGET ->
  cr_skill r = APPROACH_TARGET
  /\ cr_approachHoldRemaining r = Z.max 0 (approachHoldRemaining st - 2).
Proof.
  cbv zeta. destruct (ensure_skill_fields st) as (<- & <- & _ & _).
  unfold enforceSkillCadence.
  set (st1 := ensureSmoothingState st).
  cbv zeta. intros Hlock Hprev.
  match type of Hlock with
  | cr_approachHoldLock (snd (let '(_, _) := if ?c then _ else _ in _)) = true =>
      assert (Hc : c = true) by (destruct c; [reflexivity | exact Hlock])
  end.
  rewrite Hc. rewrite Hprev.
  cbn [snd fst cr_skill cr_approachHoldRemaining Skill_eqb negb].
  split; [reflexivity|].
  apply andb_prop in Hc as [Hc _]. apply andb_prop in Hc as [Hc _].
  apply andb_prop in Hc as [_ Hrem]. apply Z.ltb_lt in Hrem.
  generalize dependent (approachHoldRemaining st1). intros h _ Hrem.
  destruct st1; cbn.
  destruct (0 <? Z.max 0 (h - 1))%Z eqn:E; cbn.
  - apply Z.ltb_lt in E. lia.
  - apply Z.ltb_ge in E. lia.
Qed.

(** ** C2: the forward clamps of the safety guard *)

(** The best of the forward options is not the front sector when the front
    sector is blocked. *)
Lemma best_forward_not_front (key : Sector -> Q) (blocked : Sector -> bool)
    (best : Sector) (others : list Sector) :
  blocked SF = true ->
  sortDesc key (List.filter (fun s => negb (blocked s)) [SF; SL; SR]) = best :: others ->
  best <> SF.
Proof.
  intros Hb. cbn [List.filter]. rewrite Hb; cbn [negb].
  destruct (blocked SL), (blocked SR); cbn [negb List.filter]; unfold sortDesc;
    cbn [fold_left insertDesc];
    try destruct (Qltb _ _); intros H; inversion H; discriminate.
Qed.

Section GuardClamps.

Variable wallSector : WallRegion -> Q -> Sector.

(** C2, as the code has it.  For every snapshot whose front clearance is
    below 2.5, every requested throttle and steering, when the close-approach
    exception does not apply: the guard emits a throttle of at most 0.1 if
    the front clearance is below 2.35; of at most 0.22 if the intended sector
    is the front or is blocked by the sensors or by the memory; and never
    more than the requested throttle, or 0 for a reverse request.  With a
    front clearance of 2.35 or more and an intended sector that is not the
    front and is not blocked, a forward request passes unchanged, with its
    steering, and the guard reports that it did not act. *)
Theorem C2_guard_forward_clamps
    (sd : SensorData) (ec : option ExplorationContext) (strategySector : Sector)
    (cs : option CollisionSummary) (requested steer : Q) :
  let g := applyMemorySafetyGuard wallSector sd ec strategySector cs requested steer in
  minFrontDistOf sd < 2.5 ->
  gp_allowFinalForwardApproach (g_profile g) = false ->
  (minFrontDistOf sd < 2.35 -> g_throttle g <= 0.1)
  /\ (gp_intendedSector (g_profile g) = SF
      \/ setHas (gp_sensorBlockedSectors (g_profile g)) (gp_intendedSector (g_profile g)) = true
      \/ setHas (gp_memoryBlockedSectors (g_profile g)) (gp_intendedSector (g_profile g)) = true ->
      g_throttle g <= 0.22)
  /\ g_throttle g <= qmax requested 0
  /\ (2.35 <= minFrontDistOf sd -> 0 <= requested ->
      gp_intendedSector (g_profile g) <> SF ->
      setHas (gp_sensorBlockedSectors (g_profile g)) (gp_intendedSector (g_profile g)) = false ->
      setHas (gp_memoryBlockedSectors (g_profile g)) (gp_intendedSector (g_profile g)) = false ->
      g_throttle g = requested /\ g_steering g = steer /\ g_guardApplied g = false).
Proof.
  cbv zeta. unfold applyMemorySafetyGuard.
  cbv zeta. cbn [getSectorClearance cF cL cR cB].
  set (front := minFrontDistOf sd).
  set (cl := qmin (asNum (left sd) 99) (asNum (leftDiag sd) 99)).
  set (cr := qmin (asNum (right sd) 99) (asNum (rightDiag sd) 99)).
  set (cb := qmin (qmin (asNum (back sd) 99) (asNum (backLeft sd) 99))
               (asNum (backRight sd) 99)).
  match goal with
  | |- context [setHas ?m _] =>
      lazymatch m with context [ss_sector] => set (memoryBlocked := m) end
  end.
  set (intended := if Qgtb (qabs steer) 0.2 then sectorFromSteering steer
                   else normalizeSector (Some strategySector) SF).
  set (close := (0 <? countTargetHits sd)%Z || _).
  intros Hfront.
  assert (H29 : Qltb front 2.9 = true) by (apply Qltb_true; lra).
  assert (H26 : Qltb front 2.6 = true) by (apply Qltb_true; lra).
  assert (H32 : Qgtb front 3.2 = false) by (apply Qgtb_false; lra).
  rewrite H29, H26, H32.
  set (sensorBlocked := [SF] ++ _).
  assert (HbF : setHas sensorBlocked SF = true) by reflexivity.
  set (allow := close && Sector_eqb intended SF && Qgtb front 2.2).
  match goal with
  | |- context [match ?e with (_, _) => _ end] =>
      lazymatch e with
      | (if Qgtb requested 0.04 && _ && _ then _ else _) =>
          destruct e as [[[t1 s1] r1] a1] eqn:E1
      end
  end.
  destruct (if Qgtb t1 0.1 && Qltb front 2.35 && negb allow
            then (0.1, (if Qltb (qabs s1) 0.35
                        then (if Qgeb cl cr then 0.52 else -0.52) else s1),
                  r1 ++ [front_tight_clamp], true)
            else (t1, s1, r1, a1)) as [[[t2 s2] r2] a2] eqn:E2.
  rewrite !andb_false_r. cbn [andb].
  destruct (if Qltb t2 (-0.08) && setHas sensorBlocked SB
            then (0, r2 ++ [rear_blocked], true) else (t2, r2, a2))
    as [[t4 r4] a4] eqn:E4.
  cbn [g_profile g_throttle g_steering g_guardApplied gp_allowFinalForwardApproach
       gp_intendedSector gp_sensorBlockedSectors gp_memoryBlockedSectors].
  intros Hallow.
  clearbody allow sensorBlocked memoryBlocked intended close front cl cr cb.
  (* an open lateral or rear sector: no stage fires *)
  assert (S5 : 2.35 <= front -> 0 <= requested -> intended <> SF ->
               setHas sensorBlocked intended = false ->
               setHas memoryBlocked intended = false ->
               t4 = requested /\ s2 = steer /\ a4 = false).
  { clear H29 H26 H32 HbF. intros Hopen Hfwd Hint Hsb Hmb.
    apply Sector_eqb_eq_false in Hint.
    rewrite Hsb, Hmb, Hint in E1. cbn [orb andb] in E1. rewrite andb_false_r in E1.
    cbn [andb] in E1. injection E1 as <- <- <- <-.
    assert (G2 : Qltb front 2.35 = false) by (apply Qltb_false; lra).
    rewrite G2, andb_false_r in E2. cbn [andb] in E2. injection E2 as <- <- <- <-.
    assert (G4 : Qltb requested (-0.08) = false) by (apply Qltb_false; lra).
    rewrite G4 in E4. cbn [andb] in E4. injection E4 as <- <- <-.
    repeat split. }
  (* the first stage: the reroute *)
  assert (S1 : t1 <= qmax requested 0
               /\ (intended = SF \/ setHas sensorBlocked intended = true
                   \/ setHas memoryBlocked intended = true -> t1 <= 0.22)).
  { clear E2 E4 H29 H26 H32. rewrite Hallow in E1. clear Hallow.
    cbn [negb] in E1. rewrite (andb_true_r (Qgtb requested 0.04 && _)) in E1.
    destruct (Qgtb requested 0.04
              && (setHas sensorBlocked intended || setHas memoryBlocked intended
                  || Sector_eqb intended SF && true && Qgtb requested 0.18)) eqn:G.
    - match type of E1 with
      | match ?opts with _ => _ end = _ => destruct opts as [|best others] eqn:Eo
      end.
      + destruct (Qgtb cb 2.8); inversion E1; subst; split; intros; qcases; lra.
      + assert (Hbest : best <> SF).
        { eapply (best_forward_not_front _
                    (fun s => setHas sensorBlocked s || setHas memoryBlocked s)).
          - cbn beta; rewrite HbF; reflexivity.
          - rewrite <- Eo. f_equal. apply filter_ext; intros s.
            rewrite negb_orb; reflexivity. }
        apply Sector_eqb_eq_false in Hbest. rewrite Hbest in E1.
        inversion E1; subst; split; intros; qcases; lra.
    - inversion E1; subst. split; [qcases; lra|].
      intros Hint.
      assert (Hforb : setHas sensorBlocked intended || setHas memoryBlocked intended
                      || Sector_eqb intended SF && true && Qgtb t1 0.18
                      = true \/ intended = SF).
      { destruct Hint as [-> | [-> | ->]]; auto; left;
          rewrite ?orb_true_r; reflexivity. }
      destruct Hforb as [Hforb | ->].
      + rewrite Hforb, andb_true_r in G. apply Qgtb_false in G. lra.
      + rewrite HbF in G; cbn [orb] in G; rewrite andb_true_r in G.
        apply Qgtb_false in G. lra. }
  destruct S1 as [S1a S1b].
  (* the second stage: the hard clamp *)
  assert (S2 : t2 <= t1 /\ (front < 2.35 -> t2 <= 0.1)).
  { clear E1 E4 S1a S1b.
    rewrite Hallow in E2; cbn [negb] in E2; rewrite andb_true_r in E2.
    destruct (Qgtb t1 0.1) eqn:G1; destruct (Qltb front 2.35) eqn:G2;
      cbn [andb] in E2; inversion E2; subst;
      try apply Qgtb_true in G1; try apply Qgtb_false in G1;
      try apply Qltb_false in G2; split; intros; lra. }
  destruct S2 as [S2a S2b].
  (* the last stage: a blocked rear turns a reverse into a hold *)
  assert (S4 : (t4 = t2 \/ (t4 == 0 /\ t2 < 0))).
  { clear E1 E2.
    destruct (Qltb t2 (-0.08) && setHas sensorBlocked SB) eqn:G; inversion E4; subst.
    - right; split; [reflexivity|]. apply andb_true_iff in G as [G _].
      apply Qltb_true in G; lra.
    - left; reflexivity. }
  assert (Hq : 0 <= qmax requested 0) by apply qmax_ge_r.
  split; [|split; [|split]].
  - intros H; specialize (S2b H). destruct S4 as [-> | [-> _]]; lra.
  - intros H; specialize (S1b H). destruct S4 as [-> | [-> _]]; lra.
  - destruct S4 as [-> | [-> _]]; lra.
  - exact S5.
Qed.

End GuardClamps.

(** C2 as stated fails: with the front clearance at 2.4 and a steering of
    0.5 towards the open left, a full forward throttle passes the guard
    untouched, above every clamp. *)
Lemma C2_counterexample_lateral_full_throttle :
  let g := applyMemorySafetyGuard (fun _ _ => SF) frontNear None SF None 1 0.5 in
  minFrontDistOf frontNear < 2.5
  /\ g_guardApplied g = false
  /\ g_throttle g = 1
  /\ ~ g_throttle g <= 0.34.
Proof.
  vm_compute. split; [reflexivity|]. split; [reflexivity|]. split; [reflexivity|].
  intros H; apply H; reflexivity.
Qed.

(** Scenario B with a forward request of 0.6 straight ahead. *)
Lemma C2_witness :
  let g := applyMemorySafetyGuard (fun _ _ => SF) scenarioB None SF None 0.6 0 in
  minFrontDistOf scenarioB < 2.5
  /\ gp_allowFinalForwardApproach (g_profile g) = false
  /\ g_throttle g <= 0.1.
Proof.
  intros g.
  assert (H1 : minFrontDistOf scenarioB < 2.5) by (vm_compute; reflexivity).
  assert (H2 : gp_allowFinalForwardApproach (g_profile g) = false)
    by (vm_compute; reflexivity).
  split; [exact H1|]. split; [exact H2|].
  refine (proj1 (C2_guard_forward_clamps (fun _ _ => SF) scenarioB None SF None 0.6 0 H1 H2)
            _).
  vm_compute; reflexivity.
Defined.

(** ** C3: the shape of the action plan *)

Lemma isEmpty_text (l : list ascii) : isEmpty (text l) = match l with [] => true | _ => false end.
Proof. destruct l; reflexivity. Qed.

Lemma chars_text (l : list ascii) : chars (text l) = l.
Proof. apply list_ascii_of_string_of_list_ascii. Qed.

Lemma text_chars (s : string) : text (chars s) = s.
Proof. apply string_of_list_ascii_of_string. Qed.

Lemma isEmpty_chars (s : string) : isEmpty s = match chars s with [] => true | _ => false end.
Proof. destruct s; reflexivity. Qed.

Lemma isEmpty_false_neq (s : string) : isEmpty s = false <-> s <> EmptyString.
Proof. destruct s; cbn; split; congruence. Qed.

Lemma sliceTo_nonempty (n : nat) (s : string) :
  isEmpty s = false -> isEmpty (sliceTo (S n) s) = false.
Proof.
  unfold sliceTo; rewrite isEmpty_chars, isEmpty_text.
  destruct (chars s); [discriminate | reflexivity].
Qed.

Lemma replaceRuns_nonempty (inClass : ascii -> bool) (r l : list ascii) :
  r <> [] -> l <> [] -> replaceRuns inClass r false l <> [].
Proof.
  intros Hr Hl; destruct l as [|c l]; [congruence|]; cbn.
  destruct (inClass c); [|discriminate].
  destruct r; [congruence | discriminate].
Qed.

(** A reason code is never empty when its fallback is not. *)
Lemma normalizeReasonCode_nonempty (raw : jsval) (fallback : string) :
  isEmpty fallback = false -> isEmpty (normalizeReasonCode raw fallback) = false.
Proof.
  intros Hf; unfold normalizeReasonCode.
  match goal with |- context [if isEmpty ?n then _ else _] => destruct (isEmpty n) eqn:E end;
    [exact Hf | apply sliceTo_nonempty; exact E].
Qed.

Lemma fallback_shape_nonempty (throttle steering : Q) (fallbackReason : option Reason) :
  isEmpty (f_code (inferFallbackReasonShape throttle steering fallbackReason)) = false
  /\ isEmpty (f_summary (inferFallbackReasonShape throttle steering fallbackReason)) = false.
Proof.
  unfold inferFallbackReasonShape.
  match goal with
  | |- context [if negb (isEmpty ?s) then _ else _] => destruct (isEmpty s) eqn:E
  end; cbn [negb].
  - break_ifs; split; reflexivity.
  - cbn [f_code f_summary]; split.
    + apply normalizeReasonCode_nonempty; reflexivity.
    + apply sliceTo_nonempty; exact E.
Qed.

(** Every reason envelope has a code and a summary. *)
Lemma normalizeActionReason_nonempty
    (rawReason : jsval) (fallbackReason : option Reason) (throttle steering : Q) :
  isEmpty (code (normalizeActionReason rawReason fallbackReason throttle steering)) = false
  /\ isEmpty (summary (normalizeActionReason rawReason fallbackReason throttle steering))
     = false.
Proof.
  destruct (fallback_shape_nonempty throttle steering fallbackReason) as [Hc Hs].
  unfold normalizeActionReason; cbn [code summary]; split.
  - apply normalizeReasonCode_nonempty; exact Hc.
  - match goal with
    | |- context [if nonBlankString ?v then _ else _] =>
        destruct (nonBlankString v) eqn:E; [|exact Hs];
        unfold nonBlankString in E; destruct (asString v) as [s|]; [|exact Hs]
    end.
    apply negb_true_iff in E.
    apply sliceTo_nonempty. rewrite isEmpty_text.
    pose proof (replaceRuns_nonempty isWs [" "%char] (chars (trim s))) as Hn.
    destruct (replaceRuns isWs [" "%char] false (chars (trim s))); [|reflexivity].
    exfalso; apply Hn; [discriminate | | reflexivity].
    rewrite isEmpty_chars in E; destruct (chars (trim s)); [discriminate E | discriminate].
Qed.

(** *** Control bounds *)

Lemma executor_bounds (skillName : Skill) (strategySector : Sector)
    (throttle steering duration : Q) (signal : ContextSignal) (sd : SensorData)
    (skillIntensity : Q) :
  let e := applySkillExecutor skillName strategySector throttle steering duration signal sd
             skillIntensity in
  (-1 <= se_throttle e /\ se_throttle e <= 1)
  /\ (-1 <= se_steering e /\ se_steering e <= 1)
  /\ (0.1 <= se_duration e /\ se_duration e <= 3.0).
Proof.
  cbv zeta; unfold applySkillExecutor.
  match goal with
  | |- context [match ?x with (_, _) => _ end] => destruct x as [[t s] d]
  end.
  cbn [se_throttle se_steering se_duration].
  repeat match goal with
         | |- context [clampNumber ?v ?lo ?hi ?f] =>
             let H := fresh "B" in
             assert (H : lo <= clampNumber v lo hi f /\ clampNumber v lo hi f <= hi)
               by (apply clampNumber_bounds; lra);
             generalize dependent (clampNumber v lo hi f); intros
         end.
  lra.
Qed.

Section GuardBounds.

Variable wallSector : WallRegion -> Q -> Sector.

Lemma steeringForSector_bounds (s : Sector) (fb : Q) :
  -1 <= fb <= 1 -> -1 <= steeringForSector s fb <= 1.
Proof. intros H; destruct s; cbn; lra. Qed.

(** The guard keeps a bounded control bounded. *)
Lemma guard_bounds
    (sd : SensorData) (ec : option ExplorationContext) (strategySector : Sector)
    (cs : option CollisionSummary) (requested steer : Q) :
  -1 <= requested <= 1 -> -1 <= steer <= 1 ->
  let g := applyMemorySafetyGuard wallSector sd ec strategySector cs requested steer in
  (-1 <= g_throttle g <= 1) /\ (-1 <= g_steering g <= 1).
Proof.
  intros Ht Hs. cbv zeta. unfold applyMemorySafetyGuard. cbv zeta.
  match goal with
  | |- context [match ?e with (_, _) => _ end] =>
      lazymatch e with
      | (if Qgtb requested 0.04 && _ && _ then _ else _) =>
          assert (S1 : (-1 <= fst (fst (fst e)) <= 1) /\ (-1 <= snd (fst (fst e)) <= 1));
          [ | destruct e as [[[t1 s1] r1] a1]; cbn [fst snd] in S1 ]
      end
  end.
  { match goal with |- context [if ?c then _ else _] =>
      lazymatch c with (Qgtb requested 0.04 && _ && _) => destruct c end end;
      [|cbn [fst snd]; split; assumption].
    match goal with |- context [match ?opts with [] => _ | _ :: _ => _ end] =>
      destruct opts as [|best others] end.
    - match goal with |- context [if Qgtb ?a 2.8 then _ else _] =>
        destruct (Qgtb a 2.8) end; cbn [fst snd]; split; break_ifs; lra.
    - cbn [fst snd]. split.
      + break_ifs; qcases; lra.
      + apply steeringForSector_bounds; exact Hs. }
  destruct S1 as [S1t S1s].
  match goal with
  | |- context [match ?e with (_, _) => _ end] =>
      lazymatch e with
      | (if Qgtb t1 0.1 && _ && _ then _ else _) =>
          assert (S2 : (-1 <= fst (fst (fst e)) <= 1) /\ (-1 <= snd (fst (fst e)) <= 1));
          [ | destruct e as [[[t2 s2] r2] a2]; cbn [fst snd] in S2 ]
      end
  end.
  { match goal with |- context [if ?c then _ else _] =>
      lazymatch c with (Qgtb t1 0.1 && _ && _) => destruct c end end;
      cbn [fst snd]; split; try assumption; break_ifs; lra. }
  destruct S2 as [S2t S2s].
  match goal with
  | |- context [match ?e with (_, _) => _ end] =>
      lazymatch e with
      | (if Qltb t2 (-0.08) && _ && _ && _ then _ else _) =>
          assert (S3 : (-1 <= fst (fst (fst e)) <= 1) /\ (-1 <= snd (fst (fst e)) <= 1));
          [ | destruct e as [[[t3 s3] r3] a3]; cbn [fst snd] in S3 ]
      end
  end.
  { match goal with |- context [if ?c then _ else _] =>
      lazymatch c with (Qltb t2 (-0.08) && _ && _ && _) => destruct c end end;
      cbn [fst snd]; split; try assumption; break_ifs; lra. }
  destruct S3 as [S3t S3s].
  match goal with
  | |- context [match ?e with (_, _) => _ end] => destruct e as [[t4 r4] a4] eqn:E4
  end.
  cbn [g_throttle g_steering]. split; [|assumption].
  match type of E4 with (if ?c then _ else _) = _ => destruct c end;
    inversion E4; subst; lra.
Qed.

End GuardBounds.

(** *** The normalised plan *)

Lemma toFixed3_unfold (x : Q) :
  toFixed3 x = inject_Z (Qfloor (x * 1000 + (1 # 2))) * (1 # 1000).
Proof. reflexivity. Qed.

Lemma toFixed3_upper (x : Q) : toFixed3 x <= x + 0.0005.
Proof.
  rewrite toFixed3_unfold.
  pose proof (Qfloor_le (x * 1000 + (1 # 2))) as H. lra.
Qed.

Lemma toFixed3_range (x : Q) : 0.1 <= x -> x <= 1.2 -> 0.1 <= toFixed3 x /\ toFixed3 x <= 1.2.
Proof.
  intros Hl Hu. rewrite toFixed3_unfold.
  set (y := x * 1000 + (1 # 2)).
  assert (H1 : (100 <= Qfloor y)%Z).
  { rewrite <- (Qfloor_Z 100). apply Qfloor_resp_le.
    change (inject_Z 100) with 100. unfold y; lra. }
  assert (H2 : (Qfloor y <= 1200)%Z).
  { pose proof (Qfloor_le y) as Hf.
    assert (Hlt : inject_Z (Qfloor y) < inject_Z 1201)
      by (change (inject_Z 1201) with 1201; unfold y in *; lra).
    rewrite <- Zlt_Qlt in Hlt. lia. }
  rewrite Zle_Qle in H1, H2.
  change (inject_Z 100) with 100 in H1. change (inject_Z 1200) with 1200 in H2.
  split; lra.
Qed.

Lemma sumDurations_app (a b : list ActionStep) :
  sumDurations (a ++ b) == sumDurations a + sumDurations b.
Proof. induction a as [|s a IH]; cbn; [lra | rewrite IH; lra]. Qed.

Lemma normalizeActionStep_bounds (raw : jsval) (fb : FallbackStep) :
  (-1 <= throttle (normalizeActionStep raw fb) /\ throttle (normalizeActionStep raw fb) <= 1)
  /\ (-1 <= steering (normalizeActionStep raw fb)
      /\ steering (normalizeActionStep raw fb) <= 1)
  /\ (0.1 <= duration (normalizeActionStep raw fb)
      /\ duration (normalizeActionStep raw fb) <= 3.0).
Proof.
  unfold normalizeActionStep; cbn [throttle steering duration].
  repeat match goal with
         | |- context [clampNumber ?v ?lo ?hi ?f] =>
             let H := fresh "B" in
             assert (H : lo <= clampNumber v lo hi f /\ clampNumber v lo hi f <= hi)
               by (apply clampNumber_bounds; lra);
             generalize dependent (clampNumber v lo hi f); intros
         end.
  lra.
Qed.

(** The loop adds at most five steps in all, each within its bounds, and
    their durations exceed what is left of the 1.2 s only by the rounding of
    each step to three decimals. *)
Lemma plan_loop_spec (raws : list json) (fb : FallbackStep) :
  forall (plan : list ActionStep) (total : Q),
    0 <= total -> total <= ACTION_PLAN_MAX_TOTAL_SEC ->
    exists added,
      normalizeActionPlanLoop raws fb plan total = rev plan ++ added
      /\ (List.length plan <= 5 -> List.length (rev plan ++ added) <= 5)%nat
      /\ Forall normalisedStep added
      /\ sumDurations added
         <= ACTION_PLAN_MAX_TOTAL_SEC - total + 0.0005 * inject_Z (Z.of_nat (List.length added)).
Proof.
  unfold ACTION_PLAN_MAX_TOTAL_SEC.
  assert (Hstop : forall (plan : list ActionStep) (total : Q),
             total <= 1.2 ->
             exists added,
               rev plan = rev plan ++ added
               /\ (List.length plan <= 5 -> List.length (rev plan ++ added) <= 5)%nat
               /\ Forall normalisedStep added
               /\ sumDurations added
                  <= 1.2 - total + 0.0005 * inject_Z (Z.of_nat (List.length added))).
  { intros plan total Ht. exists []. rewrite app_nil_r.
    split; [reflexivity|]. split; [rewrite length_rev; auto|].
    split; [constructor|]. cbn [sumDurations List.length].
    change (inject_Z (Z.of_nat 0)) with 0. lra. }
  induction raws as [|raw rest IH]; intros plan total H0 Ht; cbn [normalizeActionPlanLoop].
  - apply Hstop; exact Ht.
  - destruct (Nat.ltb (List.length plan) ACTION_PLAN_MAX_STEPS) eqn:Hlen;
      [|apply Hstop; exact Ht].
    destruct (Qltb (ACTION_PLAN_MAX_TOTAL_SEC - total) 0.1) eqn:Hrem;
      [apply Hstop; exact Ht|].
    apply Qltb_false in Hrem. unfold ACTION_PLAN_MAX_TOTAL_SEC in *.
    pose proof (normalizeActionStep_bounds (Some raw) fb) as (Bt & Bs & Bd).
    set (n := normalizeActionStep (Some raw) fb) in *.
    set (clamped := qmax 0.1 (qmin (duration n) (1.2 - total))).
    assert (Hc : 0.1 <= clamped /\ clamped <= 1.2 - total).
    { unfold clamped; qcases; lra. }
    set (step := {| throttle := throttle n; steering := steering n;
                    duration := toFixed3 clamped; reason := reason n |}).
    destruct (IH (step :: plan) (total + clamped)) as (added & Heq & Hl & Hall & Hsum);
      [lra|lra|].
    exists (step :: added).
    cbn [rev] in Heq, Hl. rewrite <- app_assoc in Heq, Hl. cbn [app] in Heq, Hl.
    split; [exact Heq|]. split; [|split].
    + intros _. apply Hl. cbn [List.length]. apply Nat.ltb_lt in Hlen.
      unfold ACTION_PLAN_MAX_STEPS in Hlen. lia.
    + constructor; [|exact Hall].
      unfold normalisedStep, step; cbn [throttle steering duration].
      split; [exact Bt|]. split; [exact Bs|].
      apply toFixed3_range; lra.
    + cbn [sumDurations List.length]. unfold step at 1; cbn [duration].
      pose proof (toFixed3_upper clamped) as Hup.
      rewrite Nat2Z.inj_succ. unfold Z.succ.
      rewrite inject_Z_plus. change (inject_Z 1) with 1. lra.
Qed.

(** The plan of [normalizeActionPlan]. *)
Lemma normalizeActionPlan_spec (raws : list json) (fb : FallbackStep) :
  (List.length (normalizeActionPlan raws fb) <= 5)%nat
  /\ Forall normalisedStep (normalizeActionPlan raws fb)
  /\ sumDurations (tl (normalizeActionPlan raws fb)) <= 1.1025.
Proof.
  unfold normalizeActionPlan.
  destruct (plan_loop_spec raws fb [] 0) as (added & Heq & Hl & Hall & Hsum);
    [lra | unfold ACTION_PLAN_MAX_TOTAL_SEC; lra|].
  rewrite Heq. cbn [rev app] in *.
  split; [apply Hl; cbn; lia|]. split; [exact Hall|].
  assert (Hlen : (List.length added <= 5)%nat) by (apply Hl; cbn; lia).
  unfold ACTION_PLAN_MAX_TOTAL_SEC in Hsum.
  assert (Hq : inject_Z (Z.of_nat (List.length added)) <= 5).
  { change 5 with (inject_Z 5). rewrite <- Zle_Qle. lia. }
  destruct added as [|s rest]; cbn [tl sumDurations] in *; [lra|].
  inversion Hall as [|? ? Hs _]; subst.
  destruct Hs as (_ & _ & Hd & _). lra.
Qed.

Lemma reason_nonempty (rawReason : jsval) (fallbackReason : option Reason)
    (throttle steering : Q) :
  code (normalizeActionReason rawReason fallbackReason throttle steering) <> EmptyString
  /\ summary (normalizeActionReason rawReason fallbackReason throttle steering)
     <> EmptyString.
Proof.
  destruct (normalizeActionReason_nonempty rawReason fallbackReason throttle steering)
    as [H1 H2].
  split; apply isEmpty_false_neq; assumption.
Qed.

(** The plan assembled from the final control and the normalised list. *)
Lemma assembled_plan_wellFormed
    (finalThrottle smoothedSteering finalDuration : Q) (decisionReason : Reason)
    (normalized : list ActionStep) :
  -1 <= finalThrottle <= 1 -> -1 <= smoothedSteering <= 1 -> 0.1 <= finalDuration <= 3.0 ->
  (List.length normalized <= 5)%nat -> Forall normalisedStep normalized ->
  sumDurations (tl normalized) <= 1.1025 ->
  planWellFormed
    match normalized with
    | first :: others =>
        {| throttle := finalThrottle;
           steering := smoothedSteering;
           duration := finalDuration;
           reason := normalizeActionReason (Some (reasonToJson (reason first)))
                       (Some decisionReason) finalThrottle smoothedSteering |}
        :: map (fun step =>
                  {| throttle := throttle step;
                     steering := steering step;
                     duration := duration step;
                     reason := normalizeActionReason (Some (reasonToJson (reason step)))
                                 (Some decisionReason) (throttle step) (steering step) |})
             others
    | [] =>
        [{| throttle := finalThrottle;
            steering := smoothedSteering;
            duration := finalDuration;
            reason := normalizeActionReason (Some JNull) (Some decisionReason)
                        finalThrottle smoothedSteering |}]
    end.
Proof.
  intros Ht Hs Hd Hlen Hall Hsum. unfold planWellFormed.
  destruct normalized as [|first others].
  - split; [cbn; lia|]. split; [|cbn; lra].
    constructor; [|constructor].
    unfold stepWellFormed; cbn [throttle steering duration reason].
    pose proof (reason_nonempty (Some JNull) (Some decisionReason) finalThrottle
                  smoothedSteering) as [? ?].
    repeat (split; [lra || assumption|]); assumption.
  - cbn [tl] in *. inversion Hall as [|? ? _ Hothers]; subst.
    split; [cbn [List.length] in *; rewrite length_map; lia|]. split.
    + constructor.
      * unfold stepWellFormed; cbn [throttle steering duration reason].
        pose proof (reason_nonempty (Some (reasonToJson (reason first)))
                      (Some decisionReason) finalThrottle smoothedSteering) as [? ?].
        repeat (split; [lra || assumption|]); assumption.
      * clear Hsum Hlen Hall. induction others as [|s rest IH]; [constructor|].
        inversion Hothers as [|? ? Hsn Hrest]; subst. cbn [map].
        constructor; [|apply IH; exact Hrest].
        destruct Hsn as (H1 & H2 & H3).
        unfold stepWellFormed; cbn [throttle steering duration reason].
        pose proof (reason_nonempty (Some (reasonToJson (reason s)))
                      (Some decisionReason) (throttle s) (steering s)) as [? ?].
        repeat (split; [lra || assumption|]); assumption.
    + assert (E : sumDurations
                    (map (fun step =>
                            {| throttle := throttle step;
                               steering := steering step;
                               duration := duration step;
                               reason := normalizeActionReason
                                           (Some (reasonToJson (reason step)))
                                           (Some decisionReason) (throttle step)
                                           (steering step) |}) others)
                  = sumDurations others).
      { clear. induction others as [|s rest IH]; [reflexivity|].
        cbn [map sumDurations duration]. rewrite IH. reflexivity. }
      rewrite E. exact Hsum.
Qed.

Section PlanShape.

Variable wallSector : WallRegion -> Q -> Sector.

Lemma assemble_plan_wellFormed
    (sd : SensorData) (ec : option ExplorationContext) (cs : option CollisionSummary)
    (signal : ContextSignal) (fallbackMode : Mode) (prev : option Mode) (now : Z)
    (st : SmoothingState) (p : ParseResult) :
  planWellFormed
    (actionPlan (snd (fst (assembleDecision wallSector sd ec cs signal fallbackMode prev
                             now st p)))).
Proof.
  unfold assembleDecision. cbv zeta.
  destruct (stabilizeStrategyModeWithHysteresis _ _ _ _) as [st1 S].
  destruct (enforceSkillCadence _ _ _ _ _ _) as [st2 C].
  split_lets.
  cbn [fst snd actionPlan].
  lazymatch goal with
  | H : (if g_guardApplied ?g then _ else _) = (?ft, ?rs) |- _ =>
      lazymatch g with
      | applyMemorySafetyGuard _ _ _ ?sec _ (se_throttle ?e) (se_steering ?e) =>
          lazymatch e with
          | applySkillExecutor ?a1 ?a2 ?a3 ?a4 ?a5 ?a6 ?a7 ?a8 =>
              pose proof (executor_bounds a1 a2 a3 a4 a5 a6 a7 a8) as (Bt & Bs & Bd);
              cbv zeta in Bt, Bs, Bd
          end;
          set (exec := e) in *;
          pose proof (guard_bounds wallSector sd ec sec cs (se_throttle exec) (se_steering exec)
                        ltac:(lra) ltac:(lra)) as [Gt Gs];
          cbv zeta in Gt, Gs;
          assert (Bft : (-1 <= ft <= 1) /\ (-1 <= rs <= 1))
            by (clear - H Bt Bs Gt Gs; destruct (g_guardApplied _); inversion H; subst;
                split; assumption)
      end
  end.
  destruct Bft as [Bft Brs].
  apply assembled_plan_wellFormed; try apply normalizeActionPlan_spec.
  - break_ifs; lra.
  - unfold ALPHA. lra.
  - lra.
Qed.

Lemma fallback_plan_wellFormed
    (signal : ContextSignal) (prev : option Mode) (st : SmoothingState)
    (tag text : string) (pm : OutputParseMethod) :
  planWellFormed (actionPlan (snd (fallbackDecision signal prev st tag text pm))).
Proof.
  unfold fallbackDecision; cbv zeta; cbn [snd actionPlan].
  split; [cbn; lia|]. split; [|cbn; lra].
  constructor; [|constructor].
  unfold stepWellFormed; cbn [throttle steering duration reason].
  match goal with
  | |- context [normalizeActionReason ?r ?f 0 0] =>
      pose proof (reason_nonempty r f 0 0) as [? ?]
  end.
  repeat (split; [lra || assumption|]); assumption.
Qed.

Lemma decide_plan_wellFormed
    (sd : SensorData) (ec : option ExplorationContext) (cs : option CollisionSummary)
    (signal : ContextSignal) (fallbackMode : Mode) (prev : option Mode) (now : Z)
    (st : SmoothingState) (p : ParseResult) (retryPromptUsed : bool) :
  planWellFormed
    (actionPlan (snd (decideFromParsed wallSector sd ec cs signal fallbackMode prev now
                        st p retryPromptUsed))).
Proof.
  unfold decideFromParsed.
  pose proof (assemble_plan_wellFormed sd ec cs signal fallbackMode prev now st p) as H.
  destruct (assembleDecision _ _ _ _ _ _ _ _ _ _) as [[st' o] th].
  cbn [fst snd] in H.
  destruct (thoughtThrows th); [apply fallback_plan_wellFormed | exact H].
Qed.

(** C3, amended.  For every model response, well-formed or not, and every
    outcome of the two requests, the action plan of the Decision Output has
    between 1 and 5 steps; each step has throttle and steering in [-1, 1], a
    duration in [0.1, 3.0] and a reason with a non-empty code and a non-empty
    summary; the steps after the first last at most 1.1025 s together.  The
    first step carries the final control, whose duration is bounded by 3.0
    only, so the 1.2 s cap does not hold for the whole plan. *)
Theorem C3_plan_shape_bounds
    (sd : SensorData) (st0 : SmoothingState) (ec : option ExplorationContext)
    (cs : option CollisionSummary) (tickNow stabNow : Z) (primary retry : FetchOutcome) :
  let plan := actionPlan (snd (getDrivingDecision wallSector sd st0 ec cs tickNow stabNow
                                 primary retry)) in
  (1 <= List.length plan <= 5)%nat
  /\ Forall stepWellFormed plan
  /\ sumDurations (tl plan) <= 1.1025.
Proof.
  cbv zeta. unfold getDrivingDecision.
  destruct (updateContactTracking _ _ _) as [st c].
  destruct primary as [raw| |]; try apply fallback_plan_wellFormed.
  cbv zeta.
  match goal with
  | |- context [match ?x with Some p => decideFromParsed _ _ _ _ _ _ _ _ _ p _ | None => _ end] =>
      destruct x as [p|]
  end.
  - apply decide_plan_wellFormed.
  - apply fallback_plan_wellFormed.
Qed.

End PlanShape.

(** C3 as stated fails: on open ground the response above yields a plan of
    one step that lasts 2 s, more than the 1.2 s cap. *)
Lemma C3_counterexample_long_first_step :
  let out := snd (getDrivingDecision (fun _ _ => SF) openFarTarget freshState None None
                    1000 1000 (FetchOk longStepResponse) FetchFail) in
  map duration (actionPlan out) = [2.0]
  /\ ~ sumDurations (actionPlan out) <= 1.2.
Proof.
  split; [vm_compute; reflexivity|].
  vm_compute. intros H; apply H; reflexivity.
Qed.

(** ** Failure paths *)









Section FailurePaths.

Variable wallSector : WallRegion -> Q -> Sector.




End FailurePaths.

Lemma snapshotOf_rawSnapshot (sd : SensorData) (speed : Q) (moveDir : string) :
  snapshotOf (rawSnapshot sd speed moveDir) = sd.
Proof. destruct sd; reflexivity. Qed.



(** ** Repairs of a decorated text *)

Local Open Scope char_scope.

(** Induction on a tree with the members of its lists. *)
Lemma doc_induction (P : doc -> Prop)
    (HNull : P DNull) (HBool : forall b, P (DBool b))
    (HNum : forall lexeme, P (DNum lexeme)) (HStr : forall s, P (DStr s))
    (HArr : forall items, Forall P items -> P (DArr items))
    (HObj : forall members, Forall (fun m => P (snd m)) members -> P (DObj members))
  : forall d, P d.
Proof.
  fix go 1. intros d.
  destruct d as [|b|lexeme|s|items|members];
    [exact HNull | apply HBool | apply HNum | apply HStr | | ].
  - apply HArr. induction items as [|x r IH]; constructor; [apply go | exact IH].
  - apply HObj. induction members as [|x r IH]; constructor; [apply go | exact IH].
Qed.

Lemma valueStart_facts (c : ascii) :
  valueStart c = true ->
  isJsonWs c = false /\ isWs c = false /\ isCloser c = false
  /\ ascii_eqb c "'" = false /\ ascii_eqb c "," = false.
Proof.
  destruct c as [[] [] [] [] [] [] [] []]; vm_compute; intros H;
    first [discriminate H | repeat split].
Qed.

Lemma numberChar_facts (c : ascii) :
  isNumberChar c = true ->
  isJsonWs c = false /\ ascii_eqb c "{" = false /\ ascii_eqb c "[" = false
  /\ ascii_eqb c "034" = false /\ ascii_eqb c "t" = false /\ ascii_eqb c "f" = false
  /\ ascii_eqb c "n" = false /\ ascii_eqb c "," = false /\ ascii_eqb c ":" = false
  /\ ascii_eqb c "'" = false.
Proof.
  destruct c as [[] [] [] [] [] [] [] []]; vm_compute; intros H;
    first [discriminate H | repeat split].
Qed.

Lemma safeChar_facts (c : ascii) :
  repairSafeChar c = true ->
  ascii_eqb c "034" = false /\ ascii_eqb c "\" = false
  /\ Nat.ltb (nat_of_ascii c) 32 = false
  /\ ascii_eqb c "'" = false /\ ascii_eqb c "," = false.
Proof.
  destruct c as [[] [] [] [] [] [] [] []]; vm_compute; intros H;
    first [discriminate H | repeat split].
Qed.

Lemma forallb_weaken {A : Type} (p q : A -> bool) (l : list A) :
  (forall x, p x = true -> q x = true) -> forallb p l = true -> forallb q l = true.
Proof.
  intros H. induction l as [|x l IH]; [reflexivity|]. cbn.
  intros Hl. apply andb_prop in Hl as [Hx Hl]. rewrite (H x Hx), (IH Hl). reflexivity.
Qed.

Lemma spanChars_app_stop (p : ascii -> bool) (a rest : list ascii) :
  forallb p a = true ->
  match rest with c :: _ => p c = false | [] => True end ->
  spanChars p (a ++ rest) = (a, rest).
Proof.
  intros Ha Hrest. induction a as [|c a IH]; cbn [app].
  - destruct rest as [|c r]; [reflexivity|]. cbn. rewrite Hrest. reflexivity.
  - cbn in Ha. apply andb_prop in Ha as [Hc Ha].
    cbn [spanChars]. rewrite Hc, (IH Ha). reflexivity.
Qed.

Lemma parseStringBody_safe (s rest acc : list ascii) :
  forallb repairSafeChar s = true ->
  parseStringBody (s ++ "034" :: rest) acc = Some (text (rev acc ++ s), rest).
Proof.
  revert acc. induction s as [|c s IH]; intros acc Hs.
  - cbn. rewrite app_nil_r. reflexivity.
  - cbn in Hs. apply andb_prop in Hs as [Hc Hs].
    destruct (safeChar_facts c Hc) as (H1 & H2 & H3 & _).
    cbn [app parseStringBody]. rewrite H1, H2, H3, (IH _ Hs).
    cbn [rev]. rewrite <- app_assoc. reflexivity.
Qed.

(** A string of repair-safe characters stands for itself. *)
Lemma decodeString_safe (s : string) : repairSafeText s = true -> decodeString s = Some s.
Proof.
  intros H. unfold decodeString.
  rewrite (parseStringBody_safe (chars s) [] [] H). cbn [rev app].
  rewrite text_chars. reflexivity.
Qed.

Lemma hex4_quote (a b c : ascii) : hex4 a b c "034" = None.
Proof.
  unfold hex4. destruct (hexValue a), (hexValue b), (hexValue c); reflexivity.
Qed.

(** What follows the closing quote of a string does not change how the
    string is read. *)
Lemma parseStringBody_rest (n : nat) :
  forall (l acc : list ascii) (s : string),
    (List.length l <= n)%nat ->
    parseStringBody (l ++ ["034"]) acc = Some (s, []) ->
    forall rest, parseStringBody (l ++ "034" :: rest) acc = Some (s, rest).
Proof.
  induction n as [|n IH]; intros l acc s Hlen H rest.
  - destruct l as [|c r]; [|cbn in Hlen; lia].
    cbn in H |- *. injection H as <-. reflexivity.
  - destruct l as [|c r].
    { cbn in H |- *. injection H as <-. reflexivity. }
    cbn [List.length] in Hlen. cbn [app parseStringBody] in H |- *.
    destruct (ascii_eqb c "034").
    { exfalso. injection H as _ Hr. destruct r; discriminate Hr. }
    destruct (ascii_eqb c "\").
    + destruct r as [|e r1]; [cbn in H; discriminate H|].
      cbn [List.length] in Hlen. cbn [app] in H |- *.
      repeat match goal with
             | H : (if ascii_eqb e ?x then _ else _) = _ |- _ =>
                 destruct (ascii_eqb e x); [try (apply IH; [lia | exact H])|]
             end; try discriminate H.
      destruct r1 as [|h1 [|h2 [|h3 [|h4 r2]]]]; cbn [app] in H |- *;
        try discriminate H.
      * rewrite hex4_quote in H. discriminate H.
      * destruct (hex4 h1 h2 h3 h4); [|discriminate H].
        apply IH; [cbn [List.length] in Hlen; lia | exact H].
    + destruct (Nat.ltb (nat_of_ascii c) 32); [discriminate H|].
      apply IH; [lia | exact H].
Qed.

Lemma parseStringBody_body (body : string) (rest : list ascii) :
  isStringBody body = true ->
  parseStringBody (chars body ++ "034" :: rest) [] = Some (stringOf body, rest).
Proof.
  unfold isStringBody, stringOf, decodeString. intros H.
  destruct (parseStringBody (chars body ++ ["034"]) []) as [[s [|x tl]]|] eqn:E;
    try discriminate H.
  exact (parseStringBody_rest (List.length (chars body)) (chars body) [] s (Nat.le_refl _) E
           rest).
Qed.

(** The trees without escapes are among those the round trip covers. *)
Lemma noneBefore_without (opens target : ascii -> bool) (l : list ascii) :
  forallb (fun c => negb (opens c)) l = true -> noneBefore opens target l = true.
Proof.
  induction l as [|c l IH]; [reflexivity|]. cbn [forallb noneBefore].
  intros H. apply andb_prop in H as [Hc Hl]. apply negb_true_iff in Hc.
  rewrite Hc, (IH Hl). reflexivity.
Qed.

Lemma noneBefore_target_free (opens target : ascii -> bool) (l : list ascii) :
  forallb (fun c => negb (target c)) l = true -> noneBefore opens target l = true.
Proof.
  induction l as [|c l IH]; [reflexivity|]. cbn [forallb noneBefore].
  intros H. apply andb_prop in H as [Hc Hl]. rewrite (IH Hl), andb_true_r.
  assert (Hd : match dropWs l with d :: _ => target d | [] => false end = false).
  { clear - Hl. induction l as [|x l IHl]; [reflexivity|].
    cbn in Hl. apply andb_prop in Hl as [Hx Hl]. cbn [dropWs].
    destruct (isWs x); [exact (IHl Hl) | apply negb_true_iff; exact Hx]. }
  rewrite Hd, andb_false_r. reflexivity.
Qed.

Lemma repairSafeText_stringSafe (s : string) :
  repairSafeText s = true -> stringSafe s = true /\ forallb isNotQuote (chars s) = true.
Proof.
  intros H. unfold stringSafe, isStringBody. rewrite (decodeString_safe s H).
  assert (Hq : forallb isNotQuote (chars s) = true).
  { revert H. apply forallb_weaken. intros c Hc. unfold isNotQuote.
    destruct (safeChar_facts c Hc) as (_ & _ & _ & -> & _). reflexivity. }
  split; [|exact Hq]. cbn [andb]. unfold commaSafe, apostropheSafe.
  rewrite noneBefore_without, noneBefore_target_free; [reflexivity | exact Hq |].
  revert H. apply forallb_weaken. intros c Hc.
  destruct (safeChar_facts c Hc) as (_ & _ & _ & _ & ->). reflexivity.
Qed.

Lemma repairSafe_repairable (d : doc) : repairSafe d = true -> repairable d = true.
Proof.
  induction d as [|b|lexeme|s|items IH|members IH] using doc_induction;
    cbn [repairSafe repairable]; intros H; try exact H; try reflexivity.
  - apply repairSafeText_stringSafe; exact H.
  - induction IH as [|x l Hx _ IHl]; [reflexivity|].
    cbn [forallb] in H |- *. apply andb_prop in H as [H1 H2].
    rewrite (Hx H1), (IHl H2). reflexivity.
  - induction IH as [|x l Hx _ IHl]; [reflexivity|].
    cbn [forallb] in H |- *. apply andb_prop in H as [H1 H2].
    apply andb_prop in H1 as [Hk Hv]. apply andb_prop in Hk as [Hne Hk].
    destruct (repairSafeText_stringSafe (fst x) Hk) as [Hs Hq].
    unfold stringSafe in Hs. apply andb_prop in Hs as [Hs _].
    apply andb_prop in Hs as [Hbody Hcomma].
    rewrite (IHl H2), (Hx Hv). unfold keySafe. rewrite Hne, Hbody, Hq, Hcomma.
    reflexivity.
Qed.

Lemma valueOf_safe_string (s : string) : repairSafeText s = true -> stringOf s = s.
Proof. intros H. unfold stringOf. rewrite (decodeString_safe s H). reflexivity. Qed.

(** The text of a tree starts with the first character of a value. *)
Lemma render_head (q : ascii) (t : bool) (d : doc) :
  repairable d = true ->
  exists c tl, renderWith q t d = c :: tl /\ valueStart c = true.
Proof.
  destruct d as [|[]|lexeme|s|items|members]; cbn [renderWith repairable]; intros H;
    try (eexists; eexists; split; [reflexivity|reflexivity]).
  unfold numberLexeme in H.
  apply andb_prop in H as [H _]. apply andb_prop in H as [H1 H2].
  rewrite isEmpty_chars in H1. destruct (chars lexeme) as [|c tl]; [discriminate|].
  cbn in H2. apply andb_prop in H2 as [H2 _].
  exists c, tl. split; [reflexivity|]. unfold valueStart. rewrite H2. reflexivity.
Qed.

Local Close Scope char_scope.

(** *** Reading a strict text *)

Local Open Scope char_scope.

Lemma joinParts_app (t : bool) (p : list ascii) (rest : list (list ascii))
    (tail : list ascii) :
  joinParts t (p :: rest) ++ tail
  = p ++ match rest with
         | [] => (if t then [","] else []) ++ tail
         | _ :: _ => "," :: joinParts t rest ++ tail
         end.
Proof. destruct rest; cbn [joinParts]; rewrite <- app_assoc; reflexivity. Qed.

Lemma joinParts_length (t : bool) (p : list ascii) (rest : list (list ascii)) :
  List.length (joinParts t (p :: rest))
  = (List.length p + match rest with
                     | [] => if t then 1 else 0
                     | _ :: _ => 1 + List.length (joinParts t rest)
                     end)%nat.
Proof.
  destruct rest; cbn [joinParts]; rewrite length_app; [destruct t|]; reflexivity.
Qed.

Lemma parseValue_S (n : nat) (s : list ascii) :
  parseValue (S n) s
  = match skipJsonWs s with
    | [] => None
    | c :: r =>
        if ascii_eqb c "{" then
          match skipJsonWs r with
          | c' :: r' =>
              if ascii_eqb c' "}" then Some (JObj [], r')
              else parseMembers n (c' :: r') []
          | [] => None
          end
        else if ascii_eqb c "[" then
          match skipJsonWs r with
          | c' :: r' =>
              if ascii_eqb c' "]" then Some (JArr [], r')
              else parseElements n (c' :: r') []
          | [] => None
          end
        else if ascii_eqb c "034" then
          match parseStringBody r [] with
          | Some (str, r') => Some (JStr str, r')
          | None => None
          end
        else if ascii_eqb c "t" then
          match stripPrefix (chars "rue") r with
          | Some r' => Some (JBool true, r') | None => None end
        else if ascii_eqb c "f" then
          match stripPrefix (chars "alse") r with
          | Some r' => Some (JBool false, r') | None => None end
        else if ascii_eqb c "n" then
          match stripPrefix (chars "ull") r with
          | Some r' => Some (JNull, r') | None => None end
        else
          let '(lexeme, r') := spanChars isNumberChar (c :: r) in
          match numberOfLexeme lexeme with
          | Some v => Some (JNum v, r')
          | None => None
          end
    end.
Proof. reflexivity. Qed.

Lemma parseElements_S (n : nat) (s : list ascii) (acc : list json) :
  parseElements (S n) s acc
  = match parseValue n s with
    | Some (v, r) =>
        match skipJsonWs r with
        | c :: r' =>
            if ascii_eqb c "," then parseElements n r' (v :: acc)
            else if ascii_eqb c "]" then Some (JArr (rev (v :: acc)), r')
            else None
        | [] => None
        end
    | None => None
    end.
Proof. reflexivity. Qed.

Lemma parseMembers_S (n : nat) (s : list ascii) (acc : list (string * json)) :
  parseMembers (S n) s acc
  = match skipJsonWs s with
    | q :: r0 =>
        if ascii_eqb q "034" then
          match parseStringBody r0 [] with
          | Some (key, r1) =>
              match skipJsonWs r1 with
              | c :: r2 =>
                  if ascii_eqb c ":" then
                    match parseValue n r2 with
                    | Some (v, r3) =>
                        match skipJsonWs r3 with
                        | d :: r4 =>
                            if ascii_eqb d "," then parseMembers n r4 ((key, v) :: acc)
                            else if ascii_eqb d "}"
                            then Some (JObj (rev ((key, v) :: acc)), r4)
                            else None
                        | [] => None
                        end
                    | None => None
                    end
                  else None
              | [] => None
              end
          | None => None
          end
        else None
    | [] => None
    end.
Proof. reflexivity. Qed.

Lemma startsValue_render (q : ascii) (t : bool) (d : doc) (rest : list ascii) :
  repairable d = true -> startsValue (renderWith q t d ++ rest).
Proof.
  intros H. destruct (render_head q t d H) as (c & tl & -> & Hc). exact Hc.
Qed.

Lemma skipJsonWs_start (l : list ascii) : startsValue l -> skipJsonWs l = l.
Proof.
  destruct l as [|c r]; [intros []|]. cbn. intros H.
  destruct (valueStart_facts c H) as (-> & _). reflexivity.
Qed.

Lemma render_length_pos (q : ascii) (t : bool) (d : doc) :
  repairable d = true -> (1 <= List.length (renderWith q t d))%nat.
Proof.
  intros H. destruct (render_head q t d H) as (c & tl & -> & _). cbn. lia.
Qed.

Local Close Scope char_scope.

Local Open Scope char_scope.

Lemma skipJsonWs_cons (c : ascii) (r : list ascii) :
  isJsonWs c = false -> skipJsonWs (c :: r) = c :: r.
Proof. intros H. cbn [skipJsonWs]. rewrite H. reflexivity. Qed.

(** Passes the white-space scan over a text whose first character is known. *)
Ltac skip_known :=
  repeat match goal with
         | |- context [skipJsonWs (?c :: ?r)] => rewrite (skipJsonWs_cons c r eq_refl)
         end.

Lemma parseValue_number (n : nat) (lexeme : string) (rest : list ascii) :
  numberLexeme lexeme = true -> stopsNumber rest ->
  parseValue (S n) (chars lexeme ++ rest) = Some (valueOf (DNum lexeme), rest).
Proof.
  intros H Hrest. unfold numberLexeme in H.
  apply andb_prop in H as [H H3]. apply andb_prop in H as [H1 H2].
  rewrite isEmpty_chars in H1. cbn [valueOf].
  destruct (numberOfLexeme (chars lexeme)) as [v|] eqn:En; [|discriminate].
  pose proof (spanChars_app_stop isNumberChar (chars lexeme) rest H2 Hrest) as Hspan.
  destruct (chars lexeme) as [|c tl]; [discriminate|].
  cbn in H2. apply andb_prop in H2 as [Hc _].
  destruct (numberChar_facts c Hc) as (F1 & F2 & F3 & F4 & F5 & F6 & F7 & _).
  rewrite parseValue_S. cbn [app skipJsonWs]. rewrite F1, F2, F3, F4, F5, F6, F7.
  cbn [app] in Hspan. rewrite Hspan, En. reflexivity.
Qed.

Lemma parseValue_string (n : nat) (body : string) (rest : list ascii) :
  isStringBody body = true ->
  parseValue (S n) (("034" :: chars body ++ ["034"]) ++ rest)
  = Some (JStr (stringOf body), rest).
Proof.
  intros H. rewrite parseValue_S. cbn [app]. rewrite <- app_assoc. cbn [app].
  change (skipJsonWs ("034" :: chars body ++ "034" :: rest))
    with ("034" :: chars body ++ "034" :: rest).
  cbn [ascii_eqb Ascii.eqb Bool.eqb].
  rewrite (parseStringBody_body body rest H). reflexivity.
Qed.

(** With fuel for its length, the parser reads the strict text of a tree
    and returns its value and what follows the text. *)
Lemma parse_strict_fuel (n : nat) :
  (forall d rest,
      repairable d = true -> (List.length (strictText d) <= n)%nat -> stopsNumber rest ->
      parseValue n (strictText d ++ rest) = Some (valueOf d, rest))
  /\ (forall x items rest acc,
         forallb repairable (x :: items) = true ->
         (List.length (joinParts false (map strictText (x :: items))) < n)%nat ->
         parseElements n (joinParts false (map strictText (x :: items)) ++ "]" :: rest) acc
         = Some (JArr (rev acc ++ map valueOf (x :: items)), rest))
  /\ (forall m ms rest acc,
         forallb memberOk (m :: ms) = true ->
         (List.length (joinParts false (map strictMember (m :: ms))) < n)%nat ->
         parseMembers n (joinParts false (map strictMember (m :: ms)) ++ "}" :: rest) acc
         = Some (JObj (rev acc ++ map (fun m => (stringOf (fst m), valueOf (snd m)))
                                    (m :: ms)), rest)).
Proof.
  induction n as [|n (IHv & IHe & IHm)].
  { split; [|split]; intros; try lia.
    pose proof (render_length_pos "034" false d H). unfold strictText in *. lia. }
  split; [|split].
  - intros d rest Hd Hlen Hrest.
    destruct d as [|[]|lexeme|s|items|members]; try reflexivity.
    + apply parseValue_number; assumption.
    + apply parseValue_string. cbn [repairable] in Hd. unfold stringSafe in Hd.
      apply andb_prop in Hd as [Hd _]. apply andb_prop in Hd as [Hd _]. exact Hd.
    + destruct items as [|x items]; [reflexivity|].
      unfold strictText in *. cbn [renderWith] in *.
      change (renderWith "034" false) with strictText in *.
      cbn [app List.length] in *. rewrite <- app_assoc. cbn [app].
      rewrite length_app in Hlen. cbn [List.length] in Hlen.
      specialize (IHe x items rest [] Hd ltac:(lia)).
      assert (Hs : startsValue (joinParts false (map strictText (x :: items))
                                  ++ "]" :: rest)).
      { cbn [map]. rewrite joinParts_app. unfold strictText.
        apply startsValue_render. cbn in Hd. apply andb_prop in Hd as [Hx _]. exact Hx. }
      rewrite parseValue_S. skip_known. 
      change (ascii_eqb "[" "{") with false. change (ascii_eqb "[" "[") with true.
      cbn match. rewrite (skipJsonWs_start _ Hs).
      destruct (joinParts false (map strictText (x :: items)) ++ "]" :: rest)
        as [|c r] eqn:E; [destruct Hs|].
      destruct (valueStart_facts c Hs) as (_ & _ & Hclose & _).
      unfold isCloser in Hclose. apply orb_false_elim in Hclose as [_ ->].
      exact IHe.
    + destruct members as [|m ms]; [reflexivity|].
      unfold strictText in *. cbn [renderWith] in *.
      change (renderWith "034" false) with strictText in *.
      change (fun m0 : string * doc =>
                "034" :: chars (fst m0) ++ "034" :: ":" :: strictText (snd m0))
        with strictMember in *.
      cbn [app List.length] in *. rewrite <- app_assoc. cbn [app].
      rewrite length_app in Hlen. cbn [List.length] in Hlen.
      specialize (IHm m ms rest [] Hd ltac:(lia)).
      rewrite parseValue_S. skip_known.
      change (ascii_eqb "{" "{") with true. cbn match.
      revert IHm. cbn [map]. rewrite joinParts_app. unfold strictMember at 1 3.
      cbn [app skipJsonWs]. intros IHm. exact IHm.
  - intros x items rest acc Hsafe Hlen.
    cbn [forallb] in Hsafe. apply andb_prop in Hsafe as [Hx Hitems].
    cbn [map] in *. rewrite joinParts_length in Hlen. rewrite joinParts_app.
    rewrite parseElements_S.
    destruct items as [|y items].
    + cbn [map app] in *. rewrite (IHv x ("]" :: rest) Hx ltac:(lia) eq_refl).
      skip_known. change (ascii_eqb "]" ",") with false.
      change (ascii_eqb "]" "]") with true. cbn match. reflexivity.
    + cbn [map] in Hlen.
      rewrite IHv; [|exact Hx|lia|reflexivity].
      cbn [map]. skip_known. change (ascii_eqb "," ",") with true. cbn match.
      rewrite (IHe y items rest (valueOf x :: acc) Hitems ltac:(cbn [map]; lia)).
      cbn [rev map]. rewrite <- app_assoc. reflexivity.
  - intros m ms rest acc Hsafe Hlen.
    cbn [forallb] in Hsafe. apply andb_prop in Hsafe as [Hm Hms].
    unfold memberOk in Hm. apply andb_prop in Hm as [Hk Hv].
    unfold keySafe in Hk. apply andb_prop in Hk as [Hk _]. apply andb_prop in Hk as [Hk _].
    apply andb_prop in Hk as [_ Hk].
    cbn [map] in *. rewrite joinParts_length in Hlen. rewrite joinParts_app.
    unfold strictMember at 1. unfold strictMember at 1 in Hlen.
    cbn [List.length] in Hlen. rewrite length_app in Hlen. cbn [List.length] in Hlen.
    cbn [app]. rewrite <- app_assoc. cbn [app].
    rewrite parseMembers_S. skip_known.
    change (ascii_eqb "034" "034") with true. cbn match.
    rewrite (parseStringBody_body (fst m) _ Hk). skip_known.
    change (ascii_eqb ":" ":") with true. cbn match.
    destruct ms as [|m' ms].
    + cbn [map app] in *. rewrite (IHv (snd m) ("}" :: rest) Hv ltac:(lia) eq_refl).
      skip_known. change (ascii_eqb "}" ",") with false.
      change (ascii_eqb "}" "}") with true. cbn match. reflexivity.
    + cbn [map] in Hlen.
      rewrite IHv; [|exact Hv|lia|reflexivity].
      cbn [map]. skip_known. change (ascii_eqb "," ",") with true. cbn match.
      rewrite (IHm m' ms rest ((stringOf (fst m), valueOf (snd m)) :: acc) Hms
                 ltac:(cbn [map]; lia)).
      cbn [rev map]. rewrite <- app_assoc. reflexivity.
Qed.

Local Close Scope char_scope.

Local Open Scope char_scope.

Lemma JSON_parse_render (d : doc) :
  repairable d = true -> JSON_parse (render d) = Some (valueOf d).
Proof.
  intros H. unfold JSON_parse, render. rewrite chars_text. cbv zeta.
  destruct (parse_strict_fuel (2 * List.length (renderWith "034" false d) + 2))
    as (Hv & _ & _).
  specialize (Hv d [] H). unfold strictText in Hv. rewrite app_nil_r in Hv.
  rewrite Hv; [reflexivity | lia | exact I].
Qed.

(** A text that opens an object on an apostrophe is no JSON. *)
Lemma JSON_parse_apostrophe_key (r : list ascii) :
  JSON_parse (text ("{" :: "'" :: r)) = None.
Proof.
  unfold JSON_parse. rewrite chars_text. cbv zeta.
  replace (2 * List.length ("{" :: "'" :: r) + 2)%nat
    with (S (S (2 * List.length ("{" :: "'" :: r)))) by lia.
  rewrite parseValue_S. skip_known.
  change (ascii_eqb "{" "{") with true. cbn match.
  change (ascii_eqb "'" "}") with false. cbn match.
  rewrite parseMembers_S. skip_known. reflexivity.
Qed.

(** *** Replacements *)

Section Replace.

Variable m : list ascii -> option (list ascii * nat).

Lemma replaceAll_skip (a b : list ascii) :
  replaceAll m (List.length a) (a ++ b) = replaceAll m 0 b.
Proof. induction a as [|c a IH]; [reflexivity|]. cbn. exact IH. Qed.

Lemma replaceAll_pass (c : ascii) (r : list ascii) :
  m (c :: r) = None -> replaceAll m 0 (c :: r) = c :: replaceAll m 0 r.
Proof. intros H. cbn [replaceAll]. rewrite H. reflexivity. Qed.

Lemma replaceAll_match (c : ascii) (r rep : list ascii) (n : nat) :
  m (c :: r) = Some (rep, n) ->
  replaceAll m 0 (c :: r) = rep ++ replaceAll m (Nat.pred n) r.
Proof. intros H. cbn [replaceAll]. rewrite H. reflexivity. Qed.

(** Characters at which no match starts pass unchanged. *)
Lemma replaceAll_inert (trigger : ascii -> bool) (s rest : list ascii) :
  (forall c r, trigger c = false -> m (c :: r) = None) ->
  forallb (fun c => negb (trigger c)) s = true ->
  replaceAll m 0 (s ++ rest) = s ++ replaceAll m 0 rest.
Proof.
  intros Hm. induction s as [|c s IH]; intros Hs; [reflexivity|].
  cbn in Hs. apply andb_prop in Hs as [Hc Hs]. apply negb_true_iff in Hc.
  cbn [app]. rewrite replaceAll_pass by (apply Hm; exact Hc).
  rewrite (IH Hs). reflexivity.
Qed.

(** A bracketed list: when the replacement of each part after the opening
    bracket or after a comma is known, and that of the closing bracket with
    its trailing comma, the replacement of the list is the list of the
    replaced parts. *)
Lemma replaceAll_parts (tin tout : bool) (opener closer : ascii)
    (partsIn partsOut : list (list ascii)) :
  Forall2 (fun p p' => forall sep rest,
             sep = opener \/ sep = "," ->
             replaceAll m 0 (sep :: p ++ rest) = sep :: p' ++ replaceAll m 0 rest)
    partsIn partsOut ->
  (forall tail,
      replaceAll m 0 ((if tin then [","] else []) ++ closer :: tail)
      = (if tout then [","] else []) ++ closer :: replaceAll m 0 tail) ->
  forall sep p p' tail,
    sep = opener \/ sep = "," ->
    (forall sep rest,
        sep = opener \/ sep = "," ->
        replaceAll m 0 (sep :: p ++ rest) = sep :: p' ++ replaceAll m 0 rest) ->
    replaceAll m 0 (sep :: joinParts tin (p :: partsIn) ++ closer :: tail)
    = sep :: joinParts tout (p' :: partsOut) ++ closer :: replaceAll m 0 tail.
Proof.
  intros Hparts Hclose.
  induction Hparts as [|q q' ps ps' Hq Hps IH]; intros sep p p' tail Hsep Hp.
  - rewrite (joinParts_app tin), (joinParts_app tout), (Hp sep _ Hsep), Hclose.
    reflexivity.
  - rewrite (joinParts_app tin), (joinParts_app tout), (Hp sep _ Hsep). cbn match.
    rewrite (IH "," q q' tail ltac:(tauto) Hq). reflexivity.
Qed.

End Replace.

Local Close Scope char_scope.

Local Open Scope char_scope.

Lemma Forall2_maps {A B : Type} (R : B -> B -> Prop) (f g : A -> B) (l : list A) :
  Forall (fun x => R (f x) (g x)) l -> Forall2 R (map f l) (map g l).
Proof. induction 1; cbn [map]; constructor; assumption. Qed.

Lemma Forall_safe {A : Type} (safe : A -> bool) (P : A -> Prop) (l : list A) :
  Forall (fun x => safe x = true -> P x) l -> forallb safe l = true -> Forall P l.
Proof.
  induction 1 as [|x l Hx _ IH]; [constructor|]. cbn.
  intros H. apply andb_prop in H as [H1 H2]. constructor; [exact (Hx H1)|exact (IH H2)].
Qed.

(** One replacement over the text of a tree: [m] turns the text written
    with [qin] and [tin] into the text written with [qout] and [tout] when
    it does so on the atoms, on the keys and on the closing brackets, and
    starts no match at a bracket or comma that a value follows. *)
Section ReplaceRender.

Variable m : list ascii -> option (list ascii * nat).
Variables qin qout : ascii.
Variables tin tout : bool.

Hypothesis atoms :
  forall d, match d with DArr _ | DObj _ => False | _ => True end ->
            repairable d = true ->
            replaces m (renderWith qin tin d) (renderWith qout tout d).

Hypothesis before_value :
  forall sep r, separator sep -> startsValue r -> m (sep :: r) = None.

Hypothesis key :
  forall sep k r,
    sep = "{" \/ sep = "," -> keySafe k = true -> startsValue r ->
    replaceAll m 0 (sep :: qin :: chars k ++ qin :: ":" :: r)
    = sep :: qout :: chars k ++ qout :: ":" :: replaceAll m 0 r.

Hypothesis closing :
  forall closer tail,
    closer = "}" \/ closer = "]" ->
    replaceAll m 0 ((if tin then [","] else []) ++ closer :: tail)
    = (if tout then [","] else []) ++ closer :: replaceAll m 0 tail.

Hypothesis empty :
  forall tail,
    replaceAll m 0 ("{" :: "}" :: tail) = "{" :: "}" :: replaceAll m 0 tail
    /\ replaceAll m 0 ("[" :: "]" :: tail) = "[" :: "]" :: replaceAll m 0 tail.

Lemma replaces_after_separator (d : doc) :
  repairable d = true ->
  replaces m (renderWith qin tin d) (renderWith qout tout d) ->
  forall sep rest,
    separator sep ->
    replaceAll m 0 (sep :: renderWith qin tin d ++ rest)
    = sep :: renderWith qout tout d ++ replaceAll m 0 rest.
Proof.
  intros Hd IH sep rest Hsep.
  rewrite (replaceAll_pass m)
    by (apply before_value; [exact Hsep | apply startsValue_render; exact Hd]).
  rewrite (IH rest). reflexivity.
Qed.

Lemma replaces_member (k : string) (v : doc) :
  keySafe k = true -> repairable v = true ->
  replaces m (renderWith qin tin v) (renderWith qout tout v) ->
  forall sep rest,
    sep = "{" \/ sep = "," ->
    replaceAll m 0 (sep :: (qin :: chars k ++ qin :: ":" :: renderWith qin tin v) ++ rest)
    = sep :: (qout :: chars k ++ qout :: ":" :: renderWith qout tout v)
        ++ replaceAll m 0 rest.
Proof.
  intros Hk Hv IH sep rest Hsep.
  cbn [app]. rewrite <- !app_assoc. cbn [app].
  rewrite (key sep k _ Hsep Hk (startsValue_render qin tin v rest Hv)), (IH rest).
  reflexivity.
Qed.

Lemma replaces_render (d : doc) :
  repairable d = true -> replaces m (renderWith qin tin d) (renderWith qout tout d).
Proof.
  induction d as [|b|lexeme|s|items IH|members IH] using doc_induction; intros Hd;
    try (apply atoms; [exact I | exact Hd]).
  - intros rest. cbn [repairable] in Hd.
    pose proof (Forall_safe _ _ _ IH Hd) as Hall.
    destruct items as [|x items]; [apply empty|].
    inversion Hall as [|? ? Hx Hitems]; subst.
    cbn in Hd. apply andb_prop in Hd as [Hsx Hsi].
    cbn [renderWith map app]. rewrite <- !app_assoc. cbn [app].
    apply (replaceAll_parts m tin tout "[" "]"); [|intros; apply closing; tauto|tauto|].
    + apply Forall2_maps.
      assert (Hboth : Forall (fun y => repairable y = true
                                       /\ replaces m (renderWith qin tin y)
                                            (renderWith qout tout y)) items).
      { clear - Hitems Hsi. induction Hitems as [|y l Hy _ IHl]; [constructor|].
        cbn in Hsi. apply andb_prop in Hsi as [H1 H2].
        constructor; [split; assumption | exact (IHl H2)]. }
      eapply List.Forall_impl; [|exact Hboth].
      intros y [Hy1 Hy2] sep rest' Hsep.
      apply (replaces_after_separator y Hy1 Hy2 sep rest'). unfold separator. tauto.
    + intros sep rest' Hsep.
      apply (replaces_after_separator x Hsx Hx sep rest'). unfold separator. tauto.
  - intros rest. cbn [repairable] in Hd.
    destruct members as [|x members]; [apply empty|].
    cbn in Hd. apply andb_prop in Hd as [Hsx Hsm].
    apply andb_prop in Hsx as [Hk Hv].
    inversion IH as [|? ? Hx Hmembers]; subst.
    cbn [renderWith map app]. rewrite <- !app_assoc. cbn [app].
    apply (replaceAll_parts m tin tout "{" "}"); [|intros; apply closing; tauto|tauto|].
    + apply Forall2_maps.
      clear - Hmembers Hsm key before_value.
      induction Hmembers as [|y l Hy _ IHl]; [constructor|].
      cbn in Hsm. apply andb_prop in Hsm as [H1 H2].
      apply andb_prop in H1 as [Hk Hv].
      constructor; [|exact (IHl H2)].
      intros sep rest' Hsep.
      exact (replaces_member (fst y) (snd y) Hk Hv (Hy Hv) sep rest' Hsep).
    + intros sep rest' Hsep.
      exact (replaces_member (fst x) (snd x) Hk Hv (Hx Hv) sep rest' Hsep).
Qed.

End ReplaceRender.

Local Close Scope char_scope.
Local Open Scope char_scope.

Lemma startsValue_cases (r : list ascii) :
  startsValue r ->
  exists h tl, r = h :: tl /\ isWs h = false /\ isCloser h = false
               /\ ascii_eqb h "'" = false.
Proof.
  destruct r as [|h tl]; [intros []|]. cbn. intros H.
  destruct (valueStart_facts h H) as (_ & H1 & H2 & H3 & _).
  exists h, tl. repeat split; assumption.
Qed.

Lemma isEmpty_chars_cons (k : string) :
  isEmpty k = false -> exists c tl, chars k = c :: tl.
Proof.
  rewrite isEmpty_chars. destruct (chars k) as [|c tl]; [discriminate|].
  intros _. exists c, tl. reflexivity.
Qed.

(** The white space at the head of a text that a character other than
    white space ends. *)
Lemma spanChars_dropWs (l rest : list ascii) (q : ascii) :
  isWs q = false ->
  exists ws, spanChars isWs (l ++ q :: rest) = (ws, dropWs l ++ q :: rest).
Proof.
  intros Hq. induction l as [|c l [ws IH]]; cbn [app spanChars dropWs].
  - rewrite Hq. exists []. reflexivity.
  - rewrite IH. destruct (isWs c); [exists (c :: ws) | exists []]; reflexivity.
Qed.

(** **** Characters at which a pattern finds nothing

    Each pattern of the repairs starts on one of a few characters and wants
    a certain character after the white space that follows. *)
Section Inert.

Variable m : list ascii -> option (list ascii * nat).
Variables opens target : ascii -> bool.

Hypothesis needs_open : forall c r, opens c = false -> m (c :: r) = None.

Hypothesis needs_target :
  forall c r ws h tl,
    spanChars isWs r = (ws, h :: tl) -> target h = false -> m (c :: r) = None.

(** The characters between two quotes pass when none of them that opens
    the pattern stands before its target; [q] is the closing quote. *)
Lemma passes_body (l : list ascii) (q : ascii) (rest : list ascii) :
  noneBefore opens target l = true -> isWs q = false -> target q = false ->
  replaceAll m 0 (l ++ q :: rest) = l ++ replaceAll m 0 (q :: rest).
Proof.
  intros Hl Hq Ht. induction l as [|c l IH]; [reflexivity|].
  cbn [noneBefore] in Hl. apply andb_prop in Hl as [Hc Hl]. apply negb_true_iff in Hc.
  cbn [app]. rewrite (replaceAll_pass m), (IH Hl); [reflexivity|].
  destruct (opens c) eqn:Eo; [|apply needs_open; exact Eo].
  cbn [andb] in Hc.
  destruct (spanChars_dropWs l rest q Hq) as [ws E].
  destruct (dropWs l) as [|d tl]; cbn [app] in E.
  - exact (needs_target c _ ws q rest E Ht).
  - exact (needs_target c _ ws d _ E Hc).
Qed.

Lemma passes_before_value (c : ascii) (r : list ascii) :
  (forall h, valueStart h = true -> target h = false) ->
  startsValue r -> m (c :: r) = None.
Proof.
  intros Hv Hr. destruct r as [|h tl]; [destruct Hr|]. cbn in Hr.
  destruct (valueStart_facts h Hr) as (_ & H1 & _).
  apply (needs_target c (h :: tl) [] h tl); [|exact (Hv h Hr)].
  cbn [spanChars]. rewrite H1. reflexivity.
Qed.

(** A text between two quotes [q] passes with its quotes. *)
Lemma passes_quoted (q : ascii) (l rest : list ascii) :
  noneBefore opens target l = true -> isWs q = false -> target q = false ->
  opens q = false ->
  replaceAll m 0 (q :: l ++ q :: rest) = q :: l ++ q :: replaceAll m 0 rest.
Proof.
  intros Hl Hq Ht Ho.
  rewrite (replaceAll_pass m) by (apply needs_open; exact Ho).
  rewrite (passes_body l q rest Hl Hq Ht).
  rewrite (replaceAll_pass m) by (apply needs_open; exact Ho).
  reflexivity.
Qed.

(** The text of a number, of a literal or of a string passes. *)
Lemma passes_atom (q : ascii) (a : doc) :
  (forall c, isNumberChar c = true -> opens c = false) ->
  (forall c, List.In c (chars "nulltruefalse") -> opens c = false) ->
  opens "034" = false -> target "034" = false ->
  (forall body, stringSafe body = true -> noneBefore opens target (chars body) = true) ->
  match a with DArr _ | DObj _ => False | _ => True end ->
  repairable a = true ->
  replaces m (renderWith q false a) (renderWith "034" false a).
Proof.
  intros Hnum Hlit Hoq Htq Hstr.
  assert (Hinert : forall l rest,
             Forall (fun c => opens c = false) l ->
             replaceAll m 0 (l ++ rest) = l ++ replaceAll m 0 rest).
  { intros l rest Hl. induction Hl as [|c l Hc _ IH]; [reflexivity|].
    cbn [app]. rewrite (replaceAll_pass m) by (apply needs_open; exact Hc).
    rewrite IH. reflexivity. }
  assert (Hword : forall w, (forall c, List.In c w -> List.In c (chars "nulltruefalse")) ->
                            Forall (fun c => opens c = false) w).
  { intros w Hw. apply List.Forall_forall. intros c Hc. apply Hlit, Hw, Hc. }
  destruct a as [|[]|lexeme|body|items|members]; intros Hatom Ha rest;
    try destruct Hatom; cbn [renderWith repairable] in *.
  - apply Hinert, Hword. cbn. intros c Hc. tauto.
  - apply Hinert, Hword. cbn. intros c Hc. tauto.
  - apply Hinert, Hword. cbn. intros c Hc. tauto.
  - apply Hinert. unfold numberLexeme in Ha. apply andb_prop in Ha as [Ha _].
    apply andb_prop in Ha as [_ Ha]. apply List.Forall_forall. intros c Hc.
    apply Hnum. rewrite forallb_forall in Ha. exact (Ha c Hc).
  - cbn [app]. rewrite <- !app_assoc. cbn [app].
    apply passes_quoted; [apply Hstr; exact Ha | reflexivity | exact Htq | exact Hoq].
Qed.

End Inert.

(** Narrowing the characters that open a pattern keeps a text clear. *)
Lemma noneBefore_fewer (opens opens' target : ascii -> bool) (l : list ascii) :
  (forall c, opens' c = true -> opens c = true) ->
  noneBefore opens target l = true -> noneBefore opens' target l = true.
Proof.
  intros Hsub. induction l as [|c l IH]; [reflexivity|]. cbn [noneBefore].
  intros H. apply andb_prop in H as [Hc Hl]. rewrite (IH Hl), andb_true_r.
  destruct (opens' c) eqn:E; [|reflexivity].
  rewrite (Hsub c E) in Hc. exact Hc.
Qed.

(** **** The trailing commas *)

Lemma trailingComma_open (c : ascii) (r : list ascii) :
  ascii_eqb c "," = false -> matchTrailingComma (c :: r) = None.
Proof. intros H. cbn [matchTrailingComma]. rewrite H. reflexivity. Qed.

Lemma trailingComma_target (c : ascii) (r ws : list ascii) (h : ascii) (tl : list ascii) :
  spanChars isWs r = (ws, h :: tl) -> isCloser h = false ->
  matchTrailingComma (c :: r) = None.
Proof.
  intros E Hh. cbn [matchTrailingComma]. rewrite E, Hh.
  destruct (ascii_eqb c ","); reflexivity.
Qed.

Lemma stringSafe_facts (body : string) :
  stringSafe body = true ->
  isStringBody body = true /\ commaSafe (chars body) = true
  /\ apostropheSafe (chars body) = true.
Proof.
  unfold stringSafe. intros H. apply andb_prop in H as [H H3].
  apply andb_prop in H as [H1 H2]. repeat split; assumption.
Qed.

Lemma keySafe_facts (k : string) :
  keySafe k = true ->
  isEmpty k = false /\ isStringBody k = true /\ forallb isNotQuote (chars k) = true
  /\ commaSafe (chars k) = true.
Proof.
  unfold keySafe. intros H. apply andb_prop in H as [H H4].
  apply andb_prop in H as [H H3]. apply andb_prop in H as [H1 H2].
  apply negb_true_iff in H1. repeat split; assumption.
Qed.

(** The first repair turns the decorated text into the text with
    apostrophes around the keys and no trailing comma. *)
Lemma trailing_commas_removed (d : doc) (rest : list ascii) :
  repairable d = true ->
  replaceAll matchTrailingComma 0 (renderWith "'" true d ++ rest)
  = renderWith "'" false d ++ replaceAll matchTrailingComma 0 rest.
Proof.
  intros Hd. revert rest.
  apply (replaces_render matchTrailingComma "'" "'" true false); try exact Hd.
  - intros a Hatom Ha.
    replace (renderWith "'" true a) with (renderWith "'" false a)
      by (destruct a; try reflexivity; destruct Hatom).
    replace (renderWith "'" false a) with (renderWith "034" false a) at 2
      by (destruct a; try reflexivity; destruct Hatom).
    apply (passes_atom matchTrailingComma (fun c => ascii_eqb c ",") isCloser
             trailingComma_open trailingComma_target); try reflexivity; try assumption.
    + intros c Hc.
      destruct (numberChar_facts c Hc) as (_ & _ & _ & _ & _ & _ & _ & -> & _).
      reflexivity.
    + cbn. intros c Hc.
      repeat (destruct Hc as [<- | Hc]; [reflexivity|]). destruct Hc.
    + intros body Hb. destruct (stringSafe_facts body Hb) as (_ & H & _). exact H.
  - intros sep r Hsep Hr.
    apply (passes_before_value matchTrailingComma isCloser trailingComma_target);
      [|exact Hr].
    intros h Hh. destruct (valueStart_facts h Hh) as (_ & _ & H & _). exact H.
  - intros sep k r Hsep Hk Hr.
    destruct (keySafe_facts k Hk) as (_ & _ & _ & Hcomma).
    rewrite (replaceAll_pass matchTrailingComma sep).
    2:{ destruct Hsep as [-> | ->]; [reflexivity|].
        apply (trailingComma_target "," _ [] "'" (chars k ++ "'" :: ":" :: r));
          reflexivity. }
    rewrite (passes_quoted matchTrailingComma (fun c => ascii_eqb c ",") isCloser
               trailingComma_open trailingComma_target "'" (chars k) (":" :: r) Hcomma)
      by reflexivity.
    rewrite (replaceAll_pass matchTrailingComma ":") by reflexivity.
    reflexivity.
  - intros closer tail [-> | ->]; reflexivity.
  - intros tail. split; reflexivity.
Qed.

Local Close Scope char_scope.
Local Open Scope char_scope.

(** **** The apostrophes *)

Lemma quotedKey_target (c : ascii) (r ws : list ascii) (h : ascii) (tl : list ascii) :
  spanChars isWs r = (ws, h :: tl) -> ascii_eqb h "'" = false ->
  matchQuotedKey (c :: r) = None.
Proof.
  intros E Hh. cbn [matchQuotedKey]. rewrite E, Hh.
  destruct (ascii_eqb c "{" || ascii_eqb c ","); reflexivity.
Qed.

Lemma quotedValue_target (c : ascii) (r ws : list ascii) (h : ascii) (tl : list ascii) :
  spanChars isWs r = (ws, h :: tl) -> ascii_eqb h "'" = false ->
  matchQuotedValue (c :: r) = None.
Proof.
  intros E Hh. cbn [matchQuotedValue]. rewrite E, Hh.
  destruct (ascii_eqb c ":"); reflexivity.
Qed.

Lemma quotedKey_open (c : ascii) (r : list ascii) :
  ascii_eqb c "{" || ascii_eqb c "," = false -> matchQuotedKey (c :: r) = None.
Proof. intros H. cbn [matchQuotedKey]. rewrite H. reflexivity. Qed.

Lemma quotedValue_open (c : ascii) (r : list ascii) :
  ascii_eqb c ":" = false -> matchQuotedValue (c :: r) = None.
Proof. intros H. cbn [matchQuotedValue]. rewrite H. reflexivity. Qed.

(** The pattern for keys matches at an apostrophe-quoted key. *)
Lemma quotedKey_matches (sep : ascii) (k : string) (r : list ascii) :
  sep = "{" \/ sep = "," -> keySafe k = true ->
  matchQuotedKey (sep :: "'" :: chars k ++ "'" :: ":" :: r)
  = Some (sep :: "034" :: chars k ++ ["034"; ":"], 4 + List.length (chars k))%nat.
Proof.
  intros Hsep Hk. destruct (keySafe_facts k Hk) as (Hne & _ & Hq & _).
  pose proof (spanChars_app_stop isNotQuote (chars k) ("'" :: ":" :: r) Hq eq_refl)
    as Hspan.
  destruct (isEmpty_chars_cons k Hne) as (c & tl & Ek). rewrite Ek in *.
  cbn [matchQuotedKey].
  replace (ascii_eqb sep "{" || ascii_eqb sep ",") with true
    by (destruct Hsep as [-> | ->]; reflexivity).
  change (spanChars isWs ("'" :: (c :: tl) ++ "'" :: ":" :: r))
    with (@nil ascii, "'" :: (c :: tl) ++ "'" :: ":" :: r).
  cbn match. change (ascii_eqb "'" "'") with true. cbn match.
  rewrite Hspan.
  change (spanChars isWs (":" :: r)) with (@nil ascii, ":" :: r).
  cbn match. change (ascii_eqb ":" ":") with true. cbn match.
  cbn [app List.length]. rewrite !Nat.add_0_r. reflexivity.
Qed.

(** What a safe string and a safe key hold for the two patterns. *)
Lemma stringSafe_for_keys (body : string) :
  stringSafe body = true ->
  noneBefore (fun c => ascii_eqb c "{" || ascii_eqb c ",") (fun c => ascii_eqb c "'")
    (chars body) = true.
Proof.
  intros H. destruct (stringSafe_facts body H) as (_ & _ & Ha).
  revert Ha. apply noneBefore_fewer. intros c Hc. unfold opensQuoted.
  rewrite Hc. reflexivity.
Qed.

Lemma stringSafe_for_values (body : string) :
  stringSafe body = true ->
  noneBefore (fun c => ascii_eqb c ":") (fun c => ascii_eqb c "'") (chars body) = true.
Proof.
  intros H. destruct (stringSafe_facts body H) as (_ & _ & Ha).
  revert Ha. apply noneBefore_fewer. intros c Hc. unfold opensQuoted.
  rewrite Hc, !orb_true_r. reflexivity.
Qed.

Lemma keySafe_for_values (k : string) :
  keySafe k = true ->
  noneBefore (fun c => ascii_eqb c ":") (fun c => ascii_eqb c "'") (chars k) = true.
Proof.
  intros H. destruct (keySafe_facts k H) as (_ & _ & Hq & _).
  apply noneBefore_target_free. exact Hq.
Qed.

Local Close Scope char_scope.
Local Open Scope char_scope.

Lemma value_start_no_apostrophe (h : ascii) :
  valueStart h = true -> ascii_eqb h "'" = false.
Proof. intros H. destruct (valueStart_facts h H) as (_ & _ & _ & E & _). exact E. Qed.

(** The first pattern of the second repair puts the keys between double
    quotes. *)
Lemma keys_requoted (d : doc) (rest : list ascii) :
  repairable d = true ->
  replaceAll matchQuotedKey 0 (renderWith "'" false d ++ rest)
  = renderWith "034" false d ++ replaceAll matchQuotedKey 0 rest.
Proof.
  intros Hd. revert rest.
  apply (replaces_render matchQuotedKey "'" "034" false false); try exact Hd.
  - intros a Hatom Ha.
    apply (passes_atom matchQuotedKey (fun c => ascii_eqb c "{" || ascii_eqb c ",")
             (fun c => ascii_eqb c "'") quotedKey_open quotedKey_target);
      try reflexivity; try assumption.
    + intros c Hc.
      destruct (numberChar_facts c Hc) as (_ & -> & _ & _ & _ & _ & _ & -> & _).
      reflexivity.
    + cbn. intros c Hc.
      repeat (destruct Hc as [<- | Hc]; [reflexivity|]). destruct Hc.
    + exact stringSafe_for_keys.
  - intros sep r _.
    apply (passes_before_value matchQuotedKey (fun c => ascii_eqb c "'") quotedKey_target).
    exact value_start_no_apostrophe.
  - intros sep k r Hsep Hk _.
    rewrite (replaceAll_match matchQuotedKey _ _ _ _ (quotedKey_matches sep k r Hsep Hk)).
    assert (E : replaceAll matchQuotedKey (Nat.pred (4 + List.length (chars k)))
                  ("'" :: chars k ++ "'" :: ":" :: r)
                = replaceAll matchQuotedKey 0 r).
    { rewrite <- (replaceAll_skip matchQuotedKey ("'" :: chars k ++ ["'"; ":"]) r).
      f_equal.
      - cbn [List.length]. rewrite length_app. cbn. lia.
      - cbn [app]. rewrite <- app_assoc. reflexivity. }
    rewrite E. cbn [app]. rewrite <- app_assoc. reflexivity.
  - intros closer tail [-> | ->]; reflexivity.
  - intros tail. split; reflexivity.
Qed.

(** The second pattern finds no apostrophe-quoted value in a strict text. *)
Lemma values_untouched (d : doc) (rest : list ascii) :
  repairable d = true ->
  replaceAll matchQuotedValue 0 (renderWith "034" false d ++ rest)
  = renderWith "034" false d ++ replaceAll matchQuotedValue 0 rest.
Proof.
  intros Hd. revert rest.
  apply (replaces_render matchQuotedValue "034" "034" false false); try exact Hd.
  - intros a Hatom Ha.
    apply (passes_atom matchQuotedValue (fun c => ascii_eqb c ":")
             (fun c => ascii_eqb c "'") quotedValue_open quotedValue_target);
      try reflexivity; try assumption.
    + intros c Hc.
      destruct (numberChar_facts c Hc) as (_ & _ & _ & _ & _ & _ & _ & _ & -> & _).
      reflexivity.
    + cbn. intros c Hc.
      repeat (destruct Hc as [<- | Hc]; [reflexivity|]). destruct Hc.
    + exact stringSafe_for_values.
  - intros sep r _.
    apply (passes_before_value matchQuotedValue (fun c => ascii_eqb c "'")
             quotedValue_target).
    exact value_start_no_apostrophe.
  - intros sep k r Hsep Hk Hr.
    rewrite (replaceAll_pass matchQuotedValue sep)
      by (destruct Hsep as [-> | ->]; reflexivity).
    rewrite (passes_quoted matchQuotedValue (fun c => ascii_eqb c ":")
               (fun c => ascii_eqb c "'") quotedValue_open quotedValue_target
               "034" (chars k) (":" :: r) (keySafe_for_values k Hk))
      by reflexivity.
    rewrite (replaceAll_pass matchQuotedValue ":").
    + reflexivity.
    + apply (passes_before_value matchQuotedValue (fun c => ascii_eqb c "'")
               quotedValue_target); [exact value_start_no_apostrophe | exact Hr].
  - intros closer tail [-> | ->]; reflexivity.
  - intros tail. split; reflexivity.
Qed.

Local Close Scope char_scope.

Local Open Scope char_scope.

Lemma repairs_of_strict_object (d : doc) :
  repairable d = true -> (exists members, d = DObj members) ->
  tryParseJsonWithRepairs (render d) = Some (mkRepaired (valueOf d) false strict).
Proof.
  intros Hd [members ->]. unfold tryParseJsonWithRepairs, tryParseJson.
  rewrite (JSON_parse_render _ Hd). reflexivity.
Qed.

Lemma repairs_of_strict_text (d : doc) :
  repairSafe d = true -> (exists members, d = DObj members) ->
  tryParseJsonWithRepairs (render d) = Some (mkRepaired (valueOf d) false strict).
Proof. intros Hd. apply repairs_of_strict_object, repairSafe_repairable, Hd. Qed.

Lemma apostrophe_object_text (t : bool) (member : string * doc)
    (members : list (string * doc)) :
  exists r, renderWith "'" t (DObj (member :: members)) = "{" :: "'" :: r.
Proof.
  cbn [renderWith map]. destruct members; cbn [joinParts app]; eexists; reflexivity.
Qed.

Lemma noTrailingCommas_decorate (d : doc) :
  repairable d = true -> noTrailingCommas (decorate d) = text (renderWith "'" false d).
Proof.
  intros Hd. unfold noTrailingCommas, decorate. rewrite chars_text.
  rewrite <- (app_nil_r (renderWith "'" true d)).
  rewrite (trailing_commas_removed d [] Hd). cbn [replaceAll].
  rewrite app_nil_r. reflexivity.
Qed.

Lemma singleQuoteRepaired_keys (d : doc) :
  repairable d = true -> singleQuoteRepaired (text (renderWith "'" false d)) = render d.
Proof.
  intros Hd. unfold singleQuoteRepaired, render. rewrite chars_text.
  rewrite <- (app_nil_r (renderWith "'" false d)).
  rewrite (keys_requoted d [] Hd). cbn [replaceAll].
  rewrite (values_untouched d [] Hd). cbn [replaceAll].
  rewrite app_nil_r. reflexivity.
Qed.

(** The repairs read the decorated text of an object with members at the
    third attempt. *)
Lemma repairs_of_decorated_text (member : string * doc) (members : list (string * doc)) :
  repairable (DObj (member :: members)) = true ->
  tryParseJsonWithRepairs (decorate (DObj (member :: members)))
  = Some (mkRepaired (valueOf (DObj (member :: members))) true repair_single_quotes).
Proof.
  intros Hd. unfold tryParseJsonWithRepairs, tryParseJson.
  rewrite (noTrailingCommas_decorate _ Hd), (singleQuoteRepaired_keys _ Hd).
  rewrite (JSON_parse_render _ Hd). unfold decorate.
  destruct (apostrophe_object_text true member members) as [r1 ->].
  destruct (apostrophe_object_text false member members) as [r2 ->].
  rewrite !JSON_parse_apostrophe_key. reflexivity.
Qed.

(** C7, amended.  Take the strict text of a JSON object, written without
    white space between its tokens, in which no key is empty or holds an
    apostrophe, no key and no string holds a comma that a closing brace or
    bracket follows (white space between them aside), and no string holds
    an apostrophe that follows an opening brace, a comma or a colon (white
    space aside).  Strings and keys may hold escapes, commas and apostrophes
    otherwise.  The text with apostrophes around the keys and a comma before
    every bracket that closes a list with members goes through the repairs
    to the value that the strict text has, and both attempts succeed. *)
Theorem C7_decorated_text_round_trip (members : list (string * doc)) :
  repairable (DObj members) = true ->
  option_map parsed (tryParseJsonWithRepairs (decorate (DObj members)))
  = option_map parsed (tryParseJsonWithRepairs (render (DObj members)))
  /\ option_map parsed (tryParseJsonWithRepairs (render (DObj members)))
     = Some (valueOf (DObj members)).
Proof.
  intros Hd.
  rewrite (repairs_of_strict_object _ Hd) by (eexists; reflexivity).
  split; [|reflexivity].
  destruct members as [|member members].
  - reflexivity.
  - rewrite (repairs_of_decorated_text _ _ Hd). reflexivity.
Qed.

(** The round trip of an object whose strings hold a comma, apostrophes,
    braces and escapes, with its decorated text. *)
Lemma C7_witness :
  repairable proseObject = true
  /\ decorate proseObject
     = withQuotes "{'strategy':{'mode':`TARGET_LOCK`,},'control':{'throttle':0.6,'steering':-1e-1,},'actions':[{},[],true,null,],'note':`don't stop, hold {left}`,'say':`he said \`go\`\n then left`,}"
  /\ field "say" (Some (valueOf proseObject))
     = Some (JStr (text (chars (withQuotes "he said `go`") ++ ["010"%char]
                         ++ chars " then left")))
  /\ option_map parsed (tryParseJsonWithRepairs (decorate proseObject))
     = option_map parsed (tryParseJsonWithRepairs (render proseObject))
  /\ option_map parsed (tryParseJsonWithRepairs (render proseObject))
     = Some (valueOf proseObject).
Proof.
  split; [reflexivity|]. split; [vm_compute; reflexivity|].
  split; [vm_compute; reflexivity|].
  exact (C7_decorated_text_round_trip proseMembers eq_refl).
Defined.

(** C7 as stated fails: the first repair takes the comma inside the string
    for a trailing one and removes it, so the decorated text yields the
    string [}] where the strict text yields [,}]. *)
Lemma C7_counterexample_comma_in_string :
  option_map parsed (tryParseJsonWithRepairs (decorate commaBraceObject))
  = Some (JObj [("a"%string, JStr "}")])
  /\ option_map parsed (tryParseJsonWithRepairs (render commaBraceObject))
     = Some (JObj [("a"%string, JStr ",}")])
  /\ option_map data (parseModelResponseJson (decorate commaBraceObject))
     <> option_map data (parseModelResponseJson (render commaBraceObject))
  /\ repairable commaBraceObject = false.
Proof.
  split; [vm_compute; reflexivity|]. split; [vm_compute; reflexivity|].
  split; [vm_compute; discriminate | reflexivity].
Qed.

(** Each condition of the amended statement is forced by a text that the
    repairs fail on: an apostrophe in a key, an empty key, and in a string
    an apostrophe after a comma, after a colon or after an opening brace
    leave the decorated text unreadable, and a comma before a closing
    bracket in a key changes the key; each strict text is read as it
    stands. *)
Lemma repair_conditions_are_forced :
  let viaRepairs d := option_map parsed (tryParseJsonWithRepairs (decorate d)) in
  let strictly d := option_map parsed (tryParseJsonWithRepairs (render d)) in
  let one (key body : string) := DObj [(key, DStr body)] in
  let count (key : string) := DObj [(key, DNum "1"%string)] in
  (viaRepairs (count "a'b"%string) = None
   /\ strictly (count "a'b"%string) = Some (valueOf (count "a'b"%string)))
  /\ (viaRepairs (count EmptyString) = None
      /\ strictly (count EmptyString) = Some (valueOf (count EmptyString)))
  /\ (viaRepairs (one "a"%string "x,'b':1"%string) = None
      /\ strictly (one "a"%string "x,'b':1"%string) = Some (valueOf (one "a"%string "x,'b':1"%string)))
  /\ (viaRepairs (one "a"%string "t:'u',z"%string) = None
      /\ strictly (one "a"%string "t:'u',z"%string) = Some (valueOf (one "a"%string "t:'u',z"%string)))
  /\ (viaRepairs (one "a"%string "{'u':z"%string) = None
      /\ strictly (one "a"%string "{'u':z"%string) = Some (valueOf (one "a"%string "{'u':z"%string)))
  /\ (viaRepairs (count "a,]"%string) = Some (JObj [("a]"%string, JNum (Some 1))])
      /\ strictly (count "a,]"%string) = Some (JObj [("a,]"%string, JNum (Some 1))])).
Proof.
  cbv zeta. repeat split; vm_compute; reflexivity.
Qed.

Local Close Scope char_scope.

(** ** The spatial memory grid *)

Section MemoryGrid.

Variable hypot : Q -> Q -> Q.
Variable relativeSector : Q -> Q -> Q -> Q -> Q -> Sector.
Variable sinDeg : Q -> Q.
Variable cosDeg : Q -> Q.

Lemma mem_clamp_bounds (value lo hi : Q) :
  lo <= hi -> lo <= Mem.clamp value lo hi <= hi.
Proof. intros H. unfold Mem.clamp. qcases; lra. Qed.

(** C8, amended.  The score of a candidate is the stated sum, with the
    stated penalties, plus three kinds of terms that the statement leaves
    out: a bonus of 0.22 for an unvisited cell that is neither barrier-blocked
    nor outside the bounds; the bounds penalty at the cell's centre (2.0
    outside, up to 0.55 near an edge); and flat penalties of 0.55, 0.45 and
    0.85 for a recent obstacle hit, for three obstacle hits and for two
    outer-wall hits.  The graduated penalty for repeated hits lies between 0
    and 1.5. *)
Theorem C8_candidate_score_terms
    (st : Mem.State) (originX originZ headingDeg : Q) (originIx originIz nix niz : Z) :
  let c := Mem.evaluateCandidate hypot relativeSector st originX originZ headingDeg
             originIx originIz nix niz in
  Mem.score c == Mem.statedScore c + Mem.unvisitedBonus c - Mem.boundsPenaltyAt st c
                 - Mem.hardHitPenalties c
  /\ 0 <= Mem.repeatPenalty c <= 1.5.
Proof.
  cbv zeta. split.
  - unfold Mem.statedScore, Mem.unvisitedBonus, Mem.boundsPenaltyAt, Mem.hardHitPenalties.
    unfold Mem.evaluateCandidate. cbv zeta.
    cbn [Mem.score Mem.novelty Mem.openBias Mem.risk Mem.targetPenalty Mem.c_distance
         Mem.outsideBounds Mem.barrierBlocked Mem.obstacleDominant Mem.repeatPenalty
         Mem.c_openHits Mem.c_obstacleHits Mem.c_visits Mem.c_outerWallHits
         Mem.c_ix Mem.c_iz].
    set (cell := Mem.getCell (Mem.cells st) (nix, niz)).
    set (center := Mem.toCellCenter nix niz (Mem.cellSize st)).
    destruct (Mem.getBoundsPenalty (fst center) (snd center) (Mem.worldBounds st))
      as [outside penalty].
    cbn [fst snd].
    generalize (Mem.hasBarrierBetween (Mem.cells st) originIx originIz nix niz).
    generalize (Mem.isCellObstacleDominant cell).
    match goal with
    | |- context [Mem.clamp (Mem.clamp ?a 0 0.85 + Mem.clamp ?b 0 1.2) 0 1.5] =>
        generalize (Mem.clamp (Mem.clamp a 0 0.85 + Mem.clamp b 0 1.2) 0 1.5)
    end.
    generalize (hypot (inject_Z (nix - originIx)) (inject_Z (niz - originIz))).
    match goal with
    | |- context [if (0 <? ?h)%Z then 0 else Mem.clamp ?a 0 0.9] =>
        generalize (if (0 <? h)%Z then 0 else Mem.clamp a 0 0.9)
    end.
    match goal with
    | |- context [Mem.clamp ?a 0 1 * 0.95] => generalize (Mem.clamp a 0 1)
    end.
    match goal with
    | |- context [inject_Z ?a / inject_Z ?b * 0.4] => generalize (inject_Z a / inject_Z b)
    end.
    match goal with
    | |- context [1 / ?a * 0.95] => generalize (1 / a)
    end.
    generalize (match cell with Some c => Mem.visits c | None => 0%Z end).
    generalize (match cell with Some c => Mem.openHits c | None => 0%Z end).
    generalize (match cell with Some c => Mem.obstacleHits c | None => 0%Z end).
    generalize (match cell with Some c => Mem.outerWallHits c | None => 0%Z end).
    intros ow oh op vis nov ob rk tp dist rep dominant blocked.
    destruct ((vis =? 0)%Z); destruct blocked; destruct outside; destruct dominant;
      destruct ((op + oh =? 0)%Z); destruct ((1 <=? oh)%Z && Qgeb rk 0.62);
      destruct ((Mem.OBSTACLE_REPEAT_HARD_NO_GO_HITS <=? oh)%Z);
      destruct ((Mem.OUTER_WALL_REPEAT_HARD_NO_GO_HITS <=? ow)%Z);
      cbn [andb negb]; ring.
  - unfold Mem.evaluateCandidate. cbv zeta. cbn [Mem.repeatPenalty].
    apply mem_clamp_bounds. lra.
Qed.

(** C10.  When the snapshot has no finite [worldX] or no finite [worldZ],
    [update] returns the state it was given: no cell is created or changed,
    and neither the path nor the sensor range; [getContext] returns no
    context.  Both are total. *)
Theorem C10_missing_position_changes_nothing
    (st : Mem.State) (sd : SensorData) (now radiusCells : Z) (maxFrontier maxRisky : nat) :
  worldX sd = None \/ worldZ sd = None ->
  Mem.update sinDeg cosDeg st sd now = st
  /\ Mem.getContext hypot relativeSector st sd radiusCells maxFrontier maxRisky = None.
Proof.
  intros H. unfold Mem.update, Mem.getContext.
  destruct (worldX sd) as [x|], (worldZ sd) as [z|]; try (split; reflexivity).
  destruct H; discriminate.
Qed.

End MemoryGrid.

(** C8 as stated fails: a cell that was never seen, one cell away, scores
    0.95 - 0.09 + 0.22 - 0.15 = 0.93, where the stated formula gives
    0.95 - 0.09 - 0.15 = 0.71. *)
Lemma C8_counterexample_unvisited_bonus :
  Mem.score neighbourCandidate == 0.93
  /\ Mem.statedScore neighbourCandidate == 0.71
  /\ ~ Mem.score neighbourCandidate == Mem.statedScore neighbourCandidate.
Proof.
  split; [vm_compute; reflexivity|]. split; [vm_compute; reflexivity|].
  vm_compute. discriminate.
Qed.

(** A snapshot without [worldX] leaves a grid that has seen one snapshot as
    it is. *)
Lemma C10_witness :
  (worldX lostPosition = None \/ worldZ lostPosition = None)
  /\ Mem.update sinRough cosRough seenGrid lostPosition 2000 = seenGrid
  /\ Mem.getContext axisHypot (fun _ _ _ _ _ => SF) seenGrid lostPosition 2 6 5 = None.
Proof.
  split; [left; reflexivity|].
  apply (C10_missing_position_changes_nothing axisHypot (fun _ _ _ _ _ => SF)
           sinRough cosRough seenGrid lostPosition 2000 2 6 5).
  left; reflexivity.
Defined.

(** * Further properties

    ** The Decision Output *)

Section DecisionControl.

Variable wallSector : WallRegion -> Q -> Sector.

Lemma assemble_control
    (sd : SensorData) (ec : option ExplorationContext) (cs : option CollisionSummary)
    (signal : ContextSignal) (fallbackMode : Mode) (prev : option Mode) (now : Z)
    (st : SmoothingState) (p : ParseResult) :
  let out := snd (fst (assembleDecision wallSector sd ec cs signal fallbackMode prev now
                         st p)) in
  (-1 <= d_throttle out <= 1) /\ (-1 <= d_steering out <= 1)
  /\ (0.1 <= d_duration out <= 3.0)
  /\ (Qgtb (asNum (back sd) 99) 3.0 = false -> 0 <= d_throttle out)
  /\ controlLeadsPlan out.
Proof.
  cbv zeta. unfold assembleDecision. cbv zeta.
  destruct (stabilizeStrategyModeWithHysteresis _ _ _ _) as [st1 S].
  destruct (enforceSkillCadence _ _ _ _ _ _) as [st2 C].
  split_lets.
  unfold controlLeadsPlan.
  cbn [fst snd actionPlan d_throttle d_steering d_duration].
  lazymatch goal with
  | H : (if g_guardApplied ?g then _ else _) = (?ft, ?rs) |- _ =>
      lazymatch g with
      | applyMemorySafetyGuard _ _ _ ?sec _ (se_throttle ?e) (se_steering ?e) =>
          lazymatch e with
          | applySkillExecutor ?a1 ?a2 ?a3 ?a4 ?a5 ?a6 ?a7 ?a8 =>
              pose proof (executor_bounds a1 a2 a3 a4 a5 a6 a7 a8) as (Bt & Bs & Bd);
              cbv zeta in Bt, Bs, Bd
          end;
          set (exec := e) in *;
          pose proof (guard_bounds wallSector sd ec sec cs (se_throttle exec) (se_steering exec)
                        ltac:(lra) ltac:(lra)) as [Gt Gs];
          cbv zeta in Gt, Gs;
          assert (Bft : (-1 <= ft <= 1) /\ (-1 <= rs <= 1))
            by (clear - H Bt Bs Gt Gs; destruct (g_guardApplied _); inversion H; subst;
                split; assumption)
      end
  end.
  destruct Bft as [Bft Brs].
  split; [|split; [|split; [|split]]].
  - break_ifs; lra.
  - unfold ALPHA. lra.
  - lra.
  - intros Hback. rewrite Hback. cbn [negb andb].
    match goal with |- context [Qltb ?a 0] => destruct (Qltb a 0) eqn:Eneg end;
      cbn [andb]; [lra | apply Qltb_false in Eneg; exact Eneg].
  - destruct (normalizeActionPlan _ _); cbn [throttle steering duration];
      repeat split.
Qed.

Lemma fallback_control
    (signal : ContextSignal) (prev : option Mode) (st : SmoothingState)
    (tag text : string) (pm : OutputParseMethod) (sd : SensorData) :
  let out := snd (fallbackDecision signal prev st tag text pm) in
  (-1 <= d_throttle out <= 1) /\ (-1 <= d_steering out <= 1)
  /\ (0.1 <= d_duration out <= 3.0)
  /\ (Qgtb (asNum (back sd) 99) 3.0 = false -> 0 <= d_throttle out)
  /\ controlLeadsPlan out.
Proof.
  cbv zeta. unfold fallbackDecision, controlLeadsPlan. cbv zeta. cbn.
  repeat split; try lra; intros; lra.
Qed.

Lemma decide_control
    (sd : SensorData) (ec : option ExplorationContext) (cs : option CollisionSummary)
    (signal : ContextSignal) (fallbackMode : Mode) (prev : option Mode) (now : Z)
    (st : SmoothingState) (p : ParseResult) (retryPromptUsed : bool) :
  let out := snd (decideFromParsed wallSector sd ec cs signal fallbackMode prev now st p
                    retryPromptUsed) in
  (-1 <= d_throttle out <= 1) /\ (-1 <= d_steering out <= 1)
  /\ (0.1 <= d_duration out <= 3.0)
  /\ (Qgtb (asNum (back sd) 99) 3.0 = false -> 0 <= d_throttle out)
  /\ controlLeadsPlan out.
Proof.
  cbv zeta. unfold decideFromParsed.
  pose proof (assemble_control sd ec cs signal fallbackMode prev now st p) as H.
  cbv zeta in H.
  destruct (assembleDecision _ _ _ _ _ _ _ _ _ _) as [[st' o] th].
  cbn [fst snd] in H.
  destruct (thoughtThrows th); [apply fallback_control | exact H].
Qed.

Lemma decision_control
    (sd : SensorData) (st0 : SmoothingState) (ec : option ExplorationContext)
    (cs : option CollisionSummary) (tickNow stabNow : Z) (primary retry : FetchOutcome) :
  let out := snd (getDrivingDecision wallSector sd st0 ec cs tickNow stabNow primary
                    retry) in
  (-1 <= d_throttle out <= 1) /\ (-1 <= d_steering out <= 1)
  /\ (0.1 <= d_duration out <= 3.0)
  /\ (Qgtb (asNum (back sd) 99) 3.0 = false -> 0 <= d_throttle out)
  /\ controlLeadsPlan out.
Proof.
  cbv zeta. unfold getDrivingDecision.
  destruct (updateContactTracking _ _ _) as [st c].
  destruct primary as [raw| |]; try apply fallback_control.
  cbv zeta.
  match goal with
  | |- context [match ?x with Some p => decideFromParsed _ _ _ _ _ _ _ _ _ p _ | None => _ end] =>
      destruct x as [p|]
  end.
  - apply decide_control.
  - apply fallback_control.
Qed.

(** X1.  Whatever the model answers and whatever the requests do, the control of
    a Decision Output has throttle and steering in [-1, 1] and a duration in
    [0.1, 3.0], and it is the first step of the action plan. *)
Theorem decision_control_in_range_and_first_step
    (sd : SensorData) (st0 : SmoothingState) (ec : option ExplorationContext)
    (cs : option CollisionSummary) (tickNow stabNow : Z) (primary retry : FetchOutcome) :
  let out := snd (getDrivingDecision wallSector sd st0 ec cs tickNow stabNow primary
                    retry) in
  (-1 <= d_throttle out <= 1) /\ (-1 <= d_steering out <= 1)
  /\ (0.1 <= d_duration out <= 3.0)
  /\ exists first others,
       actionPlan out = first :: others
       /\ throttle first = d_throttle out /\ steering first = d_steering out
       /\ duration first = d_duration out.
Proof.
  cbv zeta.
  destruct (decision_control sd st0 ec cs tickNow stabNow primary retry)
    as (H1 & H2 & H3 & _ & H5).
  cbv zeta in *. split; [exact H1|]. split; [exact H2|]. split; [exact H3|].
  unfold controlLeadsPlan in H5.
  destruct (actionPlan _) as [|first others]; [destruct H5|].
  exists first, others. split; [reflexivity | exact H5].
Qed.

(** X2.  When the rear ray reads 3.0 or less, no Decision Output reverses:
    whatever the model asks for and whatever the executor and the guard
    make of it, the final throttle is not negative. *)
Theorem decision_never_reverses_into_tight_rear
    (sd : SensorData) (st0 : SmoothingState) (ec : option ExplorationContext)
    (cs : option CollisionSummary) (tickNow stabNow : Z) (primary retry : FetchOutcome)
    (rear : Q) :
  back sd = Some rear -> rear <= 3.0 ->
  0 <= d_throttle (snd (getDrivingDecision wallSector sd st0 ec cs tickNow stabNow primary
                          retry)).
Proof.
  intros Hb Hr.
  destruct (decision_control sd st0 ec cs tickNow stabNow primary retry)
    as (_ & _ & _ & H4 & _).
  apply H4. rewrite Hb. cbn [asNum]. unfold Qgtb. apply Qltb_false. exact Hr.
Qed.

End DecisionControl.

(** A stuck car with a wall 2 m behind it, and a model that asks to back
    off at full throttle. *)
Lemma decision_never_reverses_into_tight_rear_witness :
  back tightRear = Some 2.0 /\ 2.0 <= 3.0
  /\ 0 <= d_throttle (snd (getDrivingDecision (fun _ _ => SF) tightRear freshState None None
                             1000 1400 (FetchOk reverseResponse) FetchFail)).
Proof.
  assert (H1 : back tightRear = Some 2.0) by reflexivity.
  assert (H2 : 2.0 <= 3.0) by (vm_compute; discriminate).
  split; [exact H1|]. split; [exact H2|].
  exact (decision_never_reverses_into_tight_rear (fun _ _ => SF) tightRear freshState None
           None 1000 1400 (FetchOk reverseResponse) FetchFail 2.0 H1 H2).
Defined.

(** ** The context signal and the mode machines *)

Lemma clamp01_range (v : Q) : 0 <= clamp01 v /\ clamp01 v <= 1.
Proof. unfold clamp01; qcases; lra. Qed.

(** X5.  The context signal of any snapshot: the pseudo-contact score lies in
    [0, 1] and is 1 under target contact; the strong and the weak target cue
    are never raised together; target contact raises the strong cue; and the
    expected mode is TARGET_LOCK only without danger, on the lock priority
    or the strong cue. *)
Theorem context_signal_cues_consistent (sd : SensorData) (c : option ContactState) :
  let s := inferContextModeSignal sd c in
  (0 <= pseudoContactScore s /\ pseudoContactScore s <= 1)
  /\ (hasTargetContact s = true -> pseudoContactScore s = 1 /\ strongTargetCue s = true)
  /\ (strongTargetCue s = true -> weakTargetCue s = false)
  /\ (expectedMode s = TARGET_LOCK ->
      danger s = false /\ (lockPriority s = true \/ strongTargetCue s = true))
  /\ (expectedMode s = MEMORY_EXPLORE ->
      danger s = false /\ hasTargetContact s = false /\ strongTargetCue s = false).
Proof.
  cbv zeta. unfold inferContextModeSignal.
  cbn [pseudoContactScore hasTargetContact strongTargetCue weakTargetCue expectedMode danger
       lockPriority].
  set (contact := match c with Some c0 => cs_hasTargetContact c0 | None => _ end).
  set (dng := isStuck sd || _).
  set (dist := asNum (distanceToTarget sd) 99).
  set (ang := qabs (asNum (angleToTarget sd) 180)).
  set (front := minFrontDistOf sd).
  set (ms := match c with Some c0 => cs_noContactMs c0 | None => _ end).
  match goal with
  | |- context [clamp01 (?a * 0.48 + ?b + ?c + ?d)] => set (raw := a * 0.48 + b + c + d)
  end.
  pose proof (clamp01_range raw) as [Hlo Hhi].
  set (sc := clamp01 raw) in *. clearbody sc raw contact dng dist ang front ms.
  destruct contact; cbn [negb andb orb].
  - split; [lra|]. split; [intros _; split; reflexivity|].
    split; [intros _; reflexivity|].
    destruct dng; cbn [negb andb orb]; split; intros H; try discriminate H.
    split; [reflexivity | left; reflexivity].
  - split; [split; assumption|]. split; [intros H; discriminate H|].
    split.
    + intros H. apply andb_prop in H as [H Hrel]. apply andb_prop in H as [_ Hsc].
      apply andb_prop in Hrel as [Hrel _]. apply andb_prop in Hrel as [Hd Ha].
      apply Qgeb_true in Hsc. apply Qltb_true in Hd. apply Qleb_true in Ha.
      assert (E1 : Qleb sc 0.22 = false) by (apply Qleb_false; lra).
      assert (E2 : Qgtb dist 30 = false) by (apply Qgtb_false; lra).
      assert (E3 : Qgtb ang 95 = false) by (apply Qgtb_false; lra).
      assert (E4 : Qltb sc 0.4 = false) by (apply Qltb_false; lra).
      rewrite E1, E2, E3, E4, andb_false_r. reflexivity.
    + set (lp := Qleb dist TARGET_LOCK_PRIORITY_DISTANCE_M && _ && _).
      set (sg := Qgeb sc 0.6). set (rel := Qltb dist 28 && _ && _). clearbody lp sg rel.
      destruct dng, lp, sg, rel; cbn; split; intros H;
        first [ discriminate H
              | split; [reflexivity | first [left; reflexivity | right; reflexivity]]
              | repeat split; reflexivity ].
Qed.

(** X6.  The context override reports a correction exactly when it returns a
    mode other than the one the model asked for, and it names a reason
    exactly when it corrects. *)
Theorem resolved_mode_corrected_iff_changed
    (raw : Mode) (signal : ContextSignal) (prev : option Mode) :
  let r := resolveStrategyModeWithContext raw signal prev in
  (mr_corrected r = true <-> mr_mode r <> raw)
  /\ (mr_corrected r = false <-> mr_reason r = no_correction).
Proof.
  cbv zeta. unfold resolveStrategyModeWithContext.
  destruct raw, (danger signal), (lockPriority signal), (lockHoldWindow signal),
    (reacquireActive signal), (strongTargetCue signal), (weakTargetCue signal),
    prev as [[]|]; cbn; split; split; congruence.
Qed.

(** X7.  The stabilizer returns the desired mode unless it holds, and when it
    holds it returns the mode of the previous cycle, which then differs from
    the desired one. *)
Theorem stabilizer_returns_desired_or_previous
    (st0 : SmoothingState) (desired : Mode) (signal : ContextSignal) (now : Z) :
  let r := snd (stabilizeStrategyModeWithHysteresis st0 desired signal now) in
  (sb_held r = false -> sb_mode r = desired)
  /\ (sb_held r = true ->
      lastStrategyMode st0 = Some (sb_mode r) /\ sb_mode r <> desired)
  /\ (sb_forced r = true -> sb_held r = true -> sb_mode r = TARGET_LOCK).
Proof.
  cbv zeta.
  pose proof (stabilize_cases st0 desired signal now) as Hc.
  destruct (ensure_mode_fields st0) as (Hm & _).
  destruct Hc as [Hs | p Hp Hne Hact Hnl | p why Hp Hne _ _ | p why Hp Hne _ _ _ _
                 | p Hp Hne _ _ _ _ _ _ _ _ _];
    cbn [sb_held sb_mode sb_forced]; try rewrite Hm in Hp.
  - split; [reflexivity|]. split; intros H; discriminate H.
  - split; [intros H; discriminate H|].
    assert (p = TARGET_LOCK) as ->.
    { unfold targetLockHoldActive in Hact.
      destruct (Mode_eqb p TARGET_LOCK) eqn:E; [apply Mode_eqb_eq in E; exact E|].
      discriminate Hact. }
    split; [intros _; split; [exact Hp | congruence] | reflexivity].
  - split; [reflexivity|]. split; intros H; try discriminate H.
    intros H'; discriminate H'.
  - split; [intros H; discriminate H|].
    split; [intros _; split; [exact Hp | congruence] | intros H; discriminate H].
  - split; [reflexivity|]. split; intros H; discriminate H.
Qed.

(** X8.  Contact tracking: a snapshot with a target hit clears the no-contact
    clock and the reacquire flag; one without a hit adds to the clock the
    time since the last tick, taken as 0 when the clock ran backwards and as
    2000 ms when more has passed, counts one more cycle, and raises the
    reacquire flag exactly from 12000 ms on. *)
Theorem contact_tracking_clock (st : SmoothingState) (sd : SensorData) (now : Z) :
  let r := updateContactTracking st sd now in
  let c := snd r in
  (cs_hasTargetContact c = true ->
   cs_noContactMs c = 0%Z /\ cs_noContactCycles c = 0%Z /\ cs_reacquireActive c = false
   /\ lastContactAt (fst r) = now)
  /\ (cs_hasTargetContact c = false ->
      cs_noContactMs c
      = (noContactMs st + Z.max 0 (Z.min 2000 (now - lastTickAt st)))%Z
      /\ cs_noContactCycles c = (noContactCycles st + 1)%Z
      /\ (cs_reacquireActive c = true <-> (12000 <= cs_noContactMs c)%Z)
      /\ lastContactAt (fst r) = lastContactAt st)
  /\ noContactMs (fst r) = cs_noContactMs c
  /\ lastTickAt (fst r) = now.
Proof.
  cbv zeta. unfold updateContactTracking.
  assert (He : noContactMs (ensureSmoothingState st) = noContactMs st
               /\ noContactCycles (ensureSmoothingState st) = noContactCycles st
               /\ lastContactAt (ensureSmoothingState st) = lastContactAt st
               /\ lastTickAt (ensureSmoothingState st) = lastTickAt st).
  { unfold ensureSmoothingState; destruct (_ =? _)%Z; repeat split. }
  destruct He as (He1 & He2 & He3 & He4).
  remember (ensureSmoothingState st) as st1 eqn:Est1.
  rewrite <- He4.
  set (dt := Z.max 0 (Z.min 2000 (now - lastTickAt st1))).
  clearbody dt.
  destruct (existsb (fun b : bool => b) (targetHits sd)); cbn [negb andb].
  - cbn. split; [intros _; repeat split|].
    split; [intros H; discriminate H | split; reflexivity].
  - split; [intros H; cbn in H; discriminate H|].
    cbn [set_noContactCycles set_noContactMs set_lastTickAt noContactMs noContactCycles
         reacquireTurnDir lastReacquireFlipAt].
    destruct (12000 <=? noContactMs st1 + dt)%Z eqn:E12.
    + destruct (lastReacquireFlipAt st1 =? 0)%Z;
        cbn [set_lastReacquireFlipAt lastReacquireFlipAt];
        destruct (3500 <? _)%Z; cbn; rewrite <- ?He1, <- ?He2, <- ?He3;
        (split; [intros _; split; [reflexivity|]; split; [reflexivity|];
                 split; [split; [intros _; lia | reflexivity] | reflexivity]
                | split; reflexivity]).
    + cbn; rewrite <- ?He1, <- ?He2, <- ?He3.
      split; [intros _; split; [reflexivity|]; split; [reflexivity|];
              split; [split; [intros H; discriminate H | lia] | reflexivity]
             | split; reflexivity].
Qed.

(** X9.  The search direction of the reacquire sweep changes only while the
    reacquire flag is up and more than 3500 ms after the previous flip; the
    flip reverses the direction and restarts the flip clock. *)
Theorem reacquire_direction_flips_after_3500ms
    (st : SmoothingState) (sd : SensorData) (now : Z) :
  reacquireTurnDir st <> 0%Z ->
  reacquireTurnDir (fst (updateContactTracking st sd now)) <> reacquireTurnDir st ->
  cs_reacquireActive (snd (updateContactTracking st sd now)) = true
  /\ lastReacquireFlipAt st <> 0%Z
  /\ (3500 < now - lastReacquireFlipAt st)%Z
  /\ lastReacquireFlipAt (fst (updateContactTracking st sd now)) = now
  /\ reacquireTurnDir (fst (updateContactTracking st sd now))
     = (if (0 <? reacquireTurnDir st)%Z then (-1)%Z else 1%Z).
Proof.
  intros Hnz. unfold updateContactTracking.
  assert (He : ensureSmoothingState st = st).
  { unfold ensureSmoothingState. destruct (reacquireTurnDir st =? 0)%Z eqn:E; [|reflexivity].
    apply Z.eqb_eq in E. contradiction. }
  rewrite He.
  set (dt := Z.max 0 (Z.min 2000 (now - lastTickAt st))). clearbody dt.
  destruct (existsb (fun b : bool => b) (targetHits sd)); cbn [negb andb].
  - cbn. intros H; contradiction H; reflexivity.
  - cbn [set_noContactCycles set_noContactMs set_lastTickAt noContactMs noContactCycles
         reacquireTurnDir lastReacquireFlipAt].
    destruct (12000 <=? noContactMs st + dt)%Z.
    + destruct (lastReacquireFlipAt st =? 0)%Z eqn:E0;
        cbn [set_lastReacquireFlipAt lastReacquireFlipAt set_noContactCycles set_noContactMs
             set_lastTickAt reacquireTurnDir].
      * rewrite Z.sub_diag. cbn. intros H; contradiction H; reflexivity.
      * apply Z.eqb_neq in E0.
        destruct (3500 <? now - lastReacquireFlipAt st)%Z eqn:E35.
        -- apply Z.ltb_lt in E35. cbn. intros _. repeat split; first [assumption | reflexivity].
        -- cbn. intros H; contradiction H; reflexivity.
    + cbn. intros H; contradiction H; reflexivity.
Qed.

(** Twelve seconds without contact, the last flip 4 s ago: the sweep turns
    from left to right. *)
Lemma reacquire_direction_flips_witness :
  reacquireTurnDir searchingState <> 0%Z
  /\ reacquireTurnDir (fst (updateContactTracking searchingState openFarTarget 5000))
     <> reacquireTurnDir searchingState
  /\ (3500 < 5000 - lastReacquireFlipAt searchingState)%Z
  /\ reacquireTurnDir (fst (updateContactTracking searchingState openFarTarget 5000))
     = (-1)%Z.
Proof.
  assert (H1 : reacquireTurnDir searchingState <> 0%Z) by (vm_compute; discriminate).
  assert (H2 : reacquireTurnDir (fst (updateContactTracking searchingState openFarTarget 5000))
               <> reacquireTurnDir searchingState) by (vm_compute; discriminate).
  split; [exact H1|]. split; [exact H2|].
  destruct (reacquire_direction_flips_after_3500ms searchingState openFarTarget 5000 H1 H2)
    as (_ & _ & H5 & _ & H7).
  split; [exact H5 | exact H7].
Defined.

(** ** The skill executor and the safety guard *)

(** X11.  The profile of each skill, whatever control the model asked for:
    HOLD_POSITION stops the car for at least 0.25 s; BACKOFF_AND_TURN
    reverses with a throttle of at most -0.28 and steers at least 0.45 to one
    side, for at least 0.45 s; SCAN_SECTOR creeps at a throttle between 0.1
    and 0.2; MOVE_TO_FRONTIER drives forward at 0.22 or more; and
    APPROACH_TARGET drives at 0.24 or more when the front is more than 2.7
    away and at 0.18 or less otherwise. *)
Theorem executor_skill_profiles
    (strategySector : Sector) (throttle steering duration : Q) (signal : ContextSignal)
    (sd : SensorData) (skillIntensity : Q) :
  let run := fun skill =>
    applySkillExecutor skill strategySector throttle steering duration signal sd
      skillIntensity in
  (se_throttle (run HOLD_POSITION) = 0 /\ se_steering (run HOLD_POSITION) = 0
   /\ 0.25 <= se_duration (run HOLD_POSITION))
  /\ (se_throttle (run BACKOFF_AND_TURN) <= -0.28
      /\ 0.45 <= qabs (se_steering (run BACKOFF_AND_TURN))
      /\ 0.45 <= se_duration (run BACKOFF_AND_TURN))
  /\ (0.1 <= se_throttle (run SCAN_SECTOR) <= 0.2 /\ 0.35 <= se_duration (run SCAN_SECTOR))
  /\ (0.22 <= se_throttle (run MOVE_TO_FRONTIER)
      /\ 0.35 <= se_duration (run MOVE_TO_FRONTIER))
  /\ (2.7 < minFrontDistOf sd -> 0.24 <= se_throttle (run APPROACH_TARGET))
  /\ (minFrontDistOf sd <= 2.7 -> se_throttle (run APPROACH_TARGET) <= 0.18)
  /\ 0.3 <= se_duration (run APPROACH_TARGET).
Proof.
  cbv zeta. unfold applySkillExecutor. cbv zeta.
  cbn [se_throttle se_steering se_duration].
  pose proof (clampNumber_bounds (Some skillIntensity) 0 1 0.5 ltac:(lra)) as [Hi0 Hi1].
  generalize dependent (clampNumber (Some skillIntensity) 0 1 0.5). intros k Hi0 Hi1.
  unfold clampNumber, asNum.
  split; [|split; [|split; [|split; [|split; [|split]]]]].
  - split; [reflexivity|]. split; [reflexivity|]. qcases; lra.
  - split; [qcases; lra|]. split; [|qcases; lra].
    destruct (Qltb (qabs steering) 0.45) eqn:E.
    + destruct (Qgeb _ _); vm_compute; discriminate.
    + apply Qltb_false in E. clear - E. qcases; lra.
  - split; [|qcases; lra]. split; qcases; lra.
  - split; qcases; lra.
  - intros H. apply Qgtb_true in H. rewrite H. qcases; lra.
  - intros H. apply Qgtb_false in H. rewrite H. qcases; lra.
  - qcases; lra.
Qed.

(** X10.  Skill resolution: the escape mode always backs off; the target lock
    never scans or holds, and backs off exactly when the front is 2.55 or
    less away; a scan survives only in exploration, on the model's request
    and under the strict scan condition; no approach goes to the rear sector
    without target contact; and without an override reason the skill is the
    requested one. *)
Theorem skill_resolution_rules
    (requested : Skill) (mode : Mode) (strategySector : Sector) (signal : ContextSignal)
    (sd : SensorData) :
  let r := resolveSkillWithContext requested mode strategySector signal sd in
  (mode = ESCAPE_RECOVERY -> sr_skill r = BACKOFF_AND_TURN)
  /\ (mode = TARGET_LOCK ->
      (minFrontDistOf sd <= 2.55 -> sr_skill r = BACKOFF_AND_TURN)
      /\ (2.55 < minFrontDistOf sd ->
          sr_skill r = APPROACH_TARGET \/ sr_skill r = MOVE_TO_FRONTIER))
  /\ (sr_skill r = SCAN_SECTOR ->
      requested = SCAN_SECTOR /\ mode = MEMORY_EXPLORE /\ sr_strictScanCondition r = true)
  /\ (sr_skill r = APPROACH_TARGET ->
      strategySector <> SB \/ hasTargetContact signal = true)
  /\ (sr_overrideReason r = no_skill_override -> sr_skill r = requested).
Proof.
  cbv zeta. unfold resolveSkillWithContext. cbv zeta.
  set (safe := Qgtb (minFrontDistOf sd) 2.55).
  assert (Hsafe : (minFrontDistOf sd <= 2.55 -> safe = false)
                  /\ (2.55 < minFrontDistOf sd -> safe = true)).
  { unfold safe; split; intros H; [apply Qgtb_false | apply Qgtb_true]; exact H. }
  destruct Hsafe as [Hs0 Hs1].
  set (bias := negb (danger signal) && safe && _).
  set (strict := reacquireActive signal && _ && _ && _ && _ && _).
  set (mid := Qgeb (pseudoContactScore signal) 0.42).
  clearbody bias strict mid.
  assert (Hsb : strategySector = SB \/ strategySector <> SB)
    by (destruct strategySector; auto; right; discriminate).
  split; [|split; [|split; [|split]]].
  - intros ->. clear. destruct requested, strategySector, (hasTargetContact signal); reflexivity.
  - intros ->. split; intros H; [rewrite (Hs0 H) | rewrite (Hs1 H)]; clear;
      destruct requested, strategySector, (hasTargetContact signal); cbn; auto.
  - clearbody safe. clear.
    destruct mode, requested, safe, strict, bias, mid, strategySector,
      (hasTargetContact signal); cbn; intros H; try discriminate H; auto.
  - clearbody safe. clear.
    destruct mode, requested, safe, strict, bias, mid, strategySector,
      (hasTargetContact signal); cbn; intros H; try discriminate H; auto;
      left; discriminate.
  - clearbody safe. clear.
    destruct mode, requested, safe, strict, bias, mid, strategySector,
      (hasTargetContact signal); cbn; intros H; try discriminate H; reflexivity.
Qed.

Section GuardStages.

Variable wallSector : WallRegion -> Q -> Sector.

Lemma snoc_not_nil {A : Type} (l : list A) (x : A) : l ++ [x] <> [].
Proof. destruct l; discriminate. Qed.

Lemma guard_stages
    (sd : SensorData) (ec : option ExplorationContext) (strategySector : Sector)
    (cs : option CollisionSummary) (requested steer : Q) :
  let g := applyMemorySafetyGuard wallSector sd ec strategySector cs requested steer in
  let rear := cB (getSectorClearance sd) in
  (g_throttle g < 0 -> g_throttle g = requested \/ (g_throttle g = -0.35 /\ 2.8 < rear))
  /\ (g_throttle g < -0.08 -> 2.3 <= rear)
  /\ (g_guardApplied g = false ->
      g_throttle g = requested /\ g_steering g = steer /\ g_guardReason g = [])
  /\ (g_guardApplied g = true -> g_guardReason g <> []).
Proof.
  cbv zeta. unfold applyMemorySafetyGuard. cbv zeta.
  set (rear := cB (getSectorClearance sd)).
  match goal with
  | |- context [match ?e with (_, _) => _ end] =>
      lazymatch e with
      | (if Qgtb requested 0.04 && _ && _ then _ else _) =>
          assert (S1 : guardStageOk requested steer rear e);
          [ | destruct e as [[[t1 s1] r1] a1] ]
      end
  end.
  { unfold guardStageOk.
    match goal with |- context [if ?c then _ else _] =>
      lazymatch c with (Qgtb requested 0.04 && _ && _) => destruct c eqn:Ec end end.
    - apply andb_prop in Ec as [Ec _]. apply andb_prop in Ec as [Ec _].
      apply Qgtb_true in Ec.
      match goal with |- context [match ?opts with [] => _ | _ :: _ => _ end] =>
        destruct opts as [|best others] end.
      + destruct (Qgtb rear 2.8) eqn:E28; cbn [fst snd].
        * apply Qgtb_true in E28.
          split; [intros _; right; split; [reflexivity | exact E28]|].
          split; [intros H; discriminate H | intros _; discriminate].
        * split; [intros H; lra|].
          split; [intros H; discriminate H | intros _; discriminate].
      + cbn [fst snd].
        split; [intros H; exfalso; revert H; break_ifs; qcases; lra|].
        split; [intros H; discriminate H | intros _; discriminate].
    - cbn [fst snd]. split; [intros _; left; reflexivity|].
      split; [intros _; repeat split | intros H; discriminate H]. }
  match goal with
  | |- context [match ?e with (_, _) => _ end] =>
      lazymatch e with
      | (if Qgtb t1 0.1 && _ && _ then _ else _) =>
          assert (S2 : guardStageOk requested steer rear e);
          [ | destruct e as [[[t2 s2] r2] a2] ]
      end
  end.
  { unfold guardStageOk in *. cbn [fst snd] in S1.
    match goal with |- context [if ?c then _ else _] =>
      lazymatch c with (Qgtb t1 0.1 && _ && _) => destruct c end end;
      cbn [fst snd]; [|exact S1].
    split; [intros H; lra|].
    split; [intros H; discriminate H | intros _; apply snoc_not_nil]. }
  clear S1.
  match goal with
  | |- context [match ?e with (_, _) => _ end] =>
      lazymatch e with
      | (if Qltb t2 (-0.08) && _ && _ && _ then _ else _) =>
          assert (S3 : guardStageOk requested steer rear e);
          [ | destruct e as [[[t3 s3] r3] a3] ]
      end
  end.
  { unfold guardStageOk in *. cbn [fst snd] in S2.
    match goal with |- context [if ?c then _ else _] =>
      lazymatch c with (Qltb t2 (-0.08) && _ && _ && _) => destruct c end end;
      cbn [fst snd]; [|exact S2].
    split; [intros H; lra|].
    split; [intros H; discriminate H | intros _; apply snoc_not_nil]. }
  clear S2. unfold guardStageOk in S3. cbn [fst snd] in S3.
  destruct S3 as (S3a & S3b & S3c).
  assert (Hrear : setHas
                    ((if Qltb (cF (getSectorClearance sd)) 2.9 then [SF] else [])
                     ++ (if Qltb (cL (getSectorClearance sd)) 2.25 then [SL] else [])
                     ++ (if Qltb (cR (getSectorClearance sd)) 2.25 then [SR] else [])
                     ++ (if Qltb rear 2.3 then [SB] else [])) SB
                  = Qltb rear 2.3).
  { destruct (Qltb (cF (getSectorClearance sd)) 2.9),
      (Qltb (cL (getSectorClearance sd)) 2.25), (Qltb (cR (getSectorClearance sd)) 2.25),
      (Qltb rear 2.3); reflexivity. }
  rewrite Hrear.
  destruct (Qltb t3 (-0.08)) eqn:Et; cbn [andb].
  - destruct (Qltb rear 2.3) eqn:Er; cbn [g_throttle g_steering g_guardApplied g_guardReason].
    + split; [intros H; lra|].
      split; [intros H; lra|].
      split; [intros H; discriminate H | intros _; apply snoc_not_nil].
    + apply Qltb_false in Er.
      split; [exact S3a|]. split; [intros _; exact Er|]. split; assumption.
  - cbn [g_throttle g_steering g_guardApplied g_guardReason].
    apply Qltb_false in Et.
    split; [exact S3a|]. split; [intros H; lra|]. split; assumption.
Qed.

(** X12.  The guard and reversing.  It never lets the car reverse faster than
    -0.08 when the rear clearance is below 2.3; and a reverse throttle it
    emits is either the requested one, or its own escape at -0.35, which it
    chooses only with more than 2.8 of rear clearance. *)
Theorem guard_reverse_needs_rear_room
    (sd : SensorData) (ec : option ExplorationContext) (strategySector : Sector)
    (cs : option CollisionSummary) (requested steer : Q) :
  let g := applyMemorySafetyGuard wallSector sd ec strategySector cs requested steer in
  let rear := cB (getSectorClearance sd) in
  (g_throttle g < -0.08 -> 2.3 <= rear)
  /\ (g_throttle g < 0 -> g_throttle g = requested \/ (g_throttle g = -0.35 /\ 2.8 < rear)).
Proof.
  cbv zeta.
  destruct (guard_stages sd ec strategySector cs requested steer) as (H1 & H2 & _).
  cbv zeta in *. split; assumption.
Qed.

(** X13.  The guard's flag is accurate: when it reports that it did not act,
    throttle and steering are the requested ones and no reason is given;
    when it reports that it acted, it names at least one reason. *)
Theorem guard_flag_is_accurate
    (sd : SensorData) (ec : option ExplorationContext) (strategySector : Sector)
    (cs : option CollisionSummary) (requested steer : Q) :
  let g := applyMemorySafetyGuard wallSector sd ec strategySector cs requested steer in
  (g_guardApplied g = false ->
   g_throttle g = requested /\ g_steering g = steer /\ g_guardReason g = [])
  /\ (g_guardApplied g = true -> g_guardReason g <> []).
Proof.
  cbv zeta.
  destruct (guard_stages sd ec strategySector cs requested steer) as (_ & _ & H3 & H4).
  cbv zeta in *. split; assumption.
Qed.

(** X14.  In open space the guard leaves the command alone: with at least 2.9 of
    clearance ahead, 2.25 on either side and 3.05 behind, and no sector
    blocked by the memory, throttle and steering pass through unchanged. *)
Theorem guard_passes_in_open_space
    (sd : SensorData) (ec : option ExplorationContext) (strategySector : Sector)
    (cs : option CollisionSummary) (requested steer : Q) :
  let g := applyMemorySafetyGuard wallSector sd ec strategySector cs requested steer in
  let c := getSectorClearance sd in
  2.9 <= cF c -> 2.25 <= cL c -> 2.25 <= cR c -> 3.05 <= cB c ->
  gp_memoryBlockedSectors (g_profile g) = [] ->
  g_throttle g = requested /\ g_steering g = steer /\ g_guardApplied g = false.
Proof.
  cbv zeta. intros HF HL HR HB.
  unfold applyMemorySafetyGuard. cbv zeta.
  assert (EF : Qltb (cF (getSectorClearance sd)) 2.9 = false) by (apply Qltb_false; lra).
  assert (EL : Qltb (cL (getSectorClearance sd)) 2.25 = false) by (apply Qltb_false; lra).
  assert (ER : Qltb (cR (getSectorClearance sd)) 2.25 = false) by (apply Qltb_false; lra).
  assert (EB : Qltb (cB (getSectorClearance sd)) 2.3 = false) by (apply Qltb_false; lra).
  assert (EN : Qltb (cF (getSectorClearance sd)) 2.6 = false) by (apply Qltb_false; lra).
  assert (ET : Qltb (cF (getSectorClearance sd)) 2.35 = false) by (apply Qltb_false; lra).
  assert (EX : Qltb (cB (getSectorClearance sd)) 3.05 = false) by (apply Qltb_false; lra).
  rewrite EF, EL, ER, EB, EN, ET, EX.
  match goal with
  | |- context [setHas ?m _] =>
      lazymatch m with context [ss_sector] => set (memoryBlocked := m) end
  end.
  split_lets. cbn [g_profile gp_memoryBlockedSectors]. intros Hm.
  rewrite Hm in *. cbn [app setHas existsb orb andb negb] in *.
  rewrite ?andb_false_r in *. cbn [andb negb orb] in *.
  repeat match goal with
         | H : (_, _) = (_, _) |- _ => inversion H; clear H; subst
         end.
  cbn [g_throttle g_steering g_guardApplied]. repeat split.
Qed.

End GuardStages.

(** Open ground on all sides and no exploration context. *)
Lemma guard_passes_in_open_space_witness :
  let g := applyMemorySafetyGuard (fun _ _ => SF) openFarTarget None SF None 0.6 0.3 in
  2.9 <= cF (getSectorClearance openFarTarget)
  /\ g_throttle g = 0.6 /\ g_steering g = 0.3 /\ g_guardApplied g = false.
Proof.
  cbv zeta.
  assert (HF : 2.9 <= cF (getSectorClearance openFarTarget)) by (vm_compute; discriminate).
  assert (HL : 2.25 <= cL (getSectorClearance openFarTarget)) by (vm_compute; discriminate).
  assert (HR : 2.25 <= cR (getSectorClearance openFarTarget)) by (vm_compute; discriminate).
  assert (HB : 3.05 <= cB (getSectorClearance openFarTarget)) by (vm_compute; discriminate).
  split; [exact HF|].
  exact (guard_passes_in_open_space (fun _ _ => SF) openFarTarget None SF None 0.6 0.3
           HF HL HR HB eq_refl).
Defined.

(** ** Reason envelopes *)

Lemma length_text (l : list ascii) : String.length (text l) = List.length l.
Proof. induction l as [|c l IH]; cbn; [reflexivity | f_equal; exact IH]. Qed.

Lemma length_chars (s : string) : List.length (chars s) = String.length s.
Proof. rewrite <- (text_chars s) at 2. symmetry. apply length_text. Qed.

Lemma sliceTo_length (n : nat) (s : string) :
  isEmpty s = false -> (1 <= String.length (sliceTo (S n) s) <= S n)%nat.
Proof.
  intros H. unfold sliceTo. rewrite length_text.
  rewrite isEmpty_chars in H. destruct (chars s) as [|c l]; [discriminate H|].
  cbn [firstn List.length]. pose proof (firstn_le_length n l). lia.
Qed.

Lemma forallb_firstn {A : Type} (p : A -> bool) (n : nat) (l : list A) :
  forallb p l = true -> forallb p (firstn n l) = true.
Proof.
  revert n; induction l as [|x l IH]; intros [|n] H; cbn in *; try reflexivity.
  apply andb_prop in H as [-> H]. cbn. apply IH; exact H.
Qed.

Lemma forallb_filter_same {A : Type} (p : A -> bool) (l : list A) :
  forallb p (List.filter p l) = true.
Proof.
  induction l as [|x l IH]; cbn; [reflexivity|].
  destruct (p x) eqn:E; cbn; [rewrite E; exact IH | exact IH].
Qed.

Lemma normalizeReasonCode_shaped (raw : jsval) (fallback : string) :
  codeShaped fallback -> codeShaped (normalizeReasonCode raw fallback).
Proof.
  intros Hf. unfold normalizeReasonCode. cbv zeta.
  match goal with |- context [if isEmpty ?n then _ else _] => destruct (isEmpty n) eqn:E end;
    [exact Hf|].
  split; [apply (sliceTo_length 47); exact E|].
  unfold sliceTo. rewrite !chars_text. apply forallb_firstn, forallb_filter_same.
Qed.

Lemma normalizeReasonSign_shaped (raw : jsval) (fallback : option Z) :
  signShaped fallback -> signShaped (normalizeReasonSign raw fallback).
Proof.
  intros Hf. unfold normalizeReasonSign, signShaped.
  destruct raw as [[| | [q|] | s | |]|]; try exact Hf.
  - break_ifs; auto.
  - break_ifs; auto.
Qed.

Lemma signFromControlValue_shaped (v : Q) : signShaped (Some (signFromControlValue v)).
Proof. unfold signFromControlValue, signShaped. break_ifs; auto. Qed.

Lemma fallback_shape_shaped (throttle steering : Q) (fallbackReason : option Reason) :
  let f := inferFallbackReasonShape throttle steering fallbackReason in
  codeShaped (f_code f) /\ (String.length (f_summary f) <= 180)%nat
  /\ signShaped (f_expectedThrottleSign f) /\ signShaped (f_expectedSteeringSign f).
Proof.
  cbv zeta. unfold inferFallbackReasonShape. cbv zeta.
  pose proof (signFromControlValue_shaped throttle) as Ht.
  pose proof (signFromControlValue_shaped steering) as Hs.
  match goal with
  | |- context [if negb (isEmpty ?s) then _ else _] => destruct (isEmpty s) eqn:E
  end; cbn [negb].
  - generalize dependent (signFromControlValue throttle).
    generalize dependent (signFromControlValue steering). intros zs Hs zt Ht.
    destruct (0 <? zt)%Z, (zs =? 0)%Z, (zt <? 0)%Z; cbn [andb negb f_code f_summary
      f_expectedThrottleSign f_expectedSteeringSign];
      (split; [split; [cbn; lia | reflexivity]|]);
      (split; [cbn; lia|]); split; unfold signShaped; auto.
  - cbn [f_code f_summary f_expectedThrottleSign f_expectedSteeringSign].
    split; [apply normalizeReasonCode_shaped; split; [cbn; lia | reflexivity]|].
    split; [apply (sliceTo_length 179); exact E|].
    split; apply normalizeReasonSign_shaped; assumption.
Qed.

(** X15.  Every reason envelope the decision attaches to a control: its code has
    1 to 48 characters, each a capital letter, a digit or an underscore; its
    summary has 1 to 180 characters; both expected signs are -1, 0 or 1; and
    its source is not empty.  This holds whatever the model wrote as the
    reason, and whatever reason the caller passed as the fallback. *)
Theorem reason_envelope_is_well_shaped
    (rawReason : jsval) (fallbackReason : option Reason) (throttle steering : Q) :
  let r := normalizeActionReason rawReason fallbackReason throttle steering in
  codeShaped (code r)
  /\ (1 <= String.length (summary r) <= 180)%nat
  /\ signShaped (expectedThrottleSign r) /\ signShaped (expectedSteeringSign r)
  /\ source r <> EmptyString.
Proof.
  cbv zeta.
  destruct (normalizeActionReason_nonempty rawReason fallbackReason throttle steering)
    as [_ Hne].
  destruct (fallback_shape_shaped throttle steering fallbackReason) as (Hc & Hl & Ht & Hs).
  cbv zeta in *.
  split; [|split; [|split; [|split]]].
  - unfold normalizeActionReason; cbn [code]. apply normalizeReasonCode_shaped; exact Hc.
  - split.
    + destruct (summary _); [discriminate Hne | cbn; lia].
    + unfold normalizeActionReason; cbn [summary].
      match goal with
      | |- context [if nonBlankString ?v then _ else _] =>
          destruct (nonBlankString v); [|exact Hl];
          destruct (asString v) as [s|]; [|exact Hl]
      end.
      unfold sliceTo. rewrite length_text. apply firstn_le_length.
  - unfold normalizeActionReason; cbn [expectedThrottleSign].
    apply normalizeReasonSign_shaped; exact Ht.
  - unfold normalizeActionReason; cbn [expectedSteeringSign].
    apply normalizeReasonSign_shaped; exact Hs.
  - unfold normalizeActionReason; cbn [source].
    match goal with
    | |- context [if negb (isEmpty ?s) then _ else _] => destruct (isEmpty s) eqn:E
    end; cbn [negb].
    + match goal with |- context [if ?c then _ else _] => destruct c end; discriminate.
    + apply isEmpty_false_neq; exact E.
Qed.

(** ** The parsed response *)

Lemma repairs_truthy (s : string) (r : Repaired) :
  tryParseJsonWithRepairs s = Some r ->
  truthy (Some (parsed r)) = true /\ (rp_recovered r = false <-> rp_method r = strict).
Proof.
  unfold tryParseJsonWithRepairs.
  destruct (isEmpty s); [discriminate|].
  destruct (truthy (tryParseJson s)) eqn:E1.
  { destruct (tryParseJson s) as [v|]; [|discriminate E1].
    cbn [option_map]. intros [= <-]. cbn. split; [exact E1 | split; reflexivity]. }
  destruct (truthy (tryParseJson (noTrailingCommas s))) eqn:E2.
  { destruct (tryParseJson (noTrailingCommas s)) as [v|]; [|discriminate E2].
    cbn [option_map]. intros [= <-]. cbn. split; [exact E2 | split; discriminate]. }
  destruct (truthy (tryParseJson (singleQuoteRepaired (noTrailingCommas s)))) eqn:E3.
  { destruct (tryParseJson (singleQuoteRepaired (noTrailingCommas s))) as [v|];
      [|discriminate E3].
    cbn [option_map]. intros [= <-]. cbn. split; [exact E3 | split; discriminate]. }
  discriminate.
Qed.

(** X16.  What a parsed response holds is never a value that JavaScript takes for
    false: the JSON [null], [false], [0] and the empty string are never
    passed on as the data of a response.  The result is marked as
    recovered exactly when the strict parse was not the one that
    succeeded. *)
Theorem parsed_response_is_never_falsy (rawText : string) (p : ParseResult) :
  parseModelResponseJson rawText = Some p ->
  truthy (Some (data p)) = true
  /\ (recovered p = false <-> method p = strict)
  /\ fromRetry p = false.
Proof.
  unfold parseModelResponseJson. cbv zeta.
  set (cleaned := stripCodeFences rawText).
  set (more := match extractFirstBalancedObject cleaned with
               | Some extracted => _ | None => [] end).
  assert (Hmore : more = [] \/ exists e, more = [e]).
  { unfold more. destruct (extractFirstBalancedObject cleaned) as [e|]; [|left; reflexivity].
    destruct (negb (isEmpty e) && negb (String_eqb e cleaned));
      [right; exists e; reflexivity | left; reflexivity]. }
  clearbody more.
  assert (Hfix : forall fixed rest,
             omap tryParseJsonWithRepairs (cleaned :: more) = fixed :: rest ->
             exists s, tryParseJsonWithRepairs s = Some fixed).
  { intros fixed rest. cbn.
    destruct (tryParseJsonWithRepairs cleaned) as [r|] eqn:Ec.
    - intros [= <- _]. exists cleaned; exact Ec.
    - destruct Hmore as [-> | [e ->]]; cbn; [discriminate|].
      destruct (tryParseJsonWithRepairs e) as [r|] eqn:Ee; [|discriminate].
      intros [= <- _]. exists e; exact Ee. }
  destruct (omap tryParseJsonWithRepairs (cleaned :: more)) as [|fixed rest].
  - unfold recoverLoosePayload.
    destruct (isEmpty cleaned); [discriminate|]. cbv zeta.
    repeat match goal with
           | |- context [match ?x with Some _ => _ | None => _ end] =>
               lazymatch x with
               | numberFor _ _ => destruct x
               | findFirst _ _ => destruct x
               end
           end;
      intros H; inversion H; subst; cbn;
      (split; [reflexivity | split; [split; discriminate | reflexivity]]).
  - destruct (Hfix fixed rest eq_refl) as [s Hs].
    destruct (repairs_truthy s fixed Hs) as [Ht Hr].
    intros [= <-]. cbn [data recovered method fromRetry].
    split; [exact Ht | split; [exact Hr | reflexivity]].
Qed.

(** The response that asks for the target lock parses strictly. *)
Lemma parsed_response_is_never_falsy_witness :
  exists p, parseModelResponseJson lockApproachResponse = Some p
            /\ truthy (Some (data p)) = true /\ method p = strict.
Proof.
  destruct (parseModelResponseJson lockApproachResponse) as [p|] eqn:E;
    [|vm_compute in E; discriminate E].
  exists p. split; [reflexivity|].
  destruct (parsed_response_is_never_falsy lockApproachResponse p E) as (H1 & H2 & _).
  split; [exact H1|]. apply H2.
  assert (H : option_map recovered (parseModelResponseJson lockApproachResponse) = Some false)
    by (vm_compute; reflexivity).
  rewrite E in H. cbn in H. congruence.
Defined.

(** ** An object inside other text *)

Local Open Scope char_scope.

Lemma upper_facts (c : ascii) :
  isUpper c = true ->
  isJsonWs c = false /\ ascii_eqb c "{" = false /\ ascii_eqb c "[" = false
  /\ ascii_eqb c "034" = false /\ ascii_eqb c "t" = false /\ ascii_eqb c "f" = false
  /\ ascii_eqb c "n" = false /\ ascii_eqb c "-" = false /\ isDigit c = false
  /\ ascii_eqb c "," = false /\ ascii_eqb c ":" = false.
Proof.
  destruct c as [[] [] [] [] [] [] [] []]; vm_compute; intros H;
    first [discriminate H | repeat split].
Qed.

Lemma numberChar_plain (c : ascii) : isNumberChar c = true -> plainChar c = true.
Proof.
  destruct c as [[] [] [] [] [] [] [] []]; vm_compute; intros H;
    first [discriminate H | reflexivity].
Qed.

Lemma numberOfLexeme_capital (c : ascii) (l : list ascii) :
  isUpper c = true -> numberOfLexeme (c :: l) = None.
Proof.
  intros H. destruct (upper_facts c H) as (_ & _ & _ & _ & _ & _ & _ & Hm & Hd & _).
  unfold numberOfLexeme. rewrite Hm. cbn [spanChars]. rewrite Hd. reflexivity.
Qed.

(** No JSON text starts with a capital letter. *)
Lemma parseValue_capital (n : nat) (c : ascii) (r : list ascii) :
  isUpper c = true -> parseValue n (c :: r) = None.
Proof.
  intros H. destruct n as [|n]; [reflexivity|].
  destruct (upper_facts c H) as (Hw & H1 & H2 & H3 & H4 & H5 & H6 & _).
  rewrite parseValue_S. cbn [skipJsonWs]. rewrite Hw, H1, H2, H3, H4, H5, H6.
  cbn [spanChars]. destruct (isNumberChar c).
  - destruct (spanChars isNumberChar r) as [a b].
    rewrite (numberOfLexeme_capital c a H). reflexivity.
  - reflexivity.
Qed.

Lemma JSON_parse_capital (c : ascii) (l : list ascii) :
  isUpper c = true -> JSON_parse (text (c :: l)) = None.
Proof.
  intros H. unfold JSON_parse. rewrite chars_text. cbv zeta.
  rewrite (parseValue_capital _ c l H). reflexivity.
Qed.

Lemma repairs_capital (c : ascii) (l : list ascii) :
  isUpper c = true -> tryParseJsonWithRepairs (text (c :: l)) = None.
Proof.
  intros H. destruct (upper_facts c H) as (_ & H1 & _ & _ & _ & _ & _ & _ & _ & Hc & Hk).
  unfold tryParseJsonWithRepairs, tryParseJson.
  change (isEmpty (text (c :: l))) with false. cbv iota.
  rewrite (JSON_parse_capital c l H). cbn [truthy].
  unfold noTrailingCommas. rewrite chars_text.
  rewrite replaceAll_pass by (cbn [matchTrailingComma]; rewrite Hc; reflexivity).
  rewrite (JSON_parse_capital c _ H). cbn [truthy].
  unfold singleQuoteRepaired. rewrite chars_text.
  rewrite replaceAll_pass by (cbn [matchQuotedKey]; rewrite H1, Hc; reflexivity).
  rewrite replaceAll_pass by (cbn [matchQuotedValue]; rewrite Hk; reflexivity).
  rewrite (JSON_parse_capital c _ H). reflexivity.
Qed.

Lemma scanPasses_nil : scanPasses [].
Proof. intros rest depth taken. reflexivity. Qed.

Lemma scanPasses_app (p q : list ascii) :
  scanPasses p -> scanPasses q -> scanPasses (p ++ q).
Proof.
  intros Hp Hq rest depth taken.
  rewrite <- app_assoc, Hp, Hq, rev_app_distr, <- app_assoc. reflexivity.
Qed.

Lemma scanPasses_plain (s : list ascii) : forallb plainChar s = true -> scanPasses s.
Proof.
  induction s as [|c s IH]; intros Hs; [apply scanPasses_nil|].
  cbn in Hs. apply andb_prop in Hs as [Hc Hs].
  unfold plainChar in Hc. apply andb_prop in Hc as [Hc H3]. apply andb_prop in Hc as [H1 H2].
  apply negb_true_iff in H1, H2, H3.
  intros rest depth taken. cbn [app balancedScan]. rewrite H1, H2, H3.
  rewrite (IH Hs). cbn [rev]. rewrite <- app_assoc. reflexivity.
Qed.

Lemma scan_string_body (s rest : list ascii) (depth : nat) (taken : list ascii) :
  forallb repairSafeChar s = true ->
  balancedScan (s ++ "034" :: rest) depth true false taken
  = balancedScan rest depth false false ("034" :: rev s ++ taken).
Proof.
  revert taken. induction s as [|c s IH]; intros taken Hs.
  - reflexivity.
  - cbn in Hs. apply andb_prop in Hs as [Hc Hs].
    destruct (safeChar_facts c Hc) as (H1 & H2 & _).
    cbn [app balancedScan]. rewrite H1, H2, (IH _ Hs).
    cbn [rev]. rewrite <- app_assoc. reflexivity.
Qed.

Lemma scanPasses_string (s : string) :
  repairSafeText s = true -> scanPasses ("034" :: chars s ++ ["034"]).
Proof.
  intros Hs rest depth taken. cbn [app balancedScan].
  change (ascii_eqb "034" "034") with true. cbv iota.
  rewrite <- app_assoc. cbn [app]. rewrite (scan_string_body _ _ _ _ Hs).
  cbn [rev]. rewrite rev_app_distr. cbn [rev app]. rewrite <- app_assoc. reflexivity.
Qed.

Lemma scanPasses_braces (p : list ascii) : scanPasses p -> scanPasses ("{" :: p ++ ["}"]).
Proof.
  intros Hp rest depth taken. cbn [app balancedScan].
  change (ascii_eqb "{" "034") with false. change (ascii_eqb "{" "{") with true. cbv iota.
  rewrite <- app_assoc, Hp. cbn [app balancedScan].
  change (ascii_eqb "}" "034") with false. change (ascii_eqb "}" "{") with false.
  change (ascii_eqb "}" "}") with true. cbv iota. cbn [Nat.pred].
  cbn [rev]. rewrite rev_app_distr. cbn [rev app]. rewrite <- app_assoc. reflexivity.
Qed.

Lemma scanPasses_joinParts (parts : list (list ascii)) :
  Forall scanPasses parts -> scanPasses (joinParts false parts).
Proof.
  induction 1 as [|p parts Hp Hparts IH]; [apply scanPasses_nil|].
  cbn [joinParts]. destruct parts as [|q parts].
  - apply scanPasses_app; [exact Hp | apply scanPasses_nil].
  - apply scanPasses_app; [exact Hp|].
    apply (scanPasses_app [","]); [apply scanPasses_plain; reflexivity | exact IH].
Qed.

Lemma scanPasses_member (m : string * doc) :
  repairSafeText (fst m) = true -> scanPasses (strictText (snd m)) ->
  scanPasses (strictMember m).
Proof.
  intros Hk Hv. unfold strictMember.
  change ("034" :: chars (fst m) ++ "034" :: ":" :: strictText (snd m))
    with (("034" :: chars (fst m)) ++ "034" :: ":" :: strictText (snd m)).
  replace (("034" :: chars (fst m)) ++ "034" :: ":" :: strictText (snd m))
    with (("034" :: chars (fst m) ++ ["034"]) ++ [":"] ++ strictText (snd m))
    by (cbn [app]; rewrite <- app_assoc; reflexivity).
  apply scanPasses_app; [apply scanPasses_string; exact Hk|].
  apply scanPasses_app; [apply scanPasses_plain; reflexivity | exact Hv].
Qed.

Lemma scanPasses_members (members : list (string * doc)) :
  Forall (fun m => repairSafe (snd m) = true -> scanPasses (strictText (snd m))) members ->
  repairSafe (DObj members) = true ->
  scanPasses (joinParts false (map strictMember members)).
Proof.
  intros Hall Hsafe. apply scanPasses_joinParts.
  cbn [repairSafe] in Hsafe.
  induction Hall as [|m members Hm Hall IH]; cbn [map]; [constructor|].
  cbn [forallb] in Hsafe. apply andb_prop in Hsafe as [Hh Hsafe].
  apply andb_prop in Hh as [Hh Hv]. apply andb_prop in Hh as [_ Hk].
  constructor; [apply scanPasses_member; [exact Hk | exact (Hm Hv)] | exact (IH Hsafe)].
Qed.

(** The scan passes the text of every value. *)
Lemma scanPasses_render (d : doc) : repairSafe d = true -> scanPasses (strictText d).
Proof.
  induction d as [|b|lexeme|s|items IH|members IH] using doc_induction; intros Hd;
    unfold strictText; cbn [renderWith].
  - apply scanPasses_plain; reflexivity.
  - destruct b; apply scanPasses_plain; reflexivity.
  - cbn [repairSafe] in Hd. unfold numberLexeme in Hd.
    apply andb_prop in Hd as [Hd _]. apply andb_prop in Hd as [_ Hd].
    apply scanPasses_plain. revert Hd. generalize (chars lexeme). intros l.
    induction l as [|c l IHl]; cbn; [reflexivity|]. intros H.
    apply andb_prop in H as [Hc H]. rewrite (numberChar_plain c Hc). exact (IHl H).
  - apply scanPasses_string. exact Hd.
  - apply (scanPasses_app ["["]); [apply scanPasses_plain; reflexivity|].
    apply scanPasses_app; [|apply scanPasses_plain; reflexivity].
    apply scanPasses_joinParts. cbn [repairSafe] in Hd.
    induction IH as [|x items Hx Hitems IHitems]; cbn [map]; [constructor|].
    cbn [forallb] in Hd. apply andb_prop in Hd as [Hdx Hd].
    constructor; [exact (Hx Hdx) | exact (IHitems Hd)].
  - apply scanPasses_braces. apply (scanPasses_members members IH Hd).
Qed.

Lemma dropUntilBrace_skip (pre rest : list ascii) :
  forallb (fun x => negb (ascii_eqb x "{")) pre = true ->
  dropUntilBrace (pre ++ "{" :: rest) = "{" :: rest.
Proof.
  induction pre as [|c pre IH]; intros H; [reflexivity|].
  cbn in H. apply andb_prop in H as [Hc H]. apply negb_true_iff in Hc.
  cbn [app dropUntilBrace]. rewrite Hc. exact (IH H).
Qed.

(** The first balanced object of a text that holds the text of an object
    after words without braces is that object's text. *)
Lemma extract_wrapped_object (pre post : list ascii) (members : list (string * doc)) :
  repairSafe (DObj members) = true ->
  forallb (fun x => negb (ascii_eqb x "{")) pre = true ->
  extractFirstBalancedObject (text (pre ++ strictText (DObj members) ++ post))
  = Some (render (DObj members)).
Proof.
  intros Hd Hpre. unfold extractFirstBalancedObject. rewrite chars_text.
  unfold strictText at 1. cbn [renderWith].
  change (map _ members) with (map strictMember members).
  set (body := joinParts false (map strictMember members)).
  assert (Hbody : scanPasses body).
  { apply scanPasses_members; [|exact Hd].
    apply List.Forall_forall. intros m _. apply scanPasses_render. }
  cbn [app]. rewrite (dropUntilBrace_skip pre _ Hpre).
  cbn [balancedScan]. change (ascii_eqb "{" "034") with false.
  change (ascii_eqb "{" "{") with true. cbv iota.
  rewrite <- app_assoc, Hbody. cbn [app balancedScan].
  change (ascii_eqb "}" "034") with false. change (ascii_eqb "}" "{") with false.
  change (ascii_eqb "}" "}") with true. cbv iota. cbn [option_map].
  f_equal. unfold render. cbn [renderWith]. f_equal.
  change (map _ members) with (map strictMember members). fold body.
  cbn [rev]. rewrite rev_app_distr, rev_involutive. reflexivity.
Qed.

(** X17.  Words around the object do not spoil the answer.  When the text, once
    its code fences are stripped, starts with a capital letter, holds no
    brace before the text of a JSON object, and goes on in any way after
    it, the object is parsed strictly and the result is not marked as
    recovered; this holds also when strings of the object hold braces. *)
Theorem object_between_words_is_parsed
    (rawText : string) (c : ascii) (pre post : list ascii)
    (members : list (string * doc)) :
  repairSafe (DObj members) = true ->
  isUpper c = true ->
  forallb (fun x => negb (ascii_eqb x "{")) pre = true ->
  stripCodeFences rawText = text (c :: pre ++ strictText (DObj members) ++ post) ->
  parseModelResponseJson rawText
  = Some (mkParseResult (valueOf (DObj members)) false strict false).
Proof.
  intros Hd Hc Hpre Hclean. unfold parseModelResponseJson. cbv zeta. rewrite Hclean.
  assert (Hpre' : forallb (fun x => negb (ascii_eqb x "{")) (c :: pre) = true).
  { destruct (upper_facts c Hc) as (_ & H1 & _). cbn [forallb]. rewrite H1. exact Hpre. }
  change (c :: pre ++ strictText (DObj members) ++ post)
    with ((c :: pre) ++ strictText (DObj members) ++ post).
  rewrite (extract_wrapped_object (c :: pre) post members Hd Hpre').
  assert (Hne : negb (isEmpty (render (DObj members)))
                && negb (String_eqb (render (DObj members))
                           (text ((c :: pre) ++ strictText (DObj members) ++ post)))
                = true).
  { unfold render. cbn [renderWith app text string_of_list_ascii isEmpty negb andb].
    unfold String_eqb. cbn [String.eqb].
    destruct (upper_facts c Hc) as (_ & H1 & _).
    unfold ascii_eqb in H1. rewrite Ascii.eqb_sym in H1. rewrite H1. reflexivity. }
  rewrite Hne. cbn [app].
  cbn [omap list_omap]. rewrite (repairs_capital c _ Hc).
  rewrite (repairs_of_strict_text (DObj members) Hd) by (eexists; reflexivity).
  reflexivity.
Qed.

(** An answer that wraps the sample object in words and a code fence. *)
Lemma object_between_words_witness :
  repairSafe sampleObject = true
  /\ stripCodeFences chattyResponse
     = text ("P" :: chars "lan: " ++ strictText sampleObject ++ chars " Done.")
  /\ parseModelResponseJson chattyResponse
     = Some (mkParseResult (valueOf sampleObject) false strict false).
Proof.
  assert (H1 : repairSafe (DObj sampleMembers) = true) by reflexivity.
  assert (H2 : isUpper "P" = true) by reflexivity.
  assert (H3 : forallb (fun x => negb (ascii_eqb x "{")) (chars "lan: ") = true)
    by reflexivity.
  assert (H4 : stripCodeFences chattyResponse
               = text ("P" :: chars "lan: " ++ strictText (DObj sampleMembers)
                         ++ chars " Done."))
    by (vm_compute; reflexivity).
  split; [exact H1|]. split; [exact H4|].
  exact (object_between_words_is_parsed chattyResponse "P" (chars "lan: ") (chars " Done.")
           sampleMembers H1 H2 H3 H4).
Defined.

Local Close Scope char_scope.

(** ** The strategy report of a cycle *)

Section StrategyReport.

Variable wallSector : WallRegion -> Q -> Sector.

Lemma assemble_report
    (sd : SensorData) (ec : option ExplorationContext) (cs : option CollisionSummary)
    (signal : ContextSignal) (fallbackMode : Mode) (prev : option Mode) (now : Z)
    (st : SmoothingState) (p : ParseResult) :
  let r := fst (assembleDecision wallSector sd ec cs signal fallbackMode prev now st p) in
  let s := strategy (snd r) in
  lastStrategyMode (fst r) = Some (so_mode s)
  /\ (forall q, prev = Some q -> q <> so_mode s -> so_transition s = SWITCH)
  /\ (0 <= so_confidence s /\ so_confidence s <= 1)
  /\ (exists rc, so_riskCue s = Some rc
      /\ (mr_corrected (rc_modeResolved rc) = true -> so_confidence s <= 0.55)
      /\ (sb_held (rc_hysteresis rc) = true -> so_confidence s <= 0.72)
      /\ (mr_corrected (rc_modeResolved rc) || sb_forced (rc_hysteresis rc) = true ->
          so_transition s = SWITCH))
  /\ (0 <= sk_intensity (skill (snd r)) /\ sk_intensity (skill (snd r)) <= 1).
Proof.
  cbv zeta. unfold assembleDecision. cbv zeta.
  destruct (stabilizeStrategyModeWithHysteresis _ _ _ _) as [st1 S].
  destruct (enforceSkillCadence _ _ _ _ _ _) as [st2 C].
  split_lets.
  cbn [fst snd strategy skill so_mode so_transition so_confidence so_riskCue sk_intensity].
  match goal with
  | |- context [clampNumber ?v 0 1 0.5] =>
      pose proof (clampNumber_bounds v 0 1 0.5 ltac:(lra)) as [Hc0 Hc1];
      generalize dependent (clampNumber v 0 1 0.5)
  end.
  intros conf Hc0 Hc1.
  match goal with
  | |- context [clampNumber ?v 0 1 0.5] =>
      pose proof (clampNumber_bounds v 0 1 0.5 ltac:(lra)) as [Hi0 Hi1];
      generalize dependent (clampNumber v 0 1 0.5)
  end.
  intros inten Hi0 Hi1.
  split.
  { state_ifs; reflexivity. }
  split.
  { intros prevMode -> HprevMode. unfold deriveStrategyTransition.
    destruct (Mode_eqb prevMode (sb_mode S)) eqn:EprevMode; [apply Mode_eqb_eq in EprevMode; contradiction|].
    match goal with |- (if ?c then _ else _) = _ => destruct c end; reflexivity. }
  split.
  { clear - Hc0 Hc1. destruct (mr_corrected _), (sb_held S); qcases; lra. }
  split; [|split; assumption].
  eexists. split; [reflexivity|]. cbn [rc_modeResolved rc_hysteresis].
  split; [intros ->; clear - Hc0 Hc1; destruct (sb_held S); qcases; lra|].
  split; [intros ->; clear - Hc0 Hc1; destruct (mr_corrected _); qcases; lra|].
  intros ->. unfold deriveStrategyTransition. reflexivity.
Qed.

Lemma fallback_report
    (signal : ContextSignal) (prev : option Mode) (st : SmoothingState)
    (tag text : string) (pm : OutputParseMethod) :
  let r := fallbackDecision signal prev st tag text pm in
  let s := strategy (snd r) in
  lastStrategyMode (fst r) = Some (so_mode s)
  /\ (forall q, prev = Some q -> q <> so_mode s -> so_transition s = SWITCH)
  /\ (0 <= so_confidence s /\ so_confidence s <= 1).
Proof.
  cbv zeta. unfold fallbackDecision. cbv zeta.
  cbn [fst snd strategy so_mode so_transition so_confidence].
  split; [reflexivity|]. split; [|lra].
  intros q -> Hq. unfold deriveStrategyTransition.
  destruct (Mode_eqb q (expectedMode signal)) eqn:E;
    [apply Mode_eqb_eq in E; contradiction | reflexivity].
Qed.

Lemma decide_report
    (sd : SensorData) (ec : option ExplorationContext) (cs : option CollisionSummary)
    (signal : ContextSignal) (fallbackMode : Mode) (prev : option Mode) (now : Z)
    (st : SmoothingState) (p : ParseResult) (retryPromptUsed : bool) :
  let r := decideFromParsed wallSector sd ec cs signal fallbackMode prev now st p
             retryPromptUsed in
  let s := strategy (snd r) in
  lastStrategyMode (fst r) = Some (so_mode s)
  /\ (forall q, prev = Some q -> q <> so_mode s -> so_transition s = SWITCH)
  /\ (0 <= so_confidence s /\ so_confidence s <= 1).
Proof.
  cbv zeta. unfold decideFromParsed.
  pose proof (assemble_report sd ec cs signal fallbackMode prev now st p) as H.
  cbv zeta in H. destruct H as (H1 & H2 & H3 & _).
  destruct (assembleDecision _ _ _ _ _ _ _ _ _ _) as [[st' o] th].
  cbn [fst snd] in H1, H2, H3.
  destruct (thoughtThrows th); [apply fallback_report|].
  cbn [fst snd]. split; [exact H1 | split; [exact H2 | exact H3]].
Qed.

Lemma decide_confidence
    (sd : SensorData) (ec : option ExplorationContext) (cs : option CollisionSummary)
    (signal : ContextSignal) (fallbackMode : Mode) (prev : option Mode) (now : Z)
    (st : SmoothingState) (p : ParseResult) (retryPromptUsed : bool) :
  let out := snd (decideFromParsed wallSector sd ec cs signal fallbackMode prev now st p
                    retryPromptUsed) in
  match so_riskCue (strategy out) with
  | Some rc =>
      (mr_corrected (rc_modeResolved rc) = true -> so_confidence (strategy out) <= 0.55)
      /\ (sb_held (rc_hysteresis rc) = true -> so_confidence (strategy out) <= 0.72)
      /\ (mr_corrected (rc_modeResolved rc) || sb_forced (rc_hysteresis rc) = true ->
          so_transition (strategy out) = SWITCH)
  | None => so_confidence (strategy out) = 0
  end
  /\ (0 <= sk_intensity (skill out) /\ sk_intensity (skill out) <= 1).
Proof.
  cbv zeta. unfold decideFromParsed.
  pose proof (assemble_report sd ec cs signal fallbackMode prev now st p) as H.
  cbv zeta in H. destruct H as (_ & _ & _ & H4 & H5).
  destruct (assembleDecision _ _ _ _ _ _ _ _ _ _) as [[st' o] th].
  cbn [fst snd] in H4, H5.
  destruct (thoughtThrows th).
  - unfold fallbackDecision; cbn; split; [reflexivity | lra].
  - cbn [fst snd]. split; [|exact H5].
    destruct H4 as (rc & -> & H4). exact H4.
Qed.

Lemma cycle_report (st : SmoothingState) (i : CycleInput) :
  reportsModeChange (mkCycleEvent i st (fst (cycle wallSector st i))
                       (snd (cycle wallSector st i))).
Proof.
  unfold reportsModeChange, ev_mode, modeSwitched.
  cbn [ev_after ev_before ev_output].
  destruct (tracked_frame st i) as (Hm & _).
  assert (H : let r := cycle wallSector st i in
              lastStrategyMode (fst r) = Some (so_mode (strategy (snd r)))
              /\ (forall q, lastStrategyMode st = Some q -> q <> so_mode (strategy (snd r)) ->
                  so_transition (strategy (snd r)) = SWITCH)
              /\ (0 <= so_confidence (strategy (snd r))
                  /\ so_confidence (strategy (snd r)) <= 1)).
  { cbv zeta. rewrite <- Hm. unfold cycle, trackedState, getDrivingDecision.
    assert (Hens : ensureSmoothingState (ensureSmoothingState st) = ensureSmoothingState st).
    { unfold ensureSmoothingState.
      destruct (reacquireTurnDir st =? 0)%Z eqn:E; cbn; [reflexivity | rewrite E; reflexivity]. }
    destruct (updateContactTracking (ensureSmoothingState st) (ci_sensor i) (ci_tickNow i))
      as [st1 contact] eqn:E1.
    cbn [fst snd].
    destruct (ci_primary i) as [raw | |]; try apply fallback_report.
    match goal with
    | |- context [match ?x with Some p => decideFromParsed _ _ _ _ _ _ _ _ _ p _
                                | None => _ end] => destruct x as [p|]
    end; [|apply fallback_report].
    apply decide_report. }
  cbv zeta in H. destruct H as (H1 & H2 & H3).
  split; [exact H1|]. split; [|exact H3].
  destruct (lastStrategyMode st) as [q|]; [|discriminate].
  intros Hsw. apply negb_true_iff, Mode_eqb_neq in Hsw.
  exact (H2 q eq_refl Hsw).
Qed.

(** X3.  Through any sequence of cycles, with model answers, timeouts and
    failures in any order: after every cycle the session remembers the mode
    of that cycle's output; whenever this mode differs from the one
    remembered before the cycle, the output's transition is SWITCH; and the
    confidence of every output lies in [0, 1]. *)
Theorem run_reports_every_mode_change (st : SmoothingState) (inputs : list CycleInput) :
  Forall reportsModeChange (runCycles wallSector st inputs).
Proof.
  revert st. induction inputs as [|i rest IH]; intros st.
  - constructor.
  - rewrite runCycles_cons. constructor; [apply cycle_report | apply IH].
Qed.

(** X4.  The confidence a decision reports.  When the cycle resolved a model
    answer, the confidence is never above 0.55 if the context corrected the
    model's mode and never above 0.72 if the stabilizer held the previous
    mode, and a corrected or forced mode is always reported as a SWITCH; a
    fallback reports the confidence 0.  The skill intensity lies in
    [0, 1]. *)
Theorem overridden_mode_lowers_confidence
    (sd : SensorData) (st0 : SmoothingState) (ec : option ExplorationContext)
    (cs : option CollisionSummary) (tickNow stabNow : Z) (primary retry : FetchOutcome) :
  let out := snd (getDrivingDecision wallSector sd st0 ec cs tickNow stabNow primary
                    retry) in
  match so_riskCue (strategy out) with
  | Some rc =>
      (mr_corrected (rc_modeResolved rc) = true -> so_confidence (strategy out) <= 0.55)
      /\ (sb_held (rc_hysteresis rc) = true -> so_confidence (strategy out) <= 0.72)
      /\ (mr_corrected (rc_modeResolved rc) || sb_forced (rc_hysteresis rc) = true ->
          so_transition (strategy out) = SWITCH)
  | None => so_confidence (strategy out) = 0
  end
  /\ (0 <= sk_intensity (skill out) /\ sk_intensity (skill out) <= 1).
Proof.
  cbv zeta. unfold getDrivingDecision.
  destruct (updateContactTracking (ensureSmoothingState st0) sd tickNow) as [st1 contact].
  destruct primary as [raw | |];
    try (unfold fallbackDecision; cbn; split; [reflexivity | lra]).
  match goal with
  | |- context [match ?x with Some p => decideFromParsed _ _ _ _ _ _ _ _ _ p _
                              | None => _ end] => destruct x as [p|]
  end; [|unfold fallbackDecision; cbn; split; [reflexivity | lra]].
  apply decide_confidence.
Qed.

End StrategyReport.

(** ** Invariants of the memory grid *)

Lemma key_eqb_eq (a b : Z * Z) : Mem.key_eqb a b = true <-> a = b.
Proof.
  unfold Mem.key_eqb. destruct a as [a1 a2], b as [b1 b2]; cbn [fst snd].
  rewrite andb_true_iff, !Z.eqb_eq. split; [intros [-> ->]; reflexivity|].
  intros [= -> ->]; split; reflexivity.
Qed.

Lemma key_eqb_refl (a : Z * Z) : Mem.key_eqb a a = true.
Proof. apply key_eqb_eq; reflexivity. Qed.

Lemma key_eqb_neq (a b : Z * Z) : Mem.key_eqb a b = false <-> a <> b.
Proof.
  split.
  - intros H E. apply key_eqb_eq in E. congruence.
  - intros H. destruct (Mem.key_eqb a b) eqn:E; [|reflexivity].
    apply key_eqb_eq in E. contradiction.
Qed.

Section Touch.

Variable k : Z * Z.
Variable f : Mem.Cell -> Mem.Cell.

Lemma touchCell_keys_in (l : list ((Z * Z) * Mem.Cell)) (x : Z * Z) :
  In x (map fst (Mem.touchCell k f l)) -> x = k \/ In x (map fst l).
Proof.
  induction l as [|[k' c] l IH]; cbn [Mem.touchCell map fst In].
  - intros [<- | []]; left; reflexivity.
  - destruct (Mem.key_eqb k' k); cbn [map fst In].
    + intros H; right; exact H.
    + intros [<- | H]; [right; left; reflexivity|].
      destruct (IH H) as [-> | H']; [left; reflexivity | right; right; exact H'].
Qed.

Lemma touchCell_keysUnique (l : list ((Z * Z) * Mem.Cell)) :
  keysUnique l -> keysUnique (Mem.touchCell k f l).
Proof.
  unfold keysUnique. induction l as [|[k' c] l IH]; cbn [Mem.touchCell map fst].
  - intros _. constructor; [intros [] | constructor].
  - intros H. inversion H as [|? ? Hnot Hrest]; subst.
    destruct (Mem.key_eqb k' k) eqn:E; cbn [map fst].
    + constructor; assumption.
    + constructor; [|exact (IH Hrest)].
      intros Hin. apply touchCell_keys_in in Hin as [-> | Hin]; [|contradiction].
      rewrite key_eqb_refl in E. discriminate E.
Qed.

Lemma touchCell_Forall (P : Mem.Cell -> Prop) (l : list ((Z * Z) * Mem.Cell)) :
  P (f Mem.newCell) -> (forall c, P c -> P (f c)) ->
  Forall (fun e => P (snd e)) l -> Forall (fun e => P (snd e)) (Mem.touchCell k f l).
Proof.
  intros Hnew Hf. induction 1 as [|[k' c] l Hc Hl IH]; cbn [Mem.touchCell].
  - constructor; [exact Hnew | constructor].
  - destruct (Mem.key_eqb k' k); constructor; cbn [snd] in *;
      [apply Hf; exact Hc | exact Hl | exact Hc | exact IH].
Qed.

Lemma touchCell_length (l : list ((Z * Z) * Mem.Cell)) :
  (List.length l <= List.length (Mem.touchCell k f l) <= S (List.length l))%nat.
Proof.
  induction l as [|[k' c] l IH]; cbn [Mem.touchCell List.length]; [lia|].
  destruct (Mem.key_eqb k' k); cbn [List.length]; lia.
Qed.

(** Reading a cell after a write through [getOrCreateCell]. *)
Lemma getCell_touchCell (l : list ((Z * Z) * Mem.Cell)) (k' : Z * Z) :
  Mem.getCell (Mem.touchCell k f l) k'
  = if Mem.key_eqb k k'
    then Some (f (default Mem.newCell (Mem.getCell l k)))
    else Mem.getCell l k'.
Proof.
  induction l as [|[k0 c] l IH]; cbn [Mem.touchCell Mem.getCell].
  - destruct (Mem.key_eqb k k'); reflexivity.
  - destruct (Mem.key_eqb k0 k) eqn:E0; cbn [Mem.getCell].
    + apply key_eqb_eq in E0; subst k0.
      destruct (Mem.key_eqb k k'); reflexivity.
    + destruct (Mem.key_eqb k0 k') eqn:E1.
      * apply key_eqb_eq in E1; subst k0.
        assert (E : Mem.key_eqb k k' = false).
        { apply key_eqb_neq. apply key_eqb_neq in E0. congruence. }
        rewrite E. reflexivity.
      * exact IH.
Qed.

End Touch.

Lemma newCell_sane : cellSane Mem.newCell.
Proof. unfold cellSane, Mem.newCell; cbn. repeat split; try lia; lra. Qed.

Lemma touch_sane (k : Z * Z) (f : Mem.Cell -> Mem.Cell) (l : list ((Z * Z) * Mem.Cell)) :
  (forall c, cellSane c -> cellSane (f c)) -> cellsSane l -> cellsSane (Mem.touchCell k f l).
Proof.
  intros Hf [Hk Hc]. split; [apply touchCell_keysUnique; exact Hk|].
  apply (touchCell_Forall k f cellSane); [apply Hf, newCell_sane | exact Hf | exact Hc].
Qed.

Section GridInvariant.

Variable sinDeg : Q -> Q.
Variable cosDeg : Q -> Q.

Lemma markOpenSamples_sane (fuel : nat) (t step limit x z dirX dirZ : Q)
    (bounds : option Mem.Bounds) (size : Q) (now : Z) (visitedOpen : list (Z * Z))
    (l : list ((Z * Z) * Mem.Cell)) :
  cellsSane l ->
  cellsSane (Mem.markOpenSamples fuel t step limit x z dirX dirZ bounds size now
               visitedOpen l).
Proof.
  revert t visitedOpen l. induction fuel as [|fuel IH]; intros t visitedOpen l Hl;
    cbn [Mem.markOpenSamples]; [exact Hl|].
  destruct (Qltb t limit); [|exact Hl].
  destruct (negb (Mem.isInsideBounds _ _ bounds)); [exact Hl|].
  destruct (Mem.keyIn _ visitedOpen); apply IH; [exact Hl|].
  apply touch_sane; [|exact Hl].
  intros c Hc. unfold cellSane in *. cbn. intuition lia.
Qed.

Lemma integrateRay_sane (x z headingDeg sensorRange : Q) (bounds : option Mem.Bounds)
    (size : Q) (now : Z) (l : list ((Z * Z) * Mem.Cell)) (ray : option Q * Q) :
  cellsSane l ->
  cellsSane (Mem.integrateRay sinDeg cosDeg x z headingDeg sensorRange bounds size now l ray).
Proof.
  intros Hl. unfold Mem.integrateRay. cbv zeta.
  match goal with
  | |- context [Mem.markOpenSamples ?a ?b ?c ?d ?e ?f ?g ?h ?i ?j ?k ?m l] =>
      pose proof (markOpenSamples_sane a b c d e f g h i j k m l Hl) as Hopen;
      generalize dependent (Mem.markOpenSamples a b c d e f g h i j k m l)
  end.
  intros l1 Hl1.
  destruct (Qltb _ _).
  - destruct (Mem.isInsideBounds _ _ bounds); [|exact Hl1].
    apply touch_sane; [|exact Hl1].
    intros c Hc. unfold cellSane in *. cbn.
    match goal with
    | |- context [Mem.clamp (?a * 0.85 + 0.15) 0 1] =>
        pose proof (mem_clamp_bounds (a * 0.85 + 0.15) 0 1 ltac:(lra)) as Hi;
        generalize dependent (Mem.clamp (a * 0.85 + 0.15) 0 1)
    end.
    intros impact Hi.
    destruct Hc as (H1 & H2 & H3 & H4 & H5 & H6 & H7 & Hw & [H8 H8'] & H9).
    repeat match goal with |- _ /\ _ => split end; try lia; try tauto;
      try (destruct (Mem.isNearOuterBoundary _ _ _ _); lia);
      break_ifs; qcases; lra.
  - destruct (Mem.isInsideBounds _ _ bounds); [|exact Hl1].
    apply touch_sane; [|exact Hl1].
    intros c Hc. unfold cellSane in *. cbn. intuition lia.
Qed.

Lemma integrateRays_sane (x z headingDeg sensorRange : Q) (bounds : option Mem.Bounds)
    (size : Q) (now : Z) (rays : list (option Q * Q)) (l : list ((Z * Z) * Mem.Cell)) :
  cellsSane l ->
  cellsSane
    (fold_left (Mem.integrateRay sinDeg cosDeg x z headingDeg sensorRange bounds size now)
       rays l).
Proof.
  revert l. induction rays as [|ray rays IH]; intros l Hl; cbn [fold_left]; [exact Hl|].
  apply IH, integrateRay_sane; exact Hl.
Qed.

Lemma filter_keysUnique (p : (Z * Z) * Mem.Cell -> bool) (l : list ((Z * Z) * Mem.Cell)) :
  keysUnique l -> keysUnique (List.filter p l).
Proof.
  unfold keysUnique. induction l as [|e l IH]; cbn [List.filter map]; [auto|].
  intros H. inversion H as [|? ? Hnot Hrest]; subst.
  destruct (p e); cbn [map]; [|exact (IH Hrest)].
  constructor; [|exact (IH Hrest)].
  intros Hin. apply Hnot. apply in_map_iff in Hin as (e' & He' & Hin).
  apply filter_In in Hin as [Hin _]. apply in_map_iff. exists e'. split; assumption.
Qed.

Lemma filter_Forall {A : Type} (P : A -> Prop) (p : A -> bool) (l : list A) :
  Forall P l -> Forall P (List.filter p l).
Proof.
  induction 1 as [|e l He Hl IH]; cbn [List.filter]; [constructor|].
  destruct (p e); [constructor; assumption | exact IH].
Qed.

Lemma pruneIfNeeded_sane (st : Mem.State) : gridSane st -> gridSane (Mem.pruneIfNeeded st).
Proof.
  intros (Hk & Hc & Hp). unfold Mem.pruneIfNeeded.
  destruct (_ <=? _)%nat; [repeat split; assumption|].
  cbv zeta. unfold gridSane. cbn [Mem.cells Mem.path].
  split; [apply filter_keysUnique; exact Hk|]. split; [apply filter_Forall; exact Hc | exact Hp].
Qed.

Lemma update_sane (st : Mem.State) (sd : SensorData) (now : Z) :
  gridSane st -> gridSane (Mem.update sinDeg cosDeg st sd now).
Proof.
  intros Hst. unfold Mem.update, Mem.integrateSnapshot.
  destruct (worldX sd) as [x|]; [|exact Hst].
  destruct (worldZ sd) as [z|]; [|exact Hst].
  cbv zeta. destruct (Mem.toGrid x z (Mem.cellSize st)) as [ix iz].
  apply pruneIfNeeded_sane.
  destruct Hst as (Hk & Hc & Hp).
  unfold gridSane. cbn [Mem.cells Mem.path].
  assert (Hfold : forall l, cellsSane l ->
             cellsSane
               (fold_left
                  (Mem.integrateRay sinDeg cosDeg x z (asNum (headingDeg sd) 0)
                     (Mem.clamp (asNum (sensorRange sd) (Mem.st_sensorRange st)) 4.0 30.0)
                     (Mem.worldBounds st) (Mem.cellSize st) now)
                  (Mem.sensorRays sd) l)) by (intros l; apply integrateRays_sane).
  match goal with
  | |- keysUnique (fold_left _ _ ?l0) /\ _ /\ _ =>
      assert (Hsane : cellsSane l0); [|destruct (Hfold l0 Hsane) as [Hk' Hc']]
  end.
  { apply touch_sane; [|split; assumption].
    intros c Hcell. unfold cellSane in *. cbv zeta.
    match goal with
    | |- context [Mem.clamp ((3.2 - ?m) / 3.2) 0 1] =>
        pose proof (mem_clamp_bounds ((3.2 - m) / 3.2) 0 1 ltac:(lra)) as Hi;
        generalize dependent (Mem.clamp ((3.2 - m) / 3.2) 0 1)
    end.
    intros ri Hri.
    assert (Hhits : (0 <= countTargetHits sd)%Z) by (unfold countTargetHits; lia).
    generalize dependent (countTargetHits sd). intros hits Hhits.
    pose proof (mem_clamp_bounds (Mem.targetAbsenceEMA c * 0.75) 0 1 ltac:(lra)) as Ha1.
    pose proof (mem_clamp_bounds
                  (Mem.clamp (Mem.targetAbsenceEMA c) 0 1 * 0.92 + 0.08) 0 1 ltac:(lra))
      as Ha2.
    destruct Hcell as (H1 & H2 & H3 & H4 & H5 & H6 & H7 & Hw & [H8 H8'] & H9).
    destruct (0 <? hits)%Z; cbn;
      (repeat match goal with |- _ /\ _ => split end; try lia; try tauto;
       try (destruct (isStuck sd); lia);
       destruct (Mem.visits c + 1 =? 1)%Z; lra). }
  split; [exact Hk'|]. split; [exact Hc'|].
  destruct (500 <? _)%nat eqn:E.
  - destruct (Mem.path st) as [|p0 ps]; cbn [app tl List.length] in *; [lia|].
    rewrite length_app. cbn [List.length]. lia.
  - apply Nat.ltb_ge in E. exact E.
Qed.

(** X18.  The grid's invariant.  Through every update no key comes to stand twice
    in the list of cells, every counter of every cell stays at 0 or above,
    no cell has more outer-wall hits than obstacle hits, the risk and the
    target-absence average of every cell stay within [0, 1], and the path
    keeps at most 500 entries. *)
Theorem update_keeps_grid_sane (st : Mem.State) (sd : SensorData) (now : Z) :
  gridSane st -> gridSane (Mem.update sinDeg cosDeg st sd now).
Proof. apply update_sane. Qed.

End GridInvariant.

(** The empty grid and what it becomes by one update in scenario B. *)
Lemma update_keeps_grid_sane_witness :
  gridSane emptyGrid /\ gridSane (Mem.update sinRough cosRough emptyGrid scenarioB 1000).
Proof.
  assert (H : gridSane emptyGrid).
  { unfold gridSane, keysUnique, emptyGrid; cbn. split; [constructor|].
    split; [constructor | lia]. }
  split; [exact H|].
  exact (update_keeps_grid_sane sinRough cosRough emptyGrid scenarioB 1000 H).
Defined.

(** ** How an update grows the grid *)

Section GridGrowth.

Variable hypot : Q -> Q -> Q.
Variable relativeSector : Q -> Q -> Q -> Q -> Q -> Sector.
Variable sinDeg : Q -> Q.
Variable cosDeg : Q -> Q.

(** A ray is sampled at most 86 times. *)
Lemma samples_bound (sensorRange dist size : Q) :
  sensorRange <= 30 ->
  let rayDist := Mem.clamp dist 0 sensorRange in
  let travel := if Qltb rayDist (sensorRange - 0.05) then rayDist else sensorRange in
  let step := qmax 0.35 (size * 0.6) in
  let limit := qmax step (travel - 0.15) in
  (Z.to_nat (Qceiling (limit / step)) <= 86)%nat.
Proof.
  intros Hr. cbv zeta.
  set (step := qmax 0.35 (size * 0.6)).
  assert (Hstep : 0.35 <= step) by (unfold step; qcases; lra).
  match goal with |- context [Qceiling (?lim / step)] => set (limit := lim) end.
  assert (Hlim : limit <= 86 * step).
  { unfold limit, Mem.clamp. clearbody step. qcases; lra. }
  clearbody limit step.
  assert (Hdiv : limit / step <= 86) by (apply Qle_shift_div_r; lra).
  apply Qceiling_resp_le in Hdiv. change 86 with (inject_Z 86) in Hdiv.
  rewrite Qceiling_Z in Hdiv. lia.
Qed.

Lemma markOpenSamples_length (fuel : nat) (t step limit x z dirX dirZ : Q)
    (bounds : option Mem.Bounds) (size : Q) (now : Z) (visitedOpen : list (Z * Z))
    (l : list ((Z * Z) * Mem.Cell)) :
  (List.length (Mem.markOpenSamples fuel t step limit x z dirX dirZ bounds size now
                  visitedOpen l)
   <= List.length l + fuel)%nat.
Proof.
  revert t visitedOpen l. induction fuel as [|fuel IH]; intros t visitedOpen l;
    cbn [Mem.markOpenSamples]; [lia|].
  destruct (Qltb t limit); [|lia].
  destruct (negb (Mem.isInsideBounds _ _ bounds)); [lia|].
  destruct (Mem.keyIn _ visitedOpen).
  - specialize (IH (t + step) visitedOpen l). lia.
  - match goal with
    | |- context [Mem.touchCell ?k ?f l] =>
        pose proof (touchCell_length k f l) as Ht;
        specialize (IH (t + step) (k :: visitedOpen) (Mem.touchCell k f l))
    end.
    lia.
Qed.

Lemma integrateRay_length (x z headingDeg sensorRange : Q) (bounds : option Mem.Bounds)
    (size : Q) (now : Z) (l : list ((Z * Z) * Mem.Cell)) (ray : option Q * Q) :
  sensorRange <= 30 ->
  (List.length
     (Mem.integrateRay sinDeg cosDeg x z headingDeg sensorRange bounds size now l ray)
   <= List.length l + 87)%nat.
Proof.
  intros Hr. unfold Mem.integrateRay. cbv zeta.
  pose proof (samples_bound sensorRange (asNum (fst ray) sensorRange) size Hr) as Hfuel.
  cbv zeta in Hfuel.
  match goal with
  | |- context [Mem.markOpenSamples ?a ?b ?c ?d ?e ?f ?g ?h ?i ?j ?k ?m l] =>
      pose proof (markOpenSamples_length a b c d e f g h i j k m l) as Hopen;
      generalize dependent (Mem.markOpenSamples a b c d e f g h i j k m l)
  end.
  intros l1 Hl1.
  destruct (Qltb _ _).
  - destruct (Mem.isInsideBounds _ _ bounds); [|lia].
    match goal with
    | |- context [Mem.touchCell ?k ?f l1] => pose proof (touchCell_length k f l1)
    end.
    lia.
  - destruct (Mem.isInsideBounds _ _ bounds); [|lia].
    match goal with
    | |- context [Mem.touchCell ?k ?f l1] => pose proof (touchCell_length k f l1)
    end.
    lia.
Qed.

Lemma integrateRays_length (x z headingDeg sensorRange : Q) (bounds : option Mem.Bounds)
    (size : Q) (now : Z) (rays : list (option Q * Q)) (l : list ((Z * Z) * Mem.Cell)) :
  sensorRange <= 30 ->
  (List.length
     (fold_left (Mem.integrateRay sinDeg cosDeg x z headingDeg sensorRange bounds size now)
        rays l)
   <= List.length l + 87 * List.length rays)%nat.
Proof.
  intros Hr. revert l. induction rays as [|ray rays IH]; intros l; cbn [fold_left List.length];
    [lia|].
  specialize (IH (Mem.integrateRay sinDeg cosDeg x z headingDeg sensorRange bounds size now
                    l ray)).
  pose proof (integrateRay_length x z headingDeg sensorRange bounds size now l ray Hr).
  lia.
Qed.

Lemma filter_length_bound {A : Type} (p : A -> bool) (l : list A) :
  (List.length (List.filter p l) <= List.length l)%nat.
Proof.
  induction l as [|e l IH]; cbn [List.filter List.length]; [lia|].
  destruct (p e); cbn [List.length]; lia.
Qed.

Lemma pruneIfNeeded_length (st : Mem.State) :
  (List.length (Mem.cells (Mem.pruneIfNeeded st)) <= List.length (Mem.cells st))%nat.
Proof.
  unfold Mem.pruneIfNeeded. destruct (_ <=? _)%nat; [lia|].
  cbv zeta. cbn [Mem.cells]. apply filter_length_bound.
Qed.

(** The updates only add cells and change cells: a key the grid has stays. *)
Lemma touchCell_keeps (k : Z * Z) (f : Mem.Cell -> Mem.Cell)
    (l : list ((Z * Z) * Mem.Cell)) (k' : Z * Z) :
  Mem.getCell l k' <> None -> Mem.getCell (Mem.touchCell k f l) k' <> None.
Proof.
  intros H. rewrite getCell_touchCell. destruct (Mem.key_eqb k k'); [discriminate | exact H].
Qed.

Lemma markOpenSamples_keeps (fuel : nat) (t step limit x z dirX dirZ : Q)
    (bounds : option Mem.Bounds) (size : Q) (now : Z) (visitedOpen : list (Z * Z))
    (l : list ((Z * Z) * Mem.Cell)) (k : Z * Z) :
  Mem.getCell l k <> None ->
  Mem.getCell (Mem.markOpenSamples fuel t step limit x z dirX dirZ bounds size now
                 visitedOpen l) k <> None.
Proof.
  revert t visitedOpen l. induction fuel as [|fuel IH]; intros t visitedOpen l Hl;
    cbn [Mem.markOpenSamples]; [exact Hl|].
  destruct (Qltb t limit); [|exact Hl].
  destruct (negb (Mem.isInsideBounds _ _ bounds)); [exact Hl|].
  destruct (Mem.keyIn _ visitedOpen); apply IH; [exact Hl|].
  apply touchCell_keeps; exact Hl.
Qed.

Lemma integrateRay_keeps (x z headingDeg sensorRange : Q) (bounds : option Mem.Bounds)
    (size : Q) (now : Z) (l : list ((Z * Z) * Mem.Cell)) (ray : option Q * Q) (k : Z * Z) :
  Mem.getCell l k <> None ->
  Mem.getCell
    (Mem.integrateRay sinDeg cosDeg x z headingDeg sensorRange bounds size now l ray) k
  <> None.
Proof.
  intros Hl. unfold Mem.integrateRay. cbv zeta.
  match goal with
  | |- context [Mem.markOpenSamples ?a ?b ?c ?d ?e ?f ?g ?h ?i ?j ?n ?m l] =>
      pose proof (markOpenSamples_keeps a b c d e f g h i j n m l k Hl) as Hopen;
      generalize dependent (Mem.markOpenSamples a b c d e f g h i j n m l)
  end.
  intros l1 Hl1.
  destruct (Qltb _ _); destruct (Mem.isInsideBounds _ _ bounds); try exact Hl1;
    apply touchCell_keeps; exact Hl1.
Qed.

Lemma integrateRays_keeps (x z headingDeg sensorRange : Q) (bounds : option Mem.Bounds)
    (size : Q) (now : Z) (rays : list (option Q * Q)) (l : list ((Z * Z) * Mem.Cell))
    (k : Z * Z) :
  Mem.getCell l k <> None ->
  Mem.getCell
    (fold_left (Mem.integrateRay sinDeg cosDeg x z headingDeg sensorRange bounds size now)
       rays l) k
  <> None.
Proof.
  revert l. induction rays as [|ray rays IH]; intros l Hl; cbn [fold_left]; [exact Hl|].
  apply IH, integrateRay_keeps; exact Hl.
Qed.

(** The grid with a snapshot integrated, before the pruning. *)
Lemma integrate_growth (st : Mem.State) (sd : SensorData) (now : Z) (x z : Q) :
  exists l p sr,
    Mem.integrateSnapshot sinDeg cosDeg st sd now x z
    = Mem.mkState (Mem.cellSize st) sr (Mem.maxCells st) (Mem.worldBounds st) l p
    /\ (List.length l <= List.length (Mem.cells st) + 697)%nat
    /\ seenAt (Mem.toGrid x z (Mem.cellSize st))
         (visitsAt st (Mem.toGrid x z (Mem.cellSize st)) + 1) now l.
Proof.
  unfold Mem.integrateSnapshot. cbv zeta.
  unfold visitsAt.
  destruct (Mem.toGrid x z (Mem.cellSize st)) as [ix iz].
  eexists _, _, _. split; [reflexivity|].
  assert (Hsr : Mem.clamp (asNum (sensorRange sd) (Mem.st_sensorRange st)) 4.0 30.0 <= 30)
    by (destruct (mem_clamp_bounds (asNum (sensorRange sd) (Mem.st_sensorRange st)) 4.0 30.0
                    ltac:(lra)) as [_ H]; lra).
  generalize dependent (Mem.clamp (asNum (sensorRange sd) (Mem.st_sensorRange st)) 4.0 30.0).
  intros sr Hsr.
  match goal with
  | |- context [fold_left _ _ (Mem.touchCell ?k ?f ?l0)] =>
      pose proof (touchCell_length k f l0) as Hlen;
      assert (Hseen : seenAt k (Mem.visits (default Mem.newCell (Mem.getCell l0 k)) + 1) now
                        (Mem.touchCell k f l0));
      [|generalize dependent (Mem.touchCell k f l0)]
  end.
  { eexists. rewrite getCell_touchCell, key_eqb_refl. split; [reflexivity|].
    destruct (0 <? countTargetHits sd)%Z; cbn; split; reflexivity. }
  intros l1 Hlen Hseen. split.
  - pose proof (integrateRays_length x z (asNum (headingDeg sd) 0) sr (Mem.worldBounds st)
                  (Mem.cellSize st) now (Mem.sensorRays sd) l1 Hsr) as H.
    cbn [Mem.sensorRays List.length] in H. cbn [Mem.sensorRays]. lia.
  - clear Hlen. generalize (Mem.sensorRays sd). intros rays. revert l1 Hseen.
    induction rays as [|ray rays IH]; intros l1 Hseen; cbn [fold_left]; [exact Hseen|].
    apply IH. clear IH.
    unfold Mem.integrateRay. cbv zeta.
    assert (Htouch : forall k f l,
               (forall c, Mem.visits (f c) = Mem.visits c /\ Mem.lastSeen (f c) = now) ->
               seenAt (ix, iz) (Mem.visits (default Mem.newCell
                                              (Mem.getCell (Mem.cells st) (ix, iz))) + 1)
                 now l ->
               seenAt (ix, iz) (Mem.visits (default Mem.newCell
                                              (Mem.getCell (Mem.cells st) (ix, iz))) + 1)
                 now (Mem.touchCell k f l)).
    { intros k f l Hf (c & Hc & Hv & Hs). unfold seenAt.
      rewrite getCell_touchCell. destruct (Mem.key_eqb k (ix, iz)) eqn:E.
      - apply key_eqb_eq in E; subst k. rewrite Hc. cbn [default].
        exists (f c). split; [reflexivity|]. destruct (Hf c) as [H1 H2].
        rewrite H1, H2. split; [exact Hv | reflexivity].
      - exists c. repeat split; assumption. }
    assert (Hopen : forall fuel t step limit dirX dirZ visitedOpen l,
               seenAt (ix, iz) (Mem.visits (default Mem.newCell
                                              (Mem.getCell (Mem.cells st) (ix, iz))) + 1)
                 now l ->
               seenAt (ix, iz) (Mem.visits (default Mem.newCell
                                              (Mem.getCell (Mem.cells st) (ix, iz))) + 1)
                 now (Mem.markOpenSamples fuel t step limit x z dirX dirZ (Mem.worldBounds st)
                        (Mem.cellSize st) now visitedOpen l)).
    { induction fuel as [|fuel IHf]; intros t step limit dirX dirZ visitedOpen l Hl;
        cbn [Mem.markOpenSamples]; [exact Hl|].
      destruct (Qltb t limit); [|exact Hl].
      destruct (negb (Mem.isInsideBounds _ _ _)); [exact Hl|].
      destruct (Mem.keyIn _ visitedOpen); apply IHf; [exact Hl|].
      apply Htouch; [|exact Hl]. intros c; split; reflexivity. }
    match goal with
    | |- context [Mem.markOpenSamples ?a ?b ?c ?d _ _ ?e ?f _ _ _ ?g l1] =>
        pose proof (Hopen a b c d e f g l1 Hseen) as Hs1;
        generalize dependent (Mem.markOpenSamples a b c d x z e f (Mem.worldBounds st)
                                (Mem.cellSize st) now g l1)
    end.
    intros l2 Hs2.
    destruct (Qltb _ _); destruct (Mem.isInsideBounds _ _ _); try exact Hs2;
      (apply Htouch; [|exact Hs2]); intros c; split; reflexivity.
Qed.

(** The state of an update before the pruning. *)
Lemma update_before_pruning (st : Mem.State) (sd : SensorData) (now : Z) (x z : Q) :
  worldX sd = Some x -> worldZ sd = Some z ->
  exists l p sr,
    Mem.update sinDeg cosDeg st sd now
    = Mem.pruneIfNeeded
        (Mem.mkState (Mem.cellSize st) sr (Mem.maxCells st) (Mem.worldBounds st) l p)
    /\ (List.length l <= List.length (Mem.cells st) + 697)%nat
    /\ seenAt (Mem.toGrid x z (Mem.cellSize st))
         (visitsAt st (Mem.toGrid x z (Mem.cellSize st)) + 1) now l.
Proof.
  intros Hx Hz. unfold Mem.update. rewrite Hx, Hz.
  destruct (integrate_growth st sd now x z) as (l & p & sr & -> & Hlen & Hseen).
  exists l, p, sr. split; [reflexivity | split; assumption].
Qed.

(** With room for what an update can add, the pruning step of the update
    does not act. *)
Lemma update_with_room_is_integration
    (st : Mem.State) (sd : SensorData) (now : Z) (x z : Q) :
  worldX sd = Some x -> worldZ sd = Some z ->
  (List.length (Mem.cells st) + 697 <= Mem.maxCells st)%nat ->
  Mem.update sinDeg cosDeg st sd now = Mem.integrateSnapshot sinDeg cosDeg st sd now x z.
Proof.
  intros Hx Hz Hroom. unfold Mem.update. rewrite Hx, Hz.
  destruct (integrate_growth st sd now x z) as (l & p & sr & -> & Hlen & _).
  unfold Mem.pruneIfNeeded. cbn [Mem.cells Mem.maxCells].
  assert (E : (List.length l <=? Mem.maxCells st)%nat = true) by (apply Nat.leb_le; lia).
  rewrite E. reflexivity.
Qed.

(** X19.  One update adds at most 697 cells to the grid: the car's own cell, and
    for each of the eight rays at most 86 samples and one end cell. *)
Theorem update_adds_at_most_697_cells (st : Mem.State) (sd : SensorData) (now : Z) :
  (List.length (Mem.cells (Mem.update sinDeg cosDeg st sd now))
   <= List.length (Mem.cells st) + 697)%nat.
Proof.
  destruct (worldX sd) as [x|] eqn:Hx; [|unfold Mem.update; rewrite Hx; lia].
  destruct (worldZ sd) as [z|] eqn:Hz; [|unfold Mem.update; rewrite Hx, Hz; lia].
  destruct (update_before_pruning st sd now x z Hx Hz) as (l & p & sr & -> & Hlen & _).
  match goal with
  | |- context [Mem.pruneIfNeeded ?s] => pose proof (pruneIfNeeded_length s) as H
  end.
  cbn [Mem.cells] in H. lia.
Qed.

(** With room for what an update can add, the update drops no cell. *)
Lemma update_with_room_keeps (st : Mem.State) (sd : SensorData) (now : Z) (k : Z * Z) :
  (List.length (Mem.cells st) + 697 <= Mem.maxCells st)%nat ->
  Mem.getCell (Mem.cells st) k <> None ->
  Mem.getCell (Mem.cells (Mem.update sinDeg cosDeg st sd now)) k <> None.
Proof.
  intros Hroom Hk. unfold Mem.update, Mem.integrateSnapshot.
  destruct (worldX sd) as [x|]; [|exact Hk].
  destruct (worldZ sd) as [z|]; [|exact Hk].
  cbv zeta. destruct (Mem.toGrid x z (Mem.cellSize st)) as [ix iz].
  match goal with
  | |- context [Mem.pruneIfNeeded ?s] =>
      assert (Hlen' : (List.length (Mem.cells s) <= List.length (Mem.cells st) + 697)%nat)
  end.
  { cbn [Mem.cells].
    match goal with
    | |- context [fold_left _ _ (Mem.touchCell ?kk ?f ?l0)] =>
        pose proof (touchCell_length kk f l0) as Ht;
        generalize dependent (Mem.touchCell kk f l0)
    end.
    intros l1 Ht.
    match goal with
    | |- context [fold_left (Mem.integrateRay _ _ ?a ?b ?c ?d ?e ?f ?g) ?rays l1] =>
        assert (Hsr : d <= 30)
          by (destruct (mem_clamp_bounds (asNum (sensorRange sd) (Mem.st_sensorRange st))
                          4.0 30.0 ltac:(lra)) as [_ H]; lra);
        pose proof (integrateRays_length a b c d e f g rays l1 Hsr) as H
    end.
    cbn [Mem.sensorRays List.length] in H. cbn [Mem.sensorRays]. lia. }
  unfold Mem.pruneIfNeeded.
  match goal with
  | |- context [(List.length (Mem.cells ?s) <=? Mem.maxCells ?s)%nat] =>
      assert (E : (List.length (Mem.cells s) <=? Mem.maxCells s)%nat = true)
        by (apply Nat.leb_le; cbn [Mem.maxCells]; lia);
      rewrite E
  end.
  cbn [Mem.cells].
  apply integrateRays_keeps, touchCell_keeps; exact Hk.
Qed.

(** X20.  An update followed by a read.  When the grid has room for 697 more
    cells, the update prunes nothing: its result is the grid with the
    snapshot integrated, as it stands before the pruning step, and every
    cell the grid had is still in it; and the context then built from the
    same snapshot reports one visit more for the car's cell than the grid
    held before, and at most 697 more mapped cells. *)
Theorem update_then_context_counts_the_visit
    (st : Mem.State) (sd : SensorData) (now : Z) (x z : Q) (radiusCells : Z)
    (maxFrontier maxRisky : nat) :
  worldX sd = Some x -> worldZ sd = Some z ->
  (List.length (Mem.cells st) + 697 <= Mem.maxCells st)%nat ->
  Mem.update sinDeg cosDeg st sd now = Mem.integrateSnapshot sinDeg cosDeg st sd now x z
  /\ (forall k, Mem.getCell (Mem.cells st) k <> None ->
                Mem.getCell (Mem.cells (Mem.update sinDeg cosDeg st sd now)) k <> None)
  /\ exists ctx,
       Mem.getContext hypot relativeSector (Mem.update sinDeg cosDeg st sd now) sd
         radiusCells maxFrontier maxRisky = Some ctx
       /\ Mem.cc_visits (Mem.currentCell ctx)
          = (visitsAt st (Mem.toGrid x z (Mem.cellSize st)) + 1)%Z
       /\ (Mem.mappedCells ctx <= List.length (Mem.cells st) + 697)%nat.
Proof.
  intros Hx Hz Hroom.
  split; [apply update_with_room_is_integration; assumption|].
  split; [intros k; apply update_with_room_keeps; exact Hroom|].
  destruct (update_before_pruning st sd now x z Hx Hz)
    as (l & p & sr & -> & Hlen & (c & Hc & Hv & _)).
  unfold Mem.pruneIfNeeded. cbn [Mem.cells Mem.maxCells].
  assert (E : (List.length l <=? Mem.maxCells st)%nat = true) by (apply Nat.leb_le; lia).
  rewrite E. unfold Mem.getContext. rewrite Hx, Hz. cbv zeta. cbn [Mem.cellSize Mem.cells].
  destruct (Mem.toGrid x z (Mem.cellSize st)) as [ix iz].
  eexists. split; [reflexivity|].
  cbn [Mem.currentCell Mem.cc_visits Mem.mappedCells]. rewrite Hc. cbn [default].
  split; [exact Hv | exact Hlen].
Qed.

End GridGrowth.

(** The empty grid, which has room for 5000 cells, after scenario B. *)
Lemma update_then_context_witness :
  exists ctx,
    Mem.getContext axisHypot (fun _ _ _ _ _ => SF)
      (Mem.update sinRough cosRough emptyGrid scenarioB 1000) scenarioB 2 8 6 = Some ctx
    /\ Mem.cc_visits (Mem.currentCell ctx) = 1%Z.
Proof.
  assert (Hx : worldX scenarioB = Some 0) by reflexivity.
  assert (Hz : worldZ scenarioB = Some 0) by reflexivity.
  assert (Hroom : (List.length (Mem.cells emptyGrid) + 697 <= Mem.maxCells emptyGrid)%nat)
    by (cbn; lia).
  destruct (update_then_context_counts_the_visit axisHypot (fun _ _ _ _ _ => SF) sinRough
              cosRough emptyGrid scenarioB 1000 0 0 2 8 6 Hx Hz Hroom)
    as (_ & _ & ctx & Hctx & Hv & _).
  exists ctx. split; [exact Hctx | exact Hv].
Defined.

(** ** Pruning *)

Lemma insertByLastSeen_In (e x : (Z * Z) * Mem.Cell) (l : list ((Z * Z) * Mem.Cell)) :
  In x (Mem.insertByLastSeen e l) <-> x = e \/ In x l.
Proof.
  induction l as [|e' l IH]; cbn [Mem.insertByLastSeen In].
  - split; [intros [<- | []]; left; reflexivity | intros [-> | []]; left; reflexivity].
  - destruct (_ <? _)%Z; cbn [In]; [split; intros H; intuition congruence|].
    rewrite IH. split; intros H; intuition congruence.
Qed.

Lemma insertByLastSeen_length (e : (Z * Z) * Mem.Cell) (l : list ((Z * Z) * Mem.Cell)) :
  List.length (Mem.insertByLastSeen e l) = S (List.length l).
Proof.
  induction l as [|e' l IH]; cbn [Mem.insertByLastSeen List.length]; [reflexivity|].
  destruct (_ <? _)%Z; cbn [List.length]; [reflexivity | rewrite IH; reflexivity].
Qed.

Lemma insertByLastSeen_sorted (e : (Z * Z) * Mem.Cell) (l : list ((Z * Z) * Mem.Cell)) :
  StronglySorted byLastSeen l -> StronglySorted byLastSeen (Mem.insertByLastSeen e l).
Proof.
  induction 1 as [|e' l Hl IH Hall]; cbn [Mem.insertByLastSeen].
  - constructor; constructor.
  - destruct (_ <? _)%Z eqn:E.
    + apply Z.ltb_lt in E. constructor; [constructor; assumption|].
      constructor; [unfold byLastSeen; lia|].
      rewrite List.Forall_forall in Hall |- *. intros x Hx. specialize (Hall x Hx).
      unfold byLastSeen in *. lia.
    + apply Z.ltb_ge in E. constructor; [exact IH|].
      rewrite List.Forall_forall in Hall |- *. intros x Hx.
      apply insertByLastSeen_In in Hx as [-> | Hx]; [exact E | exact (Hall x Hx)].
Qed.

Lemma sortByLastSeen_spec (l acc : list ((Z * Z) * Mem.Cell)) :
  StronglySorted byLastSeen acc ->
  let items := fold_left (fun acc e => Mem.insertByLastSeen e acc) l acc in
  StronglySorted byLastSeen items
  /\ (forall x, In x items <-> In x l \/ In x acc)
  /\ List.length items = (List.length l + List.length acc)%nat.
Proof.
  revert acc. induction l as [|e l IH]; intros acc Hacc; cbn [fold_left].
  - split; [exact Hacc|]. split; [intros x; cbn; tauto | reflexivity].
  - destruct (IH _ (insertByLastSeen_sorted e acc Hacc)) as (H1 & H2 & H3).
    split; [exact H1|]. split.
    + intros x. rewrite H2, insertByLastSeen_In. cbn [In]. intuition congruence.
    + rewrite H3, insertByLastSeen_length. cbn [List.length]. lia.
Qed.

Lemma sorted_app_le {A : Type} (R : A -> A -> Prop) (l1 l2 : list A) :
  StronglySorted R (l1 ++ l2) -> forall a b, In a l1 -> In b l2 -> R a b.
Proof.
  induction l1 as [|x l1 IH]; cbn [app]; intros H a b Ha Hb; [destruct Ha|].
  inversion H as [|? ? Hs Hall]; subst. destruct Ha as [<- | Ha].
  - rewrite List.Forall_forall in Hall. apply Hall, in_or_app. right; exact Hb.
  - exact (IH Hs a b Ha Hb).
Qed.

Lemma keysUnique_same_key (l : list ((Z * Z) * Mem.Cell)) (a b : (Z * Z) * Mem.Cell) :
  keysUnique l -> In a l -> In b l -> fst a = fst b -> a = b.
Proof.
  unfold keysUnique. induction l as [|e l IH]; cbn [map In]; [intros _ []|].
  intros H Ha Hb Hk. inversion H as [|? ? Hnot Hrest]; subst.
  destruct Ha as [<- | Ha], Hb as [<- | Hb].
  - reflexivity.
  - exfalso. apply Hnot. rewrite Hk. apply in_map. exact Hb.
  - exfalso. apply Hnot. rewrite <- Hk. apply in_map. exact Ha.
  - exact (IH Hrest Ha Hb Hk).
Qed.

Lemma keyIn_true (k : Z * Z) (l : list (Z * Z)) : Mem.keyIn k l = true <-> In k l.
Proof.
  unfold Mem.keyIn. rewrite existsb_exists. split.
  - intros (k' & Hin & E). apply key_eqb_eq in E. subst; exact Hin.
  - intros H. exists k. split; [exact H | apply key_eqb_refl].
Qed.

Lemma filter_length_lt {A : Type} (p : A -> bool) (l : list A) (x : A) :
  In x l -> p x = false -> (List.length (List.filter p l) < List.length l)%nat.
Proof.
  induction l as [|e l IH]; cbn [In List.filter List.length]; [intros []|].
  intros [<- | Hin] Hp.
  - rewrite Hp. pose proof (filter_length_bound p l). lia.
  - specialize (IH Hin Hp). destruct (p e); cbn [List.length]; lia.
Qed.

(** X21.  Pruning.  Within the limit nothing changes.  Over the limit at least
    one cell goes, no cell comes or changes, the path stays, and the cells
    that go are the stalest: none of them was seen later than a cell that
    stays. *)
Theorem prune_drops_the_stalest (st : Mem.State) :
  keysUnique (Mem.cells st) ->
  ((List.length (Mem.cells st) <= Mem.maxCells st)%nat -> Mem.pruneIfNeeded st = st)
  /\ ((Mem.maxCells st < List.length (Mem.cells st))%nat ->
      (List.length (Mem.cells (Mem.pruneIfNeeded st)) < List.length (Mem.cells st))%nat
      /\ forall gone kept,
           In gone (Mem.cells st) -> ~ In gone (Mem.cells (Mem.pruneIfNeeded st)) ->
           In kept (Mem.cells (Mem.pruneIfNeeded st)) ->
           (Mem.lastSeen (snd gone) <= Mem.lastSeen (snd kept))%Z)
  /\ (forall e, In e (Mem.cells (Mem.pruneIfNeeded st)) -> In e (Mem.cells st))
  /\ Mem.path (Mem.pruneIfNeeded st) = Mem.path st.
Proof.
  intros Hk. unfold Mem.pruneIfNeeded.
  destruct (List.length (Mem.cells st) <=? Mem.maxCells st)%nat eqn:E.
  { apply Nat.leb_le in E. split; [reflexivity|]. split; [lia|]. split; [auto | reflexivity]. }
  apply Nat.leb_gt in E. cbv zeta. cbn [Mem.cells Mem.path].
  destruct (sortByLastSeen_spec (Mem.cells st) [] ltac:(constructor)) as (Hs & Hin & Hlen).
  cbv zeta in Hs, Hin, Hlen.
  set (items := fold_left (fun acc e => Mem.insertByLastSeen e acc) (Mem.cells st) []) in *.
  set (n := Z.to_nat (Z.max 1 (Qfloor (inject_Z (Z.of_nat (List.length items)) * 0.1)))).
  assert (Hn : (1 <= n)%nat) by (unfold n; lia).
  clearbody n.
  assert (Hitems : forall x, In x items <-> In x (Mem.cells st)).
  { intros x. rewrite Hin. cbn [In]. tauto. }
  split; [lia|]. split; [intros _; split|split; [|reflexivity]].
  - destruct items as [|h items'] eqn:Ei; [cbn in Hlen; lia|].
    apply (filter_length_lt _ _ h).
    + apply Hitems. left; reflexivity.
    + apply negb_false_iff, keyIn_true. destruct n as [|n']; [lia|].
      cbn [firstn map]. left; reflexivity.
  - intros gone kept Hg Hgone Hkept.
    apply filter_In in Hkept as [Hkin Hkkey]. apply negb_true_iff in Hkkey.
    assert (Hgkey : Mem.keyIn (fst gone) (map fst (firstn n items)) = true).
    { destruct (Mem.keyIn (fst gone) (map fst (firstn n items))) eqn:Eg; [reflexivity|].
      exfalso. apply Hgone. apply filter_In. split; [exact Hg|]. rewrite Eg. reflexivity. }
    apply keyIn_true, in_map_iff in Hgkey as (g' & Hkey & Hg').
    assert (g' = gone) as ->.
    { apply (keysUnique_same_key (Mem.cells st)); [exact Hk | | exact Hg | exact Hkey].
      apply Hitems. rewrite <- (firstn_skipn n items). apply in_or_app. left; exact Hg'. }
    assert (Hkskip : In kept (skipn n items)).
    { apply Hitems in Hkin. rewrite <- (firstn_skipn n items) in Hkin.
      apply in_app_or in Hkin as [Hf | Hsk]; [|exact Hsk].
      exfalso. assert (Ht : Mem.keyIn (fst kept) (map fst (firstn n items)) = true)
        by (apply keyIn_true, in_map; exact Hf).
      congruence. }
    rewrite <- (firstn_skipn n items) in Hs.
    exact (sorted_app_le byLastSeen _ _ Hs gone kept Hg' Hkskip).
  - intros e He. apply filter_In in He as [He _]. exact He.
Qed.

(** Three cells in a grid for two: the one last seen at time 3 goes. *)
Lemma prune_drops_the_stalest_witness :
  keysUnique (Mem.cells crowdedGrid)
  /\ (Mem.maxCells crowdedGrid < List.length (Mem.cells crowdedGrid))%nat
  /\ Mem.cells (Mem.pruneIfNeeded crowdedGrid)
     = [((0, 0)%Z, cellSeenAt 5); ((2, 0)%Z, cellSeenAt 9)]
  /\ (List.length (Mem.cells (Mem.pruneIfNeeded crowdedGrid))
      < List.length (Mem.cells crowdedGrid))%nat.
Proof.
  assert (Hk : keysUnique (Mem.cells crowdedGrid)).
  { unfold keysUnique, crowdedGrid; cbn.
    repeat (constructor; [cbn; intuition congruence|]). constructor. }
  assert (Hover : (Mem.maxCells crowdedGrid < List.length (Mem.cells crowdedGrid))%nat)
    by (cbn; lia).
  split; [exact Hk|]. split; [exact Hover|]. split; [vm_compute; reflexivity|].
  destruct (prune_drops_the_stalest crowdedGrid Hk) as (_ & H & _).
  exact (proj1 (H Hover)).
Defined.

(** ** The context of a snapshot *)

Section SortDesc.

Context {A : Type}.
Variable key : A -> Q.

Lemma insertDesc_In (e x : A) (l : list A) :
  In x (insertDesc key e l) <-> x = e \/ In x l.
Proof.
  induction l as [|y l IH]; cbn [insertDesc In].
  - split; [intros [<- | []]; left; reflexivity | intros [-> | []]; left; reflexivity].
  - destruct (Qltb _ _); cbn [In]; [split; intros H; intuition congruence|].
    rewrite IH. split; intros H; intuition congruence.
Qed.

Lemma insertDesc_length (e : A) (l : list A) :
  List.length (insertDesc key e l) = S (List.length l).
Proof.
  induction l as [|y l IH]; cbn [insertDesc List.length]; [reflexivity|].
  destruct (Qltb _ _); cbn [List.length]; [reflexivity | rewrite IH; reflexivity].
Qed.

Lemma insertDesc_sorted (e : A) (l : list A) :
  StronglySorted (descendingBy key) l -> StronglySorted (descendingBy key) (insertDesc key e l).
Proof.
  induction 1 as [|y l Hl IH Hall]; cbn [insertDesc].
  - constructor; constructor.
  - destruct (Qltb (key y) (key e)) eqn:E.
    + apply Qltb_true in E. constructor; [constructor; assumption|].
      constructor; [unfold descendingBy; lra|].
      rewrite List.Forall_forall in Hall |- *. intros x Hx. specialize (Hall x Hx).
      unfold descendingBy in *. lra.
    + apply Qltb_false in E. constructor; [exact IH|].
      rewrite List.Forall_forall in Hall |- *. intros x Hx.
      apply insertDesc_In in Hx as [-> | Hx]; [exact E | exact (Hall x Hx)].
Qed.

Lemma sortDesc_acc (l acc : list A) :
  StronglySorted (descendingBy key) acc ->
  let sorted := fold_left (fun acc x => insertDesc key x acc) l acc in
  StronglySorted (descendingBy key) sorted
  /\ (forall x, In x sorted <-> In x l \/ In x acc)
  /\ List.length sorted = (List.length l + List.length acc)%nat.
Proof.
  revert acc. induction l as [|e l IH]; intros acc Hacc; cbn [fold_left].
  - split; [exact Hacc|]. split; [intros x; cbn; tauto | reflexivity].
  - destruct (IH _ (insertDesc_sorted e acc Hacc)) as (H1 & H2 & H3).
    split; [exact H1|]. split.
    + intros x. rewrite H2, insertDesc_In. cbn [In]. intuition congruence.
    + rewrite H3, insertDesc_length. cbn [List.length]. lia.
Qed.

(** [sortDesc] sorts: its result is in descending order of the key and has
    the members of its argument. *)
Lemma sortDesc_spec (l : list A) :
  StronglySorted (descendingBy key) (sortDesc key l)
  /\ (forall x, In x (sortDesc key l) <-> In x l)
  /\ List.length (sortDesc key l) = List.length l.
Proof.
  destruct (sortDesc_acc l [] ltac:(constructor)) as (H1 & H2 & H3). cbv zeta in *.
  unfold sortDesc. split; [exact H1|]. split.
  - intros x. rewrite H2. cbn [In]. tauto.
  - rewrite H3. cbn [List.length]. lia.
Qed.

End SortDesc.

Lemma sorted_firstn {A : Type} (R : A -> A -> Prop) (n : nat) (l : list A) :
  StronglySorted R l -> StronglySorted R (firstn n l).
Proof.
  revert n. induction l as [|x l IH]; intros [|n] H; cbn [firstn]; try constructor.
  - inversion H; subst. apply IH; assumption.
  - inversion H as [|? ? _ Hall]; subst.
    rewrite List.Forall_forall in Hall |- *. intros y Hy. apply Hall.
    rewrite <- (firstn_skipn n l). apply in_or_app. left; exact Hy.
Qed.

Lemma sorted_map {A B : Type} (R : A -> A -> Prop) (S : B -> B -> Prop) (f : A -> B)
    (l : list A) :
  (forall a b, R a b -> S (f a) (f b)) ->
  StronglySorted R l -> StronglySorted S (map f l).
Proof.
  intros Hf. induction 1 as [|x l Hl IH Hall]; cbn [map]; constructor; [exact IH|].
  rewrite List.Forall_forall in Hall |- *. intros y Hy.
  apply in_map_iff in Hy as (a & <- & Ha). apply Hf, Hall, Ha.
Qed.

(** Rounding keeps the order. *)
Lemma mem_round_le (digits : Z) (a b : Q) :
  a <= b -> Mem.round digits a <= Mem.round digits b.
Proof.
  intros H. unfold Mem.round, jsRound.
  assert (Hp : (0 <= 10 ^ digits)%Z) by (apply Z.pow_nonneg; lia).
  destruct (Z.eq_dec (10 ^ digits)%Z 0%Z) as [E | E].
  - rewrite E. unfold Qdiv. change (/ inject_Z 0) with 0. lra.
  - assert (Hq : 0 < inject_Z (10 ^ digits)).
    { change 0 with (inject_Z 0). rewrite <- Zlt_Qlt. lia. }
    set (p := inject_Z (10 ^ digits)) in *.
    assert (Hz : (Qfloor (a * p + (1 # 2)) <= Qfloor (b * p + (1 # 2)))%Z).
    { apply Qfloor_resp_le. nra. }
    rewrite Zle_Qle in Hz. unfold Qdiv.
    assert (0 < / p) by (apply Qinv_lt_0_compat; assumption).
    nra.
Qed.

Lemma filter_split_length {A : Type} (p : A -> bool) (l : list A) :
  (List.length (List.filter (fun x => negb (p x)) l) + List.length (List.filter p l)
   = List.length l)%nat.
Proof.
  induction l as [|x l IH]; cbn [List.filter List.length]; [reflexivity|].
  destruct (p x); cbn [negb List.length]; lia.
Qed.

Lemma offsets_count (r : Z) (a m : nat) :
  (0 <= r)%Z ->
  List.length
    (List.filter (fun d => (d =? 0)%Z) (map (fun k => (Z.of_nat k - r)%Z) (seq a m)))
  = (if (a <=? Z.to_nat r)%nat && (Z.to_nat r <? a + m)%nat then 1 else 0)%nat.
Proof.
  intros Hr. revert a. induction m as [|m IH]; intros a; cbn [seq map List.filter].
  - cbn [List.length]. destruct (a <=? Z.to_nat r)%nat eqn:E1; cbn [andb]; [|reflexivity].
    destruct (Z.to_nat r <? a + 0)%nat eqn:E2; [|reflexivity].
    apply Nat.leb_le in E1. apply Nat.ltb_lt in E2. lia.
  - destruct (Z.of_nat a - r =? 0)%Z eqn:E; cbn [List.length]; rewrite IH.
    + apply Z.eqb_eq in E.
      assert (E1 : (S a <=? Z.to_nat r)%nat = false) by (apply Nat.leb_gt; lia).
      assert (E2 : (a <=? Z.to_nat r)%nat = true) by (apply Nat.leb_le; lia).
      assert (E3 : (Z.to_nat r <? a + S m)%nat = true) by (apply Nat.ltb_lt; lia).
      rewrite E1, E2, E3. reflexivity.
    + apply Z.eqb_neq in E.
      destruct (S a <=? Z.to_nat r)%nat eqn:E1, (a <=? Z.to_nat r)%nat eqn:E2,
        (Z.to_nat r <? S a + m)%nat eqn:E3, (Z.to_nat r <? a + S m)%nat eqn:E4;
        cbn [andb]; try reflexivity; exfalso;
        repeat match goal with
               | H : (_ <=? _)%nat = true |- _ => apply Nat.leb_le in H
               | H : (_ <=? _)%nat = false |- _ => apply Nat.leb_gt in H
               | H : (_ <? _)%nat = true |- _ => apply Nat.ltb_lt in H
               | H : (_ <? _)%nat = false |- _ => apply Nat.ltb_ge in H
               end; lia.
Qed.

Lemma offsets_range (r d : Z) : In d (Mem.offsets r) -> (- r <= d <= r)%Z.
Proof.
  unfold Mem.offsets. intros H. apply in_map_iff in H as (k & <- & Hk).
  apply in_seq in Hk. lia.
Qed.

Section Ring.

Context {C : Type}.
Variable offs : list Z.
Variable F : Z -> Z -> C.

Lemma row_length (dz : Z) (l : list Z) :
  (List.length
     (concat (map (fun dx => if (dx =? 0)%Z && (dz =? 0)%Z then [] else [F dx dz]) l))
   + (if (dz =? 0)%Z then List.length (List.filter (fun d => (d =? 0)%Z) l) else 0)
   = List.length l)%nat.
Proof.
  induction l as [|dx l IH]; cbn [map concat List.filter List.length]; [destruct (dz =? 0)%Z; lia|].
  rewrite length_app.
  destruct (dx =? 0)%Z, (dz =? 0)%Z; cbn [andb List.length] in *; lia.
Qed.

Lemma ring_length :
  (List.length (ringOf offs F)
   + List.length (List.filter (fun d => (d =? 0)%Z) offs)
     * List.length (List.filter (fun d => (d =? 0)%Z) offs)
   = List.length offs * List.length offs)%nat.
Proof.
  unfold ringOf.
  set (n := List.length offs). set (c := List.length (List.filter _ offs)).
  assert (H : forall l,
             (List.length
                (concat
                   (map (fun dz =>
                           concat (map (fun dx => if (dx =? 0)%Z && (dz =? 0)%Z then []
                                                  else [F dx dz]) offs)) l))
              + List.length (List.filter (fun d => (d =? 0)%Z) l) * c
              = List.length l * n)%nat).
  { induction l as [|dz l IH]; cbn [map concat List.filter List.length]; [lia|].
    rewrite length_app. pose proof (row_length dz offs) as Hrow. fold n c in Hrow.
    destruct (dz =? 0)%Z; cbn [List.length]; lia. }
  exact (H offs).
Qed.

Lemma ring_In (x : C) :
  In x (ringOf offs F) ->
  exists dx dz, In dx offs /\ In dz offs /\ (dx <> 0 \/ dz <> 0)%Z /\ x = F dx dz.
Proof.
  unfold ringOf. intros H. apply in_concat in H as (row & Hrow & Hx).
  apply in_map_iff in Hrow as (dz & <- & Hdz).
  apply in_concat in Hx as (one & Hone & Hx).
  apply in_map_iff in Hone as (dx & <- & Hdx).
  destruct (dx =? 0)%Z eqn:Ex, (dz =? 0)%Z eqn:Ez; cbn [andb In] in Hx;
    try (destruct Hx as [<- | []]); try contradiction;
    exists dx, dz; (split; [exact Hdx|]); (split; [exact Hdz|]);
    (split; [|reflexivity]);
    first [ apply Z.eqb_neq in Ex; left; exact Ex | apply Z.eqb_neq in Ez; right; exact Ez ].
Qed.

End Ring.

Section ContextShape.

Variable hypot : Q -> Q -> Q.
Variable relativeSector : Q -> Q -> Q -> Q -> Q -> Sector.

Ltac open_context Hctx x z ix iz :=
  unfold Mem.getContext in Hctx;
  destruct (worldX _) as [x|]; [|discriminate Hctx];
  destruct (worldZ _) as [z|]; [|discriminate Hctx];
  cbv zeta in Hctx;
  destruct (Mem.toGrid x z (Mem.cellSize _)) as [ix iz];
  match type of Hctx with
  | Some _ = Some ?c =>
      pose proof (f_equal (fun o => match o with Some v => v | None => c end) Hctx) as E;
      cbv beta iota in E; clear Hctx; subst c
  end;
  cbn [Mem.diagnostics Mem.candidateCount Mem.safeCandidateCount Mem.noGoCandidateCount
       Mem.frontier Mem.risky Mem.mappedCells Mem.recentPathLength Mem.sectorScores
       Mem.preferredSector Mem.currentCell Mem.cc_ix Mem.cc_iz].

Lemma candidates_count (radius : Z) {C : Type} (F : Z -> Z -> C) :
  (0 <= radius)%Z ->
  Z.of_nat (List.length (ringOf (Mem.offsets radius) F))
  = ((2 * radius + 1) * (2 * radius + 1) - 1)%Z.
Proof.
  intros Hr. pose proof (ring_length (Mem.offsets radius) F) as H.
  assert (Hc : List.length (List.filter (fun d => (d =? 0)%Z) (Mem.offsets radius)) = 1%nat).
  { unfold Mem.offsets. rewrite (offsets_count radius 0 _ Hr).
    assert (E : (Z.to_nat radius <? 0 + Z.to_nat (2 * radius + 1))%nat = true)
      by (apply Nat.ltb_lt; lia).
    rewrite E. reflexivity. }
  assert (Hn : List.length (Mem.offsets radius) = Z.to_nat (2 * radius + 1)).
  { unfold Mem.offsets. rewrite length_map, length_seq. reflexivity. }
  rewrite Hc, Hn in H. nia.
Qed.

(** X22.  The shape of a context.  With a radius of r cells it weighs the
    (2r+1)^2 - 1 cells around the car's; the safe and the no-go candidates
    add up to that number; the frontier holds at most [maxFrontier] cells
    and the risky list at most [maxRisky]; the recent path has at most 80
    entries; and there is one row of scores for each of the four sectors,
    the first of which is the preferred sector and has the highest score. *)
Theorem context_counts_and_sector_rows
    (st : Mem.State) (sd : SensorData) (radius : Z) (maxFrontier maxRisky : nat)
    (ctx : Mem.Context) :
  (0 <= radius)%Z ->
  Mem.getContext hypot relativeSector st sd radius maxFrontier maxRisky = Some ctx ->
  Z.of_nat (Mem.candidateCount (Mem.diagnostics ctx))
  = ((2 * radius + 1) * (2 * radius + 1) - 1)%Z
  /\ (Mem.safeCandidateCount (Mem.diagnostics ctx)
      + Mem.noGoCandidateCount (Mem.diagnostics ctx)
      = Mem.candidateCount (Mem.diagnostics ctx))%nat
  /\ (List.length (Mem.frontier ctx) <= maxFrontier)%nat
  /\ (List.length (Mem.frontier ctx) <= Mem.safeCandidateCount (Mem.diagnostics ctx))%nat
  /\ (List.length (Mem.risky ctx) <= maxRisky)%nat
  /\ Mem.mappedCells ctx = List.length (Mem.cells st)
  /\ (Mem.recentPathLength ctx <= 80)%nat
  /\ exists best rest,
       Mem.sectorScores ctx = best :: rest /\ List.length rest = 3%nat
       /\ Mem.preferredSector ctx = Mem.sc_sector best
       /\ Forall (fun row => Mem.sc_score row <= Mem.sc_score best) rest
       /\ forall s, exists row, In row (best :: rest) /\ Mem.sc_sector row = s.
Proof.
  intros Hr Hctx. open_context Hctx x z ix iz.
  match goal with
  | |- context [concat (map ?g (Mem.offsets radius))] =>
      change (concat (map g (Mem.offsets radius)))
        with (ringOf (Mem.offsets radius)
                (fun dx dz =>
                   Mem.evaluateCandidate hypot relativeSector st x z (asNum (headingDeg sd) 0)
                     ix iz (ix + dx) (iz + dz)))
  end.
  pose proof (candidates_count radius
                (fun dx dz =>
                   Mem.evaluateCandidate hypot relativeSector st x z (asNum (headingDeg sd) 0)
                     ix iz (ix + dx) (iz + dz)) Hr) as Hcount.
  generalize dependent (ringOf (Mem.offsets radius)
                          (fun dx dz =>
                             Mem.evaluateCandidate hypot relativeSector st x z
                               (asNum (headingDeg sd) 0) ix iz (ix + dx) (iz + dz))).
  intros cands Hcount.
  set (diag := map (fun c => (c, Mem.getNoGoReasons c)) cands).
  assert (Hdiag : List.length diag = List.length cands) by (unfold diag; apply length_map).
  clearbody diag. rewrite <- Hdiag in Hcount. clear Hdiag.
  split; [exact Hcount|].
  split; [apply filter_split_length|].
  split; [rewrite length_map; apply firstn_le_length|].
  split.
  { rewrite length_map, length_firstn.
    match goal with
    | |- context [sortDesc ?k ?l] => destruct (sortDesc_spec k l) as (_ & _ & ->)
    end.
    pose proof (filter_length_bound
                  (fun c : Mem.Candidate * list Mem.NoGoReason => Qltb (Mem.risk (fst c)) 0.9)
                  (List.filter (fun c => negb (Mem.isNoGo c)) diag)).
    lia. }
  split; [rewrite length_map; apply firstn_le_length|].
  split; [reflexivity|].
  split; [rewrite length_skipn; lia|].
  match goal with
  | |- context [sortDesc Mem.sc_score (map ?f [SL; SF; SR; SB])] => set (mkRow := f)
  end.
  assert (Hrow : forall s, Mem.sc_sector (mkRow s) = s) by reflexivity.
  clearbody mkRow.
  destruct (sortDesc_spec Mem.sc_score (map mkRow [SL; SF; SR; SB])) as (Hs & Hin & Hl).
  destruct (sortDesc Mem.sc_score (map mkRow [SL; SF; SR; SB])) as [|best rest];
    [discriminate Hl|].
  cbn [map List.length] in Hl. injection Hl as Hl.
  eexists _, _. cbn [map]. split; [reflexivity|].
  split; [rewrite length_map; exact Hl|].
  split; [reflexivity|].
  split.
  - inversion Hs as [|? ? _ Hall]; subst. cbn [Mem.sc_score].
    rewrite List.Forall_forall in Hall |- *. intros row Hrow'.
    apply in_map_iff in Hrow' as (r0 & <- & Hr0). cbn [Mem.sc_score].
    apply mem_round_le. exact (Hall r0 Hr0).
  - intros s.
    assert (Hs' : In (mkRow s) (best :: rest)).
    { apply Hin. apply in_map. destruct s; cbn; tauto. }
    destruct Hs' as [Hb | Hs'].
    + eexists. split; [left; reflexivity|]. cbn [Mem.sc_sector]. rewrite Hb. apply Hrow.
    + eexists. split; [right; apply in_map_iff; exists (mkRow s); split; [reflexivity | exact Hs']|].
      cbn [Mem.sc_sector]. apply Hrow.
Qed.

Lemma noGo_free (c : Mem.Candidate) :
  Mem.getNoGoReasons c = [] ->
  (Mem.c_obstacleHits c < 3)%Z /\ (Mem.c_outerWallHits c < 2)%Z
  /\ Mem.risk c < 0.78 /\ Mem.repeatPenalty c < 0.85
  /\ Mem.outsideBounds c = false /\ Mem.barrierBlocked c = false
  /\ Mem.obstacleDominant c = false.
Proof.
  unfold Mem.getNoGoReasons.
  destruct (Mem.outsideBounds c); [discriminate|].
  destruct (Mem.barrierBlocked c); [discriminate|].
  destruct (Mem.obstacleDominant c); [discriminate|].
  destruct ((1 <=? Mem.c_obstacleHits c)%Z && Qgeb (Mem.risk c) 0.62); [discriminate|].
  destruct (Mem.OBSTACLE_REPEAT_HARD_NO_GO_HITS <=? Mem.c_obstacleHits c)%Z eqn:E1;
    [discriminate|].
  destruct (Mem.OUTER_WALL_REPEAT_HARD_NO_GO_HITS <=? Mem.c_outerWallHits c)%Z eqn:E2;
    [discriminate|].
  destruct (Qgeb (Mem.repeatPenalty c) 0.85) eqn:E3; [discriminate|].
  destruct (Qgeb (Mem.risk c) 0.78) eqn:E4; [discriminate|].
  intros _. apply Z.leb_gt in E1, E2. apply Qgeb_false in E3, E4.
  unfold Mem.OBSTACLE_REPEAT_HARD_NO_GO_HITS in E1.
  unfold Mem.OUTER_WALL_REPEAT_HARD_NO_GO_HITS in E2.
  repeat split; assumption.
Qed.

(** X23.  The frontier of a context.  Every cell it lists has fewer than 3
    obstacle hits and fewer than 2 outer-wall hits, a risk of at most 0.78
    and a repeat penalty of at most 0.85, lies within the radius around the
    car's cell and is not that cell; the cells come in descending order of
    their scores, and without flags. *)
Theorem frontier_cells_are_safe_and_ordered
    (st : Mem.State) (sd : SensorData) (radius : Z) (maxFrontier maxRisky : nat)
    (ctx : Mem.Context) :
  Mem.getContext hypot relativeSector st sd radius maxFrontier maxRisky = Some ctx ->
  Forall (fun f =>
            (Mem.cs_obstacleHits f < 3)%Z /\ (Mem.cs_outerWallHits f < 2)%Z
            /\ Mem.cs_risk f <= 0.78 /\ Mem.cs_repeatPenalty f <= 0.85
            /\ Mem.cs_noGoReasons f = None
            /\ (Z.abs (Mem.cs_ix f - Mem.cc_ix (Mem.currentCell ctx)) <= radius)%Z
            /\ (Z.abs (Mem.cs_iz f - Mem.cc_iz (Mem.currentCell ctx)) <= radius)%Z
            /\ (Mem.cs_ix f <> Mem.cc_ix (Mem.currentCell ctx)
                \/ Mem.cs_iz f <> Mem.cc_iz (Mem.currentCell ctx)))
    (Mem.frontier ctx)
  /\ StronglySorted (descendingBy Mem.cs_score) (Mem.frontier ctx).
Proof.
  intros Hctx. open_context Hctx x z ix iz.
  match goal with
  | |- context [concat (map ?g (Mem.offsets radius))] =>
      change (concat (map g (Mem.offsets radius)))
        with (ringOf (Mem.offsets radius)
                (fun dx dz =>
                   Mem.evaluateCandidate hypot relativeSector st x z (asNum (headingDeg sd) 0)
                     ix iz (ix + dx) (iz + dz)))
  end.
  set (cands := ringOf _ _).
  assert (Hcands : forall c, In c cands ->
             exists dx dz, (- radius <= dx <= radius)%Z /\ (- radius <= dz <= radius)%Z
                           /\ (dx <> 0 \/ dz <> 0)%Z
                           /\ Mem.c_ix c = (ix + dx)%Z /\ Mem.c_iz c = (iz + dz)%Z).
  { intros c Hc. apply ring_In in Hc as (dx & dz & Hdx & Hdz & Hnz & ->).
    exists dx, dz. split; [apply offsets_range; exact Hdx|].
    split; [apply offsets_range; exact Hdz|]. split; [exact Hnz|]. split; reflexivity. }
  clearbody cands.
  match goal with
  | |- context [sortDesc ?k ?l] =>
      destruct (sortDesc_spec k l) as (Hs & Hin & _);
      generalize dependent (sortDesc k l)
  end.
  intros sorted Hs Hin. split.
  - rewrite List.Forall_forall. intros f Hf.
    apply in_map_iff in Hf as (c & <- & Hc).
    assert (Hc' : In c sorted).
    { rewrite <- (firstn_skipn maxFrontier sorted). apply in_or_app. left; exact Hc. }
    apply Hin in Hc'. apply filter_In in Hc' as [Hc' _].
    apply filter_In in Hc' as [Hc' Hsafe].
    apply in_map_iff in Hc' as (cand & <- & Hcand).
    apply negb_true_iff in Hsafe. unfold Mem.isNoGo in Hsafe. cbn [snd] in Hsafe.
    destruct (Mem.getNoGoReasons cand) eqn:Eng; [|discriminate Hsafe].
    destruct (noGo_free cand Eng) as (H1 & H2 & H3 & H4 & _).
    destruct (Hcands cand Hcand) as (dx & dz & Hdx & Hdz & Hnz & Hix & Hiz).
    unfold Mem.toCandidateSummary.
    cbn [fst snd Mem.cs_obstacleHits Mem.cs_outerWallHits Mem.cs_risk Mem.cs_repeatPenalty
         Mem.cs_noGoReasons Mem.cs_ix Mem.cs_iz].
    rewrite Hix, Hiz.
    split; [exact H1|]. split; [exact H2|].
    split.
    { apply (Qle_trans _ (Mem.round 3 0.78)); [apply mem_round_le; lra|].
      vm_compute; discriminate. }
    split.
    { apply (Qle_trans _ (Mem.round 3 0.85)); [apply mem_round_le; lra|].
      vm_compute; discriminate. }
    split; [reflexivity|]. split; [lia|]. split; [lia|]. lia.
  - apply (sorted_map (descendingBy (fun c : Mem.Candidate * list Mem.NoGoReason =>
                                        Mem.score (fst c)))).
    + intros a b Hab. unfold descendingBy in *. cbn [Mem.toCandidateSummary Mem.cs_score].
      apply mem_round_le. exact Hab.
    + apply sorted_firstn. exact Hs.
Qed.

Lemma frontier_bound
    (st : Mem.State) (sd : SensorData) (radius : Z) (maxFrontier maxRisky : nat)
    (ctx : Mem.Context) :
  Mem.getContext hypot relativeSector st sd radius maxFrontier maxRisky = Some ctx ->
  (List.length (Mem.frontier ctx) <= maxFrontier)%nat.
Proof.
  intros Hctx. open_context Hctx x z ix iz.
  rewrite length_map. apply firstn_le_length.
Qed.

(** Where a frontier entry comes from. *)
Lemma frontier_origin
    (st : Mem.State) (sd : SensorData) (radius : Z) (maxFrontier maxRisky : nat)
    (ctx : Mem.Context) (x z : Q) (ix iz : Z) :
  worldX sd = Some x -> worldZ sd = Some z ->
  Mem.toGrid x z (Mem.cellSize st) = (ix, iz) ->
  Mem.getContext hypot relativeSector st sd radius maxFrontier maxRisky = Some ctx ->
  forall f, In f (Mem.frontier ctx) ->
    exists dx dz,
      (dx <> 0 \/ dz <> 0)%Z
      /\ Mem.cs_ix f = (ix + dx)%Z /\ Mem.cs_iz f = (iz + dz)%Z
      /\ Mem.getNoGoReasons
           (Mem.evaluateCandidate hypot relativeSector st x z (asNum (headingDeg sd) 0)
              ix iz (ix + dx) (iz + dz)) = [].
Proof.
  intros Hx Hz Hg Hctx. unfold Mem.getContext in Hctx. rewrite Hx, Hz in Hctx.
  cbv zeta in Hctx. rewrite Hg in Hctx.
  match type of Hctx with
  | Some _ = Some ?c =>
      pose proof (f_equal (fun o => match o with Some v => v | None => c end) Hctx) as E;
      cbv beta iota in E; clear Hctx; subst c
  end.
  cbn [Mem.frontier].
  match goal with
  | |- context [concat (map ?g (Mem.offsets radius))] =>
      change (concat (map g (Mem.offsets radius)))
        with (ringOf (Mem.offsets radius)
                (fun dx dz =>
                   Mem.evaluateCandidate hypot relativeSector st x z (asNum (headingDeg sd) 0)
                     ix iz (ix + dx) (iz + dz)))
  end.
  match goal with
  | |- context [sortDesc ?k ?l] =>
      destruct (sortDesc_spec k l) as (_ & Hin & _);
      generalize dependent (sortDesc k l)
  end.
  intros sorted Hin f Hf.
  apply in_map_iff in Hf as (c & <- & Hc).
  assert (Hc' : In c sorted).
  { rewrite <- (firstn_skipn maxFrontier sorted). apply in_or_app. left; exact Hc. }
  apply Hin in Hc'. apply filter_In in Hc' as [Hc' _].
  apply filter_In in Hc' as [Hc' Hsafe].
  apply in_map_iff in Hc' as (cand & <- & Hcand).
  apply negb_true_iff in Hsafe. unfold Mem.isNoGo in Hsafe. cbn [snd] in Hsafe.
  destruct (Mem.getNoGoReasons cand) eqn:Eng; [|discriminate Hsafe].
  apply ring_In in Hcand as (dx & dz & _ & _ & Hnz & ->).
  exists dx, dz. split; [exact Hnz|]. split; [reflexivity|]. split; [reflexivity | exact Eng].
Qed.

End ContextShape.

(** The context of scenario B in the grid that has seen it once, with a
    radius of two cells. *)
Lemma context_counts_witness :
  exists ctx,
    Mem.getContext axisHypot (fun _ _ _ _ _ => SF) seenGrid scenarioB 2 8 6 = Some ctx
    /\ Z.of_nat (Mem.candidateCount (Mem.diagnostics ctx)) = 24%Z
    /\ (List.length (Mem.frontier ctx) <= 8)%nat.
Proof.
  destruct (Mem.getContext axisHypot (fun _ _ _ _ _ => SF) seenGrid scenarioB 2 8 6)
    as [ctx|] eqn:E; [|vm_compute in E; discriminate E].
  exists ctx. split; [reflexivity|].
  destruct (context_counts_and_sector_rows axisHypot (fun _ _ _ _ _ => SF) seenGrid scenarioB
              2 8 6 ctx ltac:(discriminate) E) as (H1 & _ & H3 & _).
  split; [exact H1 | exact H3].
Defined.

Lemma frontier_cells_witness :
  exists ctx,
    Mem.getContext axisHypot (fun _ _ _ _ _ => SF) seenGrid scenarioB 2 8 6 = Some ctx
    /\ StronglySorted (descendingBy Mem.cs_score) (Mem.frontier ctx).
Proof.
  destruct (Mem.getContext axisHypot (fun _ _ _ _ _ => SF) seenGrid scenarioB 2 8 6)
    as [ctx|] eqn:E; [|vm_compute in E; discriminate E].
  exists ctx. split; [reflexivity|].
  exact (proj2 (frontier_cells_are_safe_and_ordered axisHypot (fun _ _ _ _ _ => SF) seenGrid
                  scenarioB 2 8 6 ctx E)).
Defined.

(** ** Cells, points and bounds *)

Lemma Qfloor_unique (x : Q) (n : Z) :
  inject_Z n <= x -> x < inject_Z (n + 1) -> Qfloor x = n.
Proof.
  intros H1 H2.
  pose proof (Qfloor_le x) as F1. pose proof (Qlt_floor x) as F2.
  assert (A : (n < Qfloor x + 1)%Z) by (rewrite Zlt_Qlt; lra).
  assert (B : (Qfloor x < n + 1)%Z) by (rewrite Zlt_Qlt; lra).
  lia.
Qed.

(** X26.  The grid and the plane.  With a positive cell size, the centre of a
    cell lies in that cell, and every point lies in the square of the cell
    that [toGrid] gives for it. *)
Theorem cell_centre_round_trip (size : Q) (ix iz : Z) (x z : Q) :
  0 < size ->
  Mem.toGrid (fst (Mem.toCellCenter ix iz size)) (snd (Mem.toCellCenter ix iz size)) size
  = (ix, iz)
  /\ (inject_Z (fst (Mem.toGrid x z size)) * size <= x
      /\ x < (inject_Z (fst (Mem.toGrid x z size)) + 1) * size)
  /\ (inject_Z (snd (Mem.toGrid x z size)) * size <= z
      /\ z < (inject_Z (snd (Mem.toGrid x z size)) + 1) * size).
Proof.
  intros Hs. unfold Mem.toGrid, Mem.toCellCenter. cbn [fst snd].
  assert (Hc : forall i : Z, Qfloor ((inject_Z i + 0.5) * size / size) = i).
  { intros i. apply Qfloor_unique.
    - apply Qle_shift_div_l; [exact Hs|]. nra.
    - apply Qlt_shift_div_r; [exact Hs|]. rewrite inject_Z_plus. change (inject_Z 1) with 1.
      nra. }
  assert (Hp : forall p : Q,
             inject_Z (Qfloor (p / size)) * size <= p
             /\ p < (inject_Z (Qfloor (p / size)) + 1) * size).
  { intros p. pose proof (Qfloor_le (p / size)) as F1. pose proof (Qlt_floor (p / size)) as F2.
    rewrite inject_Z_plus in F2. change (inject_Z 1) with 1 in F2.
    assert (E : p / size * size == p) by (field; lra).
    generalize dependent (p / size). intros q F1 F2 E.
    generalize dependent (inject_Z (Qfloor q)). intros f F1 F2.
    split; nra. }
  split; [rewrite !Hc; reflexivity|]. split; apply Hp.
Qed.

(** Cells of 2 m: the cell (3, -4) and the point (7.3, -6.1). *)
Lemma cell_centre_round_trip_witness :
  0 < 2.0
  /\ Mem.toGrid (fst (Mem.toCellCenter 3 (-4) 2.0)) (snd (Mem.toCellCenter 3 (-4) 2.0)) 2.0
     = (3, -4)%Z
  /\ Mem.toGrid 7.3 (-6.1) 2.0 = (3, -4)%Z.
Proof.
  assert (H : 0 < 2.0) by reflexivity.
  split; [exact H|].
  split; [exact (proj1 (cell_centre_round_trip 2.0 3 (-4) 7.3 (-6.1) H)) | reflexivity].
Defined.

Lemma boundsPenalty_cases (x z : Q) (b : Mem.Bounds) :
  (fst (Mem.getBoundsPenalty x z (Some b)) = true ->
   snd (Mem.getBoundsPenalty x z (Some b)) = 2.0)
  /\ (fst (Mem.getBoundsPenalty x z (Some b)) = false ->
      0 <= snd (Mem.getBoundsPenalty x z (Some b))
      /\ snd (Mem.getBoundsPenalty x z (Some b)) <= 0.55).
Proof.
  unfold Mem.getBoundsPenalty. cbv zeta.
  set (m := asNum (Mem.softMargin b) 2.5). clearbody m.
  destruct b as [x0 x1 z0 z1 sm]. cbn [Mem.minX Mem.maxX Mem.minZ Mem.maxZ].
  destruct (Qltb x x0 || Qgtb x x1 || Qltb z z0 || Qgtb z z1) eqn:E; cbn [fst snd].
  - split; [reflexivity | discriminate].
  - split; [discriminate|]. intros _.
    apply orb_false_elim in E as [E E4]. apply orb_false_elim in E as [E E3].
    apply orb_false_elim in E as [E1 E2].
    apply Qltb_false in E1, E3. apply Qgtb_false in E2, E4.
    set (edge := qmin (qmin (qmin (x - x0) (x1 - x)) (z - z0)) (z1 - z)).
    assert (He : 0 <= edge) by (unfold edge; qcases; lra).
    clearbody edge.
    destruct (Qltb edge m) eqn:Em; [|lra].
    apply Qltb_true in Em.
    assert (Hm : 0 < m) by lra.
    assert (H0 : 0 <= (m - edge) / m) by (apply Qle_shift_div_l; lra).
    assert (H1 : (m - edge) / m <= 1) by (apply Qle_shift_div_r; lra).
    generalize dependent ((m - edge) / m). intros q H0 H1. lra.
Qed.

(** X27.  The helpers of the world bounds agree.  A point is reported outside
    exactly when [isInsideBounds] denies it; the penalty is 2.0 outside and
    between 0 and 0.55 inside; and in a box wider than 0.002 both ways, the
    point that [clampPointToBounds] returns is inside. *)
Theorem bounds_helpers_agree (x z : Q) (b : Mem.Bounds) :
  let r := Mem.getBoundsPenalty x z (Some b) in
  fst r = negb (Mem.isInsideBounds x z (Some b))
  /\ (fst r = true -> snd r = 2.0)
  /\ (fst r = false -> 0 <= snd r /\ snd r <= 0.55)
  /\ (Mem.minX b + 0.002 <= Mem.maxX b -> Mem.minZ b + 0.002 <= Mem.maxZ b ->
      Mem.isInsideBounds (fst (Mem.clampPointToBounds x z (Some b)))
        (snd (Mem.clampPointToBounds x z (Some b))) (Some b) = true).
Proof.
  cbv zeta. destruct (boundsPenalty_cases x z b) as [Hout Hin].
  split; [|split; [exact Hout|split; [exact Hin|]]].
  - clear Hout Hin. unfold Mem.getBoundsPenalty, Mem.isInsideBounds. cbv zeta.
    destruct b as [x0 x1 z0 z1 sm]. cbn [Mem.minX Mem.maxX Mem.minZ Mem.maxZ].
    assert (E : Qltb x x0 || Qgtb x x1 || Qltb z z0 || Qgtb z z1
                = negb (Qgeb x x0 && Qleb x x1 && Qgeb z z0 && Qleb z z1)).
    { destruct (Qltb x x0) eqn:E1, (Qgtb x x1) eqn:E2, (Qltb z z0) eqn:E3,
        (Qgtb z z1) eqn:E4; cbn [orb];
        repeat match goal with
               | H : Qltb _ _ = true |- _ => apply Qltb_true in H
               | H : Qltb _ _ = false |- _ => apply Qltb_false in H
               | H : Qgtb _ _ = true |- _ => apply Qgtb_true in H
               | H : Qgtb _ _ = false |- _ => apply Qgtb_false in H
               end;
        destruct (Qgeb x x0) eqn:F1, (Qleb x x1) eqn:F2, (Qgeb z z0) eqn:F3,
          (Qleb z z1) eqn:F4; cbn [andb negb]; try reflexivity; exfalso;
        repeat match goal with
               | H : Qleb _ _ = true |- _ => apply Qleb_true in H
               | H : Qleb _ _ = false |- _ => apply Qleb_false in H
               | H : Qgeb _ _ = true |- _ => apply Qgeb_true in H
               | H : Qgeb _ _ = false |- _ => apply Qgeb_false in H
               end; lra. }
    rewrite E. destruct (negb _); reflexivity.
  - clear Hout Hin. unfold Mem.isInsideBounds, Mem.clampPointToBounds. cbn [fst snd].
    destruct b as [x0 x1 z0 z1 sm]. cbn [Mem.minX Mem.maxX Mem.minZ Mem.maxZ].
    intros Hx Hz. unfold Mem.clamp.
    apply andb_true_intro; split; [apply andb_true_intro; split;
                                   [apply andb_true_intro; split|]|];
      [apply Qgeb_true | apply Qleb_true | apply Qgeb_true | apply Qleb_true];
      qcases; lra.
Qed.

Section UnknownCells.

Variable hypot : Q -> Q -> Q.
Variable relativeSector : Q -> Q -> Q -> Q -> Q -> Sector.

(** X25.  A cell the grid has no record of.  As a candidate it counts as
    unvisited and without data, with no risk, full novelty and no target
    or repeat penalty; it is a no-go only for lying outside the bounds or
    behind a barrier; and when it is neither, its score is 1.02 less 0.09
    per cell of distance and less the penalty near the edge of the world. *)
Theorem unknown_cell_is_attractive
    (st : Mem.State) (originX originZ headingDeg : Q) (originIx originIz nix niz : Z) :
  Mem.getCell (Mem.cells st) (nix, niz) = None ->
  let c := Mem.evaluateCandidate hypot relativeSector st originX originZ headingDeg
             originIx originIz nix niz in
  Mem.hasData c = false /\ Mem.c_visits c = 0%Z
  /\ Mem.risk c == 0 /\ Mem.novelty c == 1 /\ Mem.openBias c == 0
  /\ Mem.targetPenalty c == 0 /\ Mem.repeatPenalty c == 0
  /\ Mem.obstacleDominant c = false
  /\ Mem.getNoGoReasons c
     = (if Mem.outsideBounds c then [Mem.ng_outsideBounds] else [])
       ++ (if Mem.barrierBlocked c then [Mem.ng_barrierBlocked] else [])
  /\ (Mem.outsideBounds c = false -> Mem.barrierBlocked c = false ->
      Mem.score c == 1.02 - Mem.c_distance c * 0.09 - Mem.boundsPenaltyAt st c).
Proof.
  intros Hcell. cbv zeta.
  unfold Mem.getNoGoReasons, Mem.boundsPenaltyAt, Mem.evaluateCandidate. cbv zeta.
  rewrite Hcell.
  cbn [Mem.hasData Mem.c_visits Mem.risk Mem.novelty Mem.openBias Mem.targetPenalty
       Mem.repeatPenalty Mem.obstacleDominant Mem.outsideBounds Mem.barrierBlocked
       Mem.c_obstacleHits Mem.c_outerWallHits Mem.score Mem.c_distance Mem.c_ix Mem.c_iz
       Mem.isCellObstacleDominant].
  generalize (hypot (inject_Z (nix - originIx)) (inject_Z (niz - originIz))). intros dist.
  destruct (Mem.getBoundsPenalty _ _ (Mem.worldBounds st)) as [outside penalty].
  cbn [fst snd].
  generalize (Mem.hasBarrierBetween (Mem.cells st) originIx originIz nix niz). intros barrier.
  split; [reflexivity|]. split; [reflexivity|].
  split; [reflexivity|]. split; [reflexivity|]. split; [reflexivity|].
  split; [reflexivity|]. split; [reflexivity|]. split; [reflexivity|].
  split.
  - destruct outside, barrier; reflexivity.
  - intros -> ->. vm_compute (0 =? 0)%Z. cbn [andb negb].
    change (Mem.clamp 0 0 1) with 0.
    change (if (0 <? 0)%Z then 0 else _) with
      (Mem.clamp (Mem.clamp 0 0 1 * 0.6 + inject_Z (Z.max 0 (0 - 2)) / 45) 0 0.9).
    change (Mem.clamp (Mem.clamp 0 0 1 * 0.6 + inject_Z (Z.max 0 (0 - 2)) / 45) 0 0.9)
      with 0.
    change ((1 <=? 0)%Z && Qgeb 0 0.62) with false.
    change (Mem.OBSTACLE_REPEAT_HARD_NO_GO_HITS <=? 0)%Z with false.
    change (Mem.OUTER_WALL_REPEAT_HARD_NO_GO_HITS <=? 0)%Z with false.
    cbv iota.
    match goal with
    | |- context [Mem.clamp (?a + ?b) 0 1.5] =>
        change (Mem.clamp (a + b) 0 1.5) with 0
    end.
    change (inject_Z 0 / inject_Z (Z.max 1 (0 + 0))) with 0.
    change (1 / (1 + inject_Z 0)) with 1.
    change (0 + 0 =? 0)%Z with true. cbv iota. lra.
Qed.

End UnknownCells.

(** The cell next to the car's in the empty grid. *)
Lemma unknown_cell_witness :
  Mem.getCell (Mem.cells emptyGrid) (1, 0)%Z = None
  /\ Mem.getNoGoReasons neighbourCandidate = []
  /\ Mem.score neighbourCandidate == 0.93.
Proof.
  assert (H : Mem.getCell (Mem.cells emptyGrid) (1, 0)%Z = None) by reflexivity.
  split; [exact H|].
  destruct (unknown_cell_is_attractive axisHypot (fun _ _ _ _ _ => SR) emptyGrid 1 1 0 0 0 1 0 H)
    as (_ & _ & _ & _ & _ & _ & _ & _ & H9 & H10).
  fold neighbourCandidate in H9, H10.
  split.
  - rewrite H9. reflexivity.
  - rewrite (H10 eq_refl eq_refl). vm_compute. reflexivity.
Defined.

(** ** The map snapshot *)

Section MapSnapshot.

Variable hypot : Q -> Q -> Q.
Variable relativeSector : Q -> Q -> Q -> Q -> Q -> Sector.

Lemma square_length {A B : Type} (g : Z -> Z -> B) (l l' : list Z) :
  List.length (concat (map (fun dz => map (fun dx => g dx dz) l) l'))
  = (List.length l' * List.length l)%nat.
Proof.
  induction l' as [|dz l' IH]; cbn [map concat List.length]; [reflexivity|].
  rewrite length_app, length_map, IH. lia.
Qed.

(** X28.  The snapshot of the map display.  With a radius of r cells it holds
    the (2r+1)^2 cells around the car's, each at its offset; exactly the
    cell at offset (0, 0) is marked as current; a cell marked as frontier is
    never the current one, never outside the bounds, behind a barrier or
    dominated by obstacles, and its risk is at most 0.78; the frontier has at
    most [maxFrontier] entries, the path at most 120; and the diagnostics of
    the context are always there. *)
Theorem map_snapshot_is_consistent
    (st : Mem.State) (sd : SensorData) (radius : Z) (maxFrontier maxRisky : nat)
    (v : Mem.Visualization) :
  (0 <= radius)%Z ->
  Mem.getVisualization hypot relativeSector st sd radius maxFrontier maxRisky = Some v ->
  Z.of_nat (List.length (Mem.vis_cells v)) = ((2 * radius + 1) * (2 * radius + 1))%Z
  /\ Forall (fun c =>
               Mem.v_ix c = (fst (Mem.vis_center v) + Mem.v_dx c)%Z
               /\ Mem.v_iz c = (snd (Mem.vis_center v) + Mem.v_dz c)%Z
               /\ (- radius <= Mem.v_dx c <= radius)%Z
               /\ (- radius <= Mem.v_dz c <= radius)%Z
               /\ (Mem.v_isCurrent c = true <-> Mem.v_dx c = 0%Z /\ Mem.v_dz c = 0%Z)
               /\ (Mem.v_isFrontier c = true ->
                   Mem.v_isCurrent c = false /\ Mem.v_outsideBounds c = false
                   /\ Mem.v_barrierBlocked c = false /\ Mem.v_obstacleDominant c = false
                   /\ Mem.v_risk c <= 0.78))
       (Mem.vis_cells v)
  /\ (List.length (Mem.vis_frontier v) <= maxFrontier)%nat
  /\ (List.length (Mem.vis_recentPath v) <= 120)%nat
  /\ Mem.vis_diagnostics v <> None.
Proof.
  intros Hr Hv. unfold Mem.getVisualization in Hv.
  destruct (worldX sd) as [x|] eqn:Hx; [|discriminate Hv].
  destruct (worldZ sd) as [z|] eqn:Hz; [|discriminate Hv].
  cbv zeta in Hv.
  destruct (Mem.toGrid x z (Mem.cellSize st)) as [ix iz] eqn:Hg.
  destruct (Mem.getContext hypot relativeSector st sd (Z.max 2 (radius / 3)) maxFrontier
              maxRisky) as [ctx|] eqn:Hctx.
  2:{ exfalso. unfold Mem.getContext in Hctx. rewrite Hx, Hz in Hctx. cbv zeta in Hctx.
      rewrite Hg in Hctx. discriminate Hctx. }
  pose proof (frontier_origin hypot relativeSector st sd _ maxFrontier maxRisky ctx x z ix iz
                Hx Hz Hg Hctx) as Horigin.
  assert (Hfl : (List.length (Mem.frontier ctx) <= maxFrontier)%nat).
  { exact (frontier_bound hypot relativeSector st sd _ maxFrontier maxRisky ctx Hctx). }
  generalize dependent (Mem.frontier ctx). intros fr Hv Horigin Hfl.
  match type of Hv with
  | Some _ = Some ?c =>
      pose proof (f_equal (fun o => match o with Some w => w | None => c end) Hv) as E;
      cbv beta iota in E; clear Hv; subst c
  end.
  cbn [Mem.vis_cells Mem.vis_center Mem.vis_frontier Mem.vis_recentPath Mem.vis_diagnostics
       fst snd].
  split.
  { rewrite (square_length (A := Z)). unfold Mem.offsets. rewrite length_map, length_seq. nia. }
  split.
  { rewrite List.Forall_forall. intros c Hc.
    apply in_concat in Hc as (row & Hrow & Hc).
    apply in_map_iff in Hrow as (dz & <- & Hdz).
    apply in_map_iff in Hc as (dx & <- & Hdx).
    apply offsets_range in Hdz, Hdx.
    cbn [Mem.v_ix Mem.v_iz Mem.v_dx Mem.v_dz Mem.v_isCurrent Mem.v_isFrontier
         Mem.v_outsideBounds Mem.v_barrierBlocked Mem.v_obstacleDominant Mem.v_risk].
    assert (Hcand : Mem.c_ix (Mem.evaluateCandidate hypot relativeSector st x z
                                (asNum (headingDeg sd) 0) ix iz (ix + dx) (iz + dz))
                    = (ix + dx)%Z
                    /\ Mem.c_iz (Mem.evaluateCandidate hypot relativeSector st x z
                                   (asNum (headingDeg sd) 0) ix iz (ix + dx) (iz + dz))
                       = (iz + dz)%Z
                    /\ Mem.c_dx (Mem.evaluateCandidate hypot relativeSector st x z
                                   (asNum (headingDeg sd) 0) ix iz (ix + dx) (iz + dz))
                       = (ix + dx - ix)%Z
                    /\ Mem.c_dz (Mem.evaluateCandidate hypot relativeSector st x z
                                   (asNum (headingDeg sd) 0) ix iz (ix + dx) (iz + dz))
                       = (iz + dz - iz)%Z) by (repeat split; reflexivity).
    destruct Hcand as (E1 & E2 & E3 & E4). rewrite E1, E2, E3, E4.
    split; [lia|]. split; [lia|]. split; [lia|]. split; [lia|].
    split.
    { rewrite andb_true_iff, !Z.eqb_eq. lia. }
    intros Hkey. apply keyIn_true in Hkey. apply in_map_iff in Hkey as (f & Hf & Hin).
    destruct (Horigin f Hin) as (dx' & dz' & Hnz & Hfx & Hfz & Hng).
    rewrite Hfx, Hfz in Hf. injection Hf as Hdx' Hdz'.
    rewrite Hdx', Hdz' in Hng.
    destruct (noGo_free _ Hng) as (_ & _ & Hrisk & _ & Ho & Hb & Hd).
    split.
    { apply andb_false_iff. rewrite !Z.eqb_neq. lia. }
    split; [exact Ho|]. split; [exact Hb|]. split; [exact Hd|].
    apply (Qle_trans _ (Mem.round 3 0.78)); [apply mem_round_le; lra|].
    vm_compute; discriminate. }
  split; [exact Hfl|].
  split; [rewrite length_map, length_skipn; lia | discriminate].
Qed.

End MapSnapshot.

(** The snapshot that the display asks for, in the grid that has seen
    scenario B once: a radius of 8 cells. *)
Lemma map_snapshot_witness :
  exists v,
    Mem.getVisualization axisHypot (fun _ _ _ _ _ => SF) seenGrid scenarioB 8 8 6 = Some v
    /\ Z.of_nat (List.length (Mem.vis_cells v)) = 289%Z.
Proof.
  destruct (Mem.getVisualization axisHypot (fun _ _ _ _ _ => SF) seenGrid scenarioB 8 8 6)
    as [v|] eqn:E; [|vm_compute in E; discriminate E].
  exists v. split; [reflexivity|].
  exact (proj1 (map_snapshot_is_consistent axisHypot (fun _ _ _ _ _ => SF) seenGrid scenarioB
                  8 8 6 v ltac:(discriminate) E)).
Defined.

(** ** The candidates of a sane grid *)

Lemma getCell_In (l : list ((Z * Z) * Mem.Cell)) (k : Z * Z) (c : Mem.Cell) :
  Mem.getCell l k = Some c -> In (k, c) l.
Proof.
  induction l as [|[k' c'] l IH]; cbn [Mem.getCell In]; [discriminate|].
  destruct (Mem.key_eqb k' k) eqn:E.
  - apply key_eqb_eq in E. intros [= ->]. left. subst; reflexivity.
  - intros H. right. exact (IH H).
Qed.

Section CandidateRanges.

Variable hypot : Q -> Q -> Q.
Variable relativeSector : Q -> Q -> Q -> Q -> Q -> Sector.

(** X24.  In a grid that the updates have built, with a distance that is never
    negative: the risk and the open share of every candidate lie in [0, 1],
    its novelty is positive and at most 1, its target penalty lies in
    [0, 0.9], its score never exceeds 1.57, and a cell that no ray has hit
    is never dominated by obstacles. *)
Theorem candidate_components_in_range
    (st : Mem.State) (originX originZ headingDeg : Q) (originIx originIz nix niz : Z) :
  gridSane st -> (forall a b, 0 <= hypot a b) ->
  let c := Mem.evaluateCandidate hypot relativeSector st originX originZ headingDeg
             originIx originIz nix niz in
  (0 <= Mem.risk c /\ Mem.risk c <= 1)
  /\ (0 < Mem.novelty c /\ Mem.novelty c <= 1)
  /\ (0 <= Mem.openBias c /\ Mem.openBias c <= 1)
  /\ (0 <= Mem.targetPenalty c /\ Mem.targetPenalty c <= 0.9)
  /\ Mem.score c <= 1.57
  /\ (Mem.c_obstacleHits c = 0%Z -> Mem.obstacleDominant c = false).
Proof.
  intros (_ & Hcells & _) Hhyp. cbv zeta.
  set (cell := Mem.getCell (Mem.cells st) (nix, niz)).
  assert (Hcell : match cell with Some c => cellSane c | None => True end).
  { unfold cell. destruct (Mem.getCell (Mem.cells st) (nix, niz)) as [c|] eqn:E; [|exact I].
    apply getCell_In in E. rewrite List.Forall_forall in Hcells.
    exact (Hcells _ E). }
  unfold Mem.evaluateCandidate. cbv zeta. fold cell.
  cbn [Mem.risk Mem.novelty Mem.openBias Mem.targetPenalty Mem.score Mem.c_obstacleHits
       Mem.obstacleDominant].
  set (visits := match cell with Some c => Mem.visits c | None => 0%Z end).
  set (openH := match cell with Some c => Mem.openHits c | None => 0%Z end).
  set (obstH := match cell with Some c => Mem.obstacleHits c | None => 0%Z end).
  set (wallH := match cell with Some c => Mem.outerWallHits c | None => 0%Z end).
  assert (Hcount : (0 <= visits)%Z /\ (0 <= openH)%Z /\ (0 <= obstH)%Z
                   /\ (wallH <= obstH)%Z).
  { unfold visits, openH, obstH, wallH. destruct cell as [c|]; [|lia].
    unfold cellSane in Hcell. intuition lia. }
  destruct Hcount as (Hv & Ho & Hb & Hw).
  assert (Hdom : obstH = 0%Z -> Mem.isCellObstacleDominant cell = false).
  { unfold Mem.isCellObstacleDominant, obstH, wallH in *. destruct cell as [c|]; [|reflexivity].
    intros E. rewrite E in *.
    assert (E1 : (Mem.OUTER_WALL_REPEAT_HARD_NO_GO_HITS <=? Mem.outerWallHits c)%Z = false)
      by (apply Z.leb_gt; unfold Mem.OUTER_WALL_REPEAT_HARD_NO_GO_HITS; lia).
    rewrite E1. reflexivity. }
  pose proof (mem_clamp_bounds (match cell with Some c => Mem.riskEMA c | None => 0 end) 0 1
                ltac:(lra)) as Hrisk.
  set (risk := Mem.clamp _ 0 1) in *.
  set (novelty := 1 / (1 + inject_Z visits)).
  assert (Hnov : 0 < novelty /\ novelty <= 1).
  { assert (Hq : 0 <= inject_Z visits) by (change 0 with (inject_Z 0); rewrite <- Zle_Qle; lia).
    unfold novelty. split.
    - apply Qlt_shift_div_l; lra.
    - apply Qle_shift_div_r; lra. }
  set (openBias := inject_Z openH / inject_Z (Z.max 1 (openH + obstH))).
  assert (Hopen : 0 <= openBias /\ openBias <= 1).
  { assert (Hq : 0 <= inject_Z openH) by (change 0 with (inject_Z 0); rewrite <- Zle_Qle; lia).
    assert (Hd : 1 <= inject_Z (Z.max 1 (openH + obstH)))
      by (change 1 with (inject_Z 1); rewrite <- Zle_Qle; lia).
    assert (Hd' : inject_Z openH <= inject_Z (Z.max 1 (openH + obstH)))
      by (rewrite <- Zle_Qle; lia).
    unfold openBias. split.
    - apply Qle_shift_div_l; lra.
    - apply Qle_shift_div_r; lra. }
  match goal with
  | |- context [if (0 <? ?h)%Z then 0 else Mem.clamp ?a 0 0.9] =>
      assert (Htp : 0 <= (if (0 <? h)%Z then 0 else Mem.clamp a 0 0.9)
                    /\ (if (0 <? h)%Z then 0 else Mem.clamp a 0 0.9) <= 0.9)
        by (destruct (0 <? h)%Z; [lra | apply mem_clamp_bounds; lra]);
      set (tp := if (0 <? h)%Z then 0 else Mem.clamp a 0 0.9) in *
  end.
  match goal with
  | |- context [Mem.clamp (?a + ?b) 0 1.5] =>
      pose proof (mem_clamp_bounds (a + b) 0 1.5 ltac:(lra)) as Hrep;
      set (rep := Mem.clamp (a + b) 0 1.5) in *
  end.
  set (center := Mem.toCellCenter nix niz (Mem.cellSize st)).
  assert (Hpen : 0 <= snd (Mem.getBoundsPenalty (fst center) (snd center)
                             (Mem.worldBounds st))).
  { destruct (Mem.worldBounds st) as [b|]; [|cbn; lra].
    destruct (boundsPenalty_cases (fst center) (snd center) b) as (H2 & H3).
    destruct (fst (Mem.getBoundsPenalty (fst center) (snd center) (Some b)));
      [rewrite (H2 eq_refl); lra | apply (H3 eq_refl)]. }
  destruct (Mem.getBoundsPenalty (fst center) (snd center) (Mem.worldBounds st))
    as [outside penalty].
  cbn [fst snd] in *.
  pose proof (Hhyp (inject_Z (nix - originIx)) (inject_Z (niz - originIz))) as Hdist.
  set (dist := hypot _ _) in *.
  clearbody risk novelty openBias tp rep dist.
  split; [exact Hrisk|]. split; [exact Hnov|]. split; [exact Hopen|]. split; [exact Htp|].
  split; [|exact Hdom].
  clear Hdom Hcell.
  generalize (Mem.hasBarrierBetween (Mem.cells st) originIx originIz nix niz).
  generalize (Mem.isCellObstacleDominant cell).
  intros dom barrier.
  destruct ((visits =? 0)%Z && negb barrier && negb outside), (openH + obstH =? 0)%Z,
    barrier, outside, dom, ((1 <=? obstH)%Z && Qgeb risk 0.62),
    (Mem.OBSTACLE_REPEAT_HARD_NO_GO_HITS <=? obstH)%Z,
    (Mem.OUTER_WALL_REPEAT_HARD_NO_GO_HITS <=? wallH)%Z; nra.
Qed.

End CandidateRanges.

(** The grid that has seen scenario B, and the cell next to the car's. *)
Lemma candidate_components_witness :
  gridSane seenGrid /\ (forall a b, 0 <= axisHypot a b)
  /\ Mem.score (Mem.evaluateCandidate axisHypot (fun _ _ _ _ _ => SF) seenGrid 1 1 0 0 0 1 0)
     <= 1.57.
Proof.
  assert (H1 : gridSane seenGrid).
  { apply update_sane. unfold gridSane, keysUnique, emptyGrid; cbn.
    split; [constructor|]. split; [constructor | lia]. }
  assert (H2 : forall a b, 0 <= axisHypot a b).
  { intros a b. unfold axisHypot, qabs.
    destruct (Qlt_le_dec a 0), (Qlt_le_dec b 0); lra. }
  split; [exact H1|]. split; [exact H2|].
  exact (proj1 (proj2 (proj2 (proj2 (proj2
           (candidate_components_in_range axisHypot (fun _ _ _ _ _ => SF) seenGrid 1 1 0 0 0
              1 0 H1 H2)))))).
Defined.
